(* ===== verification/_CoqProject ===== *)
-Q . S2P
Prelude.v
Arena.v
HashTable.v
HashTableSpec.v
OrderBook.v
RingBuffer.v
RingSteps.v
RingRace.v
AppendLog.v
BTree.v
BTreeShape.v
BTreeInsert.v
BTreeSpec.v
BTreeQuery.v
ZSet.v
KeyRegistry.v
RegistrySpec.v
Types.v
Slab.v
SlabSteps.v
Resp.v
RespSafe.v
RespRound.v
RespFormat.v
RespMono.v
RespSpec.v
NulReply.v
RespSingle.v
RespLinked.v
RespEquiv.v
EventLoop.v
Host.v
Conn.v
Metrics.v
ServerState.v
Commands.v
CommandSpec.v
StoreSpec.v
Server.v
ServerSpec.v
ServerInv.v
ConnSafe.v
CommandSafe.v
ServerSafe.v
Startup.v
Fragments.v
Serve.v
Clients.v
Drain.v
PubSub.v
Main.v
