(* ===== verification/Prelude.v ===== *)
(** Zedis verification library.

    Zedis is a single-threaded, Redis-like server in C: clients send RESP
    messages over TCP, an epoll loop reads them into a parser, the dispatcher
    runs one of seventeen commands on the data structures, and the reply is
    queued on the connection.  All memory comes from one arena that is mapped
    at start-up.  The build compiles src/src/*.c except resp.c, an older copy
    of the parser.

    * Parts of the program and the files that model them

    - Memory.  [Arena]: src/arena.c, a bump allocator; [Slab]: src/slab.c, four
      pools of fixed-size blocks with free lists threaded through the blocks;
      [SlabSteps]: a pool that several threads use.
    - Data.  [HashTable], [HashTableSpec]: src/hash_table.c, a Robin Hood table
      in arrays of entries; [OrderBook]: src/order_book.c; [RingBuffer]:
      src/ring_buffer.c, [RingSteps]: its operations as steps of two threads,
      [RingRace]: the order of their memory accesses; [AppendLog]:
      src/append_log.c, lists as records linked by offset in one byte array;
      [BTree] (definitions), [BTreeShape],
      [BTreeInsert], [BTreeSpec], [BTreeQuery] (proofs), [ZSet] (the sorted set
      it implements): src/btree.c; [KeyRegistry], [RegistrySpec]:
      src/key_registry.c, which keeps the index of a sorted set or list under
      its name in a hash table; [Types]: that the integer fields of these
      structs stay in the ranges of their C types and the arrays at their sizes.
    - Protocol.  [Resp]: src/resp_buf.c, resp_scan.c, resp_nodes.c and
      resp_decode.c; [RespFormat]: src/resp_format.c; [RespSafe], [RespRound],
      [RespMono], [RespSpec]: their theorems; [NulReply]: replies of ZRANGE and
      LRANGE whose texts stop at a NUL byte.  [RespSingle]: src/resp.c, the older copy, with
      the links between its nodes; [RespLinked], [RespEquiv]: that it behaves
      as the parser of [Resp].
    - Server.  [EventLoop]: the loop of src/event_loop.c; [Host]: its signal
      handlers, src/affinity.c and the listening socket; [Conn]: the output
      side of src/conn.c; [Metrics]: src/metrics.c; [ServerState]: struct
      zedis_server, the list of connections, creating and destroying
      connections, replies and broadcasts; [Commands]: the command handlers of
      src/server.c; [Server]: the dispatcher, the event handlers of conn.c and
      server.c, and zedis_create, zedis_run, zedis_destroy; [CommandSpec],
      [StoreSpec], [ServerSpec]: what clients are answered; [ServerInv] (the
      invariant), [ConnSafe], [CommandSafe], [ServerSafe]: which faults a run
      of the server can end in, and that it ends in no other; [Startup]: the
      default configuration; [Fragments], [Serve], [Clients]: one read, one
      turn and many turns of the loop, for one client and for several; [Drain]:
      a client that reads slowly; [PubSub]: who receives a published message.
    - Program.  [Main]: src/main.c, the options and main as a whole.

    * How C is modelled

    Bytes and integers are [Z]; an unsigned operation is reduced with [u32] or
    [u64] where the code can wrap, a signed one goes through [chk_i32] or
    [chk_i64].  A run of C code is an [exec]: [Ok] with its result, or [Stuck]
    with the reason why the standard gives it no meaning (signed overflow,
    access outside an array, reading past the end of a text that is queued, a
    dangling pointer, division by zero).  An array
    is a list of its declared size and is accessed with [aget], [aset],
    [memcpy] and [read_n], which are stuck outside of it.  A (pointer, length)
    argument is a list, a result that may be NULL or -1 an [option] or a
    status; struct fields are record fields of the same name, with a prefix
    where two structs share one.  State is passed explicitly.  Loops whose
    recursion is not structural take fuel and are stuck with [OutOfFuel]
    without it; the theorems show that the fuel in the definitions is enough
    (the table's capacity for probing, the number of nodes for the depth of a
    tree, the unread bytes for parsing and dispatching, what the socket holds
    for reading, the number of connections for walking through them).

    Code that is not in the repository is an argument: mmap, malloc, open and
    ftruncate, the results of read, write, accept, epoll_wait and of the file
    operations of the metrics writer, socket calls, sigaction and
    sched_setaffinity.  epoll_ctl, snprintf, strtoul, atoi and the conversion
    to double with "%.17g" behave as documented.

    * What is proved

    - Each data structure, over any history of calls from its initialisation,
      returns what an abstract object returns, never faults, and always
      terminates: a finite map with a load limit (hash table without
      deletions), a bounded queue (ring), levels of clamped sums (order book),
      lists of values (append log), sets ordered by score (B-tree), and finite
      maps from names to these (registries).  [KeyStore] is the interface
      between the registries and the hash table.
    - Allocators: regions and blocks that are handed out are disjoint and
      inside the mapping (as long as no request is so large that its size
      wraps), and requests fail exactly when there is no room.  A pool may be used by threads of which one allocates; two that allocate can
      be handed the same block.
    - The parser never reads outside the bytes that arrived and loses no node
      on any path; encoded values are read back whatever follows them; a
      strict prefix of a message waits; the formatters write exactly the
      encoding and a NUL or refuse.
    - A connection's output is an ordered byte stream whatever the socket
      accepts; the handler table of the loop agrees with the kernel; a metrics
      snapshot is replaced as a whole, and its temporary file stays behind only
      where unlink fails.
    - Every command, whatever its arguments, comes to what [respond] says on a
      store of finite maps: a new store and a reply, or one of the listed
      faults; only PUBLISH and SUBSCRIBE with their arguments and QUIT, which
      act on connections, are outside of it.  From zedis_create on, a client is
      accepted and the commands that are answered get their replies in order,
      however the network cuts them into pieces, as long as input and replies
      fit their buffers; with several such clients the store goes through the
      commands in the order of the turns, and each client receives its own
      replies only.  (A reply that would not fit its connection's 4096 bytes
      closes the connection, which the theorems on single commands state.)  A client that
      reads slowly is sent its pending replies in order by the turns that
      report its socket, until none is left.
    - The whole server: an invariant over the list of connections, the handler
      table (the listening socket and every open connection are watched for
      the events they need), the slab, every connection's buffers and parser
      and all data is established by zedis_create and kept by every turn of
      zedis_run, whatever the clients send and the kernel does; no turn uses a connection that was
      freed or runs forever, and the only faults left are the overflow of a
      numeral or a quantity, the read past a printed reply and the reply that
      is written over the last eight bytes of a write buffer, which its slab
      block does not have.  zedis_destroy ends, closes every descriptor and gives
      every block of a connection back; a signal that the loop notices ends the
      program.
      PUBLISH reaches exactly the subscribers.  The default configuration fits
      the default arena.
    - With a producer and a consumer that run at the same time the ring still is
      a FIFO queue in every interleaving of their accesses; in the memory model
      of C11 the relaxed store of read_seq leaves a race on the slots.
    - The two parsers answer every history of calls alike, although one links
      its nodes by pointers; options are read back as they were spelled.
    - Where the code does not do what it means to, the theorem states what it
      does: deletions in the hash table that hide or revive other keys, sizes
      that wrap in the arena, blocks eight bytes short in the slab, names that
      use up registry slots, members with equal scores out of order, replies
      that leave out announced elements or stop at a NUL byte inside of one,
      lists cut at 1024 elements, logs that
      are overwritten when reopened, numerals and quantities that overflow,
      prices cut to 32 bits, and the reply to an unknown command that reads
      past its array.

    * What is not modelled

    The text that main prints, tests and deployment files.  What the slab hands
    out are objects of their own, of the size that their block has behind its
    link: a write buffer has 4088 bytes, and a run that writes more into it,
    over the link of the next block, is stuck with [BlockOverrun].  (The other
    users of the slab, connections and parse nodes, ask for classes that are
    more than eight bytes larger than what they store.)  The program has one
    thread, so the server uses the slab and the ring as sequential code; their
    atomics are modelled with several threads in [SlabSteps] and [RingSteps].
    Interleavings are those of a sequentially consistent memory; weaker
    behaviour is covered as far as [RingRace] tells which accesses race.
    Signals are noticed where the loop tests for them: one that arrives between
    the test and a blocking epoll_wait is, in the model, one that the next turn
    notices, while the program waits for the next event until it does.  SIGPIPE
    is not handled by the program and not modelled: a write to a socket that
    the client has closed raises it, and unless the process that started the
    server ignores it, the run ends there; where it is ignored, the write fails
    with EPIPE as the model has it.

    * Plan

    Sessions with clients that come and go between the turns, and with
    subscriptions. *)

From stdpp Require Export base tactics option list numbers strings.
#[global] Open Scope Z_scope.

(** * Outcomes of C code

    [Ok a] is a run that ends with the value [a]; [Stuck f] is a run the C
    standard gives no meaning to (or, for [OutOfFuel], a loop that the model
    was not given enough iterations to finish). *)

Inductive fault :=
  | SignedOverflow
  | OutOfBounds
  | OverRead
  | BlockOverrun
  | DivisionByZero
  | DanglingPointer
  | OutOfFuel.

Inductive exec (A : Type) :=
  | Ok (a : A)
  | Stuck (f : fault).
Arguments Ok {A} a.
Arguments Stuck {A} f.

#[export] Instance exec_ret : MRet exec := @Ok.
#[export] Instance exec_bind : MBind exec := λ A B k m,
  match m with Ok a => k a | Stuck f => Stuck f end.
#[export] Instance exec_fmap : FMap exec := λ A B g m,
  match m with Ok a => Ok (g a) | Stuck f => Stuck f end.

#[export] Instance fault_eq_dec : EqDecision fault.
Proof. solve_decision. Defined.
#[export] Instance exec_eq_dec `{EqDecision A} : EqDecision (exec A).
Proof. solve_decision. Defined.

(** The status codes every fallible function of the program returns. *)
Definition RC_OK : Z := 0.
Definition RC_ERR : Z := -1.

(** * Machine integers *)

Definition u8 (z : Z) : Z := z mod 2 ^ 8.
Definition u16 (z : Z) : Z := z mod 2 ^ 16.
Definition u32 (z : Z) : Z := z mod 2 ^ 32.
Definition u64 (z : Z) : Z := z mod 2 ^ 64.

Definition INT32_MIN : Z := - 2 ^ 31.
Definition INT32_MAX : Z := 2 ^ 31 - 1.
Definition INT64_MIN : Z := - 2 ^ 63.
Definition INT64_MAX : Z := 2 ^ 63 - 1.
Definition UINT32_MAX : Z := 2 ^ 32 - 1.

(** Signed arithmetic: out of range is undefined behaviour. *)
Definition chk_i32 (z : Z) : exec Z :=
  if (INT32_MIN <=? z) && (z <=? INT32_MAX) then Ok z else Stuck SignedOverflow.
Definition chk_i64 (z : Z) : exec Z :=
  if (INT64_MIN <=? z) && (z <=? INT64_MAX) then Ok z else Stuck SignedOverflow.

(** Conversion to a narrower signed type keeps the low bits. *)
Definition to_i32 (z : Z) : Z := (z + 2 ^ 31) mod 2 ^ 32 - 2 ^ 31.

(** Remainder by zero is undefined behaviour. *)
Definition c_mod (a b : Z) : exec Z :=
  if b =? 0 then Stuck DivisionByZero else Ok (a mod b).

(** * Arrays and buffers *)

Definition zlen {A} (l : list A) : Z := Z.of_nat (length l).

Definition aget {A} (l : list A) (i : Z) : exec A :=
  if i <? 0 then Stuck OutOfBounds
  else match l !! Z.to_nat i with Some x => Ok x | None => Stuck OutOfBounds end.

Definition aset {A} (l : list A) (i : Z) (x : A) : exec (list A) :=
  if (0 <=? i) && (i <? zlen l) then Ok (<[Z.to_nat i := x]> l)
  else Stuck OutOfBounds.

(** [memcpy (dst + off, src, length src)]: the destination must have room. *)
Definition memcpy {A} (dst : list A) (off : Z) (src : list A) : exec (list A) :=
  if (0 <=? off) && (off + zlen src <=? zlen dst)
  then Ok (take (Z.to_nat off) dst ++ src ++ drop (Z.to_nat off + length src) dst)
  else Stuck OutOfBounds.

(** The [n] bytes a pointer [p + off] gives access to. *)
Definition slice {A} (l : list A) (off n : Z) : list A :=
  take (Z.to_nat n) (drop (Z.to_nat off) l).

(** Reading [n] elements at [off]: all of them must be inside the array. *)
Definition read_n {A} (l : list A) (off n : Z) : exec (list A) :=
  if (0 <=? off) && (0 <=? n) && (off + n <=? zlen l)
  then Ok (slice l off n) else Stuck OutOfBounds.

(** The first [n] bytes of a text that is passed with its length: an array
    that is shorter is read past its end, the fault [OverRead]. *)
Definition read_src {A} (l : list A) (n : Z) : exec (list A) :=
  if (0 <=? n) && (n <=? zlen l) then Ok (slice l 0 n) else Stuck OverRead.

(** * Bytes and C strings *)

Definition is_byte (b : Z) : Prop := 0 <= b < 256.

Fixpoint bytes_of_string (s : string) : list Z :=
  match s with
  | EmptyString => []
  | String a s' => Z.of_N (Ascii.N_of_ascii a) :: bytes_of_string s'
  end.

(** The characters of a NUL-terminated string inside a buffer. *)
Fixpoint cstr (l : list Z) : list Z :=
  match l with
  | [] => []
  | b :: l' => if b =? 0 then [] else b :: cstr l'
  end.

Definition CR : Z := 13.
Definition LF : Z := 10.
Definition crlf : list Z := [CR; LF].

(** * Decimal numerals, as printf writes them *)

Definition is_digit (b : Z) : bool := (48 <=? b) && (b <=? 57).

Fixpoint dec_aux (fuel : nat) (n : Z) (acc : list Z) : list Z :=
  match fuel with
  | O => acc
  | S fuel' =>
      let acc' := (48 + n mod 10) :: acc in
      if n <? 10 then acc' else dec_aux fuel' (n / 10) acc'
  end.

(** The digits of [n >= 0]; [log2 n + 1] digits are always enough. *)
Definition dec_u (n : Z) : list Z := dec_aux (S (Z.to_nat (Z.log2 n))) n [].

(** The numeral of a signed integer. *)
Definition dec_d (z : Z) : list Z := if z <? 0 then 45 :: dec_u (- z) else dec_u z.

(** The value of a digit string. *)
Definition dval_from (v : Z) (ds : list Z) : Z :=
  foldl (λ acc d, acc * 10 + (d - 48)) v ds.
Definition dval (ds : list Z) : Z := dval_from 0 ds.

(** [snprintf] into a buffer of [cap] bytes: the count it returns and the
    bytes it stores before the terminating NUL. *)
Definition snprintf_n (out : list Z) : Z := zlen out.
Definition snprintf_buf (cap : Z) (out : list Z) : list Z := take (Z.to_nat (cap - 1)) out.

(** [snprintf (dst, cap, ...)] of a text without NUL: the count and the array. *)
Definition snprintf_to (dst : list Z) (cap : Z) (text : list Z) : exec (Z * list Z) :=
  if cap =? 0 then Ok (zlen text, dst) else
  d ← memcpy dst 0 (take (Z.to_nat (cap - 1)) text ++ [0]);
  Ok (zlen text, d).

(** The RESP headers that the replies print: ["*%d\r\n"], and
    ["$%u\r\n%.*s\r\n"], whose text stops at a NUL of the value. *)
Definition fmt_array (n : Z) : list Z := [42] ++ dec_d n ++ crlf.
Definition fmt_bulk (v : list Z) : list Z := [36] ++ dec_u (zlen v) ++ crlf ++ cstr v ++ crlf.

(** * Automation *)

Create HintDb zedis.
Create Rewrite HintDb zlen.

(** Turns boolean comparisons into propositions and finishes with [lia]. *)
Ltac zb :=
  repeat match goal with
  | H : (_ && _) = true |- _ => apply andb_true_iff in H; destruct H
  | H : (_ && _) = false |- _ => apply andb_false_iff in H
  | H : (_ || _) = true |- _ => apply orb_true_iff in H
  | H : (_ || _) = false |- _ => apply orb_false_iff in H; destruct H
  | H : negb _ = true |- _ => apply negb_true_iff in H
  | H : negb _ = false |- _ => apply negb_false_iff in H
  | H : (_ =? _) = true |- _ => apply Z.eqb_eq in H
  | H : (_ =? _) = false |- _ => apply Z.eqb_neq in H
  | H : (_ <? _) = true |- _ => apply Z.ltb_lt in H
  | H : (_ <? _) = false |- _ => apply Z.ltb_ge in H
  | H : (_ <=? _) = true |- _ => apply Z.leb_le in H
  | H : (_ <=? _) = false |- _ => apply Z.leb_gt in H
  | H : (_ >? _) = true |- _ => rewrite Z.gtb_ltb in H
  | H : (_ >? _) = false |- _ => rewrite Z.gtb_ltb in H
  | H : (_ >=? _) = true |- _ => rewrite Z.geb_leb in H
  | H : (_ >=? _) = false |- _ => rewrite Z.geb_leb in H
  end.

(** Splits on the first boolean test of the goal and normalises it. *)
Ltac bcase :=
  match goal with
  | |- context [if ?b then _ else _] =>
      match type of b with bool => destruct b eqn:? end
  end; zb.

(** Inverts a run that ended: [x ← m; k = Ok r] gives the intermediate value. *)
Ltac exec_inv :=
  repeat match goal with
  | H : Ok _ = Ok _ |- _ => injection H as H; try subst
  | H : Stuck _ = Ok _ |- _ => discriminate H
  | H : Ok _ = Stuck _ |- _ => discriminate H
  | H : (_, _) = (_, _) |- _ => injection H as ?; try subst
  | H : mbind _ ?m = Ok _ |- _ =>
      let E := fresh "E" in destruct m eqn:E; cbn [mbind exec_bind] in H; [|discriminate H]
  end.

(** * Lemmas on outcomes, arrays and buffers *)

(** Two runs that both end, in results related by [Q], or fault alike. *)
Definition exec_rel {A B} (Q : A → B → Prop) (m : exec A) (n : exec B) : Prop :=
  match m, n with
  | Ok a, Ok b => Q a b
  | Stuck f, Stuck g => f = g
  | _, _ => False
  end.

Lemma exec_rel_bind {A B A' B'} (Q : A → B → Prop) (R : A' → B' → Prop) m n k j :
  exec_rel Q m n → (∀ a b, Q a b → exec_rel R (k a) (j b)) → exec_rel R (m ≫= k) (n ≫= j).
Proof. destruct m, n; cbn; auto; done. Qed.

Lemma exec_rel_mono {A B} (Q R : A → B → Prop) m n :
  (∀ a b, Q a b → R a b) → exec_rel Q m n → exec_rel R m n.
Proof. destruct m, n; cbn; auto. Qed.

Lemma exec_rel_same {A} (Q : A → A → Prop) m : (∀ a, m = Ok a → Q a a) → exec_rel Q m m.
Proof. destruct m; cbn; auto. Qed.

Lemma exec_bind_ok {A B} (m : exec A) (k : A → exec B) r :
  m ≫= k = Ok r ↔ ∃ a, m = Ok a ∧ k a = Ok r.
Proof.
  split.
  - destruct m as [a|f]; [by exists a | done].
  - by intros (a & -> & ?).
Qed.

Lemma chk_i64_ok z : INT64_MIN <= z <= INT64_MAX → chk_i64 z = Ok z.
Proof. intros. unfold chk_i64. bcase; [done|]. destruct Heqb; zb; lia. Qed.

Lemma chk_i64_inv z r : chk_i64 z = Ok r → r = z ∧ INT64_MIN <= z <= INT64_MAX.
Proof. unfold chk_i64. bcase; [|done]. by intros [= <-]. Qed.

Lemma chk_i32_ok z : INT32_MIN <= z <= INT32_MAX → chk_i32 z = Ok z.
Proof. intros. unfold chk_i32. bcase; [done|]. destruct Heqb; zb; lia. Qed.

Lemma u64_small z : 0 <= z < 2 ^ 64 → u64 z = z.
Proof. apply Z.mod_small. Qed.
Lemma u32_small z : 0 <= z < 2 ^ 32 → u32 z = z.
Proof. apply Z.mod_small. Qed.
Lemma u16_small z : 0 <= z < 2 ^ 16 → u16 z = z.
Proof. apply Z.mod_small. Qed.
Lemma u8_small z : 0 <= z < 2 ^ 8 → u8 z = z.
Proof. apply Z.mod_small. Qed.

Lemma u64_range z : 0 <= u64 z < 2 ^ 64.
Proof. by apply Z.mod_pos_bound. Qed.
Lemma u32_range z : 0 <= u32 z < 2 ^ 32.
Proof. by apply Z.mod_pos_bound. Qed.

Lemma to_i32_small z : INT32_MIN <= z <= INT32_MAX → to_i32 z = z.
Proof.
  unfold to_i32, INT32_MIN, INT32_MAX. intros. rewrite Z.mod_small; lia.
Qed.

Lemma zlen_nonneg {A} (l : list A) : 0 <= zlen l.
Proof. unfold zlen. lia. Qed.
Lemma zlen_app {A} (l k : list A) : zlen (l ++ k) = zlen l + zlen k.
Proof. unfold zlen. rewrite length_app. lia. Qed.
Lemma zlen_cons {A} (x : A) (l : list A) : zlen (x :: l) = 1 + zlen l.
Proof. unfold zlen. simpl length. lia. Qed.
Lemma zlen_nil {A} : zlen (@nil A) = 0.
Proof. done. Qed.
Lemma zlen_insert {A} (l : list A) i x : zlen (<[i:=x]> l) = zlen l.
Proof. unfold zlen. by rewrite length_insert. Qed.
Lemma zlen_replicate {A} n (x : A) : zlen (replicate n x) = Z.of_nat n.
Proof. unfold zlen. by rewrite length_replicate. Qed.

#[export] Hint Resolve zlen_nonneg u64_range u32_range : zedis.
#[export] Hint Rewrite @zlen_app @zlen_cons @zlen_nil @zlen_insert @zlen_replicate : zlen.

Lemma aget_lookup {A} (l : list A) i x :
  aget l i = Ok x ↔ 0 <= i ∧ l !! Z.to_nat i = Some x.
Proof.
  unfold aget. destruct (i <? 0) eqn:E; zb.
  - split; [done|]. intros [? _]. lia.
  - destruct (l !! Z.to_nat i) as [y|] eqn:Hl; split; try done.
    + by intros [= <-].
    + by intros [_ [= ->]].
    + by intros [_ ?].
Qed.

Lemma aget_ok {A} (l : list A) i :
  0 <= i < zlen l → ∃ x, aget l i = Ok x ∧ l !! Z.to_nat i = Some x.
Proof.
  unfold zlen. intros Hi.
  destruct (lookup_lt_is_Some_2 l (Z.to_nat i)) as [x Hx]; [lia|].
  exists x. split; [|done]. apply aget_lookup. split; [lia|done].
Qed.

Lemma aset_ok {A} (l : list A) i x :
  0 <= i < zlen l → aset l i x = Ok (<[Z.to_nat i := x]> l).
Proof. intros. unfold aset. bcase; [done|]. destruct Heqb; zb; lia. Qed.

Lemma aset_inv {A} (l l' : list A) i x :
  aset l i x = Ok l' → 0 <= i < zlen l ∧ l' = <[Z.to_nat i := x]> l.
Proof. unfold aset. bcase; [|done]. by intros [= <-]. Qed.

Lemma memcpy_ok {A} (dst src : list A) off :
  0 <= off → off + zlen src <= zlen dst →
  memcpy dst off src
  = Ok (take (Z.to_nat off) dst ++ src ++ drop (Z.to_nat off + length src) dst).
Proof. intros. unfold memcpy. bcase; [done|]. destruct Heqb; zb; lia. Qed.

Lemma memcpy0_ok {A} (dst src : list A) :
  zlen src <= zlen dst → memcpy dst 0 src = Ok (src ++ drop (length src) dst).
Proof. intros. rewrite memcpy_ok; [done|lia|lia]. Qed.

Lemma memcpy_zlen {A} (dst src dst' : list A) off :
  memcpy dst off src = Ok dst' → zlen dst' = zlen dst.
Proof.
  unfold memcpy, zlen. bcase; [|done]. intros [= <-].
  rewrite !length_app, length_take, length_drop. lia.
Qed.

Lemma read_n_ok {A} (l : list A) off n :
  0 <= off → 0 <= n → off + n <= zlen l → read_n l off n = Ok (slice l off n).
Proof. intros. unfold read_n. bcase; [done|]. destruct Heqb as [[]%andb_false_iff|]; zb; lia. Qed.

Lemma read_src_ok {A} (l : list A) n : 0 <= n <= zlen l → read_src l n = Ok (slice l 0 n).
Proof. intros Hn. unfold read_src. destruct (_ && _) eqn:E; [done|]. lia. Qed.

Lemma zlen_slice {A} (l : list A) off n :
  0 <= off → 0 <= n → off + n <= zlen l → zlen (slice l off n) = n.
Proof. unfold slice, zlen. intros. rewrite length_take, length_drop. lia. Qed.

Lemma read_src_zlen {A} (l bs : list A) n : read_src l n = Ok bs → zlen bs = n.
Proof. unfold read_src. destruct (_ && _) eqn:E; [|done]. intros [= <-]. apply zlen_slice; lia. Qed.

Lemma slice_nonpos {A} (l : list A) off n : n <= 0 → slice l off n = [].
Proof. intros. unfold slice. by replace (Z.to_nat n) with 0%nat by lia. Qed.

Lemma slice_take {A} (l : list A) n : slice l 0 n = take (Z.to_nat n) l.
Proof. unfold slice. by rewrite drop_0. Qed.

(** Reading back a prefix that was just copied in. *)
Lemma slice_prefix {A} (l k : list A) : slice (l ++ k) 0 (zlen l) = l.
Proof. rewrite slice_take. unfold zlen. by rewrite Nat2Z.id, take_app_length. Qed.

Lemma slice_all {A} (l : list A) : slice l 0 (zlen l) = l.
Proof. rewrite slice_take. unfold zlen. by rewrite Nat2Z.id, firstn_all. Qed.

Lemma slice_prefix_len {A} (l k : list A) n : zlen l = n → slice (l ++ k) 0 n = l.
Proof. intros <-. apply slice_prefix. Qed.

Lemma zlen_prefix_drop {A} (l k : list A) :
  zlen l <= zlen k → zlen (l ++ drop (length l) k) = zlen k.
Proof. unfold zlen. rewrite length_app, length_drop. lia. Qed.

Lemma slice_cons {A} (l : list A) i n x :
  0 <= i → l !! Z.to_nat i = Some x → slice l i (Z.of_nat (S n)) = x :: slice l (i + 1) (Z.of_nat n).
Proof.
  intros Hi Hx. unfold slice. rewrite !Nat2Z.id, Z2Nat.inj_add by lia.
  rewrite (drop_S _ _ _ Hx). cbn. by rewrite Nat.add_1_r.
Qed.

Lemma slice_app_le {A} (l k : list A) off n :
  0 <= off → 0 <= n → off + n <= zlen l → slice (l ++ k) off n = slice l off n.
Proof.
  unfold slice, zlen. intros. rewrite drop_app_le by lia. apply take_app_le.
  rewrite length_drop. lia.
Qed.

Lemma memcpy_frame {A} (dst dst' src : list A) at_ off n :
  memcpy dst at_ src = Ok dst' → 0 <= off → 0 <= n → off + n <= at_ →
  slice dst' off n = slice dst off n.
Proof.
  unfold memcpy. bcase; [|done]. intros [= <-] ???.
  assert (zlen (take (Z.to_nat at_) dst) = at_).
  { unfold zlen in *. rewrite length_take. lia. }
  rewrite slice_app_le by lia.
  rewrite <-(take_drop (Z.to_nat at_) dst) at 2. by rewrite slice_app_le by lia.
Qed.

Lemma memcpy_read {A} (dst dst' src : list A) at_ :
  memcpy dst at_ src = Ok dst' → slice dst' at_ (zlen src) = src.
Proof.
  unfold memcpy, slice, zlen. bcase; [|done]. intros [= <-].
  rewrite drop_app_length' by (rewrite length_take; lia).
  by rewrite Nat2Z.id, take_app_length.
Qed.

Lemma slice_elem {A} (l : list A) off n x : x ∈ slice l off n → x ∈ l.
Proof.
  unfold slice. intros (i & Hi & _)%elem_of_take. rewrite lookup_drop in Hi. by eapply list_elem_of_lookup_2.
Qed.

Lemma cstr_id l : 0 ∉ l → cstr l = l.
Proof.
  induction l as [|b l IH]; [done|]. rewrite not_elem_of_cons. intros [Hb Hl]. cbn [cstr].
  destruct (b =? 0) eqn:E; zb; [congruence|]. by rewrite IH.
Qed.

Lemma slice_split {A} (l : list A) off n m :
  0 <= off → 0 <= n → 0 <= m → slice l off (n + m) = slice l off n ++ slice l (off + n) m.
Proof.
  intros. unfold slice. rewrite !Z2Nat.inj_add by lia. rewrite <-drop_drop.
  by rewrite take_take_drop.
Qed.

Lemma c_mod_ok a b : 0 < b → c_mod a b = Ok (a mod b).
Proof. unfold c_mod. destruct (b =? 0) eqn:E; zb; [lia|done]. Qed.

(** * Lemmas on decimal numerals *)

Lemma dval_from_app v ds1 ds2 : dval_from v (ds1 ++ ds2) = dval_from (dval_from v ds1) ds2.
Proof. apply foldl_app. Qed.

Lemma dval_from_cons v d ds : dval_from v (d :: ds) = dval_from (v * 10 + (d - 48)) ds.
Proof. done. Qed.

Lemma is_digit_spec b : is_digit b = true ↔ 48 <= b <= 57.
Proof. unfold is_digit. rewrite andb_true_iff, !Z.leb_le. tauto. Qed.

Lemma dval_from_mono v w ds :
  Forall (λ d, is_digit d = true) ds → 0 <= v <= w →
  0 <= v <= dval_from v ds ∧ dval_from v ds <= dval_from w ds.
Proof.
  intros Hds. revert v w. induction Hds as [|d ds Hd _ IH]; intros v w Hv; [cbn; lia|].
  rewrite !dval_from_cons. apply is_digit_spec in Hd.
  destruct (IH (v * 10 + (d - 48)) (w * 10 + (d - 48))); lia.
Qed.

Lemma dec_aux_spec fuel n acc :
  0 <= n < 2 ^ Z.of_nat fuel → (0 < fuel)%nat → ∃ ds,
    dec_aux fuel n acc = ds ++ acc ∧ dval ds = n ∧ ds ≠ [] ∧
    Forall (λ d, is_digit d = true) ds.
Proof.
  revert n acc. induction fuel as [|fuel IH]; intros n acc Hn Hf; [lia|].
  cbn [dec_aux]. pose proof (Z.mod_pos_bound n 10 ltac:(lia)) as Hm.
  assert (is_digit (48 + n mod 10) = true) as Hd by (apply is_digit_spec; lia).
  destruct (n <? 10) eqn:E; zb.
  - exists [48 + n mod 10]. rewrite Z.mod_small by lia. repeat split; auto.
    + unfold dval, dval_from. cbn. lia.
    + constructor; [|constructor]. apply is_digit_spec; lia.
  - assert (0 <= n / 10) by (apply Z.div_pos; lia).
    destruct (IH (n / 10) ((48 + n mod 10) :: acc)) as (ds & -> & Hv & Hne & Hall).
    + split; [lia|]. apply Z.div_lt_upper_bound; [lia|].
      rewrite Nat2Z.inj_succ, Z.pow_succ_r in Hn by lia. lia.
    + destruct fuel; [|lia]. cbn in Hn. lia.
    + exists (ds ++ [48 + n mod 10]). split_and!.
      * by rewrite <-app_assoc.
      * unfold dval in *. rewrite dval_from_app, Hv. unfold dval_from. cbn.
        pose proof (Z.div_mod n 10). lia.
      * by destruct ds.
      * apply Forall_app_2; [done|by constructor].
Qed.

Lemma dec_u_spec n :
  0 <= n → dval (dec_u n) = n ∧ dec_u n ≠ [] ∧ Forall (λ d, is_digit d = true) (dec_u n).
Proof.
  intros Hn. unfold dec_u.
  destruct (dec_aux_spec (S (Z.to_nat (Z.log2 n))) n []) as (ds & -> & ? & ? & ?).
  - split; [done|]. pose proof (Z.log2_nonneg n).
    rewrite Nat2Z.inj_succ, Z2Nat.id by done.
    destruct (decide (n = 0)) as [->|]; [done|]. by apply Z.log2_spec; lia.
  - lia.
  - by rewrite app_nil_r.
Qed.

Lemma fmt_array_pos n : 0 < zlen (fmt_array n).
Proof. unfold fmt_array. rewrite zlen_app. pose proof (zlen_nonneg (dec_d n ++ crlf)). unfold zlen in *. cbn. lia. Qed.

Lemma fmt_bulk_pos v : 5 <= zlen (fmt_bulk v).
Proof.
  unfold fmt_bulk. autorewrite with zlen. pose proof (zlen_nonneg (cstr v)).
  pose proof (zlen_nonneg (dec_u (zlen v))). unfold crlf. autorewrite with zlen. lia.
Qed.

Lemma dec_aux_length fuel n acc k :
  0 <= n < 10 ^ Z.of_nat (S k) → (length (dec_aux fuel n acc) <= S k + length acc)%nat.
Proof.
  revert n acc k. induction fuel as [|fuel IH]; intros n acc k Hn; cbn [dec_aux]; [lia|].
  destruct (n <? 10) eqn:E; zb; [cbn; lia|].
  destruct k as [|k]; [cbn in Hn; lia|].
  assert (0 <= n / 10 < 10 ^ Z.of_nat (S k)) as Hd.
  { split; [apply Z.div_pos; lia|]. apply Z.div_lt_upper_bound; [lia|].
    rewrite (Nat2Z.inj_succ (S k)), Z.pow_succ_r in Hn by lia. lia. }
  specialize (IH (n / 10) ((48 + n mod 10) :: acc) k Hd). cbn [length] in IH. lia.
Qed.

(** A number below 10^k has at most k digits. *)
Lemma dec_u_length n k : 1 <= k → 0 <= n < 10 ^ k → 1 <= zlen (dec_u n) <= k.
Proof.
  intros Hk Hn. split.
  - destruct (dec_u_spec n) as (_ & Hne & _); [lia|]. destruct (dec_u n); [done|].
    rewrite zlen_cons. pose proof (zlen_nonneg l). lia.
  - pose proof (dec_aux_length (S (Z.to_nat (Z.log2 n))) n [] (Z.to_nat (k - 1))) as H.
    rewrite Nat2Z.inj_succ, Z2Nat.id in H by lia. unfold Z.succ in H. rewrite Z.sub_add in H.
    specialize (H Hn). unfold dec_u, zlen. cbn [length] in H. lia.
Qed.
