(* ===== verification/Arena.v ===== *)
(** The bump allocator of src/arena.c.

    [zedis_arena_t] is the record [arena]; a pointer is its address, NULL is
    [None].  Sizes and offsets are [size_t], so every sum and product is
    reduced modulo 2^64 as the C code does.  [mmap] is the operating system's
    and is a parameter of [zedis_arena_init].

    The theorems: alignment and containment of a grant, disjointness of all
    the regions a sequence of requests is granted, and what the unchecked
    [start + size] and [count * size] do for a size that overflows. *)

From S2P Require Import Prelude.

Record arena := Arena {
  base : Z;
  asize : Z;
  offset : Z;
  used_hugepages : Z;
}.

Definition ZEDIS_DEFAULT_ARENA_SIZE : Z := 256 * 1024 * 1024.

Definition zero_arena : arena := Arena 0 0 0 0.

Definition align_up (value align : Z) : Z :=
  Z.land (u64 (value + align - 1)) (u64 (Z.lnot (u64 (align - 1)))).

(** [mmap huge size] is the address the call with (or without) MAP_HUGETLB
    returns, [None] for MAP_FAILED. *)
Definition zedis_arena_init (mmap : bool → Z → option Z) (size : Z) : Z * arena :=
  if size =? 0 then (RC_ERR, zero_arena) else
  let map_size := align_up size (2 * 1024 * 1024) in
  match mmap true map_size with
  | Some mem => (RC_OK, Arena mem map_size 0 1)
  | None =>
      match mmap false map_size with
      | None => (RC_ERR, zero_arena)
      | Some mem => (RC_OK, Arena mem map_size 0 0)
      end
  end.

Definition zedis_arena_destroy (a : arena) : arena :=
  if base a =? 0 then a else zero_arena.

Definition zedis_arena_alloc (a : arena) (size align : Z) : option Z * arena :=
  if size =? 0 then (None, a) else
  let align := if align =? 0 then 64 else align in
  let start := align_up (offset a) align in
  if u64 (start + size) >? asize a then (None, a) else
  (Some (base a + start),
   Arena (base a) (asize a) (u64 (start + size)) (used_hugepages a)).

Definition zedis_arena_calloc (a : arena) (count size align : Z) : option Z * arena :=
  let total := u64 (count * size) in
  zedis_arena_alloc a total align.

(** The elements of [size] zeroed bytes inside the block that
    [zedis_arena_calloc] asks for: [count] of them unless the product wraps. *)
Definition calloc_array {A} (count size : Z) (zero : A) : list A :=
  replicate (Z.to_nat (u64 (count * size) / size)) zero.

Lemma calloc_array_eq {A} count size (zero : A) :
  0 <= count → 0 < size → count * size < 2 ^ 64 →
  calloc_array count size zero = replicate (Z.to_nat count) zero.
Proof.
  intros. unfold calloc_array. rewrite u64_small by nia. by rewrite Z.div_mul by lia.
Qed.

(** A sequence of requests (size, alignment), and the regions (address,
    size) they were granted, oldest first. *)
Fixpoint alloc_all (a : arena) (reqs : list (Z * Z)) : list (Z * Z) * arena :=
  match reqs with
  | [] => ([], a)
  | (size, align) :: reqs' =>
      match zedis_arena_alloc a size align with
      | (Some p, a') => let '(rs, a'') := alloc_all a' reqs' in ((p, size) :: rs, a'')
      | (None, a') => alloc_all a' reqs'
      end
  end.

(** The bump offset is inside the mapping. *)
Definition arena_wf (a : arena) : Prop :=
  0 <= base a ∧ 0 <= offset a <= asize a ∧ asize a < 2 ^ 64.

(** An alignment is zero (meaning 64) or a power of two. *)
Definition align_ok (align : Z) : Prop := align = 0 ∨ ∃ k, 0 <= k < 32 ∧ align = 2 ^ k.

(** The request does not overflow [size_t] when it is added to the offset. *)
Definition req_fits (a : arena) (req : Z * Z) : Prop :=
  0 < req.1 ∧ align_ok req.2 ∧ asize a + 2 ^ 32 + req.1 <= 2 ^ 64.

Definition region_in (a : arena) (r : Z * Z) : Prop :=
  base a <= r.1 ∧ r.1 + r.2 <= base a + asize a.

Definition disjoint_regions (r s : Z * Z) : Prop :=
  r.1 + r.2 <= s.1 ∨ s.1 + s.2 <= r.1.

Lemma align_up_spec v k :
  0 <= v → 0 <= k < 64 → v + 2 ^ k <= 2 ^ 64 →
  align_up v (2 ^ k) = (v + 2 ^ k - 1) / 2 ^ k * 2 ^ k.
Proof.
  intros Hv Hk Hle. unfold align_up.
  assert (0 < 2 ^ k) by (apply Z.pow_pos_nonneg; lia).
  assert (2 ^ k < 2 ^ 64) by (apply Z.pow_lt_mono_r; lia).
  rewrite !u64_small by lia.
  rewrite <-Z.shiftr_div_pow2, <-Z.shiftl_mul_pow2, <-Z.ldiff_ones_r by lia.
  set (x := v + 2 ^ k - 1). unfold u64. rewrite <-(Z.land_ones (Z.lnot _)) by lia.
  rewrite (Z.land_comm (Z.lnot _)), Z.land_assoc, Z.land_ones, Z.mod_small by lia.
  rewrite (Z.mod_small (2 ^ k - 1)) by lia.
  by rewrite Z.sub_1_r, <-Z.ones_equiv, Z.ldiff_land.
Qed.

Lemma align_up_bounds v k :
  0 <= v → 0 <= k < 64 → v + 2 ^ k <= 2 ^ 64 →
  v <= align_up v (2 ^ k) < v + 2 ^ k ∧ align_up v (2 ^ k) mod 2 ^ k = 0.
Proof.
  intros Hv Hk Hle. rewrite align_up_spec by lia.
  assert (0 < 2 ^ k) by (apply Z.pow_pos_nonneg; lia).
  split; [|apply Z_mod_mult].
  pose proof (Z.div_mod (v + 2 ^ k - 1) (2 ^ k) ltac:(lia)).
  pose proof (Z.mod_pos_bound (v + 2 ^ k - 1) (2 ^ k) ltac:(lia)). lia.
Qed.

(** The alignment that [zedis_arena_alloc] really uses, as an exponent. *)
Lemma align_ok_pow align :
  align_ok align → ∃ k, 0 <= k < 32 ∧ (if align =? 0 then 64 else align) = 2 ^ k.
Proof.
  intros [->|(k & Hk & ->)]; [by exists 6|].
  exists k. split; [done|]. destruct (2 ^ k =? 0) eqn:E; [|done].
  zb. pose proof (Z.pow_pos_nonneg 2 k ltac:(lia) ltac:(lia)). lia.
Qed.

Lemma pow2_lt_32 k : 0 <= k < 32 → 0 < 2 ^ k < 2 ^ 32.
Proof.
  intros. split; [apply Z.pow_pos_nonneg; lia|apply Z.pow_lt_mono_r; lia].
Qed.

Lemma arena_alloc_cases a size align :
  arena_wf a → req_fits a (size, align) →
  ∃ k, 0 <= k < 32 ∧ (if align =? 0 then 64 else align) = 2 ^ k ∧
  let start := align_up (offset a) (2 ^ k) in
  offset a <= start ∧ start mod 2 ^ k = 0 ∧
  (if start + size <=? asize a
   then zedis_arena_alloc a size align
        = (Some (base a + start), Arena (base a) (asize a) (start + size) (used_hugepages a))
   else zedis_arena_alloc a size align = (None, a)).
Proof.
  intros (Hb & Ho & Hs) (Hsz & Hal & Hfit); simpl in *.
  destruct (align_ok_pow align Hal) as (k & Hk & Hak).
  exists k. pose proof (pow2_lt_32 k Hk). split; [done|]. split; [done|]. cbv zeta.
  destruct (align_up_bounds (offset a) k) as [Hstart Hmod]; [lia..|].
  split; [lia|]. split; [done|].
  unfold zedis_arena_alloc. rewrite Hak.
  destruct (size =? 0) eqn:E; zb; [lia|].
  rewrite u64_small by lia. rewrite Z.gtb_ltb.
  destruct (asize a <? _) eqn:E1; destruct (_ <=? asize a) eqn:E2; zb; (lia || done).
Qed.

Lemma alloc_all_base a reqs :
  base (alloc_all a reqs).2 = base a ∧ asize (alloc_all a reqs).2 = asize a.
Proof.
  revert a. induction reqs as [|[size align] reqs IH]; intros a; [done|]. cbn [alloc_all].
  unfold zedis_arena_alloc.
  destruct (size =? 0); [apply IH|]. destruct (_ >? asize a); [apply IH|].
  match goal with |- context [alloc_all ?b reqs] =>
    specialize (IH b); destruct (alloc_all b reqs) as [rs a''] end.
  done.
Qed.

(** Every region granted from [a] on lies above [a]'s offset and inside it,
    and the regions are pairwise disjoint. *)
Lemma alloc_all_above a reqs :
  arena_wf a → Forall (req_fits a) reqs →
  let rs := (alloc_all a reqs).1 in
  arena_wf (alloc_all a reqs).2 ∧
  Forall (λ r, base a + offset a <= r.1 ∧ 0 < r.2 ∧ region_in a r) rs ∧
  ForallOrdPairs disjoint_regions rs.
Proof.
  revert a. induction reqs as [|[size align] reqs IH]; intros a Hwf Hreqs.
  { cbn. repeat constructor; apply Hwf. }
  apply Forall_cons in Hreqs as [Hreq Hreqs]. cbn [alloc_all].
  destruct (arena_alloc_cases a size align Hwf Hreq) as (k & Hk & _ & Hup & _ & Hc).
  destruct Hwf as (Hb & Ho & Hs). destruct Hreq as (Hsz & _); simpl in Hsz.
  set (start := align_up (offset a) (2 ^ k)) in *.
  destruct (_ <=? asize a) eqn:E; zb; rewrite Hc; [|by apply IH].
  set (a' := Arena _ _ _ _).
  destruct (IH a') as (Hwf' & Hall & Hdis); [by unfold arena_wf; cbn; lia | done |].
  destruct (alloc_all a' reqs) as [rs a'']; cbn in *.
  split; [done|]. split.
  - constructor; [unfold region_in; cbn; lia|].
    eapply Forall_impl; [done|]. cbn. unfold region_in; cbn. lia.
  - constructor; [|done]. eapply Forall_impl; [done|]. cbn.
    intros r (? & ? & ?). left. cbn. lia.
Qed.

Lemma ForallOrdPairs_lookup {A} (R : A → A → Prop) l i j x y :
  ForallOrdPairs R l → (i < j)%nat → l !! i = Some x → l !! j = Some y → R x y.
Proof.
  intros H. revert i j. induction H as [|z l Hz _ IH]; intros i j Hij Hx Hy; [done|].
  destruct j as [|j]; [lia|]. destruct i as [|i]; cbn in *.
  - injection Hx as ->. by eapply Forall_lookup_1 in Hz.
  - apply (IH i j); [lia|done..].
Qed.

(** C19: A request that does not overflow [size_t] is refused exactly when it
    does not fit, and then the arena is unchanged; otherwise the address
    returned is aligned (relative to the mapping), the block lies inside the
    mapping at or above the old offset, and the new offset is its end. *)
Theorem arena_alloc_functional a size align :
  arena_wf a → req_fits a (size, align) →
  let al := if align =? 0 then 64 else align in
  match zedis_arena_alloc a size align with
  | (None, a') => a' = a ∧ asize a < align_up (offset a) al + size
  | (Some p, a') =>
      (p - base a) mod al = 0 ∧ base a + offset a <= p < base a + offset a + al ∧
      region_in a (p, size) ∧ base a' + offset a' = p + size ∧ arena_wf a'
  end.
Proof.
  intros Hwf Hreq. cbv zeta.
  destruct (arena_alloc_cases a size align Hwf Hreq) as (k & Hk & -> & Hup & Hmod & Hc).
  destruct Hwf as (Hb & Ho & Hs). destruct Hreq as (Hsz & _ & Hfit); simpl in *.
  pose proof (pow2_lt_32 k Hk).
  destruct (align_up_bounds (offset a) k) as [Hstart _]; [lia..|].
  destruct (_ <=? asize a) eqn:E; zb; rewrite Hc; [|split; [done|lia]].
  unfold region_in, arena_wf; cbn.
  rewrite Z.add_comm, Z.add_simpl_r. split; [done|]. lia.
Qed.

Lemma arena_alloc_functional_witness :
  zedis_arena_alloc (Arena 4096 1000 65 0) 100 64 = (Some 4224, Arena 4096 1000 228 0) ∧
  arena_wf (Arena 4096 1000 228 0).
Proof.
  split; [reflexivity|].
  pose proof (arena_alloc_functional (Arena 4096 1000 65 0) 100 64) as H.
  cbn in H. destruct H as (_ & _ & _ & _ & H).
  - unfold arena_wf; cbn; lia.
  - split; [cbn; lia|]. split; [|cbn; lia]. right. exists 6. cbn. lia.
  - exact H.
Defined.

(** C20: However many requests are made, in whatever order some are granted and
    some refused, the regions handed out are pairwise disjoint and every one
    lies inside the mapping, as long as no size can wrap when it is added to an
    offset (size, capacity and 2^32 add up to at most 2^64) and the alignments
    are 0 or powers of two below 2^32.  [arena_alloc_wraps] shows what a size
    that wraps does. *)
Theorem arena_grants_disjoint a reqs i j r s :
  arena_wf a → Forall (req_fits a) reqs → i ≠ j →
  (alloc_all a reqs).1 !! i = Some r → (alloc_all a reqs).1 !! j = Some s →
  disjoint_regions r s ∧ region_in a r.
Proof.
  intros Hwf Hreqs Hij Hr Hs.
  destruct (alloc_all_above a reqs Hwf Hreqs) as (_ & Hall & Hd).
  split; [|by eapply Forall_lookup_1 in Hall as (_ & _ & ?)].
  destruct (decide (i < j)%nat).
  - by eapply ForallOrdPairs_lookup.
  - assert (disjoint_regions s r) as [?|?]
      by (apply (ForallOrdPairs_lookup _ _ j i s r Hd); [lia|done..]);
      unfold disjoint_regions; auto.
Qed.

Lemma arena_grants_disjoint_witness :
  disjoint_regions (128, 10) (64, 1) ∧ region_in (Arena 64 500 0 0) (128, 10).
Proof.
  apply (arena_grants_disjoint (Arena 64 500 0 0) [(1, 64); (600, 64); (10, 0)] 1 0).
  - unfold arena_wf; cbn; lia.
  - assert (align_ok 64) by (right; exists 6; cbn; lia).
    assert (align_ok 0) by (left; done).
    repeat (apply Forall_cons; split; [unfold req_fits; cbn; auto with lia|]). by constructor.
  - done.
  - reflexivity.
  - reflexivity.
Defined.

(** The bound test [start + size > arena->size] is made modulo 2^64: a
    size large enough to wrap is granted, although it is larger than the
    whole mapping, and the bump offset moves backwards over live blocks. *)
Theorem arena_alloc_wraps a size align :
  arena_wf a → align_ok align →
  let start := align_up (offset a) (if align =? 0 then 64 else align) in
  0 < start <= asize a → 2 ^ 64 - start <= size < 2 ^ 64 →
  ∃ p a', zedis_arena_alloc a size align = (Some p, a') ∧
    offset a' < start ∧ ~ region_in a (p, size).
Proof.
  intros (Hb & Ho & Hs) Hal start Hst Hsz.
  exists (base a + start), (Arena (base a) (asize a) (start + size - 2 ^ 64) (used_hugepages a)).
  assert (u64 (start + size) = start + size - 2 ^ 64) as Hu.
  { unfold u64. replace (start + size) with (start + size - 2 ^ 64 + 1 * 2 ^ 64) at 1 by lia.
    rewrite Z_mod_plus_full, Z.mod_small; lia. }
  unfold zedis_arena_alloc. fold start. rewrite Hu.
  destruct (size =? 0) eqn:E; zb; [lia|]. rewrite Z.gtb_ltb.
  destruct (asize a <? _) eqn:E2; zb; [lia|].
  split; [done|]. cbn. split; [lia|]. unfold region_in; cbn. lia.
Qed.

Lemma arena_alloc_wraps_witness :
  ∃ p a', zedis_arena_alloc (Arena 4096 2097152 1000 0) (2 ^ 64 - 1024) 64 = (Some p, a') ∧
    offset a' < 1024 ∧ ~ region_in (Arena 4096 2097152 1000 0) (p, 2 ^ 64 - 1024).
Proof.
  apply (arena_alloc_wraps (Arena 4096 2097152 1000 0) (2 ^ 64 - 1024) 64).
  - unfold arena_wf; cbn; lia.
  - right. exists 6. cbn. lia.
  - vm_compute. intuition congruence.
  - vm_compute. intuition congruence.
Defined.
