(* ===== verification/HashTable.v ===== *)
(** The open-addressing Robin Hood hash table of src/hash_table.c.

    [ht_entry] and [hash_table] are the C structs.  The key and value buffers
    are kept at their declared sizes, so the [memcpy]s are checked against
    them and bytes past [key_len] / [value_len] are the stale ones the C code
    leaves there.  A (pointer, length) argument is the list of its bytes.

    Theorems: the layout invariant and totality of set, get and del in every
    reachable table; reading back what was just set; refinement of a finite
    map for tables from which nothing was deleted; what a deletion does, and
    two histories with a deletion after which the table is not a map. *)

From stdpp Require Import gmap.
From S2P Require Import Prelude Arena.

Definition ZEDIS_HT_MAX_KEY : Z := 256.
Definition ZEDIS_HT_MAX_VALUE : Z := 4096.

(** sizeof(ht_entry_t): 16 bytes of scalars, two lengths, the two buffers. *)
Definition SIZEOF_HT_ENTRY : Z := 4384.

Inductive ht_state := HT_EMPTY | HT_OCCUPIED | HT_TOMBSTONE.

#[export] Instance ht_state_eq_dec : EqDecision ht_state.
Proof. solve_decision. Defined.

Record ht_entry := HtEntry {
  e_state : ht_state;
  e_psl : Z;
  e_hash : Z;
  e_key_len : Z;
  e_value_len : Z;
  e_key : list Z;
  e_value : list Z;
}.

Record hash_table := HashTable {
  ht_entries : list ht_entry;
  ht_capacity : Z;
  ht_count : Z;
}.

(** All bytes zero, as calloc and memset leave an entry. *)
Definition zero_entry : ht_entry :=
  HtEntry HT_EMPTY 0 0 0 0
    (replicate (Z.to_nat ZEDIS_HT_MAX_KEY) 0) (replicate (Z.to_nat ZEDIS_HT_MAX_VALUE) 0).

Definition ht_hash (key : list Z) : Z :=
  foldl (λ h b, u32 (Z.lxor h b * 16777619)) 2166136261 key.

Definition zedis_ht_init (a : arena) (capacity : Z) : Z * option hash_table * arena :=
  if capacity =? 0 then (RC_ERR, None, a) else
  match zedis_arena_calloc a capacity SIZEOF_HT_ENTRY 64 with
  | (None, a') => (RC_ERR, None, a')
  | (Some _, a') =>
      (RC_OK, Some (HashTable (calloc_array capacity SIZEOF_HT_ENTRY zero_entry) capacity 0), a')
  end.

Definition zedis_ht_destroy (ht : hash_table) : hash_table := HashTable [] 0 0.

Definition entry_key_match (e : ht_entry) (hash : Z) (key : list Z) : bool :=
  bool_decide (e_state e = HT_OCCUPIED) && (e_hash e =? hash) &&
  (e_key_len e =? zlen key) && bool_decide (take (length key) (e_key e) = key).

(** The seven assignments that write [incoming] into a slot. *)
Definition ht_store (e : ht_entry) (psl : Z) (incoming : ht_entry) : exec ht_entry :=
  kb ← memcpy (e_key e) 0 (slice (e_key incoming) 0 (e_key_len incoming));
  vb ← memcpy (e_value e) 0 (slice (e_value incoming) 0 (e_value_len incoming));
  Ok (HtEntry HT_OCCUPIED psl (e_hash incoming) (e_key_len incoming)
        (e_value_len incoming) kb vb).

Definition ht_overwrite (e : ht_entry) (value : list Z) : exec ht_entry :=
  vb ← memcpy (e_value e) 0 value;
  Ok (HtEntry (e_state e) (e_psl e) (e_hash e) (e_key_len e) (zlen value) (e_key e) vb).

(** The [for (;;)] of zedis_ht_set; the result is the table's entries and
    count when it returns 0. *)
Fixpoint ht_set_loop (fuel : nat) (es : list ht_entry) (capacity count : Z)
    (hash : Z) (key value : list Z) (idx psl : Z) (incoming : ht_entry)
    : exec (list ht_entry * Z) :=
  match fuel with
  | O => Stuck OutOfFuel
  | S fuel' =>
      e ← aget es idx;
      if bool_decide (e_state e = HT_EMPTY) || bool_decide (e_state e = HT_TOMBSTONE) then
        e' ← ht_store e psl incoming;
        es' ← aset es idx e';
        Ok (es', u64 (count + 1))
      else if entry_key_match e hash key then
        e' ← ht_overwrite e value;
        es' ← aset es idx e';
        Ok (es', count)
      else if psl >? e_psl e then
        e' ← ht_store e psl incoming;
        es' ← aset es idx e';
        idx' ← c_mod (u64 (idx + 1)) capacity;
        ht_set_loop fuel' es' capacity count hash key value idx' (u32 (e_psl e + 1)) e
      else
        idx' ← c_mod (u64 (idx + 1)) capacity;
        ht_set_loop fuel' es capacity count hash key value idx' (u32 (psl + 1)) incoming
  end.

Definition ht_incoming (hash : Z) (key value : list Z) : exec ht_entry :=
  kb ← memcpy (e_key zero_entry) 0 key;
  vb ← memcpy (e_value zero_entry) 0 value;
  Ok (HtEntry HT_EMPTY 0 hash (zlen key) (zlen value) kb vb).

Definition zedis_ht_set (ht : hash_table) (key value : list Z) : exec (Z * hash_table) :=
  if (zlen key >? ZEDIS_HT_MAX_KEY) || (zlen value >? ZEDIS_HT_MAX_VALUE)
  then Ok (RC_ERR, ht) else
  if u64 (ht_count ht * 10) >=? u64 (ht_capacity ht * 7) then Ok (RC_ERR, ht) else
  let hash := ht_hash key in
  idx ← c_mod hash (ht_capacity ht);
  incoming ← ht_incoming hash key value;
  r ← ht_set_loop (S (Z.to_nat (ht_capacity ht))) (ht_entries ht) (ht_capacity ht)
        (ht_count ht) hash key value idx 0 incoming;
  Ok (RC_OK, HashTable r.1 (ht_capacity ht) r.2).

(** The search loop of zedis_ht_get and zedis_ht_del: the slot and the entry
    that matched, or nothing where they return -1. *)
Fixpoint ht_probe (fuel : nat) (es : list ht_entry) (capacity : Z)
    (hash : Z) (key : list Z) (idx psl : Z) : exec (option (Z * ht_entry)) :=
  match fuel with
  | O => Stuck OutOfFuel
  | S fuel' =>
      e ← aget es idx;
      if bool_decide (e_state e = HT_EMPTY) then Ok None
      else if entry_key_match e hash key then Ok (Some (idx, e))
      else if psl >? e_psl e then Ok None
      else
        idx' ← c_mod (u64 (idx + 1)) capacity;
        ht_probe fuel' es capacity hash key idx' (u32 (psl + 1))
  end.

(** Two more iterations than slots: the search ends at the latest when it is
    back at its first slot. *)
Definition ht_fuel (capacity : Z) : nat := S (S (Z.to_nat capacity)).

(** What zedis_ht_get stores: the bytes of [value_out] up to and with the
    NUL, and [*value_len_out]. *)
Definition zedis_ht_get (ht : hash_table) (key : list Z) (value_cap : Z)
    : exec (option (list Z * Z)) :=
  if ht_capacity ht =? 0 then Ok None else
  let hash := ht_hash key in
  idx ← c_mod hash (ht_capacity ht);
  r ← ht_probe (ht_fuel (ht_capacity ht)) (ht_entries ht) (ht_capacity ht) hash key idx 0;
  match r with
  | None => Ok None
  | Some (_, e) =>
      if value_cap >? 0 then
        let copy := if e_value_len e <? value_cap then e_value_len e else value_cap - 1 in
        bs ← read_n (e_value e) 0 copy;
        Ok (Some (bs ++ [0], e_value_len e))
      else Ok (Some ([], e_value_len e))
  end.

Definition ht_bury (e : ht_entry) : ht_entry :=
  HtEntry HT_TOMBSTONE 0 (e_hash e) (e_key_len e) (e_value_len e) (e_key e) (e_value e).

Definition zedis_ht_del (ht : hash_table) (key : list Z) : exec (Z * hash_table) :=
  let hash := ht_hash key in
  idx ← c_mod hash (ht_capacity ht);
  r ← ht_probe (ht_fuel (ht_capacity ht)) (ht_entries ht) (ht_capacity ht) hash key idx 0;
  match r with
  | None => Ok (RC_ERR, ht)
  | Some (i, e) =>
      es' ← aset (ht_entries ht) i (ht_bury e);
      Ok (RC_OK, HashTable es' (ht_capacity ht) (u64 (ht_count ht - 1)))
  end.

(** * Invariants *)

Definition ekey (e : ht_entry) : list Z := slice (e_key e) 0 (e_key_len e).
Definition evalue (e : ht_entry) : list Z := slice (e_value e) 0 (e_value_len e).
Definition occ (e : ht_entry) : Prop := e_state e = HT_OCCUPIED.

(** The buffers have their declared sizes and the lengths fit in them. *)
Definition buf_ok (e : ht_entry) : Prop :=
  zlen (e_key e) = ZEDIS_HT_MAX_KEY ∧ zlen (e_value e) = ZEDIS_HT_MAX_VALUE ∧
  0 <= e_key_len e <= ZEDIS_HT_MAX_KEY ∧ 0 <= e_value_len e <= ZEDIS_HT_MAX_VALUE.

(** The slot [n] steps after slot [s], wrapping around. *)
Definition slot (cap s n : Z) : nat := Z.to_nat ((s + n) mod cap).

(** An occupied slot holds an entry with the hash of its key, at the distance
    from its home slot that its [psl] records; a tombstone has psl 0. *)
Definition slot_ok (cap : Z) (i : nat) (e : ht_entry) : Prop :=
  buf_ok e ∧
  (occ e → e_hash e = ht_hash (ekey e) ∧ 0 <= e_psl e < cap ∧
           i = slot cap (e_hash e) (e_psl e)) ∧
  (e_state e = HT_TOMBSTONE → e_psl e = 0).

Definition occupied (es : list ht_entry) : nat :=
  length (filter occ es).

#[export] Instance occ_dec e : Decision (occ e).
Proof. unfold occ. apply _. Defined.

Definition entries_ok (cap : Z) (es : list ht_entry) : Prop :=
  zlen es = cap ∧ ∀ i e, es !! i = Some e → slot_ok cap i e.

Definition ht_wf (ht : hash_table) : Prop :=
  0 < ht_capacity ht < 2 ^ 32 ∧ entries_ok (ht_capacity ht) (ht_entries ht) ∧
  ht_count ht = Z.of_nat (occupied (ht_entries ht)).

(** [key] is stored with [v] at distance [j] from its home slot, and a search
    that starts at the home slot gets there. *)
Definition found_at (cap : Z) (es : list ht_entry) (key : list Z) (j : Z) (e : ht_entry) : Prop :=
  0 <= j < cap ∧ es !! slot cap (ht_hash key) j = Some e ∧
  entry_key_match e (ht_hash key) key = true ∧
  ∀ m, 0 <= m < j → ∃ e', es !! slot cap (ht_hash key) m = Some e' ∧ e_state e' ≠ HT_EMPTY ∧
    m <= e_psl e' ∧ entry_key_match e' (ht_hash key) key = false.

(** * Facts on slots and entries *)

Lemma slot_lt cap s n : 0 < cap → (slot cap s n < Z.to_nat cap)%nat.
Proof. unfold slot. intros. pose proof (Z.mod_pos_bound (s + n) cap). lia. Qed.

Lemma slot_inj cap s n m :
  0 < cap → 0 <= n < cap → 0 <= m < cap → slot cap s n = slot cap s m → n = m.
Proof.
  unfold slot. intros Hc Hn Hm H.
  pose proof (Z.mod_pos_bound (s + n) cap). pose proof (Z.mod_pos_bound (s + m) cap).
  assert ((s + n) mod cap = (s + m) mod cap) as E by lia.
  pose proof (Z.div_mod (s + n) cap ltac:(lia)). pose proof (Z.div_mod (s + m) cap ltac:(lia)).
  assert (n - m = cap * ((s + n) / cap - (s + m) / cap)) by lia.
  assert ((s + n) / cap - (s + m) / cap = 0) by nia. lia.
Qed.

Lemma slot_surj cap s i :
  0 < cap → (i < Z.to_nat cap)%nat → ∃ n, 0 <= n < cap ∧ slot cap s n = i.
Proof.
  intros Hc Hi. exists ((Z.of_nat i - s) mod cap).
  split; [apply Z.mod_pos_bound; lia|]. unfold slot.
  rewrite Zplus_mod_idemp_r. replace (s + (Z.of_nat i - s)) with (Z.of_nat i) by lia.
  rewrite Z.mod_small; lia.
Qed.

Lemma slot_home cap h n : slot cap (h mod cap) n = slot cap h n.
Proof. unfold slot. by rewrite Zplus_mod_idemp_l. Qed.

(** The entry reached with distance [p] from home [h] at step [n] from [s] is
    reached with distance [p + 1] at step [n + 1]. *)
Lemma slot_shift cap s h n p k :
  0 < cap → slot cap s n = slot cap h p → slot cap s (n + k) = slot cap h (p + k).
Proof.
  unfold slot. intros Hc H.
  pose proof (Z.mod_pos_bound (s + n) cap Hc). pose proof (Z.mod_pos_bound (h + p) cap Hc).
  rewrite !Z.add_assoc, <-(Zplus_mod_idemp_l (s + n)), <-(Zplus_mod_idemp_l (h + p)).
  do 2 f_equal. lia.
Qed.

Lemma idx_next cap s n :
  0 < cap < 2 ^ 32 →
  c_mod (u64 ((s + n) mod cap + 1)) cap = Ok ((s + (n + 1)) mod cap).
Proof.
  intros Hc. unfold c_mod. destruct (cap =? 0) eqn:E; zb; [lia|].
  pose proof (Z.mod_pos_bound (s + n) cap ltac:(lia)).
  rewrite u64_small by lia. by rewrite Zplus_mod_idemp_l, Z.add_assoc.
Qed.

Lemma aget_slot {A} (es : list A) cap s n :
  0 < cap → zlen es = cap →
  ∃ e, es !! slot cap s n = Some e ∧ aget es ((s + n) mod cap) = Ok e.
Proof.
  intros Hc Hl. pose proof (Z.mod_pos_bound (s + n) cap Hc).
  destruct (aget_ok es ((s + n) mod cap)) as (e & ? & ?); [lia|]. by exists e.
Qed.

Lemma aset_slot {A} (es : list A) cap s n x :
  0 < cap → zlen es = cap → aset es ((s + n) mod cap) x = Ok (<[slot cap s n := x]> es).
Proof. intros Hc Hl. apply aset_ok. pose proof (Z.mod_pos_bound (s + n) cap Hc). lia. Qed.

Lemma free_test e :
  bool_decide (e_state e = HT_EMPTY) || bool_decide (e_state e = HT_TOMBSTONE)
  = negb (bool_decide (occ e)).
Proof.
  repeat case_bool_decide; unfold occ in *; try congruence; try done.
  by destruct (e_state e).
Qed.

Lemma entry_key_match_spec e hash key :
  buf_ok e →
  entry_key_match e hash key = true ↔ occ e ∧ e_hash e = hash ∧ ekey e = key.
Proof.
  intros (Hk & _ & Hl & _). unfold entry_key_match, ekey, occ.
  rewrite !andb_true_iff, !bool_decide_eq_true, !Z.eqb_eq, slice_take.
  unfold zlen. split.
  - intros (((? & ?) & El) & ?). by rewrite El, Nat2Z.id.
  - intros (? & ? & El). assert (e_key_len e = Z.of_nat (length key)) as E.
    { rewrite <-El, length_take. unfold zlen in Hk. lia. }
    split_and!; try done. by rewrite E, Nat2Z.id in El.
Qed.

(** In a well-formed slot the hash test of a match is implied by the key. *)
Lemma match_iff cap i e key :
  slot_ok cap i e →
  entry_key_match e (ht_hash key) key = true ↔ occ e ∧ ekey e = key.
Proof.
  intros (Hb & Ho & _). rewrite entry_key_match_spec by done.
  split; [by intros (? & _ & ?)|]. intros [? <-]. split; [done|]. by destruct Ho.
Qed.

(** * The two writes *)

Definition stored (e : ht_entry) (psl : Z) (inc : ht_entry) : ht_entry :=
  HtEntry HT_OCCUPIED psl (e_hash inc) (e_key_len inc) (e_value_len inc)
    (ekey inc ++ drop (length (ekey inc)) (e_key e))
    (evalue inc ++ drop (length (evalue inc)) (e_value e)).

Definition overwritten (e : ht_entry) (value : list Z) : ht_entry :=
  HtEntry (e_state e) (e_psl e) (e_hash e) (e_key_len e) (zlen value) (e_key e)
    (value ++ drop (length value) (e_value e)).

Lemma zlen_ekey e : buf_ok e → zlen (ekey e) = e_key_len e.
Proof. intros (? & ? & ? & ?). apply zlen_slice; lia. Qed.
Lemma zlen_evalue e : buf_ok e → zlen (evalue e) = e_value_len e.
Proof. intros (? & ? & ? & ?). apply zlen_slice; lia. Qed.

Lemma ht_store_ok e psl inc :
  buf_ok e → buf_ok inc → ht_store e psl inc = Ok (stored e psl inc).
Proof.
  intros He Hi. unfold ht_store. fold (ekey inc) (evalue inc).
  pose proof (zlen_ekey inc Hi). pose proof (zlen_evalue inc Hi).
  destruct He as (? & ? & ? & ?), Hi as (? & ? & ? & ?).
  rewrite !memcpy0_ok by lia. done.
Qed.

Lemma ht_overwrite_ok e value :
  buf_ok e → zlen value <= ZEDIS_HT_MAX_VALUE →
  ht_overwrite e value = Ok (overwritten e value).
Proof. intros (? & ? & ? & ?) ?. unfold ht_overwrite. by rewrite memcpy0_ok by lia. Qed.

Lemma stored_props e psl inc :
  buf_ok e → buf_ok inc →
  buf_ok (stored e psl inc) ∧ ekey (stored e psl inc) = ekey inc ∧
  evalue (stored e psl inc) = evalue inc.
Proof.
  intros He Hi. pose proof (zlen_ekey inc Hi). pose proof (zlen_evalue inc Hi).
  destruct He as (? & ? & ? & ?), Hi as (? & ? & ? & ?).
  split; [|split; by apply slice_prefix_len].
  unfold buf_ok; cbn. rewrite !zlen_prefix_drop by lia. lia.
Qed.

Lemma overwritten_props e value :
  buf_ok e → zlen value <= ZEDIS_HT_MAX_VALUE →
  buf_ok (overwritten e value) ∧ ekey (overwritten e value) = ekey e ∧
  evalue (overwritten e value) = value.
Proof.
  intros (? & ? & ? & ?) ?. pose proof (zlen_nonneg value).
  split; [|split; [done|by apply slice_prefix_len]].
  unfold buf_ok; cbn. rewrite !zlen_prefix_drop by lia. lia.
Qed.

Lemma ht_incoming_ok hash key value :
  zlen key <= ZEDIS_HT_MAX_KEY → zlen value <= ZEDIS_HT_MAX_VALUE →
  ∃ inc, ht_incoming hash key value = Ok inc ∧ buf_ok inc ∧ e_hash inc = hash ∧
    ekey inc = key ∧ evalue inc = value.
Proof.
  intros Hk Hv. pose proof (zlen_nonneg key). pose proof (zlen_nonneg value).
  assert (zlen (e_key zero_entry) = ZEDIS_HT_MAX_KEY) by done.
  assert (zlen (e_value zero_entry) = ZEDIS_HT_MAX_VALUE) by done.
  unfold ht_incoming. rewrite !memcpy0_ok by lia. cbn [mbind exec_bind].
  eexists. split; [done|].
  split; [|split; [done|split; by apply slice_prefix_len]].
  unfold buf_ok; cbn [e_key e_value e_key_len e_value_len].
  rewrite !zlen_prefix_drop by lia. lia.
Qed.

(** * Counting occupied slots *)

Lemma occupied_le es : (occupied es <= length es)%nat.
Proof. apply length_filter. Qed.

Lemma free_slot es :
  (occupied es < length es)%nat → ∃ i e, es !! i = Some e ∧ ¬ occ e.
Proof.
  unfold occupied. induction es as [|e es IH]; [cbn; lia|].
  rewrite filter_cons. case_decide as Ho.
  - cbn [length]. intros H. destruct IH as (i & x & ? & ?); [lia|]. by exists (S i), x.
  - intros _. by exists 0%nat, e.
Qed.

Lemma occupied_insert es i e e' :
  es !! i = Some e →
  (occupied (<[i:=e']> es) + (if decide (occ e) then 1 else 0)
   = occupied es + (if decide (occ e') then 1 else 0))%nat.
Proof.
  unfold occupied. revert i. induction es as [|x es IH]; intros [|i] H; try done; cbn in H.
  - injection H as ->. cbn [insert list_insert]. rewrite !filter_cons.
    destruct (decide (occ e)), (decide (occ e')); cbn [length]; lia.
  - change (<[S i:=e']> (x :: es)) with (x :: <[i:=e']> es).
    rewrite !filter_cons. specialize (IH i H).
    destruct (decide (occ x)); cbn [length]; lia.
Qed.

(** * Proof rule for the insertion loop

    [I n es psl inc] holds at the start of iteration [n]; the rule asks for
    its preservation by the two ways to continue and for [Q] at the two ways
    to return.  It supplies the facts every use needs: the buffers are in
    order, [psl] has not run ahead of [n], and the slots still ahead are
    those of the table the loop started from. *)

Definition walk_ok (cap : Z) (es0 : list ht_entry) (s n : Z)
    (es : list ht_entry) (psl : Z) (inc : ht_entry) : Prop :=
  zlen es = cap ∧ Forall buf_ok es ∧ buf_ok inc ∧ 0 <= psl <= n ∧
  ∀ m, n <= m < cap → es !! slot cap s m = es0 !! slot cap s m.

Lemma walk_ok_advance cap es0 s n es psl inc e e' psl' inc' :
  0 < cap → 0 <= n < cap → walk_ok cap es0 s n es psl inc →
  buf_ok e' → buf_ok inc' → 0 <= psl' <= n + 1 →
  es !! slot cap s n = Some e →
  walk_ok cap es0 s (n + 1) (<[slot cap s n := e']> es) psl' inc'.
Proof.
  intros Hc Hn (Hl & Hb & Hi & Hp & Hs) He' Hinc' Hpsl' He.
  split; [by rewrite zlen_insert|]. split; [by apply Forall_insert|].
  split; [done|]. split; [done|]. intros m Hm.
  rewrite list_lookup_insert_ne; [apply Hs; lia|].
  intros Heq. apply slot_inj in Heq; lia.
Qed.

Section set_rule.
  Context (cap count : Z) (es0 : list ht_entry) (s : Z) (hash : Z) (key value : list Z).
  Context (I : Z → list ht_entry → Z → ht_entry → Prop).
  Context (Q : list ht_entry → Z → Prop).
  Hypothesis Hcap : 0 < cap < 2 ^ 32.
  Hypothesis Hvalue : zlen value <= ZEDIS_HT_MAX_VALUE.
  Hypothesis Hfree : ∀ n es psl inc e,
    0 <= n < cap → walk_ok cap es0 s n es psl inc → I n es psl inc →
    es !! slot cap s n = Some e → ¬ occ e →
    Q (<[slot cap s n := stored e psl inc]> es) (u64 (count + 1)).
  Hypothesis Hmatch : ∀ n es psl inc e,
    0 <= n < cap → walk_ok cap es0 s n es psl inc → I n es psl inc →
    es !! slot cap s n = Some e → entry_key_match e hash key = true →
    Q (<[slot cap s n := overwritten e value]> es) count.
  Hypothesis Hswap : ∀ n es psl inc e,
    0 <= n < cap → walk_ok cap es0 s n es psl inc → I n es psl inc →
    es !! slot cap s n = Some e → occ e → entry_key_match e hash key = false →
    e_psl e < psl →
    I (n + 1) (<[slot cap s n := stored e psl inc]> es) (e_psl e + 1) e.
  Hypothesis Hstep : ∀ n es psl inc e,
    0 <= n < cap → walk_ok cap es0 s n es psl inc → I n es psl inc →
    es !! slot cap s n = Some e → occ e → entry_key_match e hash key = false →
    psl <= e_psl e → I (n + 1) es (psl + 1) inc.
  Hypothesis Hpsl0 : ∀ m e, 0 <= m < cap → es0 !! slot cap s m = Some e → occ e → 0 <= e_psl e.

(** [d] is a slot that is not occupied; the loop returns there at the latest. *)
Lemma ht_set_loop_rule d e0 fuel n es psl inc :
  0 <= n <= d → d < cap → es0 !! slot cap s d = Some e0 → ¬ occ e0 →
  walk_ok cap es0 s n es psl inc → I n es psl inc → d - n < Z.of_nat fuel →
  ∃ es' count', ht_set_loop fuel es cap count hash key value ((s + n) mod cap) psl inc
                = Ok (es', count') ∧ Q es' count'.
Proof.
  intros Hn Hd He0 Hocc0. revert n es psl inc Hn.
  induction fuel as [|fuel IH]; intros n es psl inc Hn Hw HI Hf; [lia|].
  cbn [ht_set_loop]. pose proof Hw as (Hl & Hb & Hi & Hp & Hs).
  destruct (aget_slot es cap s n) as (e & He & ->); [lia|done|]. cbn [mbind exec_bind].
  pose proof (Forall_lookup_1 _ _ _ _ Hb He) as Hbe.
  rewrite free_test.
  destruct (bool_decide_reflect (occ e)) as [Ho|Ho]; cbn [negb].
  2:{ rewrite ht_store_ok by done. cbn [mbind exec_bind].
      rewrite aset_slot by (lia || done). cbn [mbind exec_bind].
      do 2 eexists. split; [done|]. eapply Hfree; eauto; lia. }
  destruct (entry_key_match e hash key) eqn:Hm.
  { rewrite ht_overwrite_ok by done. cbn [mbind exec_bind].
    rewrite aset_slot by (lia || done). cbn [mbind exec_bind].
    do 2 eexists. split; [done|]. eapply Hmatch; eauto; lia. }
  assert (n ≠ d).
  { intros ->. rewrite Hs in He by lia. rewrite He0 in He. injection He as ->. done. }
  rewrite Z.gtb_ltb. destruct (e_psl e <? psl) eqn:E; zb.
  - rewrite ht_store_ok by done. cbn [mbind exec_bind].
    rewrite aset_slot by (lia || done). cbn [mbind exec_bind].
    rewrite idx_next by lia. cbn [mbind exec_bind].
    assert (0 <= e_psl e).
    { rewrite Hs in He by lia. eapply (Hpsl0 n); eauto; lia. }
    rewrite u32_small by lia.
    apply IH; [lia| | |lia].
    + eapply walk_ok_advance; eauto; try lia. apply stored_props; done.
    + eapply Hswap; eauto; lia.
  - rewrite idx_next by lia. cbn [mbind exec_bind]. rewrite u32_small by lia.
    apply IH; [lia| | |lia].
    + split_and!; try done; try lia. intros m Hm'. apply Hs. lia.
    + eapply Hstep; eauto; lia.
Qed.

(** The whole of zedis_ht_set past its two guards. *)
Lemma ht_set_loop_start inc :
  (occupied es0 < length es0)%nat → zlen es0 = cap → Forall buf_ok es0 → buf_ok inc →
  I 0 es0 0 inc →
  ∃ es' count', ht_set_loop (S (Z.to_nat cap)) es0 cap count hash key value (s mod cap) 0 inc
                = Ok (es', count') ∧ Q es' count'.
Proof.
  intros Hocc Hl Hb Hi HI.
  destruct (free_slot es0 Hocc) as (i & e & He & Hno).
  destruct (slot_surj cap s i) as (d & Hd & <-); [lia| |].
  { apply lookup_lt_Some in He. unfold zlen in Hl. lia. }
  replace (s mod cap) with ((s + 0) mod cap) by (f_equal; lia).
  apply (ht_set_loop_rule d e); try done; try lia.
Qed.
End set_rule.

Lemma entries_ok_buf cap es : entries_ok cap es → Forall buf_ok es.
Proof. intros [_ H]. apply Forall_lookup. intros i e He. by apply (H i e). Qed.

Lemma entries_ok_insert cap es i e :
  entries_ok cap es → slot_ok cap i e → entries_ok cap (<[i:=e]> es).
Proof.
  intros [Hl H] He. split; [by rewrite zlen_insert|]. intros j x.
  rewrite list_lookup_insert_Some. intros [(-> & <- & _)|[_ ?]]; auto.
Qed.

(** Writing an entry where its distance from home says it belongs. *)
Lemma entries_ok_store cap s n es psl inc e :
  entries_ok cap es → es !! slot cap s n = Some e → buf_ok inc →
  e_hash inc = ht_hash (ekey inc) → 0 <= psl < cap →
  slot cap s n = slot cap (e_hash inc) psl →
  entries_ok cap (<[slot cap s n := stored e psl inc]> es).
Proof.
  intros Hok He Hbi Hh Hp Hat. pose proof Hok as [_ Hs].
  destruct (Hs _ _ He) as (Hbe & _ & _).
  destruct (stored_props e psl inc Hbe Hbi) as (? & E & _).
  apply entries_ok_insert; [done|]. split_and!; [done| |done].
  intros _. cbn [stored e_hash e_psl]. rewrite E. done.
Qed.

Lemma entries_ok_overwrite cap es i e value :
  entries_ok cap es → es !! i = Some e → zlen value <= ZEDIS_HT_MAX_VALUE →
  entries_ok cap (<[i := overwritten e value]> es).
Proof.
  intros Hok He Hv. pose proof Hok as [_ Hs]. destruct (Hs _ _ He) as (Hbe & Ho & Ht).
  destruct (overwritten_props e value Hbe Hv) as (? & E & _).
  apply entries_ok_insert; [done|]. split_and!; [done| |done]. rewrite E. exact Ho.
Qed.

(** The load test of zedis_ht_set, without its modular arithmetic. *)
Lemma ht_load_test ht :
  ht_wf ht →
  (u64 (ht_count ht * 10) >=? u64 (ht_capacity ht * 7)) = (ht_capacity ht * 7 <=? ht_count ht * 10).
Proof.
  intros (Hc & (Hl & _) & Hn). pose proof (occupied_le (ht_entries ht)).
  unfold zlen in Hl. rewrite !u64_small by lia. apply Z.geb_leb.
Qed.

Lemma ht_load_room ht :
  ht_wf ht → ht_count ht * 10 < ht_capacity ht * 7 →
  (occupied (ht_entries ht) < length (ht_entries ht))%nat.
Proof. intros (Hc & (Hl & _) & Hn) ?. unfold zlen in Hl. lia. Qed.

(** A table with room takes the new pair and stays well-formed. *)
Lemma set_loop_wf cap es0 key value inc :
  0 < cap < 2 ^ 32 → entries_ok cap es0 → (occupied es0 < length es0)%nat →
  zlen value <= ZEDIS_HT_MAX_VALUE →
  buf_ok inc → e_hash inc = ht_hash key → ekey inc = key →
  ∃ es' count', ht_set_loop (S (Z.to_nat cap)) es0 cap (Z.of_nat (occupied es0)) (ht_hash key)
                  key value (ht_hash key mod cap) 0 inc = Ok (es', count') ∧
    entries_ok cap es' ∧ count' = Z.of_nat (occupied es').
Proof.
  intros Hc Hes Hroom Hv Hinc Hh Hk.
  pose proof Hes as [Hl0 Hs0].
  apply ht_set_loop_start with
    (I := λ n es psl inc, entries_ok cap es ∧ occupied es = occupied es0 ∧
            e_hash inc = ht_hash (ekey inc) ∧
            slot cap (ht_hash key) n = slot cap (e_hash inc) psl); try done.
  - intros n es psl inc' e Hn (_ & _ & Hbi & Hp & _) (Hok & Hcnt & Hh' & Hat) He Hno.
    split; [apply entries_ok_store; done || lia|].
    pose proof (occupied_insert _ _ e (stored e psl inc') He) as Ho.
    rewrite (decide_False (P := occ e)), decide_True in Ho by done.
    pose proof (occupied_le es). destruct Hok as [Hl _]. unfold zlen in Hl.
    rewrite u64_small; lia.
  - intros n es psl inc' e Hn (_ & _ & Hbi & Hp & _) (Hok & Hcnt & Hh' & Hat) He Hm.
    split; [by apply entries_ok_overwrite|].
    apply entry_key_match_spec in Hm as (Hoe & _); [|by apply Hok in He as [? _]].
    pose proof (occupied_insert _ _ e (overwritten e value) He) as Ho'.
    rewrite !decide_True in Ho' by done. lia.
  - intros n es psl inc' e Hn (_ & _ & Hbi & Hp & _) (Hok & Hcnt & Hh' & Hat) He Hoe Hm Hlt.
    pose proof Hok as [_ Hs]. destruct (Hs _ _ He) as (_ & Ho & _).
    destruct (Ho Hoe) as (Hhe & Hpe & Hate). split_and!.
    + apply entries_ok_store; done || lia.
    + pose proof (occupied_insert _ _ e (stored e psl inc') He) as Ho'.
      rewrite !decide_True in Ho' by done. lia.
    + done.
    + apply slot_shift; [lia|done].
  - intros n es psl inc' e Hn Hw (Hok & Hcnt & Hh' & Hat) He Hoe Hm Hge.
    split_and!; try done. apply slot_shift; [lia|done].
  - intros m e Hm He Ho. destruct (Hs0 _ _ He) as (_ & H & _). apply H in Ho. lia.
  - by eapply entries_ok_buf.
  - split_and!; try done. by rewrite Hh, Hk. by rewrite Hh.
Qed.

(** * The search loop *)

(** The search always returns, and what it returns is a matching slot. *)
Lemma ht_probe_total cap es key n fuel :
  0 < cap < 2 ^ 32 → entries_ok cap es → 0 <= n <= cap → cap - n < Z.of_nat fuel →
  ∃ r, ht_probe fuel es cap (ht_hash key) key ((ht_hash key + n) mod cap) n = Ok r ∧
    match r with
    | None => True
    | Some (i, e) => ∃ j, n <= j <= cap ∧ i = (ht_hash key + j) mod cap ∧
        es !! slot cap (ht_hash key) j = Some e ∧ entry_key_match e (ht_hash key) key = true
    end.
Proof.
  intros Hc [Hl Hs]. revert n. induction fuel as [|fuel IH]; intros n Hn Hf; [lia|].
  cbn [ht_probe].
  destruct (aget_slot es cap (ht_hash key) n) as (e & He & ->); [lia|done|].
  cbn [mbind exec_bind].
  case_bool_decide as Hst; [by eexists|].
  destruct (entry_key_match e (ht_hash key) key) eqn:Hm.
  { eexists. split; [done|]. exists n. split_and!; try done; lia. }
  rewrite Z.gtb_ltb. destruct (e_psl e <? n) eqn:E; zb; [by eexists|].
  destruct (Hs _ _ He) as (_ & Ho & Ht).
  assert (e_psl e < cap).
  { destruct (e_state e) eqn:Es; [done| |]; [by apply Ho in Es; lia|rewrite Ht; [lia|done]]. }
  rewrite idx_next by lia. cbn [mbind exec_bind]. rewrite u32_small by lia.
  destruct (IH (n + 1)) as (r & -> & Hr); [lia..|]. eexists; split; [done|].
  destruct r as [[i x]|]; [|done]. destruct Hr as (j & ? & ?). exists j. by split; [lia|].
Qed.

(** A key that [found_at] locates is found. *)
Lemma ht_probe_found cap es key j e n fuel :
  0 < cap < 2 ^ 32 → zlen es = cap → found_at cap es key j e →
  0 <= n <= j → j - n < Z.of_nat fuel →
  ht_probe fuel es cap (ht_hash key) key ((ht_hash key + n) mod cap) n
  = Ok (Some ((ht_hash key + j) mod cap, e)).
Proof.
  intros Hc Hl (Hj & He & Hm & Hpre). revert n.
  induction fuel as [|fuel IH]; intros n Hn Hf; [lia|]. cbn [ht_probe].
  destruct (aget_slot es cap (ht_hash key) n) as (x & Hx & ->); [lia|done|].
  cbn [mbind exec_bind]. destruct (decide (n = j)) as [->|Hne].
  - rewrite He in Hx. injection Hx as <-. rewrite Hm.
    rewrite bool_decide_eq_false_2; [done|].
    unfold entry_key_match in Hm. zb. apply bool_decide_eq_true in H. congruence.
  - destruct (Hpre n ltac:(lia)) as (y & Hy & Hst & Hp & Hmy).
    rewrite Hx in Hy. injection Hy as <-.
    rewrite bool_decide_eq_false_2, Hmy, Z.gtb_ltb by done.
    destruct (e_psl x <? n) eqn:E; zb; [lia|].
    rewrite idx_next by lia. cbn [mbind exec_bind]. rewrite u32_small by lia.
    apply IH; lia.
Qed.

Lemma ht_probe_start cap es key :
  ht_probe (ht_fuel cap) es cap (ht_hash key) key (ht_hash key mod cap) 0
  = ht_probe (ht_fuel cap) es cap (ht_hash key) key ((ht_hash key + 0) mod cap) 0.
Proof. do 2 f_equal. lia. Qed.

(** What zedis_ht_get makes of an entry it found. *)
Definition get_result (value_cap : Z) (v : list Z) : list Z * Z :=
  if value_cap >? 0
  then (take (Z.to_nat (if zlen v <? value_cap then zlen v else value_cap - 1)) v ++ [0], zlen v)
  else ([], zlen v).

Lemma get_of_probe ht key value_cap r :
  ht_wf ht →
  ht_probe (ht_fuel (ht_capacity ht)) (ht_entries ht) (ht_capacity ht) (ht_hash key) key
    (ht_hash key mod ht_capacity ht) 0 = Ok r →
  match r with
  | None => zedis_ht_get ht key value_cap = Ok None
  | Some (i, e) => buf_ok e →
      zedis_ht_get ht key value_cap = Ok (Some (get_result value_cap (evalue e)))
  end.
Proof.
  intros (Hc & _ & _) Hp. unfold zedis_ht_get.
  destruct (ht_capacity ht =? 0) eqn:E; zb; [lia|].
  rewrite c_mod_ok by lia. cbn [mbind exec_bind]. rewrite Hp. cbn [mbind exec_bind].
  destruct r as [[i e]|]; [|done]. intros Hb. unfold get_result.
  rewrite zlen_evalue by done. destruct Hb as (? & Hvl & ? & ?).
  rewrite Z.gtb_ltb. destruct (0 <? value_cap) eqn:E2; zb; [|done].
  set (copy := if _ <? _ then _ else _).
  assert (0 <= copy <= e_value_len e).
  { unfold copy. destruct (_ <? value_cap) eqn:E3; zb; lia. }
  rewrite read_n_ok by lia. cbn [mbind exec_bind]. do 4 f_equal.
  unfold evalue. rewrite !slice_take, take_take. f_equal. lia.
Qed.

Lemma get_found ht key value_cap j e :
  ht_wf ht → found_at (ht_capacity ht) (ht_entries ht) key j e →
  zedis_ht_get ht key value_cap = Ok (Some (get_result value_cap (evalue e))).
Proof.
  intros Hwf Hf. pose proof Hwf as (Hc & Hok & _).
  eapply (get_of_probe _ _ _ (Some (_, e)) Hwf).
  - rewrite ht_probe_start. destruct Hf as (Hj & Hf).
    apply ht_probe_found; [lia|apply Hok|done|lia|]. unfold ht_fuel. lia.
  - destruct Hf as (_ & He & _). by apply Hok in He as [? _].
Qed.

(** * Reading back what was set *)

Definition passed (cap : Z) (es : list ht_entry) (key : list Z) (n : Z) : Prop :=
  ∀ m, 0 <= m < n → ∃ e', es !! slot cap (ht_hash key) m = Some e' ∧ e_state e' ≠ HT_EMPTY ∧
    m <= e_psl e' ∧ entry_key_match e' (ht_hash key) key = false.

Lemma passed_insert cap es key n i x :
  0 < cap → passed cap es key n → 0 <= n <= i → i < cap →
  passed cap (<[slot cap (ht_hash key) i := x]> es) key n.
Proof.
  intros Hc H Hn Hi m Hm. destruct (H m Hm) as (e & ? & ?). exists e. split; [|done].
  rewrite list_lookup_insert_ne; [done|]. intros Heq. apply slot_inj in Heq; lia.
Qed.

Lemma found_at_insert cap es key j e i x :
  0 < cap → found_at cap es key j e → j < i < cap →
  found_at cap (<[slot cap (ht_hash key) i := x]> es) key j e.
Proof.
  intros Hc (Hj & He & Hm & Hp) Hi. split; [done|].
  rewrite list_lookup_insert_ne by (intros Heq; apply slot_inj in Heq; lia).
  split; [done|]. split; [done|]. apply passed_insert; done || lia.
Qed.

Lemma found_at_here cap es key n x e :
  0 < cap → zlen es = cap → 0 <= n < cap → passed cap es key n →
  es !! slot cap (ht_hash key) n = Some e →
  buf_ok x → occ x → e_hash x = ht_hash key → ekey x = key →
  found_at cap (<[slot cap (ht_hash key) n := x]> es) key n x.
Proof.
  intros Hc Hl Hn Hp He Hb Ho Hh Hk. split; [done|].
  rewrite list_lookup_insert_eq by (by eapply lookup_lt_Some). split; [done|].
  split; [by apply entry_key_match_spec|]. apply passed_insert; done || lia.
Qed.

Lemma passed_step cap es key n e :
  passed cap es key n → es !! slot cap (ht_hash key) n = Some e → occ e → n <= e_psl e →
  entry_key_match e (ht_hash key) key = false → passed cap es key (n + 1).
Proof.
  intros Hp He Ho Hle Hm m Hmn. destruct (decide (m = n)) as [->|]; [|by apply Hp; lia].
  exists e. split_and!; try done. unfold occ in Ho. congruence.
Qed.

Lemma set_loop_found cap es0 count key value inc :
  0 < cap < 2 ^ 32 → entries_ok cap es0 → (occupied es0 < length es0)%nat →
  zlen value <= ZEDIS_HT_MAX_VALUE →
  buf_ok inc → e_hash inc = ht_hash key → ekey inc = key → evalue inc = value →
  ∃ es' count', ht_set_loop (S (Z.to_nat cap)) es0 cap count (ht_hash key)
                  key value (ht_hash key mod cap) 0 inc = Ok (es', count') ∧
    ∃ j e, found_at cap es' key j e ∧ evalue e = value.
Proof.
  intros Hc Hes Hroom Hv Hinc Hh Hk Hval. pose proof Hes as [Hl0 Hs0].
  apply ht_set_loop_start with
    (I := λ n es psl inc,
       (ekey inc = key ∧ evalue inc = value ∧ e_hash inc = ht_hash key ∧ psl = n ∧
        passed cap es key n) ∨
       (∃ j e, j < n ∧ found_at cap es key j e ∧ evalue e = value)); try done.
  - intros n es psl inc' e Hn (Hl & Hb & Hbi & _) HI He Hno.
    destruct HI as [(? & ? & ? & -> & Hp)|(j & x & ? & ? & ?)].
    2:{ exists j, x. split; [apply found_at_insert|]; done || lia. }
    pose proof (Forall_lookup_1 _ _ _ _ Hb He) as Hbe.
    destruct (stored_props e n inc' Hbe Hbi) as (? & Ek & Ev).
    exists n, (stored e n inc'). split; [|congruence].
    eapply found_at_here; eauto; try lia; done || congruence.
  - intros n es psl inc' e Hn (Hl & Hb & Hbi & _) HI He Hm.
    pose proof (Forall_lookup_1 _ _ _ _ Hb He) as Hbe.
    destruct HI as [(? & ? & ? & -> & Hp)|(j & x & ? & ? & ?)].
    2:{ exists j, x. split; [apply found_at_insert|]; done || lia. }
    destruct (overwritten_props e value Hbe Hv) as (? & Ek & Ev).
    apply entry_key_match_spec in Hm as (? & ? & ?); [|done].
    exists n, (overwritten e value). split; [|done].
    eapply found_at_here; eauto; try lia; done || congruence.
  - intros n es psl inc' e Hn (Hl & Hb & Hbi & _) HI He Hoe Hm Hlt.
    pose proof (Forall_lookup_1 _ _ _ _ Hb He) as Hbe. right.
    destruct HI as [(? & ? & ? & -> & Hp)|(j & x & ? & ? & ?)].
    2:{ exists j, x. split; [lia|]. split; [apply found_at_insert|]; done || lia. }
    destruct (stored_props e n inc' Hbe Hbi) as (? & Ek & Ev).
    exists n, (stored e n inc'). split; [lia|]. split; [|congruence].
    eapply found_at_here; eauto; try lia; done || congruence.
  - intros n es psl inc' e Hn Hw HI He Hoe Hm Hge.
    destruct HI as [(? & ? & ? & -> & Hp)|(j & x & ? & ? & ?)]; [left|right].
    + split_and!; try done. by eapply passed_step.
    + exists j, x. split; [lia|done].
  - intros m e Hm He Ho. destruct (Hs0 _ _ He) as (_ & H & _). apply H in Ho. lia.
  - by eapply entries_ok_buf.
  - left. split_and!; try done. intros m ?. lia.
Qed.

(** zedis_ht_set, run to its end: which of its three outcomes, and the state. *)
Lemma ht_set_cases ht key value :
  ht_wf ht →
  if (zlen key <=? ZEDIS_HT_MAX_KEY) && (zlen value <=? ZEDIS_HT_MAX_VALUE) &&
     (ht_count ht * 10 <? ht_capacity ht * 7)
  then ∃ inc es' count',
    buf_ok inc ∧ e_hash inc = ht_hash key ∧ ekey inc = key ∧ evalue inc = value ∧
    ht_set_loop (S (Z.to_nat (ht_capacity ht))) (ht_entries ht) (ht_capacity ht) (ht_count ht)
      (ht_hash key) key value (ht_hash key mod ht_capacity ht) 0 inc = Ok (es', count') ∧
    zedis_ht_set ht key value = Ok (RC_OK, HashTable es' (ht_capacity ht) count')
  else zedis_ht_set ht key value = Ok (RC_ERR, ht).
Proof.
  intros Hwf. unfold zedis_ht_set. rewrite ht_load_test, !Z.gtb_ltb, !Z.leb_antisym by done.
  destruct (_ <? zlen key) eqn:E1; [done|]. destruct (_ <? zlen value) eqn:E2; [done|].
  cbn [negb andb orb].
  destruct (ht_count ht * 10 <? ht_capacity ht * 7) eqn:E3; [|done]. zb.
  pose proof Hwf as (Hc & Hok & Hcnt).
  rewrite c_mod_ok by lia. cbn [mbind exec_bind].
  destruct (ht_incoming_ok (ht_hash key) key value) as (inc & -> & ? & ? & ? & ?); [lia..|].
  cbn [mbind exec_bind].
  destruct (set_loop_wf (ht_capacity ht) (ht_entries ht) key value inc) as (es' & c' & Hrun & _);
    try done; [by apply ht_load_room|].
  rewrite <-Hcnt in Hrun. exists inc, es', c'. split_and!; try done. by rewrite Hrun.
Qed.

(** * Refinement of a finite map by tables without tombstones *)

(** Every slot between [h] and distance [p] is occupied by an entry that is at
    least as far from its home: the Robin Hood property. *)
Definition reach (cap : Z) (es : list ht_entry) (h p : Z) : Prop :=
  ∀ q, 0 <= q < p → ∃ e', es !! slot cap h q = Some e' ∧ occ e' ∧ q <= e_psl e'.

Definition robin_hood (cap : Z) (es : list ht_entry) : Prop :=
  ∀ i e, es !! i = Some e → occ e → reach cap es (e_hash e) (e_psl e).

Definition no_tombstone (es : list ht_entry) : Prop :=
  ∀ i e, es !! i = Some e → e_state e ≠ HT_TOMBSTONE.

Definition unique_keys (es : list ht_entry) : Prop :=
  ∀ i j e e', es !! i = Some e → es !! j = Some e' → occ e → occ e' → ekey e = ekey e' → i = j.

Definition has (es : list ht_entry) (k v : list Z) : Prop :=
  ∃ i e, es !! i = Some e ∧ occ e ∧ ekey e = k ∧ evalue e = v.

(** The abstraction relation: the table implements the finite map [m]. *)
Definition ht_refines (ht : hash_table) (m : gmap (list Z) (list Z)) : Prop :=
  ht_wf ht ∧ no_tombstone (ht_entries ht) ∧ robin_hood (ht_capacity ht) (ht_entries ht) ∧
  unique_keys (ht_entries ht) ∧ ∀ k v, m !! k = Some v ↔ has (ht_entries ht) k v.

Lemma reach_insert cap es h p i e x :
  reach cap es h p → es !! i = Some e → (occ e → occ x ∧ e_psl e <= e_psl x) →
  reach cap (<[i:=x]> es) h p.
Proof.
  intros Hr He Hx q Hq. destruct (Hr q Hq) as (y & Hy & Ho & Hle).
  destruct (decide (i = slot cap h q)) as [->|Hne].
  - rewrite He in Hy. injection Hy as <-. exists x.
    rewrite list_lookup_insert_eq by (by eapply lookup_lt_Some).
    destruct (Hx Ho). split_and!; [done..|lia].
  - exists y. by rewrite list_lookup_insert_ne.
Qed.

(** Replacing the entry of slot [i] keeps the property when the new entry is
    reachable and no nearer to its home than the old one was. *)
Lemma robin_hood_insert cap es i e x :
  robin_hood cap es → es !! i = Some e → (occ e → occ x ∧ e_psl e <= e_psl x) →
  reach cap es (e_hash x) (e_psl x) → robin_hood cap (<[i:=x]> es).
Proof.
  intros Hr He Hx Hrx j y Hy Ho. apply list_lookup_insert_Some in Hy.
  destruct Hy as [(-> & <- & _)|[Hne Hy]]; eapply reach_insert; eauto.
Qed.

Lemma no_tombstone_insert es i x :
  no_tombstone es → e_state x ≠ HT_TOMBSTONE → no_tombstone (<[i:=x]> es).
Proof.
  intros H Hx j y Hy. apply list_lookup_insert_Some in Hy.
  destruct Hy as [(_ & <- & _)|[_ Hy]]; eauto.
Qed.

Lemma unique_keys_insert es i x :
  unique_keys es → (∀ j e, j ≠ i → es !! j = Some e → occ e → ekey e ≠ ekey x) →
  unique_keys (<[i:=x]> es).
Proof.
  intros H Hx j j' y y' Hy Hy' Ho Ho' Hk.
  apply list_lookup_insert_Some in Hy. apply list_lookup_insert_Some in Hy'.
  destruct Hy as [(<- & <- & _)|[Hne Hy]], Hy' as [(<- & <- & _)|[Hne' Hy']]; try done.
  - by destruct (Hx j' y').
  - by destruct (Hx j y).
  - by eapply H.
Qed.

Lemma has_insert es i e x k v :
  unique_keys es → es !! i = Some e →
  has (<[i:=x]> es) k v ↔
  (occ x ∧ ekey x = k ∧ evalue x = v) ∨
  (∃ j y, j ≠ i ∧ es !! j = Some y ∧ occ y ∧ ekey y = k ∧ evalue y = v).
Proof.
  intros Hu He. split.
  - intros (j & y & Hy & Ho & Hk & Hv). apply list_lookup_insert_Some in Hy.
    destruct Hy as [(<- & <- & _)|[Hne Hy]]; [by left|]. right. exists j, y. by split.
  - intros [(Ho & Hk & Hv)|(j & y & Hne & Hy & ? & ? & ?)].
    + exists i, x. by rewrite list_lookup_insert_eq by (by eapply lookup_lt_Some).
    + exists j, y. by rewrite list_lookup_insert_ne.
Qed.

Lemma refines_found ht m k v :
  ht_refines ht m → m !! k = Some v →
  ∃ j e, found_at (ht_capacity ht) (ht_entries ht) k j e ∧ evalue e = v.
Proof.
  intros ((Hc & [Hl Hs] & _) & Hnt & Hrh & Hu & Hm) Hk.
  apply Hm in Hk as (i & e & He & Ho & Hek & Hev).
  destruct (Hs _ _ He) as (Hb & Hoe & _). destruct (Hoe Ho) as (Hh & Hp & Hi).
  assert (e_hash e = ht_hash k) as Hhk by congruence.
  rewrite Hhk in Hi. exists (e_psl e), e. split; [|done]. split; [done|]. rewrite <-Hi.
  split; [done|]. split; [by eapply match_iff; eauto|].
  intros q Hq. destruct (Hrh _ _ He Ho q Hq) as (y & Hy & Hoy & Hle).
  rewrite Hhk in Hy. exists y. split; [done|].
  split; [unfold occ in Hoy; congruence|]. split; [done|].
  destruct (entry_key_match y _ k) eqn:E; [|done]. exfalso.
  eapply match_iff in E as [_ Hyk]; [|by eapply Hs].
  assert (slot (ht_capacity ht) (ht_hash k) q = i) as Heq by (eapply Hu; eauto; congruence).
  rewrite Hi in Heq. apply slot_inj in Heq; lia.
Qed.

Lemma refines_absent ht m k :
  ht_refines ht m → m !! k = None →
  ∀ i e, ht_entries ht !! i = Some e → entry_key_match e (ht_hash k) k = false.
Proof.
  intros ((Hc & [Hl Hs] & _) & _ & _ & _ & Hm) Hk i e He.
  destruct (entry_key_match e _ k) eqn:E; [|done].
  eapply match_iff in E as [Ho Hek]; [|by eapply Hs].
  assert (m !! k = Some (evalue e)); [|congruence]. apply Hm. by exists i, e.
Qed.

(** Setting a key that is present overwrites its value in place. *)
Lemma set_loop_update ht m key value inc j e :
  ht_refines ht m → found_at (ht_capacity ht) (ht_entries ht) key j e →
  (occupied (ht_entries ht) < length (ht_entries ht))%nat →
  zlen value <= ZEDIS_HT_MAX_VALUE → buf_ok inc →
  ht_set_loop (S (Z.to_nat (ht_capacity ht))) (ht_entries ht) (ht_capacity ht) (ht_count ht)
    (ht_hash key) key value (ht_hash key mod ht_capacity ht) 0 inc
  = Ok (<[slot (ht_capacity ht) (ht_hash key) j := overwritten e value]> (ht_entries ht),
        ht_count ht).
Proof.
  intros ((Hc & Hok & Hcnt) & Hnt & _) (Hj & He & Hme & Hpre) Hroom Hv Hinc.
  pose proof Hok as [Hl Hs]. set (cap := ht_capacity ht) in *.
  destruct (ht_set_loop_start cap (ht_count ht) (ht_entries ht) (ht_hash key) (ht_hash key)
    key value (λ n es psl _, es = ht_entries ht ∧ psl = n ∧ n <= j)
    (λ es' c, es' = <[slot cap (ht_hash key) j := overwritten e value]> (ht_entries ht) ∧
              c = ht_count ht)) with (inc := inc) as (es' & c' & -> & -> & ->); try done.
  - intros n es psl inc' x Hn _ (-> & -> & Hle) Hx Hno. exfalso.
    destruct (decide (n = j)) as [->|].
    + rewrite He in Hx. injection Hx as <-. eapply match_iff in Hme as [? _]; eauto.
    + destruct (Hpre n) as (y & Hy & Hst & _); [lia|]. rewrite Hx in Hy. injection Hy as <-.
      apply Hnt in Hx. unfold occ in Hno. by destruct (e_state x).
  - intros n es psl inc' x Hn _ (-> & -> & Hle) Hx Hm.
    destruct (decide (n = j)) as [->|].
    + rewrite He in Hx. by injection Hx as <-.
    + destruct (Hpre n) as (y & Hy & _ & _ & Hm'); [lia|]. rewrite Hx in Hy.
      injection Hy as <-. congruence.
  - intros n es psl inc' x Hn _ (-> & -> & Hle) Hx Ho Hm Hlt. exfalso.
    destruct (decide (n = j)) as [->|].
    + rewrite He in Hx. injection Hx as <-. congruence.
    + destruct (Hpre n) as (y & Hy & _ & Hp & _); [lia|]. rewrite Hx in Hy.
      injection Hy as <-. lia.
  - intros n es psl inc' x Hn _ (-> & -> & Hle) Hx Ho Hm Hge. split_and!; try done.
    destruct (decide (n = j)) as [->|]; [|lia]. rewrite He in Hx. injection Hx as <-. congruence.
  - intros q x _ Hx Ho. destruct (Hs _ _ Hx) as (_ & H & _). apply H in Ho. lia.
  - by eapply entries_ok_buf.
  - split_and!; try done; lia.
Qed.

(** The state of the insertion of a new key: the table holds every pair of
    [m'] but the one [inc] is carrying. *)
Record carrying (cap : Z) (key : list Z) (m' : gmap (list Z) (list Z))
    (n : Z) (es : list ht_entry) (psl : Z) (inc : ht_entry) : Prop := Carrying {
  ca_ok : entries_ok cap es;
  ca_nt : no_tombstone es;
  ca_rh : robin_hood cap es;
  ca_uniq : unique_keys es;
  ca_hash : e_hash inc = ht_hash (ekey inc);
  ca_at : slot cap (ht_hash key) n = slot cap (e_hash inc) psl;
  ca_reach : reach cap es (e_hash inc) psl;
  ca_fresh : ∀ i e, es !! i = Some e → occ e → ekey e ≠ ekey inc;
  ca_orig : ekey inc = key ∨
    ∃ j x, 0 <= j < n ∧ es !! slot cap (ht_hash key) j = Some x ∧ occ x ∧ ekey x = key;
  ca_content : ∀ k v, m' !! k = Some v ↔ has es k v ∨ (k = ekey inc ∧ v = evalue inc);
}.

Lemma carrying_no_match cap key m' n es psl inc e :
  0 < cap → 0 <= n < cap → carrying cap key m' n es psl inc →
  es !! slot cap (ht_hash key) n = Some e → entry_key_match e (ht_hash key) key = false.
Proof.
  intros Hc Hn H He. destruct (entry_key_match e _ key) eqn:E; [|done]. exfalso.
  destruct (ca_ok _ _ _ _ _ _ _ H) as [_ Hs].
  eapply match_iff in E as [Ho Hk]; [|by eapply Hs].
  destruct (ca_orig _ _ _ _ _ _ _ H) as [Hi|(j & x & Hj & Hx & Hox & Hkx)].
  - by apply (ca_fresh _ _ _ _ _ _ _ H _ e He Ho); rewrite Hk, Hi.
  - assert (slot cap (ht_hash key) j = slot cap (ht_hash key) n) as Heq.
    { eapply (ca_uniq _ _ _ _ _ _ _ H); eauto; congruence. }
    apply slot_inj in Heq; lia.
Qed.

Lemma carrying_swap cap key m' n es psl inc e :
  0 < cap → 0 <= n < cap → 0 <= psl <= n → buf_ok inc → carrying cap key m' n es psl inc →
  es !! slot cap (ht_hash key) n = Some e → occ e → e_psl e < psl →
  carrying cap key m' (n + 1) (<[slot cap (ht_hash key) n := stored e psl inc]> es)
    (e_psl e + 1) e.
Proof.
  intros Hc Hn Hp Hbi [Hok Hnt Hrh Hu Hh Hat Hr Hf Horig Hcont] He Ho Hlt.
  set (h := ht_hash key) in *. set (i := slot cap h n) in *.
  pose proof Hok as [_ Hs]. destruct (Hs _ _ He) as (Hbe & Hoe & _).
  destruct (Hoe Ho) as (Hhe & Hpe & Hate).
  destruct (stored_props e psl inc Hbe Hbi) as (Hbs & Ek & Ev).
  assert (<[i:=stored e psl inc]> es !! i = Some (stored e psl inc)) as Hnew.
  { apply list_lookup_insert_eq. by eapply lookup_lt_Some. }
  constructor.
  - apply entries_ok_store; done || lia.
  - by apply no_tombstone_insert.
  - apply robin_hood_insert with e; try done. intros _. cbn. split; [done|lia].
  - apply unique_keys_insert; [done|]. intros j x Hj Hx Hox. rewrite Ek. by eapply Hf.
  - done.
  - apply slot_shift; [lia|done].
  - intros q Hq. destruct (decide (q = e_psl e)) as [->|].
    + exists (stored e psl inc). rewrite <-Hate. split_and!; try done. cbn. lia.
    + eapply reach_insert; [by apply (Hrh i e)|done| |lia]. intros _. cbn. split; [done|lia].
  - intros j x Hx Hox. apply list_lookup_insert_Some in Hx.
    destruct Hx as [(_ & <- & _)|[Hne Hx]].
    + rewrite Ek. intros Heq. by apply (Hf i e).
    + intros Heq. apply Hne. symmetry. by eapply Hu.
  - right. destruct Horig as [Hi|(j & x & Hj & Hx & Hox & Hkx)].
    + exists n, (stored e psl inc). split_and!; try done; try lia. congruence.
    + exists j, x. split_and!; try done; try lia.
      rewrite list_lookup_insert_ne; [done|]. intros Heq. apply slot_inj in Heq; lia.
  - intros k v. rewrite Hcont, (has_insert es i e) by done. rewrite Ek, Ev. split.
    + intros [(j & y & Hy & Hoy & Hky & Hvy)|[-> ->]]; [|by left; left].
      destruct (decide (j = i)) as [->|]; [|left; right; by exists j, y].
      rewrite He in Hy. injection Hy as <-. right. done.
    + intros [[(_ & -> & ->)|(j & y & _ & Hy & ?)]|[-> ->]]; [by right|left; by exists j, y|].
      left. by exists i, e.
Qed.

Lemma carrying_step cap key m' n es psl inc e :
  0 < cap → carrying cap key m' n es psl inc →
  es !! slot cap (ht_hash key) n = Some e → occ e → psl <= e_psl e →
  carrying cap key m' (n + 1) es (psl + 1) inc.
Proof.
  intros Hc [Hok Hnt Hrh Hu Hh Hat Hr Hf Horig Hcont] He Ho Hge. constructor; try done.
  - by apply slot_shift.
  - intros q Hq. destruct (decide (q = psl)) as [->|]; [|apply Hr; lia].
    exists e. by rewrite <-Hat.
  - destruct Horig as [|(j & x & Hj & ?)]; [by left|]. right. exists j, x. by split; [lia|].
Qed.

Lemma carrying_done cap key m' n es psl inc e :
  0 < cap → 0 <= n < cap → 0 <= psl <= n → buf_ok inc → carrying cap key m' n es psl inc →
  es !! slot cap (ht_hash key) n = Some e → ¬ occ e →
  let es' := <[slot cap (ht_hash key) n := stored e psl inc]> es in
  no_tombstone es' ∧ robin_hood cap es' ∧ unique_keys es' ∧
  ∀ k v, m' !! k = Some v ↔ has es' k v.
Proof.
  intros Hc Hn Hp Hbi [Hok Hnt Hrh Hu Hh Hat Hr Hf Horig Hcont] He Hno. cbv zeta.
  pose proof Hok as [_ Hs]. destruct (Hs _ _ He) as (Hbe & _).
  destruct (stored_props e psl inc Hbe Hbi) as (Hbs & Ek & Ev).
  split_and!.
  - by apply no_tombstone_insert.
  - by apply robin_hood_insert with e.
  - apply unique_keys_insert; [done|]. intros j x Hj Hx Hox. rewrite Ek. by eapply Hf.
  - intros k v. rewrite Hcont, (has_insert es _ e) by done. rewrite Ek, Ev. split.
    + intros [(j & y & Hy & Hoy & Hky & Hvy)|[-> ->]]; [|by left].
      right. exists j, y. split; [|done]. intros ->. rewrite He in Hy. injection Hy as <-. done.
    + intros [(_ & -> & ->)|(j & y & _ & Hy & ?)]; [by right|]. left. by exists j, y.
Qed.

Lemma set_loop_insert ht m key value inc :
  ht_refines ht m → m !! key = None →
  (occupied (ht_entries ht) < length (ht_entries ht))%nat →
  zlen value <= ZEDIS_HT_MAX_VALUE →
  buf_ok inc → e_hash inc = ht_hash key → ekey inc = key → evalue inc = value →
  ∃ es' count',
    ht_set_loop (S (Z.to_nat (ht_capacity ht))) (ht_entries ht) (ht_capacity ht) (ht_count ht)
      (ht_hash key) key value (ht_hash key mod ht_capacity ht) 0 inc = Ok (es', count') ∧
    no_tombstone es' ∧ robin_hood (ht_capacity ht) es' ∧ unique_keys es' ∧
    ∀ k v, <[key:=value]> m !! k = Some v ↔ has es' k v.
Proof.
  intros Href Hkey Hroom Hv Hbi Hh Hk Hval.
  pose proof (refines_absent _ _ _ Href Hkey) as Habs.
  destruct Href as ((Hc & Hok & Hcnt) & Hnt & Hrh & Hu & Hm). pose proof Hok as [Hl Hs].
  apply ht_set_loop_start with
    (I := carrying (ht_capacity ht) key (<[key:=value]> m)); try done.
  - intros n es psl inc' e Hn (_ & _ & Hbi' & Hp & _) HI He Hno.
    eapply (carrying_done (ht_capacity ht)); eauto; lia.
  - intros n es psl inc' e Hn (_ & _ & Hbi' & Hp & _) HI He Hm'.
    erewrite (carrying_no_match (ht_capacity ht)) in Hm'; eauto; done || lia.
  - intros n es psl inc' e Hn (_ & _ & Hbi' & Hp & _) HI He Ho _ Hlt.
    eapply (carrying_swap (ht_capacity ht)); eauto; lia.
  - intros n es psl inc' e Hn _ HI He Ho _ Hge. eapply carrying_step; eauto; lia.
  - intros q x _ Hx Ho. destruct (Hs _ _ Hx) as (_ & H & _). apply H in Ho. lia.
  - by eapply entries_ok_buf.
  - constructor; try done; [congruence|by rewrite Hh|intros q ?; lia| |by left|].
    + intros i e He Ho Heq. specialize (Habs i e He).
      enough (entry_key_match e (ht_hash key) key = true) by congruence.
      eapply match_iff; [by eapply Hs|]. split; [done|congruence].
    + intros k v. rewrite Hk, Hval. destruct (decide (k = key)) as [->|Hne].
      * rewrite lookup_insert_eq. rewrite <-Hm, Hkey.
        split; [intros [= <-]; by right|by intros [?|[_ ->]]].
      * rewrite lookup_insert_ne, Hm by done. split; [by left|by intros [?|[? _]]].
Qed.

(** * The count is the number of keys *)

Lemma unique_keys_tail e es : unique_keys (e :: es) → unique_keys es.
Proof.
  intros H i j x y Hx Hy ? ? ?. enough (S i = S j) by congruence.
  by apply (H (S i) (S j) x y).
Qed.

Lemma elem_of_occ_keys (es : list ht_entry) (k : list Z) :
  k ∈ ekey <$> filter occ es ↔ ∃ i e, es !! i = Some e ∧ occ e ∧ ekey e = k.
Proof.
  rewrite list_elem_of_fmap. split.
  - intros (e & -> & He). apply list_elem_of_filter in He as [Ho He].
    apply list_elem_of_lookup in He as [i He]. by exists i, e.
  - intros (i & e & He & Ho & <-). exists e. split; [done|].
    apply list_elem_of_filter. split; [done|]. by apply list_elem_of_lookup_2 in He.
Qed.

Lemma unique_keys_NoDup es : unique_keys es → NoDup (ekey <$> filter occ es).
Proof.
  induction es as [|e es IH]; intros Hu; [by constructor|].
  rewrite filter_cons. pose proof (unique_keys_tail _ _ Hu) as Hu'.
  destruct (decide (occ e)) as [Ho|]; [|by apply IH]. cbn. constructor; [|by apply IH].
  intros (i & x & Hx & Hox & Hk)%elem_of_occ_keys.
  assert (0%nat = S i) by (by eapply Hu). done.
Qed.

Lemma refines_size ht m : ht_refines ht m → ht_count ht = Z.of_nat (size m).
Proof.
  intros ((_ & _ & ->) & _ & _ & Hu & Hm). f_equal. unfold occupied.
  rewrite <-(length_fmap ekey), <-size_dom.
  rewrite <-(size_list_to_set (C := gset (list Z))) by (by apply unique_keys_NoDup).
  f_equal. apply set_eq. intros k. rewrite elem_of_list_to_set, elem_of_occ_keys, elem_of_dom.
  split.
  - intros (i & e & He & Ho & Hk). exists (evalue e). apply Hm. by exists i, e.
  - intros [v (i & e & ? & ? & ? & ?)%Hm]. by exists i, e.
Qed.

(** * Deletion *)

Lemma ht_bury_props ht i e :
  ht_wf ht → ht_entries ht !! i = Some e → occ e →
  ht_wf (HashTable (<[i:=ht_bury e]> (ht_entries ht)) (ht_capacity ht) (u64 (ht_count ht - 1))) ∧
  u64 (ht_count ht - 1) = ht_count ht - 1.
Proof.
  intros (Hc & Hok & Hcnt) He Ho. pose proof Hok as [Hl Hs].
  pose proof (occupied_insert _ _ e (ht_bury e) He) as Hocc.
  rewrite decide_True, decide_False in Hocc by done.
  pose proof (occupied_le (ht_entries ht)). unfold zlen in Hl.
  assert (u64 (ht_count ht - 1) = ht_count ht - 1) as -> by (apply u64_small; lia).
  split; [|done]. unfold ht_wf. cbn [ht_count ht_entries ht_capacity].
  split; [done|]. split; [|lia].
  apply entries_ok_insert; [done|]. destruct (Hs _ _ He) as (Hb & _). split_and!; done.
Qed.

Lemma ht_del_cases ht key :
  ht_wf ht → ∃ r,
  ht_probe (ht_fuel (ht_capacity ht)) (ht_entries ht) (ht_capacity ht) (ht_hash key) key
    (ht_hash key mod ht_capacity ht) 0 = Ok r ∧
  match r with
  | None => zedis_ht_del ht key = Ok (RC_ERR, ht)
  | Some (i, e) => ∃ j, 0 <= j <= ht_capacity ht ∧
      ht_entries ht !! slot (ht_capacity ht) (ht_hash key) j = Some e ∧ occ e ∧ ekey e = key ∧
      zedis_ht_del ht key
      = Ok (RC_OK, HashTable (<[slot (ht_capacity ht) (ht_hash key) j := ht_bury e]> (ht_entries ht))
                    (ht_capacity ht) (ht_count ht - 1))
  end.
Proof.
  intros Hwf. pose proof Hwf as (Hc & Hok & Hcnt). pose proof Hok as [Hl Hs].
  destruct (ht_probe_total (ht_capacity ht) (ht_entries ht) key 0 (ht_fuel (ht_capacity ht)))
    as (r & Hr & Hpost); [done|done|lia|unfold ht_fuel; lia|].
  rewrite <-ht_probe_start in Hr. exists r. split; [done|].
  unfold zedis_ht_del. rewrite c_mod_ok by lia. cbn [mbind exec_bind].
  rewrite Hr. cbn [mbind exec_bind]. destruct r as [[i e]|]; [|done].
  destruct Hpost as (j & Hj & -> & He & Hm). exists j. split; [done|]. split; [done|].
  eapply match_iff in Hm as [Ho Hk]; [|by eapply Hs]. split; [done|]. split; [done|].
  rewrite aset_slot by (done || lia). cbn [mbind exec_bind].
  destruct (ht_bury_props ht _ e Hwf He Ho) as [_ ->]. done.
Qed.

(** Overwriting the value of the entry that holds [key]. *)
Lemma update_refines ht m key value j e :
  ht_refines ht m → found_at (ht_capacity ht) (ht_entries ht) key j e →
  zlen value <= ZEDIS_HT_MAX_VALUE →
  let es' := <[slot (ht_capacity ht) (ht_hash key) j := overwritten e value]> (ht_entries ht) in
  no_tombstone es' ∧ robin_hood (ht_capacity ht) es' ∧ unique_keys es' ∧
  ∀ k v, <[key:=value]> m !! k = Some v ↔ has es' k v.
Proof.
  intros ((Hc & Hok & Hcnt) & Hnt & Hrh & Hu & Hm) (Hj & He & Hme & _) Hv. cbv zeta.
  pose proof Hok as [_ Hs]. destruct (Hs _ _ He) as (Hb & _).
  destruct (overwritten_props e value Hb Hv) as (_ & Ek & Ev).
  eapply match_iff in Hme as [Ho Hk]; [|by eapply Hs].
  split_and!.
  - apply no_tombstone_insert; [done|]. by apply Hnt in He.
  - apply robin_hood_insert with e; [done..| |by eapply (Hrh _ e)].
    intros _. split; [done|]. cbn. lia.
  - apply unique_keys_insert; [done|]. intros i x Hi Hx Hox. rewrite Ek.
    intros Heq. apply Hi. by eapply Hu.
  - intros k v. rewrite (has_insert _ _ e) by done. rewrite Ek, Ev.
    destruct (decide (k = key)) as [->|Hne].
    + rewrite lookup_insert_eq. split; [intros [= <-]; by left|].
      intros [(_ & _ & ->)|(i & x & Hi & Hx & Hox & Hkx & _)]; [done|].
      exfalso. apply Hi. eapply Hu; eauto. congruence.
    + rewrite lookup_insert_ne, Hm by done. split.
      * intros (i & x & Hx & Hox & Hkx & Hvx). right. exists i, x. split; [|done].
        intros ->. rewrite He in Hx. injection Hx as <-. congruence.
      * intros [(_ & Heq & _)|(i & x & _ & Hx & ?)]; [congruence|]. by exists i, x.
Qed.

(** * Totality in every well-formed table *)

(** The loop adds at most one to the count. *)
Lemma set_loop_count fuel es cap count hash k v idx psl inc es' c' :
  0 <= count < 2 ^ 64 - 1 →
  ht_set_loop fuel es cap count hash k v idx psl inc = Ok (es', c') →
  count <= c' <= count + 1.
Proof.
  intros Hc. revert es idx psl inc.
  induction fuel as [|fuel IH]; intros es idx psl inc H; [done|]. cbn [ht_set_loop] in H.
  exec_inv. destruct (_ || _); [exec_inv; rewrite u64_small; lia|].
  destruct (entry_key_match _ _ _); [exec_inv; lia|].
  destruct (_ >? _); exec_inv; eauto.
Qed.

Lemma ht_set_total ht k v :
  ht_wf ht → ∃ rc ht', zedis_ht_set ht k v = Ok (rc, ht') ∧ ht_wf ht' ∧
    if (zlen k <=? ZEDIS_HT_MAX_KEY) && (zlen v <=? ZEDIS_HT_MAX_VALUE) && (ht_count ht * 10 <? ht_capacity ht * 7)
    then rc = RC_OK ∧ ht_count ht <= ht_count ht' <= ht_count ht + 1
    else rc = RC_ERR ∧ ht' = ht.
Proof.
  intros Hwf. pose proof (ht_set_cases ht k v Hwf) as H.
  destruct (_ && _) eqn:E.
  - destruct H as (inc & es' & c' & Hb & Hh & Hk & _ & Hrun & ->). zb.
    pose proof Hwf as (Hc & Hok & Hcnt).
    destruct (set_loop_wf (ht_capacity ht) (ht_entries ht) k v inc)
      as (es1 & c1 & Hrun1 & Hok1 & Hc1); try done; [by apply ht_load_room|].
    rewrite <-Hcnt, Hrun in Hrun1. injection Hrun1 as <- <-.
    do 2 eexists. split; [done|]. split; [exact (conj Hc (conj Hok1 Hc1))|].
    split; [done|]. eapply set_loop_count; [|exact Hrun].
    pose proof (occupied_le (ht_entries ht)). destruct Hok as [Hl _]. unfold zlen in Hl. lia.
  - by do 2 eexists.
Qed.

Lemma ht_get_total ht k c : ht_wf ht → ∃ o, zedis_ht_get ht k c = Ok o.
Proof.
  intros Hwf. pose proof Hwf as (Hc & Hok & _). destruct (ht_del_cases ht k Hwf) as (r & Hr & H).
  apply (get_of_probe _ _ c _ Hwf) in Hr. destruct r as [[i e]|]; [|by eexists].
  destruct H as (j & _ & He & _). destruct Hok as [_ Hs]. eexists. apply Hr. by eapply Hs.
Qed.

Lemma ht_del_total ht k :
  ht_wf ht → ∃ rc ht', zedis_ht_del ht k = Ok (rc, ht') ∧ ht_wf ht' ∧
    (rc = RC_ERR ∧ ht' = ht ∨ rc = RC_OK ∧ ht_count ht' = ht_count ht - 1).
Proof.
  intros Hwf. destruct (ht_del_cases ht k Hwf) as (r & _ & H).
  destruct r as [[i e]|]; [|do 2 eexists; split; [done|]; auto].
  destruct H as (j & _ & He & Ho & _ & ->). do 2 eexists. split; [done|].
  destruct (ht_bury_props ht _ e Hwf He Ho) as [H1 H2]. rewrite H2 in H1. auto.
Qed.

Lemma ht_set_found ht k v ht' :
  ht_wf ht → zedis_ht_set ht k v = Ok (RC_OK, ht') →
  ht_wf ht' ∧ ∃ j e, found_at (ht_capacity ht') (ht_entries ht') k j e ∧ evalue e = v.
Proof.
  intros Hwf Hset. pose proof (ht_set_cases ht k v Hwf) as H.
  destruct (ht_set_total ht k v Hwf) as (rc & ht1 & Hset1 & Hwf1 & _).
  rewrite Hset in Hset1. injection Hset1 as <- <-. split; [done|].
  destruct (_ && _) eqn:E; [|rewrite H in Hset; done].
  destruct H as (inc & es' & c' & Hb & Hh & Hk & Hv & Hrun & Hset'). zb.
  rewrite Hset' in Hset. injection Hset as <-. pose proof Hwf as (Hc & Hok & Hcnt).
  destruct (set_loop_found (ht_capacity ht) (ht_entries ht) (ht_count ht) k v inc)
    as (es1 & c1 & Hrun1 & Hf); try done; [by apply ht_load_room|].
  rewrite Hrun in Hrun1. by injection Hrun1 as <- <-.
Qed.

(** * What a deletion does to the searches *)

(** A search that gets to an entry nearer to its home than the search is to
    its own, gives up there. *)
Lemma ht_probe_gives_up cap es key q e n fuel :
  0 < cap < 2 ^ 32 → zlen es = cap → 0 <= q < cap → passed cap es key q →
  es !! slot cap (ht_hash key) q = Some e → e_psl e < q →
  entry_key_match e (ht_hash key) key = false →
  0 <= n <= q → q - n < Z.of_nat fuel →
  ht_probe fuel es cap (ht_hash key) key ((ht_hash key + n) mod cap) n = Ok None.
Proof.
  intros Hc Hl Hq Hp He Hlt Hm. revert n.
  induction fuel as [|fuel IH]; intros n Hn Hf; [lia|]. cbn [ht_probe].
  destruct (aget_slot es cap (ht_hash key) n) as (x & Hx & ->); [lia|done|].
  cbn [mbind exec_bind]. case_bool_decide; [done|].
  destruct (decide (n = q)) as [->|].
  - rewrite He in Hx. injection Hx as <-. rewrite Hm, Z.gtb_ltb.
    destruct (e_psl e <? q) eqn:E; zb; [done|lia].
  - destruct (Hp n ltac:(lia)) as (y & Hy & _ & Hle & Hmy). rewrite Hx in Hy. injection Hy as <-.
    rewrite Hmy, Z.gtb_ltb. destruct (e_psl x <? n) eqn:E; zb; [done|].
    rewrite idx_next by lia. cbn [mbind exec_bind]. rewrite u32_small by lia. apply IH; lia.
Qed.

(** The deletion of a key of a table without tombstones. *)
Lemma ht_del_refines ht m k v :
  ht_refines ht m → m !! k = Some v → ∃ j e,
    found_at (ht_capacity ht) (ht_entries ht) k j e ∧
    zedis_ht_del ht k
    = Ok (RC_OK, HashTable (<[slot (ht_capacity ht) (ht_hash k) j := ht_bury e]> (ht_entries ht))
                  (ht_capacity ht) (ht_count ht - 1)) ∧
    ht_wf (HashTable (<[slot (ht_capacity ht) (ht_hash k) j := ht_bury e]> (ht_entries ht))
             (ht_capacity ht) (ht_count ht - 1)).
Proof.
  intros Href Hk. destruct (refines_found _ _ _ _ Href Hk) as (j & e & Hf & _).
  exists j, e. split; [done|]. pose proof Href as (Hwf & _).
  pose proof Hwf as (Hc & [Hl Hs] & _). pose proof Hf as (Hj & He & Hm & _).
  destruct (ht_del_cases ht k Hwf) as (r & Hr & Hdel).
  rewrite ht_probe_start, (ht_probe_found _ _ _ j e) in Hr
    by (done || lia || (unfold ht_fuel; lia)). injection Hr as <-.
  destruct Hdel as (j' & Hj' & He' & Ho & Hk' & ->).
  assert (slot (ht_capacity ht) (ht_hash k) j' = slot (ht_capacity ht) (ht_hash k) j) as ->.
  { destruct Href as (_ & _ & _ & Hu & _). eapply Hu; eauto. }
  split; [done|]. destruct (ht_bury_props ht _ e Hwf He Ho) as [H1 H2]. by rewrite H2 in H1.
Qed.

(** No entry matches a deleted key any more. *)
Lemma buried_no_match ht m k j e i x :
  ht_refines ht m → found_at (ht_capacity ht) (ht_entries ht) k j e →
  <[slot (ht_capacity ht) (ht_hash k) j := ht_bury e]> (ht_entries ht) !! i = Some x →
  entry_key_match x (ht_hash k) k = false.
Proof.
  intros ((_ & [_ Hs] & _) & _ & _ & Hu & _) (Hj & He & Hm & _) Hx.
  apply list_lookup_insert_Some in Hx as [(_ & <- & _)|[Hne Hx]]; [done|].
  destruct (entry_key_match x _ k) eqn:E; [|done]. exfalso. apply Hne.
  eapply match_iff in E as [Ho Hk]; [|by eapply Hs].
  eapply match_iff in Hm as [Ho' Hk']; [|by eapply Hs]. eapply Hu; eauto. congruence.
Qed.

(** The search path of another key over the slot that was buried. *)
Lemma buried_passed ht m k j e k' n :
  ht_refines ht m → found_at (ht_capacity ht) (ht_entries ht) k j e → n <= ht_capacity ht →
  passed (ht_capacity ht) (ht_entries ht) k' n →
  (∀ q, 1 <= q < n →
     slot (ht_capacity ht) (ht_hash k') q ≠ slot (ht_capacity ht) (ht_hash k) j) →
  passed (ht_capacity ht) (<[slot (ht_capacity ht) (ht_hash k) j := ht_bury e]> (ht_entries ht)) k' n.
Proof.
  intros ((Hc & _) & _) (Hj & He & _) Hn Hp Havoid q Hq.
  destruct (decide (slot (ht_capacity ht) (ht_hash k') q = slot (ht_capacity ht) (ht_hash k) j))
    as [Heq|Hne].
  - assert (q = 0) as -> by (destruct (decide (q = 0)); [done|by destruct (Havoid q ltac:(lia))]).
    exists (ht_bury e). rewrite Heq, list_lookup_insert_eq by (by eapply lookup_lt_Some). done.
  - rewrite list_lookup_insert_ne by done. by apply Hp.
Qed.

(** * Tables from which keys were deleted *)

Lemma has_insert_sub es i x k v :
  has (<[i:=x]> es) k v → has es k v ∨ (occ x ∧ ekey x = k ∧ evalue x = v).
Proof.
  intros (j & y & Hy & Hrest). apply list_lookup_insert_Some in Hy as [(_ & <- & _)|[_ Hy]]; [by right|].
  left. by exists j, y.
Qed.

(** The loop only moves the pairs that are there and adds the new one. *)
Lemma set_loop_has cap es0 count key value inc es' c' (P : list Z → list Z → Prop) :
  0 < cap < 2 ^ 32 → entries_ok cap es0 → (occupied es0 < length es0)%nat →
  zlen value <= ZEDIS_HT_MAX_VALUE → buf_ok inc → ekey inc = key → evalue inc = value →
  ht_set_loop (S (Z.to_nat cap)) es0 cap count (ht_hash key) key value (ht_hash key mod cap) 0 inc = Ok (es', c') →
  P key value → (∀ k v, has es0 k v → P k v) → ∀ k v, has es' k v → P k v.
Proof.
  intros Hc Hes Hroom Hv Hinc Hk Hval Hrun HP H0. pose proof Hes as [Hl0 Hs0].
  assert (∃ es1 c1, ht_set_loop (S (Z.to_nat cap)) es0 cap count (ht_hash key) key value (ht_hash key mod cap) 0 inc = Ok (es1, c1) ∧
    ∀ k v, has es1 k v → P k v) as (es1 & c1 & Hrun1 & HQ); [|rewrite Hrun in Hrun1; by injection Hrun1 as <- <-].
  apply (ht_set_loop_start) with
    (I := λ (_ : Z) es (_ : Z) inc, P (ekey inc) (evalue inc) ∧ ∀ k v, has es k v → P k v); try done.
  - intros n es psl inc' e Hn (_ & Hb & Hbi & _) [Hi HI] He Hno k v. pose proof (Forall_lookup_1 _ _ _ _ Hb He) as Hbe.
    destruct (stored_props e psl inc' Hbe Hbi) as (_ & Ek & Ev).
    intros [?|(_ & <- & <-)]%has_insert_sub; [by apply HI|by rewrite Ek, Ev].
  - intros n es psl inc' e Hn (_ & Hb & _) [Hi HI] He Hm k v. pose proof (Forall_lookup_1 _ _ _ _ Hb He) as Hbe.
    destruct (overwritten_props e value Hbe Hv) as (_ & Ek & Ev).
    apply entry_key_match_spec in Hm as (_ & _ & Hke); [|done].
    intros [?|(_ & <- & <-)]%has_insert_sub; [by apply HI|by rewrite Ek, Ev, Hke].
  - intros n es psl inc' e Hn (_ & Hb & Hbi & _) [Hi HI] He Hoe Hm Hlt. pose proof (Forall_lookup_1 _ _ _ _ Hb He) as Hbe.
    destruct (stored_props e psl inc' Hbe Hbi) as (_ & Ek & Ev). split; [apply HI; by eexists _, _|].
    intros k v [?|(_ & <- & <-)]%has_insert_sub; [by apply HI|by rewrite Ek, Ev].
  - intros m e Hm He Ho. destruct (Hs0 _ _ He) as (_ & H & _). apply H in Ho. lia.
  - by eapply entries_ok_buf.
  - by rewrite Hk, Hval.
Qed.

(** Every pair of the table is one of [H]. *)
Definition ht_within (ht : hash_table) (H : list (list Z * list Z)) : Prop :=
  ht_wf ht ∧ ∀ k v, has (ht_entries ht) k v → (k, v) ∈ H.

Lemma ht_set_within ht H k v :
  ht_within ht H → ∃ rc ht', zedis_ht_set ht k v = Ok (rc, ht') ∧ ht_within ht' ((k, v) :: H) ∧
    ht_capacity ht' = ht_capacity ht ∧ (rc = RC_OK ∧ zlen k <= ZEDIS_HT_MAX_KEY ∧ zlen v <= ZEDIS_HT_MAX_VALUE ∨ rc = RC_ERR).
Proof.
  intros [Hwf Hin]. destruct (ht_set_total ht k v Hwf) as (rc & ht' & Hset & Hwf' & Hrc). exists rc, ht'. split; [done|].
  pose proof (ht_set_cases ht k v Hwf) as Hcases. destruct (_ && _) eqn:E.
  - destruct Hcases as (inc & es' & c' & Hb & _ & Hk & Hv & Hrun & Hset'). rewrite Hset in Hset'. injection Hset' as -> ->. zb.
    split; [|split; [done|left; lia]]. split; [done|]. pose proof Hwf as (Hc & Hok & _). cbn [ht_entries].
    eapply (set_loop_has _ _ _ k v inc es' c' (λ k' v', (k', v') ∈ (k, v) :: H)); try done; [by apply ht_load_room|set_solver|].
    intros k' v' Hh. right. by apply Hin.
  - destruct Hrc as [-> ->]. split; [|by auto]. split; [done|]. intros k' v' Hh. right. by apply Hin.
Qed.

Lemma ht_get_within ht H k c :
  ht_within ht H → zedis_ht_get ht k c = Ok None ∨
  ∃ v, (k, v) ∈ H ∧ zlen v <= ZEDIS_HT_MAX_VALUE ∧ zedis_ht_get ht k c = Ok (Some (get_result c v)).
Proof.
  intros [Hwf Hin]. pose proof Hwf as (_ & [_ Hs] & _). destruct (ht_del_cases ht k Hwf) as (r & Hr & Hd).
  apply (get_of_probe _ _ c _ Hwf) in Hr. destruct r as [[i e]|]; [right|by left].
  destruct Hd as (j & _ & He & Ho & Hk & _). destruct (Hs _ _ He) as [Hb _]. exists (evalue e).
  split; [apply Hin; by eexists _, _|]. split; [|by apply Hr]. rewrite zlen_evalue by done. destruct Hb as (_ & _ & _ & ?). lia.
Qed.

Lemma ht_del_within ht H k :
  ht_within ht H → zedis_ht_del ht k = Ok (RC_ERR, ht) ∨
  ∃ v ht', (k, v) ∈ H ∧ zedis_ht_del ht k = Ok (RC_OK, ht') ∧ ht_within ht' H ∧ ht_capacity ht' = ht_capacity ht.
Proof.
  intros [Hwf Hin]. destruct (ht_del_cases ht k Hwf) as (r & _ & Hd). destruct r as [[i e]|]; [right|by left].
  destruct Hd as (j & _ & He & Ho & Hk & Hdel). exists (evalue e). eexists. split; [apply Hin; by eexists _, _|]. split; [done|].
  split; [|done]. destruct (ht_bury_props ht _ e Hwf He Ho) as [H1 H2]. rewrite H2 in H1. split; [exact H1|].
  intros k' v' [?|(Hocc & _)]%has_insert_sub; [by apply Hin|done].
Qed.

(** A key that is not in the map is not deleted; a deletion leaves only pairs
    of the map without the key. *)
Lemma ht_del_map ht m k :
  ht_refines ht m →
  match m !! k with
  | None => zedis_ht_del ht k = Ok (RC_ERR, ht)
  | Some _ => ∃ ht', zedis_ht_del ht k = Ok (RC_OK, ht') ∧ ht_within ht' (map_to_list (delete k m)) ∧
                ht_capacity ht' = ht_capacity ht
  end.
Proof.
  intros Href. pose proof Href as (Hwf & _ & _ & _ & Hm). destruct (m !! k) as [v|] eqn:Ek.
  - destruct (ht_del_refines ht m k v Href Ek) as (j & e & Hf & Hdel & Hwf'). eexists. split; [done|]. split; [|done].
    split; [done|]. intros k' v' Hh. apply elem_of_map_to_list. pose proof Hh as (i & x & Hx & Hox & Hkx & _).
    rewrite lookup_delete_ne.
    + apply Hm. apply has_insert_sub in Hh as [?|(Hocc & _)]; [done|]. by cbn in Hocc.
    + intros <-. pose proof (buried_no_match ht m k j e i x Href Hf Hx) as Hno.
      assert (entry_key_match x (ht_hash k) k = true) as Hyes; [|congruence].
      destruct Hwf' as (_ & [_ Hs] & _). by eapply match_iff; [by eapply Hs|].
  - destruct (ht_del_cases ht k Hwf) as (r & _ & Hd). destruct r as [[i e]|]; [|done].
    destruct Hd as (j & _ & He & Ho & Hk & _). assert (m !! k = Some (evalue e)) as Hbad; [|congruence].
    apply Hm. by eexists _, _.
Qed.
