(* ===== verification/HashTableSpec.v ===== *)
(** What the hash table promises: an abstract key/value store, the interface
    [KeyStore] its clients rely on, and the theorems that relate
    src/hash_table.c to them.

    [spec_set] is the reference: a finite map that takes a pair when the key
    and the value fit their buffers and the map is below 70% of the capacity.
    [ht_history_refines] says that a table on which only set and get are used
    answers every call as the reference does.  The last two theorems are
    histories with a deletion on which the table does not. *)

From stdpp Require Import gmap.
From S2P Require Import Prelude Arena HashTable.

(** * The reference *)

Definition spec_accepts (cap : Z) (m : gmap (list Z) (list Z)) (k v : list Z) : bool :=
  (zlen k <=? ZEDIS_HT_MAX_KEY) && (zlen v <=? ZEDIS_HT_MAX_VALUE) &&
  (Z.of_nat (size m) * 10 <? cap * 7).

Definition spec_set (cap : Z) (m : gmap (list Z) (list Z)) (k v : list Z)
    : Z * gmap (list Z) (list Z) :=
  if spec_accepts cap m k v then (RC_OK, <[k:=v]> m) else (RC_ERR, m).

(** A call of the store's users and what it returns. *)
Inductive kv_op :=
  | OpSet (k v : list Z)
  | OpGet (k : list Z) (value_cap : Z).

Inductive kv_reply :=
  | ReplySet (rc : Z)
  | ReplyGet (out : option (list Z * Z)).

Fixpoint impl_run (ht : hash_table) (ops : list kv_op) : exec (list kv_reply * hash_table) :=
  match ops with
  | [] => Ok ([], ht)
  | OpSet k v :: ops' =>
      r ← zedis_ht_set ht k v;
      rest ← impl_run r.2 ops';
      Ok (ReplySet r.1 :: rest.1, rest.2)
  | OpGet k c :: ops' =>
      o ← zedis_ht_get ht k c;
      rest ← impl_run ht ops';
      Ok (ReplyGet o :: rest.1, rest.2)
  end.

Fixpoint spec_run (cap : Z) (m : gmap (list Z) (list Z)) (ops : list kv_op) : list kv_reply :=
  match ops with
  | [] => []
  | OpSet k v :: ops' =>
      let r := spec_set cap m k v in ReplySet r.1 :: spec_run cap r.2 ops'
  | OpGet k c :: ops' => ReplyGet (get_result c <$> m !! k) :: spec_run cap m ops'
  end.

(** * The interface for clients that never delete *)

Class KeyStore (T : Type) := {
  ks_set : T → list Z → list Z → exec (Z * T);
  ks_get : T → list Z → Z → exec (option (list Z * Z));
  ks_cap : T → Z;
  ks_refines : T → gmap (list Z) (list Z) → Prop;
  ks_get_ok t m k c : ks_refines t m → ks_get t k c = Ok (get_result c <$> m !! k);
  ks_set_ok t m k v : ks_refines t m → ∃ t',
    ks_set t k v = Ok ((spec_set (ks_cap t) m k v).1, t') ∧
    ks_refines t' (spec_set (ks_cap t) m k v).2 ∧ ks_cap t' = ks_cap t;
}.

(** * The table meets it *)

Lemma replicate_entries_ok cap : 0 < cap → entries_ok cap (replicate (Z.to_nat cap) zero_entry).
Proof.
  intros Hc. split; [rewrite zlen_replicate; lia|]. intros i e He.
  apply lookup_replicate in He as [-> _]. split; [|done].
  unfold buf_ok. cbn [zero_entry e_key e_value e_key_len e_value_len].
  rewrite !zlen_replicate. unfold ZEDIS_HT_MAX_KEY, ZEDIS_HT_MAX_VALUE. lia.
Qed.

Lemma occupied_zero n : occupied (replicate n zero_entry) = 0%nat.
Proof.
  unfold occupied. induction n as [|n IH]; [done|].
  change (replicate (S n) zero_entry) with (zero_entry :: replicate n zero_entry).
  rewrite filter_cons, decide_False by done. exact IH.
Qed.

Lemma ht_init_refines a cap ht a' :
  0 < cap < 2 ^ 32 → zedis_ht_init a cap = (RC_OK, Some ht, a') →
  ht_refines ht ∅ ∧ ht_capacity ht = cap.
Proof.
  intros Hc. unfold zedis_ht_init. destruct (cap =? 0) eqn:E; zb; [lia|].
  destruct (zedis_arena_calloc _ _ _ _) as [[p|] a'']; [|done].
  unfold SIZEOF_HT_ENTRY. rewrite calloc_array_eq by lia. intros [= <- <-].
  split; [|done]. unfold ht_refines, ht_wf. cbn [ht_entries ht_capacity ht_count].
  rewrite occupied_zero.
  assert (∀ i e, replicate (Z.to_nat cap) zero_entry !! i = Some e → e = zero_entry) as Hz.
  { intros i e He. by apply lookup_replicate in He as [-> _]. }
  split_and!; try done; try lia.
  - apply replicate_entries_ok. lia.
  - intros i e He%Hz. by subst.
  - intros i e He%Hz Ho. by subst.
  - intros i j e e' He%Hz _ Ho. by subst.
  - intros k v. rewrite lookup_empty. split; [done|].
    intros (i & e & He%Hz & Ho & _). by subst.
Qed.

Lemma ht_set_refines ht m k v :
  ht_refines ht m → ∃ ht',
    zedis_ht_set ht k v = Ok ((spec_set (ht_capacity ht) m k v).1, ht') ∧
    ht_refines ht' (spec_set (ht_capacity ht) m k v).2 ∧ ht_capacity ht' = ht_capacity ht.
Proof.
  intros Href. pose proof Href as (Hwf & Hnt & Hrh & Hu & Hm). pose proof Hwf as (Hc & Hok & Hcnt).
  pose proof (ht_set_cases ht k v Hwf) as Hcase.
  unfold spec_set, spec_accepts. rewrite <-(refines_size _ _ Href).
  destruct (_ && _) eqn:Hacc; [|by exists ht].
  destruct Hcase as (inc & es' & c' & Hbi & Hh & Hk & Hv & Hrun & Hset). zb.
  assert (occupied (ht_entries ht) < length (ht_entries ht))%nat as Hroom
    by (apply ht_load_room; [done|lia]).
  eexists. split; [exact Hset|]. split; [|done].
  destruct (set_loop_wf (ht_capacity ht) (ht_entries ht) k v inc)
    as (es1 & c1 & Hrun1 & Hok1 & Hc1); try done.
  rewrite <-Hcnt, Hrun in Hrun1. injection Hrun1 as <- <-.
  split; [exact (conj Hc (conj Hok1 Hc1))|]. cbn [ht_entries ht_capacity].
  destruct (m !! k) as [v0|] eqn:Hmk.
  - destruct (refines_found _ _ _ _ Href Hmk) as (j & e & Hf & Hev).
    rewrite (set_loop_update ht m k v inc j e) in Hrun by done. injection Hrun as <- _.
    by eapply update_refines.
  - destruct (set_loop_insert ht m k v inc) as (es2 & c2 & Hrun2 & Hpost); try done.
    rewrite Hrun in Hrun2. by injection Hrun2 as <- _.
Qed.

Lemma ht_get_refines ht m k c :
  ht_refines ht m → zedis_ht_get ht k c = Ok (get_result c <$> m !! k).
Proof.
  intros Href. pose proof Href as (Hwf & _).
  destruct (m !! k) as [v|] eqn:Hmk.
  - destruct (refines_found _ _ _ _ Href Hmk) as (j & e & Hf & <-). by eapply get_found.
  - pose proof Hwf as (Hc & Hok & _).
    destruct (ht_probe_total (ht_capacity ht) (ht_entries ht) k 0 (ht_fuel (ht_capacity ht)))
      as (r & Hr & Hpost); [done|done|lia|unfold ht_fuel; lia|].
    rewrite <-ht_probe_start in Hr. apply (get_of_probe _ _ c _ Hwf) in Hr.
    destruct r as [[i e]|]; [|done]. destruct Hpost as (j & _ & _ & He & Hm).
    by rewrite (refines_absent _ _ _ Href Hmk _ _ He) in Hm.
Qed.

#[export] Program Instance ht_KeyStore : KeyStore hash_table := {|
  ks_set := zedis_ht_set; ks_get := zedis_ht_get; ks_cap := ht_capacity;
  ks_refines := ht_refines;
|}.
Next Obligation. intros. by apply ht_get_refines. Qed.
Next Obligation. intros. by apply ht_set_refines. Qed.

Lemma impl_run_refines ht m ops :
  ht_refines ht m → ∃ ht', impl_run ht ops = Ok (spec_run (ht_capacity ht) m ops, ht').
Proof.
  revert ht m. induction ops as [|[k v|k c] ops IH]; intros ht m Href; cbn [impl_run spec_run].
  - by exists ht.
  - destruct (ht_set_refines ht m k v Href) as (ht1 & -> & Href1 & Hcap). cbn [mbind exec_bind].
    destruct (IH _ _ Href1) as (ht2 & IH2). exists ht2. cbn [fst snd]. rewrite IH2, Hcap. done.
  - rewrite (ht_get_refines _ _ k c Href). cbn [mbind exec_bind].
    destruct (IH _ _ Href) as (ht2 & ->). by exists ht2.
Qed.

(** * Theorems *)

(** C13: On a table fresh from zedis_ht_init, every sequence of set and get
    calls runs to its end without undefined behaviour and returns exactly
    what a finite map with the capacity's load limit returns. *)
Theorem ht_history_refines a cap ht a' ops :
  0 < cap < 2 ^ 32 → zedis_ht_init a cap = (RC_OK, Some ht, a') →
  ∃ ht', impl_run ht ops = Ok (spec_run cap ∅ ops, ht').
Proof.
  intros Hc Hinit. destruct (ht_init_refines _ _ _ _ Hc Hinit) as [Href <-].
  by apply impl_run_refines.
Qed.

(** The table of eight slots that the examples below start from. *)
Definition small_arena : arena := Arena 4096 2097152 0 0.
Definition small_table : hash_table := HashTable (replicate 8 zero_entry) 8 0.

Lemma ht_history_refines_witness :
  ∃ ht', impl_run small_table [OpSet [97] [1; 2]; OpSet [97] [3]; OpGet [97] 10; OpGet [98] 10]
  = Ok ([ReplySet 0; ReplySet 0; ReplyGet (Some ([3; 0], 1)); ReplyGet None], ht').
Proof.
  destruct (ht_history_refines small_arena 8 small_table (Arena 4096 2097152 35072 0)
    [OpSet [97] [1; 2]; OpSet [97] [3]; OpGet [97] 10; OpGet [98] 10]) as [ht' H].
  - lia.
  - vm_compute. reflexivity.
  - exists ht'. etransitivity; [exact H|]. vm_compute. reflexivity.
Defined.

(** A key that was just set is read back with the value it was given. *)
Lemma set_then_get ht k v ht' c :
  ht_wf ht → zedis_ht_set ht k v = Ok (RC_OK, ht') → zlen v < c →
  zedis_ht_get ht' k c = Ok (Some (v ++ [0], zlen v)).
Proof.
  intros Hwf Hset Hc. destruct (ht_set_found ht k v ht' Hwf Hset) as (Hwf' & j & e & Hf & Hev).
  rewrite (get_found _ _ c _ _ Hwf' Hf), Hev. do 2 f_equal. unfold get_result.
  pose proof (zlen_nonneg v). rewrite Z.gtb_ltb.
  destruct (0 <? c) eqn:E; zb; [|lia]. destruct (zlen v <? c) eqn:E2; zb; [|lia].
  unfold zlen. rewrite Nat2Z.id, take_ge by done. done.
Qed.

(** C17: In every well-formed table, with or without deleted entries, the three
    operations terminate without undefined behaviour and leave a well-formed
    table.  Set succeeds exactly when the key has at most 256 bytes, the value
    at most 4096 and fewer than 70% of the slots are occupied; it then adds at
    most one entry, and get returns the value that was set.  A refused call
    changes nothing. *)
Theorem ht_ops_total_wf ht k v c :
  ht_wf ht →
  (∃ rc ht', zedis_ht_set ht k v = Ok (rc, ht') ∧ ht_wf ht' ∧
     if (zlen k <=? ZEDIS_HT_MAX_KEY) && (zlen v <=? ZEDIS_HT_MAX_VALUE) && (ht_count ht * 10 <? ht_capacity ht * 7)
     then rc = RC_OK ∧ ht_count ht <= ht_count ht' <= ht_count ht + 1 ∧
          (zlen v < c → zedis_ht_get ht' k c = Ok (Some (v ++ [0], zlen v)))
     else rc = RC_ERR ∧ ht' = ht) ∧
  (∃ o, zedis_ht_get ht k c = Ok o) ∧
  (∃ rc ht', zedis_ht_del ht k = Ok (rc, ht') ∧ ht_wf ht' ∧
     (rc = RC_ERR ∧ ht' = ht ∨ rc = RC_OK ∧ ht_count ht' = ht_count ht - 1)).
Proof.
  intros Hwf. split_and!.
  - destruct (ht_set_total ht k v Hwf) as (rc & ht' & Hs & Hwf' & H). exists rc, ht'. split; [done|]. split; [done|].
    destruct (_ && _); [|done]. destruct H as [-> Hn]. split; [done|]. split; [done|]. intros Hc. exact (set_then_get _ _ _ _ _ Hwf Hs Hc).
  - by apply ht_get_total.
  - by apply ht_del_total.
Qed.

Lemma small_table_refines : ht_refines small_table ∅.
Proof.
  apply (ht_init_refines small_arena 8 _ (Arena 4096 2097152 35072 0)); [lia|].
  vm_compute. reflexivity.
Qed.

Lemma ht_ops_total_wf_witness :
  (∃ ht', zedis_ht_set small_table [97] [98] = Ok (RC_OK, ht') ∧ zedis_ht_get ht' [97] 10 = Ok (Some ([98; 0], 1))) ∧
  (∃ o, zedis_ht_get small_table [97] 10 = Ok o).
Proof.
  destruct (ht_ops_total_wf small_table [97] [98] 10) as ((rc & ht' & Hset & _ & Hok & _ & Hg) & Hget & _).
  - apply small_table_refines.
  - split; [|exact Hget]. exists ht'. split; [rewrite Hset, Hok; reflexivity|apply Hg; reflexivity].
Defined.

(** On a table from which nothing was deleted yet, del returns 0 exactly
    for the keys that are present, and a key that was deleted is not found by
    a later get. *)
Theorem ht_del_removes ht m k c :
  ht_refines ht m → ∃ rc ht',
    zedis_ht_del ht k = Ok (rc, ht') ∧ (rc = RC_OK ↔ is_Some (m !! k)) ∧
    zedis_ht_get ht' k c = Ok None.
Proof.
  intros Href. pose proof Href as (Hwf & _). destruct (m !! k) as [v|] eqn:Hk.
  - destruct (ht_del_refines ht m k v Href Hk) as (j & e & Hf & Hdel & Hwf').
    do 2 eexists. split; [exact Hdel|]. split; [done|].
    destruct (ht_del_cases _ k Hwf') as (r & Hr & H).
    apply (get_of_probe _ _ c _ Hwf') in Hr. destruct r as [[i x]|]; [|done].
    destruct H as (j' & _ & Hx & Ho & Hkx & _). exfalso.
    pose proof (buried_no_match _ _ _ _ _ _ _ Href Hf Hx) as Hm.
    enough (entry_key_match x (ht_hash k) k = true) by congruence.
    eapply match_iff; [|done]. by apply Hwf'.
  - destruct (ht_del_cases ht k Hwf) as (r & Hr & H). destruct r as [[i x]|].
    + destruct H as (j' & _ & Hx & Ho & Hkx & _). exfalso.
      assert (entry_key_match x (ht_hash k) k = true) as Hm.
      { eapply match_iff; [|done]. by apply Hwf. }
      by rewrite (refines_absent _ _ _ Href Hk _ _ Hx) in Hm.
    + do 2 eexists. split; [exact H|]. split; [by split; [|intros []]|].
      rewrite (ht_get_refines _ _ _ _ Href), Hk. done.
Qed.

(** The tables of the examples: SET a, SET i, SET q, all with home slot 4. *)
Definition run_sets (kvs : list (list Z * list Z)) : exec hash_table :=
  foldl (λ acc kv, ht ← acc; r ← zedis_ht_set ht kv.1 kv.2; Ok r.2) (Ok small_table) kvs.

Lemma run_sets_refines kvs :
  ∃ ht m, run_sets kvs = Ok ht ∧ ht_refines ht m ∧ ht_capacity ht = 8 ∧
    m = foldl (λ m kv, (spec_set 8 m kv.1 kv.2).2) ∅ kvs.
Proof.
  induction kvs as [|kv kvs IH] using rev_ind.
  - exists small_table, ∅. split; [done|]. split; [apply small_table_refines|done].
  - destruct IH as (ht & m & Hrun & Href & Hcap & ->). unfold run_sets in *.
    rewrite !foldl_app, Hrun. cbn [foldl mbind exec_bind].
    destruct (ht_set_refines ht _ kv.1 kv.2 Href) as (ht' & -> & Href' & Hcap').
    cbn [mbind exec_bind snd]. rewrite Hcap in Href'. do 2 eexists. split_and!; try done. congruence.
Qed.

Lemma ht_del_removes_witness :
  ∃ ht rc ht', run_sets [([97], [1]); ([105], [2])] = Ok ht ∧
    zedis_ht_del ht [97] = Ok (rc, ht') ∧ zedis_ht_get ht' [97] 10 = Ok None.
Proof.
  destruct (run_sets_refines [([97], [1]); ([105], [2])]) as (ht & m & Hrun & Href & _).
  destruct (ht_del_removes ht m [97] 10 Href) as (rc & ht' & Hdel & _ & Hget).
  exists ht, rc, ht'. auto.
Defined.

(** C18: After the first deletion of a key [k], another key [k'] that is still
    stored is read back if the slot of [k] is not strictly between the home
    slot and the slot of [k'], and is lost (get answers -1) if it is: a
    tombstone has psl 0 and the search of get stops at it. *)
Theorem ht_del_loses_keys ht m k v k' v' c :
  ht_refines ht m → m !! k = Some v → m !! k' = Some v' → k ≠ k' →
  ∃ j j' e e' ht',
    found_at (ht_capacity ht) (ht_entries ht) k j e ∧
    found_at (ht_capacity ht) (ht_entries ht) k' j' e' ∧
    zedis_ht_del ht k = Ok (RC_OK, ht') ∧
    ((∃ q, 1 <= q < j' ∧
        slot (ht_capacity ht) (ht_hash k') q = slot (ht_capacity ht) (ht_hash k) j) →
     zedis_ht_get ht' k' c = Ok None) ∧
    ((∀ q, 1 <= q < j' →
        slot (ht_capacity ht) (ht_hash k') q ≠ slot (ht_capacity ht) (ht_hash k) j) →
     zedis_ht_get ht' k' c = Ok (Some (get_result c v'))).
Proof.
  intros Href Hk Hk' Hne.
  destruct (ht_del_refines ht m k v Href Hk) as (j & e & Hf & Hdel & Hwf').
  destruct (refines_found _ _ _ _ Href Hk') as (j' & e' & Hf' & Hev).
  exists j, j', e, e'. eexists. split; [done|]. split; [done|]. split; [exact Hdel|].
  pose proof Hf as (Hj & He & Hm & _). pose proof Hf' as (Hj' & He' & Hm' & Hpre').
  pose proof Href as ((Hc & [Hl Hs] & _) & _). split.
  - intros (q & Hq & Heq). eapply (get_of_probe _ _ c None Hwf').
    rewrite ht_probe_start.
    eapply (ht_probe_gives_up (ht_capacity ht) _ k' q (ht_bury e)); cbn [ht_entries].
    + done.
    + by rewrite zlen_insert.
    + lia.
    + eapply buried_passed; [done..|lia| |].
      * intros i Hi. apply Hpre'. lia.
      * intros i Hi Heqi. rewrite <-Heq in Heqi. apply slot_inj in Heqi; lia.
    + rewrite Heq, list_lookup_insert_eq; [done|by eapply lookup_lt_Some].
    + cbn. lia.
    + done.
    + lia.
    + unfold ht_fuel. cbn [ht_capacity]. lia.
  - intros Havoid. rewrite <-Hev. eapply get_found; [done|]. cbn [ht_entries ht_capacity].
    assert (slot (ht_capacity ht) (ht_hash k') j' ≠ slot (ht_capacity ht) (ht_hash k) j).
    { intros Heq. rewrite <-Heq, He' in He. injection He as ->.
      eapply match_iff in Hm as [_ ?]; [|by eapply Hs].
      eapply match_iff in Hm' as [_ ?]; [|by eapply Hs]. congruence. }
    split; [done|]. rewrite list_lookup_insert_ne by done. split; [done|]. split; [done|].
    eapply buried_passed; eauto. lia.
Qed.

(** SET a; SET i; SET q; DEL i; then GET q finds nothing. *)
Lemma ht_del_loses_keys_witness :
  ∃ ht ht', run_sets [([97], [1]); ([105], [2]); ([113], [3])] = Ok ht ∧
    zedis_ht_get ht [113] 10 = Ok (Some ([3; 0], 1)) ∧
    zedis_ht_del ht [105] = Ok (RC_OK, ht') ∧ zedis_ht_get ht' [113] 10 = Ok None.
Proof.
  destruct (run_sets_refines [([97], [1]); ([105], [2]); ([113], [3])])
    as (ht & m & Hrun & Href & _ & Hm).
  destruct (ht_del_loses_keys ht m [105] [2] [113] [3] 10 Href)
    as (j & j' & e & e' & ht' & _ & _ & Hdel & _ & _).
  - rewrite Hm. vm_compute. reflexivity.
  - rewrite Hm. vm_compute. reflexivity.
  - done.
  - exists ht, ht'. split; [done|]. vm_compute in Hrun. injection Hrun as <-.
    split; [vm_compute; reflexivity|]. split; [exact Hdel|].
    vm_compute in Hdel. injection Hdel as <-. vm_compute. reflexivity.
Defined.

(** Deleting a key does not remove it when an older copy of it survives in
    a later slot: zedis_ht_set fills the first tombstone it meets without
    looking for the key behind it, so the history SET a, SET i 1, DEL a,
    SET i 2 stores i twice, and after DEL i the next GET i answers the value
    that had been overwritten. *)
Theorem ht_del_resurrects_old_value :
  ∃ ht1 ht2 ht3 ht4,
    run_sets [([97], [7]); ([105], [1])] = Ok ht1 ∧
    zedis_ht_del ht1 [97] = Ok (RC_OK, ht2) ∧
    zedis_ht_set ht2 [105] [2] = Ok (RC_OK, ht3) ∧ ht_count ht3 = 2 ∧
    zedis_ht_get ht3 [105] 10 = Ok (Some ([2; 0], 1)) ∧
    zedis_ht_del ht3 [105] = Ok (RC_OK, ht4) ∧
    zedis_ht_get ht4 [105] 10 = Ok (Some ([1; 0], 1)).
Proof.
  do 4 eexists. repeat (split; [vm_compute; reflexivity|]). vm_compute. reflexivity.
Qed.
