(* ===== verification/OrderBook.v ===== *)
(** The limit-order book of src/order_book.c.

    [order_book] is the C struct with the price levels as a list.  Prices are
    [int] and quantities [int64_t]: the additions are checked for signed
    overflow, which is undefined behaviour.  Theorems: no quantity is ever
    negative; a sequence of orders computes, per price and side, the running
    sum clamped at zero; where the addition overflows. *)

From S2P Require Import Prelude Arena.

Record price_level := PriceLevel {
  bid_qty : Z;
  ask_qty : Z;
}.

Record order_book := OrderBook {
  levels : list price_level;
  price_min : Z;
  price_max : Z;
  num_levels : Z;
}.

Definition SIZEOF_PRICE_LEVEL : Z := 16.

Definition price_to_index (book : order_book) (price : Z) : exec Z :=
  if (price <? price_min book) || (price >? price_max book) then Ok (-1)
  else chk_i32 (price - price_min book).

Definition zedis_book_init (a : arena) (pmin pmax : Z)
    : exec (Z * option order_book * arena) :=
  if pmax <? pmin then Ok (RC_ERR, None, a) else
  diff ← chk_i32 (pmax - pmin);
  num ← chk_i32 (diff + 1);
  match zedis_arena_calloc a num SIZEOF_PRICE_LEVEL 64 with
  | (None, a') => Ok (RC_ERR, None, a')
  | (Some _, a') =>
      Ok (RC_OK,
          Some (OrderBook (calloc_array num SIZEOF_PRICE_LEVEL (PriceLevel 0 0)) pmin pmax num), a')
  end.

Definition zedis_book_destroy (book : order_book) : order_book := OrderBook [] 0 0 0.

Definition zedis_book_bid (book : order_book) (price qty : Z) : exec (Z * order_book) :=
  idx ← price_to_index book price;
  if idx <? 0 then Ok (RC_ERR, book) else
  l ← aget (levels book) idx;
  sum ← chk_i64 (bid_qty l + qty);
  let bid := if sum <? 0 then 0 else sum in
  ls ← aset (levels book) idx (PriceLevel bid (ask_qty l));
  Ok (RC_OK, OrderBook ls (price_min book) (price_max book) (num_levels book)).

Definition zedis_book_ask (book : order_book) (price qty : Z) : exec (Z * order_book) :=
  idx ← price_to_index book price;
  if idx <? 0 then Ok (RC_ERR, book) else
  l ← aget (levels book) idx;
  sum ← chk_i64 (ask_qty l + qty);
  let ask := if sum <? 0 then 0 else sum in
  ls ← aset (levels book) idx (PriceLevel (bid_qty l) ask);
  Ok (RC_OK, OrderBook ls (price_min book) (price_max book) (num_levels book)).

(** [*bid_out] and [*ask_out], or nothing where it returns -1. *)
Definition zedis_book_level (book : order_book) (price : Z) : exec (option (Z * Z)) :=
  idx ← price_to_index book price;
  if idx <? 0 then Ok None else
  l ← aget (levels book) idx;
  Ok (Some (bid_qty l, ask_qty l)).

(** * Invariant *)

Definition int64 (z : Z) : Prop := INT64_MIN <= z <= INT64_MAX.

Definition level_ok (l : price_level) : Prop :=
  0 <= bid_qty l <= INT64_MAX ∧ 0 <= ask_qty l <= INT64_MAX.

Definition book_wf (b : order_book) : Prop :=
  INT32_MIN <= price_min b <= price_max b ∧ price_max b - price_min b < INT32_MAX ∧
  num_levels b = price_max b - price_min b + 1 ∧ zlen (levels b) = num_levels b ∧
  Forall level_ok (levels b).

(** * The reference: one (bid, ask) pair per price *)

Inductive side := Bid | Ask.

Record order := Order { o_side : side; o_price : Z; o_qty : Z }.

Definition place (b : order_book) (o : order) : exec (Z * order_book) :=
  match o_side o with
  | Bid => zedis_book_bid b (o_price o) (o_qty o)
  | Ask => zedis_book_ask b (o_price o) (o_qty o)
  end.

Fixpoint place_all (b : order_book) (os : list order) : exec (list Z * order_book) :=
  match os with
  | [] => Ok ([], b)
  | o :: os' =>
      r ← place b o;
      rest ← place_all r.2 os';
      Ok (r.1 :: rest.1, rest.2)
  end.

Definition spec_place (o : order) (l : price_level) : price_level :=
  match o_side o with
  | Bid => PriceLevel (Z.max 0 (bid_qty l + o_qty o)) (ask_qty l)
  | Ask => PriceLevel (bid_qty l) (Z.max 0 (ask_qty l + o_qty o))
  end.

(** The level at price [p] after the orders [os], from the level [l]. *)
Definition spec_level (p : Z) (os : list order) (l : price_level) : price_level :=
  foldl (λ l o, if o_price o =? p then spec_place o l else l) l os.

(** The most the orders can add to a level. *)
Definition total_qty (os : list order) : Z := foldr (λ o t, Z.max 0 (o_qty o) + t) 0 os.

Definition in_range (b : order_book) (p : Z) : Prop := price_min b <= p <= price_max b.

Definition level_at (b : order_book) (p : Z) : option price_level :=
  levels b !! Z.to_nat (p - price_min b).

(** * Lemmas *)

Lemma price_to_index_in b p :
  book_wf b → in_range b p → price_to_index b p = Ok (p - price_min b).
Proof.
  intros (H1 & H2 & _) Hp. unfold in_range in Hp. unfold price_to_index.
  rewrite Z.gtb_ltb.
  destruct (p <? price_min b) eqn:E; zb; [lia|]. destruct (price_max b <? p) eqn:E'; zb; [lia|].
  cbn [orb]. apply chk_i32_ok. unfold INT32_MIN, INT32_MAX in *. lia.
Qed.

Lemma price_to_index_out b p : ¬ in_range b p → price_to_index b p = Ok (-1).
Proof.
  intros Hp. unfold in_range in Hp. unfold price_to_index. rewrite Z.gtb_ltb.
  destruct (p <? price_min b) eqn:E; [done|]. destruct (price_max b <? p) eqn:E'; [done|].
  zb. lia.
Qed.

Lemma level_at_in b p :
  book_wf b → in_range b p →
  ∃ l, level_at b p = Some l ∧ level_ok l ∧ aget (levels b) (p - price_min b) = Ok l.
Proof.
  intros (H1 & H2 & H3 & H4 & H5) Hp. unfold in_range in Hp.
  destruct (aget_ok (levels b) (p - price_min b)) as (l & ? & Hl); [lia|].
  exists l. split; [done|]. split; [|done]. by eapply Forall_lookup_1.
Qed.

(** The book with the level of [p] replaced. *)
Definition with_level (b : order_book) (p : Z) (l : price_level) : order_book :=
  OrderBook (<[Z.to_nat (p - price_min b) := l]> (levels b))
    (price_min b) (price_max b) (num_levels b).

Lemma with_level_wf b p l : book_wf b → level_ok l → book_wf (with_level b p l).
Proof.
  intros (H1 & H2 & H3 & H4 & H5) Hl. unfold book_wf, with_level; cbn.
  split_and!; try done; try lia; [by rewrite zlen_insert|by apply Forall_insert].
Qed.

Lemma with_level_at b p q l :
  book_wf b → in_range b p → in_range b q →
  level_at (with_level b p l) q = if p =? q then Some l else level_at b q.
Proof.
  intros (H1 & H2 & H3 & H4 & _) Hp Hq. unfold in_range in *. unfold zlen in H4.
  unfold level_at, with_level; cbn. destruct (p =? q) eqn:E; zb.
  - subst. apply list_lookup_insert_eq. lia.
  - apply list_lookup_insert_ne. lia.
Qed.

Lemma max0_if s : (if s <? 0 then 0 else s) = Z.max 0 s.
Proof. destruct (s <? 0) eqn:E; zb; lia. Qed.

(** One order, on a price of the book. *)
(** The quantity of one side. *)
Definition side_qty (sd : side) (l : price_level) : Z := match sd with Bid => bid_qty l | Ask => ask_qty l end.

(** An order inside the book adds to its side, or overflows there. *)
Lemma place_level b o l :
  book_wf b → in_range b (o_price o) → int64 (o_qty o) → level_at b (o_price o) = Some l →
  if side_qty (o_side o) l + o_qty o <=? INT64_MAX
  then place b o = Ok (RC_OK, with_level b (o_price o) (spec_place o l)) ∧ level_ok (spec_place o l)
  else place b o = Stuck SignedOverflow.
Proof.
  intros Hwf Hp Hq Hl. destruct (level_at_in b _ Hwf Hp) as (l' & Hl' & Hok & Hget).
  rewrite Hl in Hl'. injection Hl' as <-.
  pose proof Hwf as (H1 & H2 & H3 & H4 & _). unfold in_range in Hp.
  destruct Hok as [Hb0 Ha0]. unfold int64, INT64_MIN in *.
  unfold place, spec_place, level_ok, side_qty, zedis_book_bid, zedis_book_ask in *.
  destruct (o_side o); rewrite price_to_index_in by done; cbn [mbind exec_bind];
    (destruct (_ <? 0) eqn:E; zb; [lia|]); rewrite Hget; cbn [mbind exec_bind];
    (destruct (_ <=? INT64_MAX) eqn:E2; zb;
     [rewrite chk_i64_ok by (unfold INT64_MIN; lia); cbn [mbind exec_bind]; rewrite aset_ok, max0_if by lia; split; try done; cbn; lia
     |unfold chk_i64; destruct (_ && _) eqn:E3; zb; [lia|done]]).
Qed.

Lemma place_in b o l :
  book_wf b → in_range b (o_price o) → int64 (o_qty o) →
  level_at b (o_price o) = Some l → bid_qty l + o_qty o <= INT64_MAX →
  ask_qty l + o_qty o <= INT64_MAX →
  place b o = Ok (RC_OK, with_level b (o_price o) (spec_place o l)) ∧ level_ok (spec_place o l).
Proof.
  intros Hwf Hp Hq Hl Hb Ha. pose proof (place_level b o l Hwf Hp Hq Hl) as H.
  destruct (_ <=? _) eqn:E; [done|]. zb. unfold side_qty in E. destruct (o_side o); lia.
Qed.

Lemma place_out b o : ¬ in_range b (o_price o) → place b o = Ok (RC_ERR, b).
Proof.
  intros Hp. unfold place, zedis_book_bid, zedis_book_ask.
  by destruct (o_side o); rewrite price_to_index_out.
Qed.

Lemma book_init_wf a pmin pmax b a' :
  INT32_MIN <= pmin → pmax <= INT32_MAX →
  zedis_book_init a pmin pmax = Ok (RC_OK, Some b, a') →
  book_wf b ∧ price_min b = pmin ∧ price_max b = pmax ∧
  ∀ p, in_range b p → level_at b p = Some (PriceLevel 0 0).
Proof.
  unfold zedis_book_init. intros Hmin Hmax. destruct (pmax <? pmin) eqn:E; zb; [done|].
  unfold chk_i32. destruct (_ && _) eqn:E1; [|done]. cbn [mbind exec_bind].
  destruct ((INT32_MIN <=? pmax - pmin + 1) && _) eqn:E2; [|done]. cbn [mbind exec_bind]. zb.
  destruct (zedis_arena_calloc _ _ _ _) as [[q|] a'']; [|done].
  rewrite calloc_array_eq by (unfold SIZEOF_PRICE_LEVEL, INT32_MIN, INT32_MAX in *; lia).
  intros [= <- <-]. unfold book_wf, in_range, level_at; cbn. rewrite zlen_replicate.
  split_and!; try done; try lia.
  - apply Forall_replicate. unfold level_ok, INT64_MAX; cbn. lia.
  - intros p Hp. apply lookup_replicate. split; [done|]. lia.
Qed.

Definition rc_of_order (b : order_book) (o : order) : Z :=
  if (price_min b <=? o_price o) && (o_price o <=? price_max b) then RC_OK else RC_ERR.

Definition room_for (b : order_book) (t : Z) : Prop :=
  ∀ p l, in_range b p → level_at b p = Some l →
    bid_qty l + t <= INT64_MAX ∧ ask_qty l + t <= INT64_MAX.

Lemma total_qty_nonneg os : 0 <= total_qty os.
Proof. induction os; unfold total_qty in *; cbn [foldr]; lia. Qed.

Lemma total_qty_cons o os : total_qty (o :: os) = Z.max 0 (o_qty o) + total_qty os.
Proof. done. Qed.

Lemma place_room b o l os :
  book_wf b → in_range b (o_price o) → level_at b (o_price o) = Some l → level_ok l →
  room_for b (total_qty (o :: os)) →
  room_for (with_level b (o_price o) (spec_place o l)) (total_qty os).
Proof.
  intros Hwf Hp Hl (Hb & Ha) Hroom p l' Hp' Hl'.
  assert (in_range b p) as Hpb by exact Hp'. rewrite with_level_at in Hl' by done.
  pose proof (total_qty_nonneg os).
  destruct (o_price o =? p) eqn:E; zb.
  - subst p. injection Hl' as <-. destruct (Hroom _ _ Hp Hl). rewrite total_qty_cons in *.
    unfold spec_place. destruct (o_side o); cbn; lia.
  - destruct (Hroom _ _ Hpb Hl'). rewrite total_qty_cons in *. lia.
Qed.

Lemma place_all_refines b os :
  book_wf b → Forall (λ o, int64 (o_qty o)) os → room_for b (total_qty os) →
  ∃ b', place_all b os = Ok (rc_of_order b <$> os, b') ∧ book_wf b' ∧
    price_min b' = price_min b ∧ price_max b' = price_max b ∧
    ∀ p l, in_range b p → level_at b p = Some l → level_at b' p = Some (spec_level p os l).
Proof.
  revert b. induction os as [|o os IH]; intros b Hwf Hq Hroom; [by exists b|].
  apply Forall_cons in Hq as [Hqo Hq]. pose proof (total_qty_nonneg os).
  destruct (decide (price_min b <= o_price o <= price_max b)) as [Hp|Hp].
  - destruct (level_at_in b _ Hwf Hp) as (l & Hl & Hok & _).
    destruct (place_in b o l) as [Hpl Hok']; try done.
    1,2: destruct (Hroom _ _ Hp Hl) as [? ?]; rewrite total_qty_cons in *; lia.
    set (b1 := with_level b (o_price o) (spec_place o l)) in *.
    destruct (IH b1) as (b' & Hrun & Hwf' & Hmin & Hmax & Hlev).
    { by apply with_level_wf. } { done. } { by apply place_room. }
    exists b'. cbn [place_all]. rewrite Hpl. cbn [mbind exec_bind snd]. rewrite Hrun.
    split_and!; try done.
    + cbn. do 3 f_equal. unfold rc_of_order.
      destruct (_ && _) eqn:E; [done|]. apply andb_false_iff in E as [|]; zb; lia.
    + intros p l0 Hp0 Hl0. assert (in_range b1 p) as Hp1 by exact Hp0.
      cbn [spec_level foldl]. unfold spec_level in Hlev.
      destruct (o_price o =? p) eqn:E; zb; apply Hlev; try done; unfold b1;
        rewrite with_level_at by done.
      * subst p. rewrite Hl in Hl0. injection Hl0 as <-. by rewrite Z.eqb_refl.
      * by rewrite (proj2 (Z.eqb_neq _ _) E).
  - destruct (IH b) as (b' & Hrun & Hwf' & Hmin & Hmax & Hlev); try done.
    { intros p l Hp' Hl'. destruct (Hroom _ _ Hp' Hl'). rewrite total_qty_cons in *. lia. }
    exists b'. cbn [place_all]. rewrite place_out by done. cbn [mbind exec_bind snd]. rewrite Hrun.
    split_and!; try done.
    + cbn. do 3 f_equal. unfold rc_of_order.
      destruct (_ && _) eqn:E; zb; [lia|done].
    + intros p l Hp' Hl'. cbn [spec_level foldl]. unfold spec_level in Hlev.
      destruct (o_price o =? p) eqn:E; zb; [|by apply Hlev].
      exfalso. apply Hp. subst p. exact Hp'.
Qed.

(** * Theorems *)

(** C16: A sequence of BID and ASK orders, on prices inside and outside the
    book, runs without undefined behaviour as long as the positive quantities
    cannot reach INT64_MAX; it answers -1 exactly for prices outside the book,
    and afterwards every level shows, per side, the sum of its orders clamped
    at zero after each one. *)
Theorem book_orders_refine b os :
  book_wf b → Forall (λ o, int64 (o_qty o)) os → room_for b (total_qty os) →
  ∃ b', place_all b os = Ok (rc_of_order b <$> os, b') ∧ book_wf b' ∧
    ∀ p, in_range b p → ∃ l, level_at b p = Some l ∧
      zedis_book_level b' p
      = Ok (Some (bid_qty (spec_level p os l), ask_qty (spec_level p os l))).
Proof.
  intros Hwf Hq Hroom.
  destruct (place_all_refines b os Hwf Hq Hroom) as (b' & Hrun & Hwf' & Hmin & Hmax & Hlev).
  exists b'. split; [done|]. split; [done|]. intros p Hp.
  destruct (level_at_in b p Hwf Hp) as (l & Hl & _). exists l. split; [done|].
  assert (in_range b' p) as Hp' by (unfold in_range in *; lia).
  destruct (level_at_in b' p Hwf' Hp') as (l' & Hl' & _ & Hget).
  rewrite (Hlev p l Hp Hl) in Hl'. injection Hl' as <-.
  unfold zedis_book_level. rewrite price_to_index_in by done. cbn [mbind exec_bind].
  unfold in_range in Hp'. destruct (_ <? 0) eqn:E; zb; [lia|]. by rewrite Hget.
Qed.

Lemma book_orders_refine_witness :
  ∃ b a', zedis_book_init (Arena 4096 2097152 0 0) 100 110 = Ok (RC_OK, Some b, a') ∧
  ∃ b', place_all b [Order Bid 105 100; Order Ask 105 50; Order Bid 99 1; Order Ask 105 (-80)]
        = Ok ([0; 0; -1; 0], b') ∧ book_wf b'.
Proof.
  do 2 eexists. split; [vm_compute; reflexivity|].
  match goal with |- context [place_all ?b ?os] =>
    destruct (book_orders_refine b os) as (b' & Hrun & Hwf & _);
      [| |intros p l Hp Hl|exists b'; split; [exact Hrun|exact Hwf]] end.
  - apply (book_init_wf (Arena 4096 2097152 0 0) 100 110 _ (Arena 4096 2097152 176 0));
      vm_compute; done.
  - repeat constructor; vm_compute; done.
  - unfold level_at in Hl. apply (lookup_replicate 11 (PriceLevel 0 0)) in Hl as [-> _].
    vm_compute. intuition congruence.
Defined.

(** The addition to a level is not guarded: an order that takes the
    quantity past INT64_MAX is a signed overflow, on either side. *)
Theorem book_overflow b p q l :
  book_wf b → in_range b p → level_at b p = Some l →
  (INT64_MAX < bid_qty l + q → zedis_book_bid b p q = Stuck SignedOverflow) ∧
  (INT64_MAX < ask_qty l + q → zedis_book_ask b p q = Stuck SignedOverflow).
Proof.
  intros Hwf Hp Hl. destruct (level_at_in b p Hwf Hp) as (l' & Hl' & _ & Hget).
  rewrite Hl in Hl'. injection Hl' as <-. unfold in_range in Hp.
  unfold zedis_book_bid, zedis_book_ask. rewrite price_to_index_in by done.
  cbn [mbind exec_bind]. destruct (_ <? 0) eqn:E; zb; [lia|]. rewrite Hget. cbn [mbind exec_bind].
  unfold chk_i64. split; intros H; rewrite (proj2 (Z.leb_gt _ _) H), andb_false_r; done.
Qed.

Lemma book_overflow_witness :
  zedis_book_bid (OrderBook [PriceLevel 1 0] 7 7 1) 7 INT64_MAX = Stuck SignedOverflow.
Proof.
  apply (book_overflow (OrderBook [PriceLevel 1 0] 7 7 1) 7 INT64_MAX (PriceLevel 1 0)).
  - unfold book_wf; cbn. split_and!; try done. repeat constructor; vm_compute; done.
  - vm_compute. intuition congruence.
  - reflexivity.
  - vm_compute. reflexivity.
Defined.
