(* ===== verification/RingBuffer.v ===== *)
(** The publish ring of src/ring_buffer.c.

    [ring_slot] and [ring_buffer] are the C structs, the [char] arrays at
    their declared sizes.  A channel argument is the array it points to, its
    string is what precedes the first NUL.  Theorems: the power of two that
    zedis_ring_init rounds to, and that any history of publish and poll calls
    is one of a bounded FIFO queue. *)

From S2P Require Import Prelude Arena.

Definition ZEDIS_RING_MSG_MAX : Z := 512.
Definition RING_CHANNEL_SIZE : Z := 64.
Definition SIZEOF_RING_SLOT : Z := 592.

Record ring_slot := RingSlot {
  s_channel : list Z;
  s_payload : list Z;
  s_payload_len : Z;
  s_seq : Z;
}.

Record ring_buffer := RingBuffer {
  r_slots : list ring_slot;
  r_capacity : Z;
  write_seq : Z;
  read_seq : Z;
}.

Definition zero_slot : ring_slot :=
  RingSlot (replicate (Z.to_nat RING_CHANNEL_SIZE) 0)
           (replicate (Z.to_nat ZEDIS_RING_MSG_MAX) 0) 0 0.

Definition next_power_of_two (v : Z) : Z :=
  if v <? 2 then 2 else
  let v := v - 1 in
  let v := Z.lor v (Z.shiftr v 1) in
  let v := Z.lor v (Z.shiftr v 2) in
  let v := Z.lor v (Z.shiftr v 4) in
  let v := Z.lor v (Z.shiftr v 8) in
  let v := Z.lor v (Z.shiftr v 16) in
  let v := Z.lor v (Z.shiftr v 32) in
  u64 (v + 1).

Definition zedis_ring_init (a : arena) (capacity : Z) : Z * option ring_buffer * arena :=
  if capacity =? 0 then (RC_ERR, None, a) else
  let cap := next_power_of_two capacity in
  match zedis_arena_calloc a cap SIZEOF_RING_SLOT 64 with
  | (None, a') => (RC_ERR, None, a')
  | (Some _, a') =>
      (RC_OK, Some (RingBuffer (calloc_array cap SIZEOF_RING_SLOT zero_slot) cap 0 0), a')
  end.

Definition zedis_ring_destroy (r : ring_buffer) : ring_buffer := RingBuffer [] 0 0 0.

(** The writes to the slot: lines 65 to 74. *)
Definition fill_slot (s : ring_slot) (channel payload : list Z) (seq : Z) : exec ring_slot :=
  let n := zlen (cstr channel) in
  let ch_len := if n >=? RING_CHANNEL_SIZE then RING_CHANNEL_SIZE - 1 else n in
  ch ← memcpy (s_channel s) 0 (take (Z.to_nat ch_len) channel);
  ch' ← aset ch ch_len 0;
  pl ← memcpy (s_payload s) 0 payload;
  Ok (RingSlot ch' pl (zlen payload) seq).

Definition zedis_ring_publish (r : ring_buffer) (channel payload : list Z)
    : exec (Z * ring_buffer) :=
  if zlen payload >? ZEDIS_RING_MSG_MAX then Ok (RC_ERR, r) else
  let seq := write_seq r in
  let read := read_seq r in
  if u64 (seq - read) >=? r_capacity r then Ok (RC_ERR, r) else
  let idx := Z.land seq (r_capacity r - 1) in
  s ← aget (r_slots r) idx;
  s' ← fill_slot s channel payload seq;
  slots' ← aset (r_slots r) idx s';
  Ok (RC_OK, RingBuffer slots' (r_capacity r) (u64 (seq + 1)) (read_seq r)).

(** The slot copied to [*out], or nothing where it returns -1. *)
Definition zedis_ring_poll (r : ring_buffer) : exec (option ring_slot * ring_buffer) :=
  let read := read_seq r in
  let write := write_seq r in
  if read >=? write then Ok (None, r) else
  let idx := Z.land read (r_capacity r - 1) in
  s ← aget (r_slots r) idx;
  Ok (Some s, RingBuffer (r_slots r) (r_capacity r) (write_seq r) (u64 (read + 1))).

(** * The reference: a bounded queue of messages *)

Definition message : Type := list Z * list Z.

(** The channel name as the slot keeps it: at most 63 characters. *)
Definition channel_name (channel : list Z) : list Z := take 63 (cstr channel).

Definition slot_msg (s : ring_slot) : message :=
  (cstr (s_channel s), slice (s_payload s) 0 (s_payload_len s)).

Inductive ring_op := Publish (channel payload : list Z) | Poll.

Inductive ring_reply := PublishRc (rc : Z) | Polled (m : option message).

Fixpoint ring_run (r : ring_buffer) (ops : list ring_op) : exec (list ring_reply * ring_buffer) :=
  match ops with
  | [] => Ok ([], r)
  | Publish ch pl :: ops' =>
      x ← zedis_ring_publish r ch pl;
      rest ← ring_run x.2 ops';
      Ok (PublishRc x.1 :: rest.1, rest.2)
  | Poll :: ops' =>
      x ← zedis_ring_poll r;
      rest ← ring_run x.2 ops';
      Ok (Polled (slot_msg <$> x.1) :: rest.1, rest.2)
  end.

Fixpoint queue_run (cap : Z) (q : list message) (ops : list ring_op) : list ring_reply :=
  match ops with
  | [] => []
  | Publish ch pl :: ops' =>
      if (zlen pl <=? ZEDIS_RING_MSG_MAX) && (zlen q <? cap)
      then PublishRc RC_OK :: queue_run cap (q ++ [(channel_name ch, pl)]) ops'
      else PublishRc RC_ERR :: queue_run cap q ops'
  | Poll :: ops' =>
      match q with
      | [] => Polled None :: queue_run cap q ops'
      | m :: q' => Polled (Some m) :: queue_run cap q' ops'
      end
  end.

(** * Representation invariant *)

Definition slot_wf (s : ring_slot) : Prop :=
  zlen (s_channel s) = RING_CHANNEL_SIZE ∧ zlen (s_payload s) = ZEDIS_RING_MSG_MAX.

Definition ring_wf (r : ring_buffer) : Prop :=
  (∃ k, 0 <= k < 64 ∧ r_capacity r = 2 ^ k) ∧ zlen (r_slots r) = r_capacity r ∧
  Forall slot_wf (r_slots r) ∧
  0 <= read_seq r <= write_seq r ∧ write_seq r < 2 ^ 64 ∧
  write_seq r - read_seq r <= r_capacity r.

(** The slot of sequence number [n]. *)
Definition slot_of (r : ring_buffer) (n : Z) : nat := Z.to_nat (n mod r_capacity r).

Definition ring_refines (r : ring_buffer) (q : list message) : Prop :=
  ring_wf r ∧ write_seq r - read_seq r = zlen q ∧
  ∀ i m, q !! i = Some m → ∃ s,
    r_slots r !! slot_of r (read_seq r + Z.of_nat i) = Some s ∧ slot_msg s = m ∧
    s_seq s = read_seq r + Z.of_nat i.

(** * Rounding up to a power of two *)

(** [y] has bit [i] exactly when [x] has a bit in the [w] positions from [i]. *)
Definition smeared (w x y : Z) : Prop :=
  ∀ i, 0 <= i → Z.testbit y i = true ↔ ∃ j, i <= j < i + w ∧ Z.testbit x j = true.

Lemma smeared_double w x y :
  0 < w → smeared w x y → smeared (2 * w) x (Z.lor y (Z.shiftr y w)).
Proof.
  intros Hw H i Hi. rewrite Z.lor_spec, Z.shiftr_spec, orb_true_iff by lia.
  rewrite (H i), (H (i + w)) by lia. split.
  - intros [(j & ? & ?)|(j & ? & ?)]; exists j; (split; [lia|done]).
  - intros (j & Hj & ?). destruct (decide (j < i + w)); [left|right]; exists j; (split; [lia|done]).
Qed.

Lemma smear_ones x : 0 < x < 2 ^ 64 → smeared 64 x (Z.ones (Z.log2 x + 1)).
Proof.
  intros Hx i Hi. pose proof (Z.log2_nonneg x).
  assert (Z.log2 x < 64) by (apply Z.log2_lt_pow2; lia).
  destruct (decide (i <= Z.log2 x)).
  - rewrite Z.ones_spec_low by lia. split; [|done]. intros _. exists (Z.log2 x).
    split; [lia|]. apply Z.bit_log2. lia.
  - rewrite Z.ones_spec_high by lia. split; [done|]. intros (j & Hj & Hb).
    rewrite Z.bits_above_log2 in Hb by lia. done.
Qed.

Lemma smeared_unique w x y z :
  0 <= y → 0 <= z → smeared w x y → smeared w x z → y = z.
Proof.
  intros Hy Hz H1 H2. apply Z.bits_inj'. intros i Hi.
  pose proof (H1 i Hi). pose proof (H2 i Hi).
  destruct (Z.testbit y i), (Z.testbit z i); intuition congruence.
Qed.

Lemma next_power_of_two_eq v :
  2 <= v <= 2 ^ 64 → next_power_of_two v = u64 (2 ^ (Z.log2 (v - 1) + 1)).
Proof.
  intros Hv. unfold next_power_of_two. destruct (v <? 2) eqn:E; zb; [lia|]. cbv zeta.
  set (x := v - 1). pose proof (Z.log2_nonneg x).
  assert (smeared 1 x x) as H1.
  { intros i Hi. split; [intros ?; exists i; by split; [lia|]|].
    intros (j & Hj & Hb). by replace i with j by lia. }
  assert (∀ a b, 0 <= a → 0 <= Z.lor a (Z.shiftr a b)) as Hn.
  { intros a b Ha. apply Z.lor_nonneg. split; [done|]. by apply Z.shiftr_nonneg. }
  pose proof (smeared_double 1 x _ ltac:(lia) H1) as H2.
  pose proof (Hn x 1 ltac:(lia)) as N2. set (x2 := Z.lor x _) in *.
  pose proof (smeared_double 2 x _ ltac:(lia) H2) as H3.
  pose proof (Hn x2 2 N2) as N3. set (x3 := Z.lor x2 _) in *.
  pose proof (smeared_double 4 x _ ltac:(lia) H3) as H4.
  pose proof (Hn x3 4 N3) as N4. set (x4 := Z.lor x3 _) in *.
  pose proof (smeared_double 8 x _ ltac:(lia) H4) as H5.
  pose proof (Hn x4 8 N4) as N5. set (x5 := Z.lor x4 _) in *.
  pose proof (smeared_double 16 x _ ltac:(lia) H5) as H6.
  pose proof (Hn x5 16 N5) as N6. set (x6 := Z.lor x5 _) in *.
  pose proof (smeared_double 32 x _ ltac:(lia) H6) as H7.
  pose proof (Hn x6 32 N6) as N7. set (x7 := Z.lor x6 _) in *.
  assert (x7 = Z.ones (Z.log2 x + 1)) as ->.
  { apply (smeared_unique 64 x); [done| |exact H7|apply smear_ones; lia].
    rewrite Z.ones_equiv. pose proof (Z.pow_pos_nonneg 2 (Z.log2 x + 1)). lia. }
  f_equal. rewrite Z.ones_equiv. lia.
Qed.

(** * Slots *)

Lemma cstr_prefix l : ∃ rest, l = cstr l ++ rest.
Proof.
  induction l as [|b l [rest IH]]; [by exists []|]. cbn.
  destruct (b =? 0) eqn:E; zb; [by exists (b :: l)|]. exists rest. cbn. by f_equal.
Qed.

Lemma cstr_no_nul l : Forall (λ b, b ≠ 0) (cstr l).
Proof.
  induction l as [|b l IH]; [constructor|]. cbn.
  destruct (b =? 0) eqn:E; zb; [constructor|by constructor].
Qed.

Lemma cstr_app_nul l r : Forall (λ b, b ≠ 0) l → cstr (l ++ 0 :: r) = l.
Proof.
  induction 1 as [|b l Hb _ IH]; [done|]. cbn. destruct (b =? 0) eqn:E; zb; [done|]. by f_equal.
Qed.

Lemma fill_slot_ok s ch pl seq :
  slot_wf s → zlen pl <= ZEDIS_RING_MSG_MAX → ∃ s',
    fill_slot s ch pl seq = Ok s' ∧ slot_wf s' ∧ slot_msg s' = (channel_name ch, pl) ∧
    s_seq s' = seq.
Proof.
  intros [Hch Hpl] Hlen. unfold fill_slot.
  set (n := if _ >=? _ then _ else _). destruct (cstr_prefix ch) as [rest Hrest].
  pose proof (zlen_nonneg (cstr ch)). unfold RING_CHANNEL_SIZE, ZEDIS_RING_MSG_MAX in *.
  assert (0 <= n <= 63 ∧ n <= zlen (cstr ch) ∧ n = Z.min 63 (zlen (cstr ch))) as (Hn & Hn' & Hmin).
  { unfold n. rewrite Z.geb_leb. destruct (64 <=? _) eqn:E; zb; lia. }
  assert (take (Z.to_nat n) ch = take 63 (cstr ch)) as ->.
  { rewrite Hrest at 1. unfold zlen in *. rewrite take_app_le by lia.
    destruct (decide (n = 63)) as [->|]; [done|]. rewrite !take_ge by lia. done. }
  assert (length (take 63 (cstr ch)) = Z.to_nat n) as Hl.
  { rewrite length_take. unfold zlen in *. lia. }
  rewrite (memcpy0_ok (s_channel s)) by (unfold zlen in *; lia). cbn [mbind exec_bind].
  rewrite aset_ok by (rewrite zlen_prefix_drop; unfold zlen in *; lia). cbn [mbind exec_bind].
  rewrite memcpy0_ok by lia. cbn [mbind exec_bind].
  eexists. split; [done|]. split_and!.
  - unfold slot_wf; cbn [s_channel s_payload].
    rewrite zlen_insert, !zlen_prefix_drop by (unfold zlen in *; lia). done.
  - unfold slot_msg, channel_name; cbn [s_channel s_payload s_payload_len].
    rewrite slice_prefix. f_equal.
    rewrite insert_app_r_alt, Hl, Nat.sub_diag by lia.
    destruct (drop _ (s_channel s)) as [|x r] eqn:E.
    + apply (f_equal length) in E. rewrite length_drop in E. cbn in E. unfold zlen in *. lia.
    + cbn. apply cstr_app_nul. apply Forall_take, cstr_no_nul.
  - done.
Qed.

Lemma land_mask n k : 0 <= k → Z.land n (2 ^ k - 1) = n mod 2 ^ k.
Proof. intros. by rewrite <-Z.land_ones, Z.ones_equiv by done. Qed.

Lemma ring_index r n :
  ring_wf r → Z.land n (r_capacity r - 1) = n mod r_capacity r ∧
  0 <= n mod r_capacity r < zlen (r_slots r).
Proof.
  intros ((k & Hk & Hcap) & Hl & _). rewrite Hl, Hcap, land_mask by lia.
  split; [done|]. apply Z.mod_pos_bound, Z.pow_pos_nonneg; lia.
Qed.

Lemma slot_of_inj r n m :
  ring_wf r → slot_of r n = slot_of r m → Z.abs (n - m) < r_capacity r → n = m.
Proof.
  intros Hwf Heq Hlt. unfold slot_of in Heq.
  destruct (ring_index r n Hwf) as [_ Hn]. destruct (ring_index r m Hwf) as [_ Hm].
  assert (n mod r_capacity r = m mod r_capacity r) as E by lia.
  destruct Hwf as (_ & Hl & _). rewrite Hl in *.
  pose proof (Z.div_mod n (r_capacity r) ltac:(lia)).
  pose proof (Z.div_mod m (r_capacity r) ltac:(lia)).
  assert (n - m = r_capacity r * (n / r_capacity r - m / r_capacity r)) by lia.
  assert (n / r_capacity r - m / r_capacity r = 0) by nia. lia.
Qed.

(** * The two operations on the queue *)

Lemma publish_refines r q ch pl :
  ring_refines r q → write_seq r + 1 < 2 ^ 64 →
  if (zlen pl <=? ZEDIS_RING_MSG_MAX) && (zlen q <? r_capacity r)
  then ∃ r', zedis_ring_publish r ch pl = Ok (RC_OK, r') ∧
    ring_refines r' (q ++ [(channel_name ch, pl)]) ∧ r_capacity r' = r_capacity r ∧
    write_seq r' = write_seq r + 1
  else zedis_ring_publish r ch pl = Ok (RC_ERR, r).
Proof.
  intros (Hwf & Hq & Hslots) Hmax. pose proof Hwf as (Hk & Hl & Hs & Hrw & Hw & Hd).
  unfold zedis_ring_publish. rewrite Z.gtb_ltb, Z.geb_leb, u64_small by lia.
  destruct (zlen pl <=? _) eqn:E1; zb.
  2:{ destruct (_ <? zlen pl) eqn:E2; zb; [done|lia]. }
  destruct (_ <? zlen pl) eqn:E2; zb; [lia|]. rewrite Hq. cbn [andb].
  destruct (zlen q <? r_capacity r) eqn:E3; zb.
  2:{ destruct (r_capacity r <=? zlen q) eqn:E4; zb; [done|lia]. }
  destruct (r_capacity r <=? zlen q) eqn:E4; zb; [lia|].
  destruct (ring_index r (write_seq r) Hwf) as [-> Hi].
  destruct (aget_ok (r_slots r) (write_seq r mod r_capacity r)) as (s & -> & Hs0); [done|].
  cbn [mbind exec_bind].
  destruct (fill_slot_ok s ch pl (write_seq r)) as (s' & -> & Hs'wf & Hmsg & Hseq);
    [by eapply Forall_lookup_1|done|]. cbn [mbind exec_bind].
  rewrite aset_ok by done. cbn [mbind exec_bind]. rewrite u64_small by lia.
  eexists. split; [done|]. split; [|done]. fold (slot_of r (write_seq r)) in *.
  unfold ring_refines, ring_wf; cbn [r_slots r_capacity write_seq read_seq].
  split; [|split; [rewrite (zlen_app q [_]); unfold zlen in *; cbn; lia|]].
  { split; [done|]. split; [by rewrite (zlen_insert (A := ring_slot))|].
    split; [by apply Forall_insert|]. lia. }
  intros i m Him. unfold slot_of; cbn [r_capacity]. fold (slot_of r (read_seq r + Z.of_nat i)).
  apply lookup_app_Some in Him as [Him|[Hge Him]].
  - destruct (Hslots i m Him) as (x & Hx & ?). exists x. split; [|done].
    rewrite list_lookup_insert_ne; [done|]. intros Heq.
    apply lookup_lt_Some in Him. unfold zlen in *.
    apply slot_of_inj in Heq; [lia|done|lia].
  - apply list_lookup_singleton_Some in Him as [Hi0 <-].
    replace (read_seq r + Z.of_nat i) with (write_seq r) by (unfold zlen in *; lia).
    exists s'. split; [|done]. apply list_lookup_insert_eq.
    unfold slot_of, zlen in *. lia.
Qed.

Lemma poll_refines r q :
  ring_refines r q →
  match q with
  | [] => zedis_ring_poll r = Ok (None, r)
  | m :: q' => ∃ s r', zedis_ring_poll r = Ok (Some s, r') ∧ slot_msg s = m ∧
      s_seq s = read_seq r ∧ ring_refines r' q' ∧ r_capacity r' = r_capacity r ∧
      write_seq r' = write_seq r
  end.
Proof.
  intros (Hwf & Hq & Hslots). pose proof Hwf as (Hk & Hl & Hs & Hrw & Hw & Hd).
  unfold zedis_ring_poll. rewrite Z.geb_leb. destruct q as [|m q].
  - destruct (_ <=? read_seq r) eqn:E; zb; [done|unfold zlen in Hq; cbn in Hq; lia].
  - rewrite zlen_cons in Hq. pose proof (zlen_nonneg q).
    destruct (_ <=? read_seq r) eqn:E; zb; [lia|].
    destruct (ring_index r (read_seq r) Hwf) as [-> Hi].
    destruct (aget_ok (r_slots r) (read_seq r mod r_capacity r)) as (s & -> & Hs0); [done|].
    cbn [mbind exec_bind]. rewrite u64_small by lia.
    destruct (Hslots 0%nat m) as (x & Hx & Hmx & Hsx); [done|].
    replace (read_seq r + Z.of_nat 0) with (read_seq r) in * by lia.
    unfold slot_of in Hx. rewrite Hs0 in Hx. injection Hx as <-.
    do 2 eexists. split; [done|]. split; [done|]. split; [done|]. split; [|done].
    unfold ring_refines, ring_wf; cbn [r_slots r_capacity write_seq read_seq].
    split; [split_and!; done || lia|]. split; [lia|].
    intros i m' Him. destruct (Hslots (S i) m') as (y & Hy & ? & ?); [done|].
    exists y. unfold slot_of in *; cbn [r_capacity].
    replace (read_seq r + 1 + Z.of_nat i) with (read_seq r + Z.of_nat (S i)) by lia. done.
Qed.

Lemma ring_run_refines r q (ops : list ring_op) :
  ring_refines r q → write_seq r + zlen ops < 2 ^ 64 →
  ∃ r', ring_run r ops = Ok (queue_run (r_capacity r) q ops, r').
Proof.
  revert r q. induction ops as [|op ops IH]; intros r q Href Hw; [by exists r|].
  rewrite zlen_cons in Hw. pose proof (zlen_nonneg ops). destruct op as [ch pl|]; cbn [ring_run queue_run].
  - pose proof (publish_refines r q ch pl Href ltac:(lia)) as Hp.
    destruct (_ && _) eqn:E.
    + destruct Hp as (r1 & -> & Href1 & Hcap & Hw1). cbn [mbind exec_bind snd].
      destruct (IH r1 _ Href1 ltac:(lia)) as (r' & ->). rewrite Hcap. by exists r'.
    + rewrite Hp. cbn [mbind exec_bind snd].
      destruct (IH r _ Href ltac:(lia)) as (r' & ->). by exists r'.
  - pose proof (poll_refines r q Href) as Hp. destruct q as [|m q].
    + rewrite Hp. cbn [mbind exec_bind snd].
      destruct (IH r _ Href ltac:(lia)) as (r' & ->). by exists r'.
    + destruct Hp as (s & r1 & -> & Hm & _ & Href1 & Hcap & Hw1). cbn [mbind exec_bind snd].
      destruct (IH r1 _ Href1 ltac:(lia)) as (r' & ->). rewrite Hcap. exists r'.
      cbn. by rewrite Hm.
Qed.

Lemma next_power_of_two_pow v :
  1 <= v <= 2 ^ 63 → ∃ k, 1 <= k <= 63 ∧ next_power_of_two v = 2 ^ k ∧
    v <= 2 ^ k ∧ 2 ^ (k - 1) < Z.max 2 v.
Proof.
  intros Hv. destruct (decide (v < 2)).
  { exists 1. unfold next_power_of_two. destruct (v <? 2) eqn:E; zb; cbn; lia. }
  rewrite next_power_of_two_eq by lia. exists (Z.log2 (v - 1) + 1).
  assert (0 < v - 1) as Hp by lia. destruct (Z.log2_spec _ Hp) as [H1 H2].
  pose proof (Z.log2_nonneg (v - 1)).
  assert (Z.log2 (v - 1) < 63) by (apply Z.log2_lt_pow2; lia).
  split; [lia|]. unfold Z.succ in H2. split.
  - apply u64_small. split; [lia|]. apply Z.pow_lt_mono_r; lia.
  - replace (Z.log2 (v - 1) + 1 - 1) with (Z.log2 (v - 1)) by lia. lia.
Qed.

Lemma ring_init_refines a cap r a' :
  1 <= cap <= 2 ^ 53 → zedis_ring_init a cap = (RC_OK, Some r, a') →
  ring_refines r [] ∧ r_capacity r = next_power_of_two cap ∧ write_seq r = 0.
Proof.
  intros Hc. unfold zedis_ring_init. destruct (cap =? 0) eqn:E; zb; [lia|].
  destruct (zedis_arena_calloc _ _ _ _) as [[p|] a'']; [|done].
  destruct (next_power_of_two_pow cap) as (k & Hk & Hnp & Hle & Hlt); [lia|]. rewrite Hnp.
  assert (k <= 53).
  { assert (k - 1 < 53); [|lia]. apply (Z.pow_lt_mono_r_iff 2); [lia|lia|]. lia. }
  pose proof (Z.pow_le_mono_r 2 k 53 ltac:(lia) ltac:(lia)).
  unfold SIZEOF_RING_SLOT. rewrite calloc_array_eq by lia. intros [= <- <-].
  split; [|done]. unfold ring_refines, ring_wf; cbn [r_slots r_capacity write_seq read_seq].
  rewrite zlen_replicate, Z2Nat.id by lia. split; [|done].
  split; [by exists k; split; [lia|]|]. split; [done|]. split; [|lia].
  apply Forall_replicate. done.
Qed.

(** * Theorems *)

(** A ring fresh from zedis_ring_init behaves, over any sequence of
    publish and poll calls of fewer than 2^64 operations, as a FIFO queue whose
    capacity is the requested one rounded up to a power of two: publish fails
    exactly on a message over 512 bytes or a full queue, poll returns the
    oldest message with its payload whole and its channel cut to 63
    characters. *)
Theorem ring_history_refines a cap r a' (ops : list ring_op) :
  1 <= cap <= 2 ^ 53 → zedis_ring_init a cap = (RC_OK, Some r, a') → zlen ops < 2 ^ 64 →
  ∃ r', ring_run r ops = Ok (queue_run (next_power_of_two cap) [] ops, r').
Proof.
  intros Hc Hinit Hops. destruct (ring_init_refines _ _ _ _ Hc Hinit) as (Href & <- & Hw).
  apply ring_run_refines; [done|lia].
Qed.

Lemma ring_history_refines_witness :
  ∃ r', ring_run (RingBuffer (replicate 2 zero_slot) 2 0 0)
          [Publish [97; 0] [1]; Publish [98; 0] [2]; Publish [99; 0] [3]; Poll; Poll; Poll]
  = Ok ([PublishRc 0; PublishRc 0; PublishRc (-1); Polled (Some ([97], [1]));
         Polled (Some ([98], [2])); Polled None], r').
Proof.
  apply (ring_history_refines (Arena 4096 2097152 0 0) 2 _ (Arena 4096 2097152 1184 0));
    [lia|vm_compute; reflexivity|vm_compute; reflexivity].
Defined.

(** [next_power_of_two] returns the least power of two that is at least its
    argument (and at least 2); above 2^63 the increment wraps and it returns
    0, for which the ring allocation is refused. *)
Theorem next_power_of_two_least v :
  (1 <= v <= 2 ^ 63 → ∃ k, 1 <= k <= 63 ∧ next_power_of_two v = 2 ^ k ∧ v <= 2 ^ k ∧
     ∀ j, 1 <= j → v <= 2 ^ j → k <= j) ∧
  (2 ^ 63 < v < 2 ^ 64 → next_power_of_two v = 0 ∧
     ∀ a, zedis_ring_init a v = (RC_ERR, None, a)).
Proof.
  split; intros Hv.
  - destruct (next_power_of_two_pow v Hv) as (k & Hk & Hnp & Hle & Hlt). exists k.
    split_and!; try done; try lia. intros j Hj Hvj.
    assert (k - 1 < j); [|lia]. apply (Z.pow_lt_mono_r_iff 2); [lia|lia|].
    pose proof (Z.pow_le_mono_r 2 1 j ltac:(lia) ltac:(lia)). lia.
  - assert (next_power_of_two v = 0) as H0.
    { rewrite next_power_of_two_eq by lia.
      assert (Z.log2 (v - 1) = 63) as -> by (apply Z.log2_unique; lia). done. }
    split; [done|]. intros a. unfold zedis_ring_init. destruct (v =? 0) eqn:E; zb; [lia|].
    by rewrite H0.
Qed.

Lemma next_power_of_two_least_witness :
  next_power_of_two (2 ^ 63 + 1) = 0 ∧ next_power_of_two 1000 = 1024.
Proof.
  split; [apply (next_power_of_two_least (2 ^ 63 + 1)); lia|vm_compute; reflexivity].
Defined.
