(* ===== verification/RingSteps.v ===== *)
(** The publish ring of src/ring_buffer.c with a producer and a consumer that
    run at the same time.

    A step is one access of zedis_ring_publish or zedis_ring_poll to what they
    share: a load or a store of a sequence number, one of the five writes to a
    slot, one of the four fields that [*out = ring->slots[idx]] copies.  The
    steps of the two threads are interleaved in any order.  Theorems: the steps
    of an operation that is not interrupted are that operation; every
    interleaving is one of the bounded queue of RingBuffer, and no access is
    out of bounds; and, with the happens-before order of the C11 memory model,
    which accesses to a slot race. *)

From S2P Require Import Prelude Arena RingBuffer.

(** * Steps of the producer *)

Definition set_slots (r : ring_buffer) (slots : list ring_slot) : ring_buffer :=
  RingBuffer slots (r_capacity r) (write_seq r) (read_seq r).

(** The writes to the slot, in the order of the code. *)
Definition write_field (k : nat) (channel payload : list Z) (seq : Z) (s : ring_slot) : exec ring_slot :=
  let n := zlen (cstr channel) in
  let ch_len := if n >=? RING_CHANNEL_SIZE then RING_CHANNEL_SIZE - 1 else n in
  match k with
  | 0%nat =>
      ch ← memcpy (s_channel s) 0 (take (Z.to_nat ch_len) channel);
      Ok (RingSlot ch (s_payload s) (s_payload_len s) (s_seq s))
  | 1%nat => ch ← aset (s_channel s) ch_len 0; Ok (RingSlot ch (s_payload s) (s_payload_len s) (s_seq s))
  | 2%nat => pl ← memcpy (s_payload s) 0 payload; Ok (RingSlot (s_channel s) pl (s_payload_len s) (s_seq s))
  | 3%nat => Ok (RingSlot (s_channel s) (s_payload s) (zlen payload) (s_seq s))
  | _ => Ok (RingSlot (s_channel s) (s_payload s) (s_payload_len s) seq)
  end.

(** Where the producer is: between two calls, with [write_seq] loaded, or with
    [k] of the writes done. *)
Inductive producer :=
  | PIdle
  | PSeq (channel payload : list Z) (seq : Z)
  | PFill (channel payload : list Z) (seq : Z) (k : nat).

(** What a call returns. *)
Inductive event :=
  | Published (channel payload : list Z) (rc : Z)
  | Taken (out : option ring_slot).

(** [call] is the argument of the next call. *)
Definition publish_step (r : ring_buffer) (p : producer) (call : list Z * list Z)
    : exec (list event * ring_buffer * producer) :=
  match p with
  | PIdle =>
      if zlen call.2 >? ZEDIS_RING_MSG_MAX then Ok ([Published call.1 call.2 RC_ERR], r, PIdle)
      else Ok ([], r, PSeq call.1 call.2 (write_seq r))
  | PSeq ch pl seq =>
      if u64 (seq - read_seq r) >=? r_capacity r then Ok ([Published ch pl RC_ERR], r, PIdle)
      else Ok ([], r, PFill ch pl seq 0)
  | PFill ch pl seq k =>
      if (k <? 5)%nat then
        let idx := Z.land seq (r_capacity r - 1) in
        s ← aget (r_slots r) idx;
        s' ← write_field k ch pl seq s;
        slots' ← aset (r_slots r) idx s';
        Ok ([], set_slots r slots', PFill ch pl seq (S k))
      else Ok ([Published ch pl RC_OK], RingBuffer (r_slots r) (r_capacity r) (u64 (seq + 1)) (read_seq r), PIdle)
  end.

(** * Steps of the consumer *)

Definition copy_field (k : nat) (s out : ring_slot) : ring_slot :=
  match k with
  | 0%nat => RingSlot (s_channel s) (s_payload out) (s_payload_len out) (s_seq out)
  | 1%nat => RingSlot (s_channel out) (s_payload s) (s_payload_len out) (s_seq out)
  | 2%nat => RingSlot (s_channel out) (s_payload out) (s_payload_len s) (s_seq out)
  | _ => RingSlot (s_channel out) (s_payload out) (s_payload_len out) (s_seq s)
  end.

Inductive consumer :=
  | CIdle
  | CRead (read : Z)
  | CCopy (read : Z) (k : nat) (out : ring_slot).

(** [out] is what the caller's struct holds. *)
Definition poll_step (r : ring_buffer) (c : consumer) (out : ring_slot)
    : exec (list event * ring_buffer * consumer) :=
  match c with
  | CIdle => Ok ([], r, CRead (read_seq r))
  | CRead read =>
      if read >=? write_seq r then Ok ([Taken None], r, CIdle) else Ok ([], r, CCopy read 0 out)
  | CCopy read k o =>
      if (k <? 4)%nat then
        s ← aget (r_slots r) (Z.land read (r_capacity r - 1));
        Ok ([], r, CCopy read (S k) (copy_field k s o))
      else Ok ([Taken (Some o)], RingBuffer (r_slots r) (r_capacity r) (write_seq r) (u64 (read + 1)), CIdle)
  end.

(** * Both at once *)

Record system := System { sys_ring : ring_buffer; sys_producer : producer; sys_consumer : consumer }.

(** The states that can be reached, with what the calls returned so far. *)
Inductive reach (s0 : system) : list event → system → Prop :=
  | reach_refl : reach s0 [] s0
  | reach_publish es r p c call ev r' p' :
      reach s0 es (System r p c) → publish_step r p call = Ok (ev, r', p') →
      reach s0 (es ++ ev) (System r' p' c)
  | reach_poll es r p c out ev r' c' :
      reach s0 es (System r p c) → poll_step r c out = Ok (ev, r', c') →
      reach s0 (es ++ ev) (System r' p c').

(** A schedule: the producer's step, with its next call, or the consumer's. *)
Inductive turn_of := Producer (channel payload : list Z) | Consumer.

Fixpoint run (s : system) (sched : list turn_of) : exec (list event * system) :=
  match sched with
  | [] => Ok ([], s)
  | Producer ch pl :: sched' =>
      x ← publish_step (sys_ring s) (sys_producer s) (ch, pl);
      let '(ev, r', p') := x in
      y ← run (System r' p' (sys_consumer s)) sched';
      Ok (ev ++ y.1, y.2)
  | Consumer :: sched' =>
      x ← poll_step (sys_ring s) (sys_consumer s) zero_slot;
      let '(ev, r', c') := x in
      y ← run (System r' (sys_producer s) c') sched';
      Ok (ev ++ y.1, y.2)
  end.

(** The calls and the replies of a history, for the queue of RingBuffer. *)
Definition event_op (e : event) : ring_op :=
  match e with Published ch pl _ => Publish ch pl | Taken _ => Poll end.
Definition event_reply (e : event) : ring_reply :=
  match e with Published _ _ rc => PublishRc rc | Taken o => Polled (slot_msg <$> o) end.

(** * An operation that is not interrupted *)

Fixpoint publish_alone (fuel : nat) (r : ring_buffer) (p : producer) (call : list Z * list Z) : exec (Z * ring_buffer) :=
  match fuel with
  | O => Stuck OutOfFuel
  | S fuel' =>
      x ← publish_step r p call;
      match x with
      | (Published _ _ rc :: _, r', _) => Ok (rc, r')
      | (_, r', p') => publish_alone fuel' r' p' call
      end
  end.

Fixpoint poll_alone (fuel : nat) (r : ring_buffer) (c : consumer) (out : ring_slot) : exec (option ring_slot * ring_buffer) :=
  match fuel with
  | O => Stuck OutOfFuel
  | S fuel' =>
      x ← poll_step r c out;
      match x with
      | (Taken o :: _, r', _) => Ok (o, r')
      | (_, r', c') => poll_alone fuel' r' c' out
      end
  end.

Lemma publish_alone_S n r p call :
  publish_alone (S n) r p call
  = x ← publish_step r p call;
    match x with (Published _ _ rc :: _, r', _) => Ok (rc, r') | (_, r', p') => publish_alone n r' p' call end.
Proof. done. Qed.

Lemma poll_alone_S n r c out :
  poll_alone (S n) r c out
  = x ← poll_step r c out;
    match x with (Taken o :: _, r', _) => Ok (o, r') | (_, r', c') => poll_alone n r' c' out end.
Proof. done. Qed.

(** The first [k] writes. *)
Fixpoint write_fields (k : nat) (ch pl : list Z) (seq : Z) (s : ring_slot) : exec ring_slot :=
  match k with
  | O => Ok s
  | S k' => s' ← write_fields k' ch pl seq s; write_field k' ch pl seq s'
  end.

Fixpoint copy_fields (k : nat) (s out : ring_slot) : ring_slot :=
  match k with O => out | S k' => copy_field k' s (copy_fields k' s out) end.

Lemma write_fields_all ch pl seq s : write_fields 5 ch pl seq s = fill_slot s ch pl seq.
Proof.
  unfold fill_slot. cbn [write_fields write_field mbind exec_bind].
  destruct (memcpy (s_channel s) _ _) as [c|f]; [|done]. cbn [mbind exec_bind s_channel s_payload].
  destruct (aset c _ _) as [c'|f]; [|done]. cbn [mbind exec_bind s_payload].
  by destruct (memcpy (s_payload s) _ _).
Qed.

Lemma copy_fields_all s out : copy_fields 4 s out = s.
Proof. by destruct s. Qed.

(** A write to the slot [i] that holds [s]. *)
Lemma fill_step r ch pl seq k call s :
  (k < 5)%nat → 0 <= Z.land seq (r_capacity r - 1) → r_slots r !! Z.to_nat (Z.land seq (r_capacity r - 1)) = Some s →
  publish_step r (PFill ch pl seq k) call
  = s' ← write_field k ch pl seq s;
    Ok ([], set_slots r (<[Z.to_nat (Z.land seq (r_capacity r - 1)) := s']> (r_slots r)), PFill ch pl seq (S k)).
Proof.
  intros Hk H0 Hs. cbn [publish_step]. destruct (Nat.ltb_spec k 5); [|lia].
  rewrite (proj2 (aget_lookup _ _ _) (conj H0 Hs)). cbn [mbind exec_bind].
  destruct (write_field k ch pl seq s) as [s'|f]; [|done]. cbn [mbind exec_bind].
  rewrite aset_ok by (apply lookup_lt_Some in Hs; unfold zlen; lia). done.
Qed.

Lemma fill_alone r ch pl seq call n k s0 s :
  (n + k = 5)%nat → 0 <= Z.land seq (r_capacity r - 1) → write_fields k ch pl seq s0 = Ok s →
  r_slots r !! Z.to_nat (Z.land seq (r_capacity r - 1)) = Some s →
  publish_alone (S n) r (PFill ch pl seq k) call
  = s' ← fill_slot s0 ch pl seq;
    slots' ← aset (r_slots r) (Z.land seq (r_capacity r - 1)) s';
    Ok (RC_OK, RingBuffer slots' (r_capacity r) (u64 (seq + 1)) (read_seq r)).
Proof.
  revert r k s. induction n as [|n IH]; intros r k s Hk H0 Hw Hs.
  - replace k with 5%nat in * by lia. rewrite write_fields_all in Hw. rewrite Hw. cbn [publish_alone publish_step Nat.ltb Nat.leb mbind exec_bind].
    rewrite aset_ok by (apply lookup_lt_Some in Hs; unfold zlen; lia). cbn [mbind exec_bind]. by rewrite list_insert_id.
  - rewrite publish_alone_S, (fill_step _ _ _ _ _ _ s) by (done || lia).
    destruct (write_field k ch pl seq s) as [s'|f] eqn:E; cbn [mbind exec_bind].
    + assert (write_fields (S k) ch pl seq s0 = Ok s') as Hw' by (cbn [write_fields]; by rewrite Hw).
      rewrite (IH _ (S k) s'); [|lia|done|done|].
      * cbn [set_slots r_slots r_capacity read_seq]. destruct (fill_slot s0 ch pl seq) as [x|]; [|done]. cbn [mbind exec_bind].
        apply lookup_lt_Some in Hs. rewrite !aset_ok by (rewrite ?zlen_insert; unfold zlen; lia). by rewrite list_insert_insert_eq.
      * cbn [set_slots r_slots]. apply list_lookup_insert_eq. by eapply lookup_lt_Some.
    + rewrite <-write_fields_all. assert (write_fields (S k) ch pl seq s0 = Stuck f) as Hw' by (cbn [write_fields]; by rewrite Hw).
      assert (∀ m, write_fields (m + S k) ch pl seq s0 = Stuck f) as Hall.
      { induction m as [|m IHm]; [done|]. cbn [Nat.add write_fields]. by rewrite IHm. }
      replace 5%nat with (n + S k)%nat by lia. by rewrite Hall.
Qed.

Lemma publish_alone_eq r ch pl : publish_alone 8 r PIdle (ch, pl) = zedis_ring_publish r ch pl.
Proof.
  unfold zedis_ring_publish. rewrite publish_alone_S. cbn [publish_step fst snd]. destruct (_ >? _); [done|]. cbn [mbind exec_bind].
  rewrite publish_alone_S. cbn [publish_step]. destruct (_ >=? _); [done|]. cbn [mbind exec_bind].
  destruct (aget (r_slots r) (Z.land (write_seq r) (r_capacity r - 1))) as [s|f] eqn:Es.
  - apply aget_lookup in Es as [H0 Hs]. cbn [mbind exec_bind].
    exact (fill_alone r ch pl (write_seq r) (ch, pl) 5 0 s s eq_refl H0 eq_refl Hs).
  - rewrite publish_alone_S. cbn [publish_step Nat.ltb Nat.leb]. by rewrite Es.
Qed.

Lemma poll_alone_eq r out : poll_alone 7 r CIdle out = zedis_ring_poll r.
Proof.
  unfold zedis_ring_poll. do 2 (rewrite poll_alone_S; cbn [poll_step mbind exec_bind]).
  destruct (_ >=? _); [done|]. cbn [mbind exec_bind].
  destruct (aget (r_slots r) (Z.land (read_seq r) (r_capacity r - 1))) as [s|f] eqn:Es;
    [|rewrite poll_alone_S; cbn [poll_step Nat.ltb Nat.leb]; by rewrite Es].
  do 4 (rewrite poll_alone_S; cbn [poll_step Nat.ltb Nat.leb]; rewrite Es; cbn [mbind exec_bind]).
  rewrite poll_alone_S. cbn [poll_step Nat.ltb Nat.leb mbind exec_bind]. do 3 f_equal. apply copy_fields_all.
Qed.

(** * The invariant *)

Definition producer_ok (r : ring_buffer) (p : producer) : Prop :=
  match p with
  | PIdle => True
  | PSeq ch pl seq => seq = write_seq r ∧ zlen pl <= ZEDIS_RING_MSG_MAX
  | PFill ch pl seq k =>
      seq = write_seq r ∧ zlen pl <= ZEDIS_RING_MSG_MAX ∧ write_seq r - read_seq r < r_capacity r ∧ (k <= 5)%nat ∧
      ∃ s0 s, slot_wf s0 ∧ write_fields k ch pl seq s0 = Ok s ∧ r_slots r !! slot_of r seq = Some s
  end.

Definition consumer_ok (r : ring_buffer) (c : consumer) : Prop :=
  match c with
  | CIdle => True
  | CRead read => read = read_seq r
  | CCopy read k out =>
      read = read_seq r ∧ read < write_seq r ∧ (k <= 4)%nat ∧
      ∃ s out0, r_slots r !! slot_of r read = Some s ∧ out = copy_fields k s out0
  end.

(** The queue holds [q]. *)
Definition sys_ok (st : system) (q : list message) : Prop :=
  ring_refines (sys_ring st) q ∧ producer_ok (sys_ring st) (sys_producer st) ∧ consumer_ok (sys_ring st) (sys_consumer st).

Lemma write_field_ok k ch pl seq s :
  slot_wf s → zlen pl <= ZEDIS_RING_MSG_MAX → ∃ s', write_field k ch pl seq s = Ok s' ∧ slot_wf s'.
Proof.
  intros [Hch Hpl] Hlen. pose proof (zlen_nonneg (cstr ch)). unfold write_field. set (n := if _ >=? _ then _ else _).
  assert (0 <= n < 64) as Hn by (unfold n, RING_CHANNEL_SIZE; rewrite Z.geb_leb; destruct (64 <=? _) eqn:E; zb; lia).
  unfold slot_wf, RING_CHANNEL_SIZE, ZEDIS_RING_MSG_MAX in *. destruct k as [|[|[|[|k]]]].
  - assert (zlen (take (Z.to_nat n) ch) <= 64) by (unfold zlen; rewrite length_take; lia).
    rewrite memcpy0_ok by lia. eexists. split; [done|]. cbn [s_channel s_payload]. by rewrite zlen_prefix_drop by lia.
  - rewrite aset_ok by lia. eexists. split; [done|]. cbn [s_channel s_payload]. by rewrite zlen_insert.
  - rewrite memcpy0_ok by lia. eexists. split; [done|]. cbn [s_channel s_payload]. by rewrite zlen_prefix_drop by lia.
  - by eexists.
  - by eexists.
Qed.

Lemma write_fields_wf k ch pl seq s0 s :
  slot_wf s0 → zlen pl <= ZEDIS_RING_MSG_MAX → write_fields k ch pl seq s0 = Ok s → slot_wf s.
Proof.
  revert s. induction k as [|k IH]; intros s H0 Hl; cbn [write_fields]; [by intros [= <-]|].
  destruct (write_fields k ch pl seq s0) as [s1|f]; [|done]. cbn [mbind exec_bind].
  destruct (write_field_ok k ch pl seq s1 (IH s1 H0 Hl eq_refl) Hl) as (s' & -> & Hs'). by intros [= <-].
Qed.

(** A slot outside of the queue can be written. *)
Lemma refines_scratch r q s :
  ring_refines r q → write_seq r - read_seq r < r_capacity r → slot_wf s →
  ring_refines (set_slots r (<[slot_of r (write_seq r) := s]> (r_slots r))) q.
Proof.
  intros (Hwf & Hq & Hslots) Hlt Hs. pose proof Hwf as (Hk & Hl & Hf & Hrw & Hw & Hd).
  unfold ring_refines, ring_wf; cbn [set_slots r_slots r_capacity write_seq read_seq].
  split; [|split; [done|]].
  - split; [done|]. split; [by rewrite zlen_insert|]. split; [by apply Forall_insert|done].
  - intros i m Him. destruct (Hslots i m Him) as (x & Hx & ?). exists x. split; [|done].
    unfold slot_of in *; cbn [r_capacity]. rewrite list_lookup_insert_ne; [done|]. intros Heq.
    apply lookup_lt_Some in Him. apply (slot_of_inj r) in Heq; [|done|]; unfold zlen in *; lia.
Qed.

(** The queue takes the events of a step. *)
Definition queue_step (cap : Z) (q : list message) (ev : list event) (q' : list message) : Prop :=
  ∀ ops, queue_run cap q (map event_op ev ++ ops) = map event_reply ev ++ queue_run cap q' ops.

(** What a step of one thread leaves to prove. *)
Definition stepped (r r' : ring_buffer) (q : list message) (ev : list event) (p : producer) (c : consumer) : Prop :=
  ∃ q', sys_ok (System r' p c) q' ∧ r_capacity r' = r_capacity r ∧ write_seq r' <= write_seq r + zlen ev ∧
        queue_step (r_capacity r) q ev q'.

Lemma stepped_same r q ev p c :
  ring_refines r q → producer_ok r p → consumer_ok r c → queue_step (r_capacity r) q ev q → stepped r r q ev p c.
Proof. intros Hr Hp Hc Hq. exists q. split; [done|]. split; [done|]. split; [pose proof (zlen_nonneg ev); lia|done]. Qed.

Lemma fill_step_ok r q ch pl k c call :
  ring_refines r q → producer_ok r (PFill ch pl (write_seq r) k) → consumer_ok r c → (k < 5)%nat →
  ∃ r', publish_step r (PFill ch pl (write_seq r) k) call = Ok ([], r', PFill ch pl (write_seq r) (S k)) ∧
    stepped r r' q [] (PFill ch pl (write_seq r) (S k)) c.
Proof.
  intros Hr (_ & Hpl & Hlt & _ & s0 & s & Hs0 & Hw & Hs) Hc Hk. pose proof Hr as (Hwf & _). pose proof Hwf as (_ & _ & _ & Hrw & _).
  destruct (ring_index r (write_seq r) Hwf) as [Hi H0]. unfold slot_of in Hs.
  rewrite (fill_step _ _ _ _ _ _ s) by (rewrite ?Hi; done || lia). rewrite Hi.
  destruct (write_field_ok k ch pl (write_seq r) s) as (s' & Hs' & Hwf'); [by eapply write_fields_wf|done|].
  rewrite Hs'. cbn [mbind exec_bind]. eexists. split; [done|]. exists q.
  split; [|split; [done|]; split; [unfold zlen; cbn; lia|done]].
  split; [by apply refines_scratch|]. split.
  - split; [done|]. split; [done|]. split; [done|]. split; [lia|]. exists s0, s'. split; [done|].
    split; [cbn [write_fields]; by rewrite Hw|]. unfold slot_of; cbn. apply list_lookup_insert_eq. by eapply lookup_lt_Some.
  - destruct c as [|read|read n out]; [done|exact Hc|]. destruct Hc as (-> & Hrd & Hn & x & o & Hx & ->).
    split; [done|]. split; [done|]. split; [done|]. exists x, o. split; [|done].
    unfold slot_of in *; cbn. rewrite list_lookup_insert_ne; [done|]. intros Heq.
    apply (slot_of_inj r) in Heq; [|done|]; cbn in Hrd; lia.
Qed.

Lemma store_write_ok r q ch pl c call :
  ring_refines r q → producer_ok r (PFill ch pl (write_seq r) 5) → consumer_ok r c → write_seq r + 1 < 2 ^ 64 →
  ∃ r', publish_step r (PFill ch pl (write_seq r) 5) call = Ok ([Published ch pl RC_OK], r', PIdle) ∧
    stepped r r' q [Published ch pl RC_OK] PIdle c.
Proof.
  intros (Hwf & Hq & Hslots) (_ & Hpl & Hlt & _ & s0 & s & Hs0 & Hw & Hs) Hc Hmax. pose proof Hwf as (Hk & Hl & Hf & Hrw & H64 & Hd).
  cbn [publish_step Nat.ltb Nat.leb]. eexists. split; [done|]. rewrite u64_small by lia. exists (q ++ [(channel_name ch, pl)]).
  rewrite write_fields_all in Hw. destruct (fill_slot_ok s0 ch pl (write_seq r) Hs0 Hpl) as (s' & Hs' & Hwf' & Hmsg & Hseq).
  assert (s' = s) as -> by congruence. split; [split; [|split]|split; [done|split; [unfold zlen; cbn; lia|]]].
  - unfold ring_refines, ring_wf; cbn [sys_ring r_slots r_capacity write_seq read_seq]. rewrite zlen_app.
    split; [split; [done|]; split; [done|]; split; [done|lia]|]. split; [unfold zlen in *; cbn; lia|].
    intros i m Him. apply lookup_app_Some in Him as [Him|[Hge Him]]; [by apply Hslots|].
    apply list_lookup_singleton_Some in Him as [Hi0 <-]. exists s.
    replace (read_seq r + Z.of_nat i) with (write_seq r) by (unfold zlen in *; lia). done.
  - done.
  - destruct c as [|read|read n out]; [done|exact Hc|]. destruct Hc as (-> & Hrd & Hn & x & o & Hx & ->).
    cbn in *. split; [done|]. split; [lia|]. split; [done|]. by exists x, o.
  - intros ops. cbn [map app event_op queue_run event_reply].
    destruct (zlen pl <=? _) eqn:E1; zb; [|lia]. destruct (zlen q <? _) eqn:E2; zb; [done|lia].
Qed.

Lemma publish_step_ok r p c q call :
  sys_ok (System r p c) q → write_seq r + 1 < 2 ^ 64 →
  ∃ ev r' p', publish_step r p call = Ok (ev, r', p') ∧ stepped r r' q ev p' c.
Proof.
  intros (Hr & Hp & Hc) Hmax. cbn [sys_ring sys_producer sys_consumer] in *. pose proof Hr as (Hwf & Hq & _).
  pose proof Hwf as (_ & _ & _ & Hrw & _). destruct p as [|ch pl seq|ch pl seq k].
  - cbn [publish_step]. rewrite Z.gtb_ltb. destruct (_ <? _) eqn:E; zb; do 3 eexists; (split; [done|]).
    + apply stepped_same; [done..|]. intros ops. cbn [map app event_op queue_run event_reply].
      destruct (zlen call.2 <=? _) eqn:E1; zb; [lia|done].
    + by apply stepped_same.
  - destruct Hp as [-> Hpl]. cbn [publish_step]. rewrite Z.geb_leb, u64_small, Hq by lia.
    destruct (_ <=? _) eqn:E; zb; do 3 eexists; (split; [done|]); apply stepped_same; try done.
    + intros ops. cbn [map app event_op queue_run event_reply]. destruct (zlen q <? _) eqn:E1; zb; [lia|]. by rewrite andb_false_r.
    + destruct (ring_index r (write_seq r) Hwf) as [_ H0]. destruct (aget_ok (r_slots r) _ H0) as (s & _ & Hs).
      split; [done|]. split; [done|]. split; [lia|]. split; [lia|]. exists s, s. split; [|done].
      destruct Hwf as (_ & _ & Hf & _). by eapply Forall_lookup_1.
  - pose proof Hp as (-> & _ & _ & Hk & _). destruct (decide (k = 5%nat)) as [->|Hne].
    + destruct (store_write_ok r q ch pl c call Hr Hp Hc Hmax) as (r' & -> & Hs). by do 3 eexists.
    + destruct (fill_step_ok r q ch pl k c call Hr Hp Hc ltac:(lia)) as (r' & -> & Hs). by do 3 eexists.
Qed.

Lemma store_read_ok r q p s out :
  ring_refines r q → producer_ok r p → consumer_ok r (CCopy (read_seq r) 4 s) →
  ∃ r', poll_step r (CCopy (read_seq r) 4 s) out = Ok ([Taken (Some s)], r', CIdle) ∧ stepped r r' q [Taken (Some s)] p CIdle.
Proof.
  intros (Hwf & Hq & Hslots) Hp (_ & Hlt & _ & x & o & Hx & ->). pose proof Hwf as (Hk & Hl & Hf & Hrw & H64 & Hd).
  rewrite copy_fields_all. cbn [poll_step Nat.ltb Nat.leb]. eexists. split; [done|]. rewrite u64_small by lia.
  destruct q as [|m q]; [unfold zlen in Hq; cbn in Hq; lia|]. rewrite zlen_cons in Hq. exists q.
  destruct (Hslots 0%nat m) as (y & Hy & Hm & _); [done|]. replace (read_seq r + Z.of_nat 0) with (read_seq r) in Hy by lia.
  assert (y = x) as -> by congruence. split; [split; [|split]|split; [done|split; [unfold zlen; cbn; lia|]]].
  - unfold ring_refines, ring_wf; cbn [sys_ring r_slots r_capacity write_seq read_seq].
    split; [split; [done|]; split; [done|]; split; [done|lia]|]. split; [lia|].
    intros i m' Him. destruct (Hslots (S i) m' Him) as (z & Hz & ? & ?). exists z. unfold slot_of in *; cbn [r_capacity].
    replace (read_seq r + 1 + Z.of_nat i) with (read_seq r + Z.of_nat (S i)) by lia. done.
  - destruct p as [|ch pl seq|ch pl seq k]; [done|exact Hp|]. destruct Hp as (-> & Hpl & Hlt' & Hk5 & Hs).
    cbn in *. split; [done|]. split; [done|]. split; [lia|done].
  - done.
  - intros ops. cbn [map app event_op queue_run event_reply fmap option_fmap option_map]. by rewrite Hm.
Qed.

Lemma poll_step_ok r p c q out :
  sys_ok (System r p c) q → ∃ ev r' c', poll_step r c out = Ok (ev, r', c') ∧ stepped r r' q ev p c'.
Proof.
  intros (Hr & Hp & Hc). cbn [sys_ring sys_producer sys_consumer] in *. pose proof Hr as (Hwf & Hq & _).
  destruct c as [|read|read k o].
  - cbn [poll_step]. do 3 eexists. split; [done|]. by apply stepped_same.
  - cbn in Hc. subst read. cbn [poll_step]. rewrite Z.geb_leb. destruct (_ <=? _) eqn:E; zb; do 3 eexists; (split; [done|]).
    + apply stepped_same; [done..|]. assert (q = []) as -> by (destruct q; [done|]; rewrite zlen_cons in Hq; pose proof (zlen_nonneg q); lia). done.
    + apply stepped_same; [done..| |done]. destruct (ring_index r (read_seq r) Hwf) as [_ H0].
      destruct (aget_ok (r_slots r) _ H0) as (s & _ & Hs). cbn. split; [done|]. split; [lia|]. split; [lia|]. by exists s, out.
  - pose proof Hc as (-> & Hlt & Hk & s & o0 & Hs & ->). destruct (decide (k = 4%nat)) as [->|Hne].
    + destruct (store_read_ok r q p _ out Hr Hp Hc) as (r' & -> & Hst). by do 3 eexists.
    + cbn [poll_step]. destruct (Nat.ltb_spec k 4); [|lia]. destruct (ring_index r (read_seq r) Hwf) as [Hi H0]. rewrite Hi.
      unfold slot_of in Hs. rewrite (proj2 (aget_lookup _ _ _) (conj (proj1 H0) Hs)). cbn [mbind exec_bind]. do 3 eexists. split; [done|].
      apply stepped_same; [done..| |done]. cbn. split; [done|]. split; [done|]. split; [lia|]. by exists s, o0.
Qed.

Lemma queue_step_app cap q ev q' ev' q'' : queue_step cap q ev q' → queue_step cap q' ev' q'' → queue_step cap q (ev ++ ev') q''.
Proof. intros H1 H2 ops. by rewrite !map_app, <-!app_assoc, H1, H2. Qed.

(** By induction on the steps. *)
Lemma reach_ok s0 es st :
  sys_ok s0 [] → write_seq (sys_ring s0) = 0 → reach s0 es st → zlen es + 1 < 2 ^ 64 →
  ∃ q, sys_ok st q ∧ r_capacity (sys_ring st) = r_capacity (sys_ring s0) ∧ write_seq (sys_ring st) <= zlen es ∧
       queue_step (r_capacity (sys_ring s0)) [] es q.
Proof.
  intros H0 Hw0 Hreach. induction Hreach as [|es r p c call ev r' p' _ IH Hstep|es r p c out ev r' c' _ IH Hstep]; intros Hlen.
  - exists []. split; [done|]. split; [done|]. split; [rewrite Hw0; unfold zlen; cbn; lia|done].
  - rewrite zlen_app in Hlen. pose proof (zlen_nonneg ev). destruct IH as (q & Hok & Hcap & Hw & Hq); [lia|]. cbn in Hcap, Hw.
    destruct (publish_step_ok r p c q call Hok ltac:(lia)) as (ev' & r1 & p1 & Hs & q' & Hok' & Hcap' & Hw' & Hq').
    rewrite Hs in Hstep. injection Hstep as -> -> ->. exists q'. split; [done|]. cbn [sys_ring].
    split; [congruence|]. rewrite zlen_app. split; [lia|]. eapply queue_step_app; [done|]. by rewrite <-Hcap.
  - rewrite zlen_app in Hlen. pose proof (zlen_nonneg ev). destruct IH as (q & Hok & Hcap & Hw & Hq); [lia|]. cbn in Hcap, Hw.
    destruct (poll_step_ok r p c q out Hok) as (ev' & r1 & p1 & Hs & q' & Hok' & Hcap' & Hw' & Hq').
    rewrite Hs in Hstep. injection Hstep as -> -> ->. exists q'. split; [done|]. cbn [sys_ring].
    split; [congruence|]. rewrite zlen_app. split; [lia|]. eapply queue_step_app; [done|]. by rewrite <-Hcap.
Qed.

(** While one thread fills a slot and the other copies one, they are not the same. *)
Definition apart (st : system) : Prop :=
  match sys_producer st, sys_consumer st with
  | PFill _ _ seq _, CCopy read _ _ => slot_of (sys_ring st) seq ≠ slot_of (sys_ring st) read
  | _, _ => True
  end.

Lemma sys_apart st q : sys_ok st q → apart st.
Proof.
  intros ((Hwf & _) & Hp & Hc). unfold apart. destruct (sys_producer st) as [| |ch pl seq k]; [done..|].
  destruct (sys_consumer st) as [| |read n out]; [done..|]. destruct Hp as (-> & _ & Hlt & _). destruct Hc as (-> & Hrd & _).
  intros Heq. apply slot_of_inj in Heq; [lia|done|lia].
Qed.

Lemma run_reach s0 es0 s sched es st :
  reach s0 es0 s → run s sched = Ok (es, st) → reach s0 (es0 ++ es) st.
Proof.
  revert es0 s es. induction sched as [|[ch pl|] sched IH]; intros es0 s es Hr; cbn [run].
  - intros [= <- <-]. by rewrite app_nil_r.
  - destruct (publish_step _ _ _) as [[[ev r'] p']|] eqn:E; [|done]. cbn [mbind exec_bind].
    destruct (run _ sched) as [[es' st']|] eqn:Er; [|done]. cbn [mbind exec_bind fst snd]. intros [= <- <-]. rewrite app_assoc.
    eapply IH; [|exact Er]. destruct s. by eapply reach_publish.
  - destruct (poll_step _ _ _) as [[[ev r'] c']|] eqn:E; [|done]. cbn [mbind exec_bind].
    destruct (run _ sched) as [[es' st']|] eqn:Er; [|done]. cbn [mbind exec_bind fst snd]. intros [= <- <-]. rewrite app_assoc.
    eapply IH; [|exact Er]. destruct s. by eapply reach_poll.
Qed.

(** * Theorems *)

(** The steps into which an operation is cut are that operation: when the
    producer makes its steps without the consumer in between, the result and
    the ring are those of zedis_ring_publish, faults included, and likewise
    for the consumer and zedis_ring_poll. *)
Theorem steps_are_operations r ch pl out :
  publish_alone 8 r PIdle (ch, pl) = zedis_ring_publish r ch pl ∧ poll_alone 7 r CIdle out = zedis_ring_poll r.
Proof. split; [apply publish_alone_eq|apply poll_alone_eq]. Qed.

(** C11: One thread publishes while another polls, and their accesses are
    interleaved in any order: the calls return what they return on a bounded
    FIFO queue when each takes effect at once, in the order in which they
    store their sequence number or give up; no message is lost, repeated,
    reordered or torn.  No access is out of bounds, neither thread is ever
    stuck, and they never are in the same slot. *)
Theorem ring_interleaved a cap r a' es st :
  1 <= cap <= 2 ^ 53 → zedis_ring_init a cap = (RC_OK, Some r, a') →
  reach (System r PIdle CIdle) es st → zlen es + 1 < 2 ^ 64 →
  queue_run (next_power_of_two cap) [] (map event_op es) = map event_reply es ∧ apart st ∧
  (∀ call, ∃ x, publish_step (sys_ring st) (sys_producer st) call = Ok x) ∧
  (∀ out, ∃ x, poll_step (sys_ring st) (sys_consumer st) out = Ok x).
Proof.
  intros Hc Hinit Hreach Hlen. destruct (ring_init_refines _ _ _ _ Hc Hinit) as (Href & <- & Hw).
  destruct (reach_ok (System r PIdle CIdle) es st) as (q & Hok & Hcap & Hws & Hq); [done..|]. cbn [sys_ring] in Hq. split.
  { specialize (Hq []). by rewrite !app_nil_r in Hq. }
  split; [by eapply sys_apart|]. destruct st as [r' p c]. cbn [sys_ring sys_producer sys_consumer] in *. split.
  - intros call. destruct (publish_step_ok r' p c q call Hok ltac:(lia)) as (ev & r1 & p1 & Hs & _). by eexists.
  - intros out. destruct (poll_step_ok r' p c q out Hok) as (ev & r1 & c1 & Hs & _). by eexists.
Qed.

(** Two messages are published while the consumer, which was too early for the
    first, takes both. *)
Definition interleaving : list turn_of :=
  [Consumer; Producer [97; 0] [1]; Consumer; Producer [] []; Consumer; Producer [] []; Producer [] []; Producer [] [];
   Producer [] []; Producer [] []; Producer [] []; Producer [98; 0] [2]; Consumer; Producer [] []; Consumer;
   Producer [] []; Consumer; Producer [] []; Consumer; Producer [] []; Consumer; Producer [] []; Producer [] [];
   Producer [] []; Consumer; Consumer; Consumer; Consumer; Consumer; Consumer; Consumer; Consumer].

Definition two_slots : ring_buffer := RingBuffer (replicate 2 zero_slot) 2 0 0.

Lemma ring_interleaved_witness :
  match run (System two_slots PIdle CIdle) interleaving with
  | Ok (es, st) =>
      map event_reply es = [Polled None; PublishRc 0; PublishRc 0; Polled (Some ([97], [1])); Polled (Some ([98], [2]))] ∧
      queue_run 2 [] (map event_op es) = map event_reply es ∧ apart st
  | Stuck _ => False
  end.
Proof.
  assert (match run (System two_slots PIdle CIdle) interleaving with
    | Ok (es, st) =>
        map event_reply es = [Polled None; PublishRc 0; PublishRc 0; Polled (Some ([97], [1])); Polled (Some ([98], [2]))]
    | Stuck _ => False
    end) as Hrun by (vm_compute; reflexivity).
  destruct (run (System two_slots PIdle CIdle) interleaving) as [[es st]|] eqn:E; [|done].
  destruct (ring_interleaved (Arena 4096 2097152 0 0) 2 two_slots (Arena 4096 2097152 1184 0) es st) as (Hq & Ha & _).
  - lia.
  - vm_compute. reflexivity.
  - exact (run_reach _ _ _ _ _ _ (reach_refl _) E).
  - apply (f_equal length) in Hrun. rewrite length_map in Hrun. unfold zlen. rewrite Hrun. reflexivity.
  - split; [exact Hrun|]. split; [exact Hq|exact Ha].
Defined.
