(* ===== verification/RingRace.v ===== *)
(** Which accesses to the slots of the publish ring race, in the sense of the
    C11 memory model: two accesses of different threads to the same slot, one
    of them a write, of which neither happens before the other.

    The steps are those of RingSteps.  Happens-before is followed with clocks:
    a thread counts its stores to its own sequence number; a release store
    passes the thread's clock on with the value, an acquire load of that value
    takes it over; a slot remembers the clock of the last access of each
    thread.  A thread's access races when the other thread's last conflicting
    access to the slot is later than what the thread has learnt of it.

    zedis_ring_publish stores [write_seq] with memory_order_release and both
    operations load the other's number with memory_order_acquire, but
    zedis_ring_poll stores [read_seq] with memory_order_relaxed.  The order of
    that store is a parameter, to compare the code with the release store. *)

From stdpp Require Import functions.
From S2P Require Import Prelude Arena RingBuffer RingSteps.

Inductive order := Relaxed | Release.

Record clocks := Clocks {
  p_clock : Z;
  p_sees : Z;
  c_clock : Z;
  c_sees : Z;
  w_view : Z;
  r_view : Z;
  written : nat → Z;
  taken : nat → Z;
}.

Definition start_clocks : clocks := Clocks 1 0 1 0 0 0 (λ _, 0) (λ _, 0).

Definition slot_index (r : ring_buffer) (n : Z) : nat := Z.to_nat (Z.land n (r_capacity r - 1)).

(** What a step of the producer does to the clocks, and whether it races. *)
Definition publish_clock (r : ring_buffer) (p : producer) (v : clocks) : clocks * bool :=
  match p with
  | PIdle => (v, false)
  | PSeq _ _ _ =>
      (Clocks (p_clock v) (Z.max (p_sees v) (r_view v)) (c_clock v) (c_sees v) (w_view v) (r_view v) (written v) (taken v), false)
  | PFill _ _ seq k =>
      if (k <? 5)%nat then
        let i := slot_index r seq in
        (Clocks (p_clock v) (p_sees v) (c_clock v) (c_sees v) (w_view v) (r_view v)
                (<[i := p_clock v]> (written v)) (taken v), p_sees v <? taken v i)
      else
        (Clocks (p_clock v + 1) (p_sees v) (c_clock v) (c_sees v) (p_clock v) (r_view v) (written v) (taken v), false)
  end.

(** The same for the consumer; [ord] is the order of its store to [read_seq]. *)
Definition poll_clock (ord : order) (r : ring_buffer) (c : consumer) (v : clocks) : clocks * bool :=
  match c with
  | CIdle => (v, false)
  | CRead _ =>
      (Clocks (p_clock v) (p_sees v) (c_clock v) (Z.max (c_sees v) (w_view v)) (w_view v) (r_view v) (written v) (taken v), false)
  | CCopy read k _ =>
      if (k <? 4)%nat then
        let i := slot_index r read in
        (Clocks (p_clock v) (p_sees v) (c_clock v) (c_sees v) (w_view v) (r_view v)
                (written v) (<[i := c_clock v]> (taken v)), c_sees v <? written v i)
      else
        (Clocks (p_clock v) (p_sees v) (c_clock v + 1) (c_sees v) (w_view v)
                (match ord with Relaxed => 0 | Release => c_clock v end) (written v) (taken v), false)
  end.

(** The reachable states with their clocks. *)
Inductive traced (ord : order) (s0 : system) : list event → system → clocks → Prop :=
  | traced_refl : traced ord s0 [] s0 start_clocks
  | traced_publish es r p c v call ev r' p' :
      traced ord s0 es (System r p c) v → publish_step r p call = Ok (ev, r', p') →
      traced ord s0 (es ++ ev) (System r' p' c) (publish_clock r p v).1
  | traced_poll es r p c v out ev r' c' :
      traced ord s0 es (System r p c) v → poll_step r c out = Ok (ev, r', c') →
      traced ord s0 (es ++ ev) (System r' p c') (poll_clock ord r c v).1.

Lemma traced_reach ord s0 es st v : traced ord s0 es st v → reach s0 es st.
Proof. induction 1; [apply reach_refl|by eapply reach_publish|by eapply reach_poll]. Qed.

(** The same along a schedule. *)
Fixpoint run_clocks (ord : order) (s : system) (v : clocks) (sched : list turn_of) : exec (list event * system * clocks) :=
  match sched with
  | [] => Ok ([], s, v)
  | Producer ch pl :: sched' =>
      x ← publish_step (sys_ring s) (sys_producer s) (ch, pl);
      let '(ev, r', p') := x in
      y ← run_clocks ord (System r' p' (sys_consumer s)) (publish_clock (sys_ring s) (sys_producer s) v).1 sched';
      Ok (ev ++ y.1.1, y.1.2, y.2)
  | Consumer :: sched' =>
      x ← poll_step (sys_ring s) (sys_consumer s) zero_slot;
      let '(ev, r', c') := x in
      y ← run_clocks ord (System r' (sys_producer s) c') (poll_clock ord (sys_ring s) (sys_consumer s) v).1 sched';
      Ok (ev ++ y.1.1, y.1.2, y.2)
  end.

Lemma run_traced ord s0 es0 s v sched es st v' :
  traced ord s0 es0 s v → run_clocks ord s v sched = Ok (es, st, v') → traced ord s0 (es0 ++ es) st v'.
Proof.
  revert es0 s v es. induction sched as [|[ch pl|] sched IH]; intros es0 s v es Ht; cbn [run_clocks].
  - intros [= <- <- <-]. by rewrite app_nil_r.
  - destruct (publish_step _ _ _) as [[[ev r'] p']|] eqn:E; [|done]. cbn [mbind exec_bind].
    destruct (run_clocks _ _ _ sched) as [[[es' st'] w]|] eqn:Er; [|done]. cbn [mbind exec_bind fst snd].
    intros [= <- <- <-]. rewrite app_assoc. eapply IH; [|exact Er]. destruct s. by eapply traced_publish.
  - destruct (poll_step _ _ _) as [[[ev r'] c']|] eqn:E; [|done]. cbn [mbind exec_bind].
    destruct (run_clocks _ _ _ sched) as [[[es' st'] w]|] eqn:Er; [|done]. cbn [mbind exec_bind fst snd].
    intros [= <- <- <-]. rewrite app_assoc. eapply IH; [|exact Er]. destruct s. by eapply traced_poll.
Qed.

(** * The invariant *)

(** An access to slot [i] with clock [t], by a thread that has finished with
    the numbers below [n], or is busy with the [n]th when [busy] holds. *)
Definition stamp_ok (cap : Z) (i : nat) (t n : Z) (busy : Prop) : Prop :=
  t = 0 ∨ (0 < t ∧ Z.to_nat ((t - 1) mod cap) = i ∧ (t <= n ∨ busy ∧ t = n + 1)).

Definition filling (p : producer) : Prop := match p with PFill _ _ _ _ => True | _ => False end.
Definition copying (c : consumer) : Prop := match c with CCopy _ _ _ => True | _ => False end.

Record clocks_ok (ord : order) (st : system) (v : clocks) : Prop := ClocksOk {
  ck_p : p_clock v = write_seq (sys_ring st) + 1 ∧ w_view v = write_seq (sys_ring st);
  ck_c : c_clock v = read_seq (sys_ring st) + 1 ∧ r_view v = match ord with Relaxed => 0 | Release => read_seq (sys_ring st) end;
  ck_written : ∀ i, stamp_ok (r_capacity (sys_ring st)) i (written v i) (write_seq (sys_ring st)) (filling (sys_producer st));
  ck_taken : ∀ i, stamp_ok (r_capacity (sys_ring st)) i (taken v i) (read_seq (sys_ring st)) (copying (sys_consumer st));
  ck_past : ∀ n, 0 <= n < read_seq (sys_ring st) → n + 1 <= taken v (slot_of (sys_ring st) n);
  ck_fill : match sys_producer st with
            | PFill _ _ seq _ => ord = Release → seq - r_capacity (sys_ring st) < p_sees v
            | _ => True
            end;
  ck_sees : 0 <= p_sees v ∧ (ord = Relaxed → p_sees v = 0);
  ck_copy : match sys_consumer st with
            | CCopy read k _ => read < c_sees v ∧ ((0 < k)%nat → taken v (slot_of (sys_ring st) read) = read + 1)
            | _ => True
            end;
}.

Lemma stamp_mono cap i t n n' (b b' : Prop) :
  stamp_ok cap i t n b → n <= n' → (b → b' ∧ n' = n ∨ n + 1 <= n') → stamp_ok cap i t n' b'.
Proof.
  intros [->|(Ht & Hi & Hn)] Hle Hb; [by left|]. right. split; [done|]. split; [done|].
  destruct Hn as [Hn|[Hbusy ->]]; [left; lia|]. destruct (Hb Hbusy) as [[? ->]|?]; [by right|left; lia].
Qed.

(** The slot that the producer fills was taken last [cap] numbers ago, if ever. *)
Lemma fill_stamp r p t :
  ring_wf r → producer_ok r p → ∀ c ch pl seq k, p = PFill ch pl seq k → consumer_ok r c →
  stamp_ok (r_capacity r) (slot_of r seq) t (read_seq r) (copying c) → t = 0 ∨ 0 < t <= seq - r_capacity r + 1.
Proof.
  intros Hwf Hp c ch pl seq k -> Hc [->|(Ht & Hi & Hn)]; [by left|right]. destruct Hp as (-> & _ & Hlt & _).
  pose proof Hwf as (_ & _ & _ & Hrw & _ & Hd).
  assert (t - 1 < write_seq r) as Htw.
  { destruct Hn as [Hn|[Hb ->]]; [lia|]. destruct c as [| |read n out]; [done..|]. destruct Hc as (-> & Hrd & _). lia. }
  destruct (decide (t <= write_seq r - r_capacity r + 1)) as [|Hgt]; [lia|]. exfalso.
  assert (t - 1 = write_seq r); [|lia]. apply (slot_of_inj r); [done|exact Hi|lia].
Qed.

(** The slot that the consumer copies was written last with its own number. *)
Lemma copy_stamp r c t :
  ring_wf r → consumer_ok r c → ∀ p read k out, c = CCopy read k out → producer_ok r p →
  stamp_ok (r_capacity r) (slot_of r read) t (write_seq r) (filling p) → t <= read + 1.
Proof.
  intros Hwf Hc p read k out -> Hp [->|(Ht & Hi & Hn)]; destruct Hc as (-> & Hrd & _); pose proof Hwf as (_ & _ & _ & Hrw & _ & Hd); [lia|].
  assert (t - 1 < read_seq r + r_capacity r) as Htr.
  { destruct Hn as [Hn|[Hb ->]]; [lia|]. destruct p as [| |ch pl seq n]; [done..|]. destruct Hp as (-> & _ & Hlt & _). lia. }
  destruct (decide (t <= read_seq r + 1)) as [|Hgt]; [lia|]. exfalso.
  assert (t - 1 = read_seq r); [|lia]. apply (slot_of_inj r); [done|exact Hi|lia].
Qed.

Lemma index_slot r n : ring_wf r → slot_index r n = slot_of r n.
Proof. intros Hwf. unfold slot_index, slot_of. by rewrite (proj1 (ring_index r n Hwf)). Qed.

Lemma stamp_new cap i n (b : Prop) : 0 <= n → b → i = Z.to_nat (n mod cap) → stamp_ok cap i (n + 1) n b.
Proof. intros Hn Hb ->. right. replace (n + 1 - 1) with n by lia. split; [lia|]. split; [done|]. by right. Qed.

Lemma publish_clock_ok ord r p c v q call ev r' p' :
  sys_ok (System r p c) q → clocks_ok ord (System r p c) v → write_seq r + 1 < 2 ^ 64 →
  publish_step r p call = Ok (ev, r', p') → clocks_ok ord (System r' p' c) (publish_clock r p v).1.
Proof.
  intros ((Hwf & _) & Hp & Hc) [[Hpc Hwv] [Hcc Hrv] Hwr Htk Hpast Hfill Hsees Hcopy] Hmax. cbn [sys_ring sys_producer sys_consumer] in *.
  pose proof Hwf as (_ & _ & _ & Hrw & _). assert (∀ i p'', stamp_ok (r_capacity r) i (written v i) (write_seq r) (filling p) →
    ¬ filling p → stamp_ok (r_capacity r) i (written v i) (write_seq r) (filling p'')) as Hidle.
  { intros i p'' Hs Hn. eapply stamp_mono; [exact Hs|lia|]. by intros ?%Hn. }
  destruct p as [|ch pl seq|ch pl seq k].
  - cbn [publish_step publish_clock fst]. destruct (_ >? _); intros [= <- <- <-]; by split.
  - destruct Hp as [-> Hpl]. cbn [publish_step publish_clock fst]. rewrite Z.geb_leb, u64_small by lia.
    assert (0 <= Z.max (p_sees v) (r_view v) ∧ (ord = Relaxed → Z.max (p_sees v) (r_view v) = 0)) as Hsees'.
    { destruct Hsees as [H0 Hr]. split; [lia|]. intros ->. rewrite Hr, Hrv by done. done. }
    destruct (_ <=? _) eqn:E; zb; intros [= <- <- <-]; (split; try done); cbn [sys_ring sys_producer sys_consumer written p_sees].
    { intros i. apply (Hidle i (PFill ch pl (write_seq r) 0)); [apply Hwr|by intros []]. }
    intros ->. rewrite Hrv. lia.
  - pose proof Hp as (-> & Hpl & Hlt & Hk & s0 & s & Hs0 & Hw & Hs). destruct (ring_index r (write_seq r) Hwf) as [Hi H0].
    unfold publish_clock. destruct (Nat.ltb_spec k 5) as [Hk5|Hk5].
    + rewrite (fill_step _ _ _ _ _ _ s) by (rewrite ?Hi; done || lia). rewrite index_slot by done.
      destruct (write_field _ _ _ _ _) as [s'|]; [|done]. cbn [mbind exec_bind]. intros [= <- <- <-]. split; try done; cbn.
      intros i. destruct (decide (i = slot_of r (write_seq r))) as [->|Hne].
      * rewrite fn_lookup_insert, Hpc. by apply stamp_new; [lia|..].
      * rewrite fn_lookup_insert_ne by done. apply Hwr.
    + replace k with 5%nat by lia. cbn [publish_step Nat.ltb Nat.leb]. rewrite u64_small by lia.
      intros [= <- <- <-]. split; try done; cbn; [lia|]. intros i. eapply stamp_mono; [apply Hwr|lia|]. intros _. right. lia.
Qed.

Lemma poll_clock_ok ord r p c v q out ev r' c' :
  sys_ok (System r p c) q → clocks_ok ord (System r p c) v →
  poll_step r c out = Ok (ev, r', c') → clocks_ok ord (System r' p c') (poll_clock ord r c v).1.
Proof.
  intros ((Hwf & _) & Hp & Hc) [[Hpc Hwv] [Hcc Hrv] Hwr Htk Hpast Hfill Hsees Hcopy]. cbn [sys_ring sys_producer sys_consumer] in *.
  pose proof Hwf as (_ & _ & _ & Hrw & H64 & _). destruct c as [|read|read k o].
  - cbn [poll_step poll_clock fst]. intros [= <- <- <-]. by split.
  - cbn in Hc. subst read. cbn [poll_step poll_clock fst]. rewrite Z.geb_leb.
    destruct (_ <=? _) eqn:E; zb; intros [= <- <- <-]; (split; try done); cbn [sys_ring sys_producer sys_consumer taken c_sees].
    + intros i. eapply stamp_mono; [apply Htk|lia|]. by intros [].
    + rewrite Hwv. split; [lia|]. intros ?. lia.
  - pose proof Hc as (-> & Hlt & Hk & s & o0 & Hs & Ho). destruct (ring_index r (read_seq r) Hwf) as [Hi H0].
    unfold poll_clock, poll_step. destruct (Nat.ltb_spec k 4) as [Hk4|Hk4].
    + destruct (aget _ _) as [s'|]; [|done]. cbn [mbind exec_bind]. intros [= <- <- <-]. rewrite index_slot by done. cbn [fst].
      assert (∀ n, taken v n <= read_seq r + 1) as Hmax by (intros n; destruct (Htk n) as [->|(_ & _ & [?|[_ ->]])]; lia).
      split; try done; cbn [sys_ring sys_producer sys_consumer taken c_sees].
      * intros i. destruct (decide (i = slot_of r (read_seq r))) as [->|Hne]; [|rewrite fn_lookup_insert_ne by done; apply Htk].
        rewrite fn_lookup_insert, Hcc. by apply stamp_new; [lia|..].
      * intros n Hn. specialize (Hpast n Hn). destruct (decide (slot_of r n = slot_of r (read_seq r))) as [->|Hne];
          [rewrite fn_lookup_insert; lia|by rewrite fn_lookup_insert_ne].
      * split; [apply Hcopy|]. intros _. by rewrite fn_lookup_insert, Hcc.
    + destruct Hcopy as [Hsee Htag]. intros [= <- <- <-]. rewrite u64_small by lia. cbn [fst].
      split; try done; cbn [sys_ring sys_producer sys_consumer taken c_clock r_view r_capacity read_seq write_seq].
      * split; [lia|]. by destruct ord.
      * intros i. eapply stamp_mono; [apply Htk|lia|]. intros _. right. lia.
      * intros n Hn. unfold slot_of in *. cbn [r_capacity]. destruct (decide (n = read_seq r)) as [->|Hne]; [|apply Hpast; lia].
        rewrite Htag by lia. lia.
Qed.

Lemma start_clocks_ok ord r : write_seq r = 0 → read_seq r = 0 → clocks_ok ord (System r PIdle CIdle) start_clocks.
Proof.
  intros Hw Hr. split; cbn; rewrite ?Hw, ?Hr; try done.
  - by destruct ord.
  - by left.
  - by left.
  - intros n Hn. lia.
Qed.

(** By induction on the steps. *)
Lemma traced_ok ord r es st v :
  ring_refines r [] → write_seq r = 0 → traced ord (System r PIdle CIdle) es st v → zlen es + 1 < 2 ^ 64 →
  (∃ q, sys_ok st q) ∧ clocks_ok ord st v.
Proof.
  intros Hr Hw Ht Hlen. assert (sys_ok (System r PIdle CIdle) []) as H0 by done. split.
  { destruct (reach_ok _ _ _ H0 Hw (traced_reach _ _ _ _ _ Ht) Hlen) as (q & Hq & _). by exists q. }
  induction Ht as [|es r1 p c v call ev r' p' Ht IH Hstep|es r1 p c v out ev r' c' Ht IH Hstep].
  - apply start_clocks_ok; [done|]. destruct Hr as ((_ & _ & _ & Hrw & _) & _). lia.
  - rewrite zlen_app in Hlen. pose proof (zlen_nonneg ev).
    destruct (reach_ok _ _ _ H0 Hw (traced_reach _ _ _ _ _ Ht) ltac:(lia)) as (q & Hq & _ & Hws & _). cbn in Hws.
    eapply publish_clock_ok; [exact Hq|apply IH; lia|lia|exact Hstep].
  - rewrite zlen_app in Hlen. pose proof (zlen_nonneg ev).
    destruct (reach_ok _ _ _ H0 Hw (traced_reach _ _ _ _ _ Ht) ltac:(lia)) as (q & Hq & _).
    eapply poll_clock_ok; [exact Hq|apply IH; lia|exact Hstep].
Qed.

(** * Theorem *)

(** The producer is about to write to a slot that has held a message before. *)
Definition reuses (st : system) : Prop :=
  match sys_producer st with PFill _ _ seq k => (k < 5)%nat ∧ r_capacity (sys_ring st) <= seq | _ => False end.

(** C12: The store of read_seq by zedis_ring_poll is relaxed, so nothing orders
    the consumer's reads of a slot before the producer's next writes to it: in
    every interleaving, with the order of the code, exactly the producer's
    writes to a slot that has been used before race with the consumer, from
    the first message after the ring has been filled once.  With a release
    store no access would race; the consumer's reads never do. *)
Theorem slot_races ord a cap r a' es st v :
  1 <= cap <= 2 ^ 53 → zedis_ring_init a cap = (RC_OK, Some r, a') →
  traced ord (System r PIdle CIdle) es st v → zlen es + 1 < 2 ^ 64 →
  ((publish_clock (sys_ring st) (sys_producer st) v).2 = true ↔ ord = Relaxed ∧ reuses st) ∧
  (poll_clock ord (sys_ring st) (sys_consumer st) v).2 = false.
Proof.
  intros Hc Hinit Ht Hlen. destruct (ring_init_refines _ _ _ _ Hc Hinit) as (Href & _ & Hw).
  destruct (traced_ok _ _ _ _ _ Href Hw Ht Hlen) as [[q ((Hwf & _) & Hp & Hcn)] [_ _ Hwr Htk Hpast Hfill Hsees Hcopy]]. split.
  - unfold reuses. destruct (sys_producer st) as [|ch pl seq|ch pl seq k] eqn:Ep; cbn [publish_clock snd]; [naive_solver..|].
    pose proof Hp as (Hseq & _ & Hlt & _). pose proof Hwf as (_ & _ & _ & Hrw & _).
    destruct (Nat.ltb_spec k 5); cbn [snd]; [|split; [done|]; intros (_ & ? & _); lia]. rewrite index_slot, Z.ltb_lt by done.
    pose proof (fill_stamp _ _ _ Hwf Hp _ _ _ _ _ eq_refl Hcn (Htk _)) as Hst. destruct Hsees as [H0 Hrel]. destruct ord.
    + rewrite Hrel by done. split; [intros Ht0; split; [done|]; split; [done|lia]|]. intros (_ & _ & Hcap).
      specialize (Hpast (seq - r_capacity (sys_ring st)) ltac:(lia)).
      assert (slot_of (sys_ring st) (seq - r_capacity (sys_ring st)) = slot_of (sys_ring st) seq) as Heq; [|rewrite Heq in Hpast; lia].
      unfold slot_of. f_equal. replace (seq - r_capacity (sys_ring st)) with (seq + (-1) * r_capacity (sys_ring st)) by lia. apply Z.mod_add. lia.
    + specialize (Hfill eq_refl). split; [intros ?; lia|]. by intros [? _].
  - destruct (sys_consumer st) as [|read|read k out] eqn:Ec; [done..|]. unfold poll_clock. destruct (Nat.ltb_spec k 4); [|done].
    cbn [snd]. rewrite index_slot by done. apply Z.ltb_ge. destruct Hcopy as [Hlt _].
    pose proof (copy_stamp _ _ _ Hwf Hcn _ _ _ _ eq_refl Hp (Hwr _)). lia.
Qed.

(** Two messages fill the ring, one is taken, and a third is on its way. *)
Definition third_message : list turn_of :=
  replicate 16 (Producer [97; 0] [1]) ++ replicate 7 Consumer ++ replicate 2 (Producer [97; 0] [1]).

Lemma slot_races_witness :
  match run_clocks Relaxed (System two_slots PIdle CIdle) start_clocks third_message with
  | Ok (es, st, v) => length es = 3%nat ∧ (publish_clock (sys_ring st) (sys_producer st) v).2 = true
  | Stuck _ => False
  end.
Proof.
  assert (match run_clocks Relaxed (System two_slots PIdle CIdle) start_clocks third_message with
    | Ok (es, st, _) => length es = 3%nat ∧
        match sys_producer st with PFill _ _ seq k => k = 0%nat ∧ r_capacity (sys_ring st) = seq | _ => False end
    | Stuck _ => False
    end) as Hrun by (vm_compute; auto).
  destruct (run_clocks Relaxed (System two_slots PIdle CIdle) start_clocks third_message) as [[[es st] v]|] eqn:E; [|done].
  destruct Hrun as [Hl Hp]. split; [exact Hl|].
  destruct (slot_races Relaxed (Arena 4096 2097152 0 0) 2 two_slots (Arena 4096 2097152 1184 0) es st v) as [Hrace _].
  - lia.
  - vm_compute. reflexivity.
  - exact (run_traced _ _ _ _ _ _ _ _ _ (traced_refl _ _) E).
  - unfold zlen. rewrite Hl. reflexivity.
  - apply Hrace. split; [reflexivity|]. unfold reuses. destruct (sys_producer st); [contradiction..|]. destruct Hp as [-> ->]. lia.
Defined.
