(* ===== verification/AppendLog.v ===== *)
(** The append-only list log of src/append_log.c.

    The mapping is a list of bytes of the log's capacity; a record is the
    packed header of eight bytes ([prev_off], [key_len], [val_len],
    little-endian) followed by the key and the value.  [open], [ftruncate]
    and [mmap] are the operating system's: the record [aol_sys] holds what
    they return and is a parameter of [zedis_aol_init].

    Theorems: lists that share one log behave as independent lists of values,
    newest first; what LRANGE prints; how much of a list it can see. *)

From S2P Require Import Prelude.

Definition ZEDIS_AOL_MAX_ELEM : Z := 512.
Definition ZEDIS_AOL_MAX_KEY : Z := 256.
Definition ZEDIS_AOL_DEFAULT_SIZE : Z := 16 * 1024 * 1024.
Definition ZEDIS_AOL_NO_PREV : Z := UINT32_MAX.
Definition SIZEOF_AOL_HDR : Z := 8.
Definition LRANGE_MAX : nat := 1024.

Record list_meta := ListMeta {
  head_off : Z;
  tail_off : Z;
  lm_count : Z;
}.

Record append_log := AppendLog {
  l_base : list Z;
  l_capacity : Z;
  write_pos : Z;
  l_fd : Z;
  is_file : Z;
}.

Record aol_hdr := AolHdr {
  prev_off : Z;
  key_len : Z;
  val_len : Z;
}.

(** What the system calls of [zedis_aol_init] return: the descriptor of the
    opened file, whether ftruncate succeeds, and the two mappings. *)
Record aol_sys := AolSys {
  sys_open : list Z → Z;
  sys_ftruncate : Z → Z → bool;
  sys_mmap_file : Z → Z → option (list Z);
  sys_mmap_anon : Z → bool;
}.

Definition record_size (klen vlen : Z) : Z := SIZEOF_AOL_HDR + klen + vlen.

Definition zedis_aol_init (sys : aol_sys) (capacity : Z) (path : option (list Z))
    : Z * option append_log :=
  if capacity <? 4096 then (RC_ERR, None) else
  match path with
  | Some (c :: cs) =>
      let fd := sys_open sys (c :: cs) in
      if fd <? 0 then (RC_ERR, None) else
      if negb (sys_ftruncate sys fd capacity) then (RC_ERR, None) else
      match sys_mmap_file sys fd capacity with
      | None => (RC_ERR, None)
      | Some bytes => (RC_OK, Some (AppendLog bytes capacity 0 fd 1))
      end
  | _ =>
      if sys_mmap_anon sys capacity
      then (RC_OK, Some (AppendLog (replicate (Z.to_nat capacity) 0) capacity 0 (-1) 0))
      else (RC_ERR, None)
  end.

Definition zedis_aol_destroy (log : append_log) : append_log := AppendLog [] 0 0 0 0.

(** The bytes of an [n]-byte little-endian integer. *)
Fixpoint le_bytes (n : nat) (z : Z) : list Z :=
  match n with
  | O => []
  | S n' => z mod 256 :: le_bytes n' (z / 256)
  end.

Fixpoint le_val (bs : list Z) : Z :=
  match bs with
  | [] => 0
  | b :: bs' => b + 256 * le_val bs'
  end.

Definition hdr_bytes (h : aol_hdr) : list Z :=
  le_bytes 4 (prev_off h) ++ le_bytes 2 (key_len h) ++ le_bytes 2 (val_len h).

Definition zedis_aol_lpush (log : append_log) (meta : list_meta) (key val : list Z)
    : exec (Z * append_log * list_meta) :=
  if (zlen key =? 0) || (zlen key >? ZEDIS_AOL_MAX_KEY) || (zlen val =? 0) ||
     (zlen val >? ZEDIS_AOL_MAX_ELEM) then Ok (RC_ERR, log, meta) else
  let need := record_size (u16 (zlen key)) (u16 (zlen val)) in
  if u64 (write_pos log + need) >? l_capacity log then Ok (RC_ERR, log, meta) else
  let off := u32 (write_pos log) in
  let hdr := AolHdr (head_off meta) (u16 (zlen key)) (u16 (zlen val)) in
  b1 ← memcpy (l_base log) (write_pos log) (hdr_bytes hdr);
  let payload := write_pos log + SIZEOF_AOL_HDR in
  b2 ← memcpy b1 payload key;
  b3 ← memcpy b2 (payload + zlen key) val;
  let tail := if head_off meta =? ZEDIS_AOL_NO_PREV then off else tail_off meta in
  Ok (RC_OK,
      AppendLog b3 (l_capacity log) (u64 (write_pos log + need)) (l_fd log) (is_file log),
      ListMeta off tail (u32 (lm_count meta + 1))).

Definition hdr_at (log : append_log) (off : Z) : bool :=
  negb ((off =? ZEDIS_AOL_NO_PREV) || (u64 (off + SIZEOF_AOL_HDR) >? l_capacity log)).

(** The header a pointer [base + off] reads. *)
Definition hdr_ptr (log : append_log) (off : Z) : exec aol_hdr :=
  bs ← read_n (l_base log) off SIZEOF_AOL_HDR;
  Ok (AolHdr (le_val (slice bs 0 4)) (le_val (slice bs 4 2)) (le_val (slice bs 6 2))).

(** The [val_len] bytes that follow the key. *)
Definition val_at (log : append_log) (off : Z) (h : aol_hdr) : exec (list Z) :=
  read_n (l_base log) (off + SIZEOF_AOL_HDR + key_len h) (val_len h).

(** The loop of lines 152 to 160; [room] is the part of [offsets] still free. *)
Fixpoint collect_offsets (room : nat) (log : append_log) (cur : Z) : exec (list Z) :=
  match room with
  | O => Ok []
  | S room' =>
      if cur =? ZEDIS_AOL_NO_PREV then Ok [] else
      if negb (hdr_at log cur) then Ok [] else
      h ← hdr_ptr log cur;
      rest ← collect_offsets room' log (prev_off h);
      Ok (cur :: rest)
  end.

(** [snprintf (buf + strlen, cap - strlen, fmt)] and the test that follows it:
    nothing when the output does not fit. *)
Definition append_fmt (cap : Z) (reply out : list Z) : option (list Z) :=
  if (zlen out <=? 0) || (zlen reply + zlen out >=? cap) then None else Some (reply ++ out).

(** The loop of lines 184 to 197. *)
Fixpoint print_elems (fuel : nat) (log : append_log) (offsets : list Z) (i : Z) (cap : Z)
    (reply : list Z) : exec (option (list Z)) :=
  match fuel with
  | O => Ok (Some reply)
  | S fuel' =>
      off ← aget offsets i;
      if negb (hdr_at log off) then Ok None else
      h ← hdr_ptr log off;
      v ← val_at log off h;
      match append_fmt cap reply
              ([36] ++ dec_u (val_len h) ++ crlf ++ cstr v ++ crlf) with
      | None => Ok None
      | Some reply' => print_elems fuel' log offsets (i + 1) cap reply'
      end
  end.

(** The reply, or nothing where it returns -1. *)
Definition zedis_aol_lrange (log : append_log) (meta : list_meta) (start stop cap : Z)
    : exec (option (list Z)) :=
  if (lm_count meta =? 0) || (head_off meta =? ZEDIS_AOL_NO_PREV)
  then Ok (append_fmt cap [] (fmt_array 0)) else
  offsets ← collect_offsets LRANGE_MAX log (head_off meta);
  let chain_len := zlen offsets in
  let start := if start <? 0 then 0 else start in
  let stop := if (stop <? 0) || (stop >=? chain_len) then chain_len - 1 else stop in
  if start >? stop then Ok (append_fmt cap [] (fmt_array 0)) else
  match append_fmt cap [] (fmt_array (to_i32 (stop - start + 1))) with
  | None => Ok None
  | Some reply => print_elems (Z.to_nat (stop - start + 1)) log offsets start cap reply
  end.

Definition zedis_aol_llen (meta : list_meta) : Z := lm_count meta.

(** * Little-endian integers *)

Lemma le_bytes_length n z : length (le_bytes n z) = n.
Proof. revert z. induction n as [|n IH]; intros z; [done|]. cbn. by rewrite IH. Qed.

Lemma le_val_bytes n z : 0 <= z < 256 ^ Z.of_nat n → le_val (le_bytes n z) = z.
Proof.
  revert z. induction n as [|n IH]; intros z Hz; [cbn in *; lia|].
  rewrite Nat2Z.inj_succ, Z.pow_succ_r in Hz by lia. cbn [le_bytes le_val]. rewrite IH.
  - pose proof (Z.div_mod z 256). lia.
  - split; [apply Z.div_pos; lia|]. apply Z.div_lt_upper_bound; lia.
Qed.

Definition hdr_ok (h : aol_hdr) : Prop :=
  0 <= prev_off h < 2 ^ 32 ∧ 0 <= key_len h < 2 ^ 16 ∧ 0 <= val_len h < 2 ^ 16.

Definition hdr_of_bytes (bs : list Z) : aol_hdr :=
  AolHdr (le_val (slice bs 0 4)) (le_val (slice bs 4 2)) (le_val (slice bs 6 2)).

Lemma hdr_bytes_roundtrip h : hdr_ok h → hdr_of_bytes (hdr_bytes h) = h.
Proof.
  intros (Hp & Hk & Hv). destruct h as [p k v]; cbn [prev_off key_len val_len] in *.
  unfold hdr_of_bytes, hdr_bytes. cbn [prev_off key_len val_len].
  f_equal; [transitivity (le_val (le_bytes 4 p))|transitivity (le_val (le_bytes 2 k))|
            transitivity (le_val (le_bytes 2 v))]; try done; by apply le_val_bytes.
Qed.

(** * The reference: lists of values, newest first *)

(** The range of positions LRANGE answers for a list of [n] elements. *)
Definition spec_range (n start stop : Z) : Z * Z :=
  (Z.max 0 start, if (stop <? 0) || (stop >=? n) then n - 1 else stop).

(** The values at these positions, and the RESP array of them. *)
Definition list_range (vals : list (list Z)) (start stop : Z) : list (list Z) :=
  let '(a, b) := spec_range (zlen vals) start stop in
  if b <? a then [] else slice vals a (b - a + 1).
Definition list_reply (vals : list (list Z)) : list Z :=
  fmt_array (zlen vals) ++ concat ((λ v, [36] ++ dec_u (zlen v) ++ crlf ++ v ++ crlf) <$> vals).

(** The reply to LRANGE: only the newest 1024 values are visible, and the text
    of each ends at its first NUL, although its whole length is announced. *)
Definition spec_lrange (vals : list (list Z)) (start stop : Z) : list Z :=
  let xs := take LRANGE_MAX vals in
  let '(a, b) := spec_range (zlen xs) start stop in
  if b <? a then fmt_array 0
  else fmt_array (b - a + 1) ++ concat (fmt_bulk <$> slice xs a (b - a + 1)).

(** * Representation *)

Definition elem_ok (key val : list Z) : Prop :=
  1 <= zlen key <= ZEDIS_AOL_MAX_KEY ∧ 1 <= zlen val <= ZEDIS_AOL_MAX_ELEM.

Definition log_wf (log : append_log) : Prop :=
  zlen (l_base log) = l_capacity log ∧ l_capacity log < UINT32_MAX ∧
  0 <= write_pos log <= l_capacity log.

(** Following [prev_off] from [off] meets exactly the values [vals], at
    strictly decreasing offsets below [bound]. *)
Fixpoint chain (base : list Z) (bound off : Z) (vals : list (list Z)) : Prop :=
  match vals with
  | [] => off = ZEDIS_AOL_NO_PREV
  | v :: vals' => ∃ prev key,
      0 <= off ∧ elem_ok key v ∧ 0 <= prev < 2 ^ 32 ∧
      off + record_size (zlen key) (zlen v) <= bound ∧
      slice base off (record_size (zlen key) (zlen v))
        = hdr_bytes (AolHdr prev (zlen key) (zlen v)) ++ key ++ v ∧
      chain base off prev vals'
  end.

Definition list_rep (log : append_log) (meta : list_meta) (vals : list (list Z)) : Prop :=
  chain (l_base log) (write_pos log) (head_off meta) vals ∧ lm_count meta = zlen vals.

Definition empty_meta : list_meta := ListMeta ZEDIS_AOL_NO_PREV ZEDIS_AOL_NO_PREV 0.

Lemma chain_count base bound off vals :
  chain base bound off vals → 0 <= bound → 10 * zlen vals <= bound.
Proof.
  revert bound off. induction vals as [|v vals IH]; intros bound off Hc Hb; [unfold zlen; cbn; lia|].
  destruct Hc as (prev & key & Hoff & [Hk Hv] & _ & Hle & _ & Hc).
  specialize (IH _ _ Hc Hoff). rewrite zlen_cons. unfold record_size, SIZEOF_AOL_HDR in Hle. lia.
Qed.

Lemma chain_frame base base' bound off vals :
  (∀ o n, 0 <= o → 0 <= n → o + n <= bound → slice base' o n = slice base o n) →
  chain base bound off vals → chain base' bound off vals.
Proof.
  revert bound off. induction vals as [|v vals IH]; intros bound off Hf Hc; [done|].
  destruct Hc as (prev & key & Hoff & Hel & Hp & Hle & Hs & Hc). exists prev, key.
  pose proof Hel as [[? ?] [? ?]]. unfold record_size, SIZEOF_AOL_HDR in *.
  split_and!; try done; try lia.
  - rewrite <-Hs. apply Hf; lia.
  - apply IH; [|done]. intros o n ???. apply Hf; lia.
Qed.

Lemma chain_bound base bound bound' off vals :
  bound <= bound' → chain base bound off vals → chain base bound' off vals.
Proof.
  destruct vals as [|v vals]; intros Hle Hc; [done|].
  destruct Hc as (prev & key & ? & ? & ? & ? & ? & ?). exists prev, key. split_and!; done || lia.
Qed.

Lemma chain_head base bound off vals :
  chain base bound off vals → bound <= UINT32_MAX → 0 <= off < 2 ^ 32.
Proof.
  destruct vals as [|v vals]; cbn; [intros ->; unfold ZEDIS_AOL_NO_PREV, UINT32_MAX; lia|].
  intros (prev & key & ? & [? ?] & ? & ? & _) ?.
  unfold record_size, SIZEOF_AOL_HDR, UINT32_MAX in *. lia.
Qed.

(** * Appending *)

(** The three writes of a record put its encoding at [write_pos]. *)
Lemma write_record base at_ h key val :
  0 <= at_ → at_ + record_size (zlen key) (zlen val) <= zlen base → ∃ base',
    (b1 ← memcpy base at_ (hdr_bytes h);
     b2 ← memcpy b1 (at_ + SIZEOF_AOL_HDR) key;
     memcpy b2 (at_ + SIZEOF_AOL_HDR + zlen key) val) = Ok base' ∧
    zlen base' = zlen base ∧
    slice base' at_ (record_size (zlen key) (zlen val)) = hdr_bytes h ++ key ++ val ∧
    ∀ o n, 0 <= o → 0 <= n → o + n <= at_ → slice base' o n = slice base o n.
Proof.
  intros Hat Hroom. assert (zlen (hdr_bytes h) = SIZEOF_AOL_HDR) as Hh by done.
  pose proof (zlen_nonneg key). pose proof (zlen_nonneg val).
  unfold record_size in *. unfold SIZEOF_AOL_HDR in *.
  destruct (memcpy base at_ (hdr_bytes h)) as [b1|] eqn:E1.
  2:{ rewrite memcpy_ok in E1 by lia. done. }
  pose proof (memcpy_zlen _ _ _ _ E1). cbn [mbind exec_bind].
  destruct (memcpy b1 (at_ + 8) key) as [b2|] eqn:E2.
  2:{ rewrite memcpy_ok in E2 by lia. done. }
  pose proof (memcpy_zlen _ _ _ _ E2). cbn [mbind exec_bind].
  destruct (memcpy b2 (at_ + 8 + zlen key) val) as [b3|] eqn:E3.
  2:{ rewrite memcpy_ok in E3 by lia. done. }
  pose proof (memcpy_zlen _ _ _ _ E3).
  exists b3. split; [done|]. split; [lia|]. split.
  - replace (8 + zlen key + zlen val) with (8 + (zlen key + zlen val)) by lia.
    rewrite !slice_split by lia. f_equal; [|f_equal].
    + rewrite (memcpy_frame _ _ _ _ at_ 8 E3), (memcpy_frame _ _ _ _ at_ 8 E2) by lia.
      rewrite <-Hh. by eapply memcpy_read.
    + rewrite (memcpy_frame _ _ _ _ _ _ E3) by lia. by eapply memcpy_read.
    + by eapply memcpy_read.
  - intros o n ???. rewrite (memcpy_frame _ _ _ _ o n E3), (memcpy_frame _ _ _ _ o n E2) by lia.
    by rewrite (memcpy_frame _ _ _ _ o n E1) by lia.
Qed.

Definition lpush_fits (log : append_log) (key val : list Z) : bool :=
  (1 <=? zlen key) && (zlen key <=? ZEDIS_AOL_MAX_KEY) &&
  (1 <=? zlen val) && (zlen val <=? ZEDIS_AOL_MAX_ELEM) &&
  (write_pos log + record_size (zlen key) (zlen val) <=? l_capacity log).

Lemma lpush_guard (key val : list Z) :
  (zlen key =? 0) || (zlen key >? ZEDIS_AOL_MAX_KEY) || (zlen val =? 0) ||
  (zlen val >? ZEDIS_AOL_MAX_ELEM)
  = negb ((1 <=? zlen key) && (zlen key <=? ZEDIS_AOL_MAX_KEY) &&
          (1 <=? zlen val) && (zlen val <=? ZEDIS_AOL_MAX_ELEM)).
Proof.
  pose proof (zlen_nonneg key). pose proof (zlen_nonneg val). apply eq_true_iff_eq.
  rewrite negb_true_iff, <-not_true_iff_false, !orb_true_iff, !andb_true_iff.
  rewrite !Z.gtb_ltb, !Z.eqb_eq, !Z.ltb_lt, !Z.leb_le. lia.
Qed.

Lemma lpush_refines log meta key val vals :
  log_wf log → list_rep log meta vals →
  if lpush_fits log key val
  then ∃ log' meta', zedis_aol_lpush log meta key val = Ok (RC_OK, log', meta') ∧
    log_wf log' ∧ list_rep log' meta' (val :: vals) ∧
    (∀ m vs, list_rep log m vs → list_rep log' m vs) ∧
    write_pos log' = write_pos log + record_size (zlen key) (zlen val) ∧
    l_capacity log' = l_capacity log ∧
    slice (l_base log') (write_pos log) (record_size (zlen key) (zlen val))
      = hdr_bytes (AolHdr (head_off meta) (zlen key) (zlen val)) ++ key ++ val
  else zedis_aol_lpush log meta key val = Ok (RC_ERR, log, meta).
Proof.
  intros (Hb & Hcap & Hwp) [Hc Hcnt]. unfold zedis_aol_lpush, lpush_fits. rewrite lpush_guard.
  destruct (_ && _ && _ && (zlen val <=? _)) eqn:E1; cbn [andb negb]; [|done].
  assert (elem_ok key val) as [Hk Hv] by (zb; by split).
  unfold UINT32_MAX, ZEDIS_AOL_MAX_KEY, ZEDIS_AOL_MAX_ELEM in *.
  rewrite !u16_small, u64_small, u32_small, Z.gtb_ltb by (unfold record_size, SIZEOF_AOL_HDR; lia).
  destruct (_ <=? l_capacity log) eqn:E2; zb.
  2:{ destruct (l_capacity log <? _) eqn:E3; zb; [done|lia]. }
  destruct (l_capacity log <? _) eqn:E3; zb; [lia|].
  set (h := AolHdr _ _ _).
  destruct (write_record (l_base log) (write_pos log) h key val) as (b' & Hw & Hl & Hs & Hf);
    [lia|lia|].
  apply exec_bind_ok in Hw as (b1 & -> & (b2 & Hw2 & Hw3)%exec_bind_ok).
  cbn [mbind exec_bind]. rewrite Hw2. cbn [mbind exec_bind]. rewrite Hw3. cbn [mbind exec_bind].
  pose proof (chain_count _ _ _ _ Hc ltac:(lia)) as Hn.
  pose proof (chain_head _ _ _ _ Hc ltac:(unfold UINT32_MAX; lia)).
  pose proof (zlen_nonneg vals). rewrite u32_small by lia.
  do 2 eexists. split; [done|]. unfold list_rep, log_wf; cbn [l_base l_capacity write_pos head_off lm_count].
  unfold record_size, SIZEOF_AOL_HDR in *.
  split; [unfold UINT32_MAX; lia|]. split_and!; try done.
  - exists (head_off meta), key. unfold record_size, SIZEOF_AOL_HDR.
    split_and!; try done; try lia. by eapply chain_frame.
  - rewrite zlen_cons. lia.
  - intros m vs [Hcm Hcc]. split; [|done]. eapply chain_bound, chain_frame; [|done|done]. lia.
Qed.

(** * Walking a chain *)

(** A record with value [v] is found at offset [o]. *)
Definition elem_at (log : append_log) (o : Z) (v : list Z) : Prop :=
  hdr_at log o = true ∧ ∃ h, hdr_ptr log o = Ok h ∧ val_at log o h = Ok v ∧ val_len h = zlen v.

Lemma chain_elem log v vals off bound :
  log_wf log → bound <= write_pos log → chain (l_base log) bound off (v :: vals) →
  off ≠ ZEDIS_AOL_NO_PREV ∧ elem_at log off v ∧
  ∃ h, hdr_ptr log off = Ok h ∧ chain (l_base log) off (prev_off h) vals ∧ off <= bound.
Proof.
  intros (Hb & Hcap & Hwp) Hbd (prev & key & Hoff & [Hk Hv] & Hp & Hle & Hs & Hc).
  unfold record_size, SIZEOF_AOL_HDR, ZEDIS_AOL_MAX_KEY, ZEDIS_AOL_MAX_ELEM in *.
  unfold UINT32_MAX in Hcap.
  replace (8 + zlen key + zlen v) with (8 + (zlen key + zlen v)) in Hs by lia.
  rewrite !slice_split in Hs by lia.
  apply app_inj_1 in Hs as [Hh Hs].
  2:{ transitivity 8%nat; [|done]. pose proof (zlen_slice (l_base log) off 8). unfold zlen in *. lia. }
  apply app_inj_1 in Hs as [_ Hv'].
  2:{ pose proof (zlen_slice (l_base log) (off + 8) (zlen key)). unfold zlen in *. lia. }
  assert (hdr_ptr log off = Ok (AolHdr prev (zlen key) (zlen v))) as Hptr.
  { unfold hdr_ptr, SIZEOF_AOL_HDR. rewrite read_n_ok by lia. cbn [mbind exec_bind].
    rewrite Hh. f_equal. apply (hdr_bytes_roundtrip (AolHdr prev (zlen key) (zlen v))).
    unfold hdr_ok; cbn. lia. }
  assert (off ≠ ZEDIS_AOL_NO_PREV) as Hne by (unfold ZEDIS_AOL_NO_PREV, UINT32_MAX; lia).
  split; [done|]. split; [split|].
  - unfold hdr_at. rewrite (proj2 (Z.eqb_neq _ _) Hne), Z.gtb_ltb, u64_small by (unfold SIZEOF_AOL_HDR; lia).
    cbn [orb]. apply negb_true_iff, Z.ltb_ge. unfold SIZEOF_AOL_HDR. lia.
  - eexists. split; [done|]. split; [|done]. unfold val_at, SIZEOF_AOL_HDR; cbn [key_len val_len].
    rewrite read_n_ok by lia. by rewrite Hv'.
  - eexists. split; [done|]. cbn [prev_off]. split; [done|lia].
Qed.

Lemma collect_offsets_chain room log bound off vals :
  log_wf log → bound <= write_pos log → chain (l_base log) bound off vals → ∃ offs,
    collect_offsets room log off = Ok offs ∧ Forall2 (elem_at log) offs (take room vals).
Proof.
  intros Hwf. revert bound off vals. induction room as [|room IH]; intros bound off vals Hbd Hc.
  { exists []. by split; [|constructor]. }
  cbn [collect_offsets]. destruct vals as [|v vals].
  { cbn in Hc. subst off. exists []. by split; [|constructor]. }
  destruct (chain_elem _ _ _ _ _ Hwf Hbd Hc) as (Hne & Hel & h & Hh & Hc' & Hob).
  destruct (IH off (prev_off h) vals ltac:(lia) Hc') as (offs & Hoffs & Hall).
  exists (off :: offs). rewrite (proj2 (Z.eqb_neq _ _) Hne). pose proof Hel as [Hat _].
  rewrite Hat. cbn [negb]. rewrite Hh. cbn [mbind exec_bind]. rewrite Hoffs.
  split; [done|]. by constructor.
Qed.

Lemma append_fmt_eq cap reply out :
  0 < zlen out →
  append_fmt cap reply out = if zlen (reply ++ out) <? cap then Some (reply ++ out) else None.
Proof.
  intros Ho. unfold append_fmt. rewrite zlen_app, Z.geb_leb.
  destruct (zlen out <=? 0) eqn:E; zb; [lia|]. cbn [orb].
  destruct (cap <=? _) eqn:E1, (_ <? cap) eqn:E2; zb; done || lia.
Qed.

Lemma print_elems_eq n log (offs : list Z) (xs : list (list Z)) i cap reply :
  Forall2 (elem_at log) offs xs → 0 <= i → i + Z.of_nat n <= zlen xs → zlen reply < cap →
  let out := reply ++ concat (fmt_bulk <$> slice xs i (Z.of_nat n)) in
  print_elems n log offs i cap reply = Ok (if zlen out <? cap then Some out else None).
Proof.
  intros Hall. revert i reply. induction n as [|n IH]; intros i reply Hi Hle Hr out; unfold out.
  { unfold slice. cbn. rewrite app_nil_r. by rewrite (proj2 (Z.ltb_lt _ _) Hr). }
  cbn [print_elems]. pose proof (Forall2_length _ _ _ Hall) as Hlen.
  destruct (aget_ok offs i) as (o & -> & Ho); [unfold zlen in *; lia|]. cbn [mbind exec_bind].
  destruct (Forall2_lookup_l _ _ _ _ _ Hall Ho) as (v & Hv & Hat & h & Hh & Hval & Hvl).
  rewrite Hat. cbn [negb]. rewrite Hh. cbn [mbind exec_bind]. rewrite Hval. cbn [mbind exec_bind].
  rewrite Hvl. fold (fmt_bulk v). pose proof (fmt_bulk_pos v). rewrite append_fmt_eq by lia.
  rewrite (slice_cons _ _ _ v) by done. cbn [fmap list_fmap concat]. rewrite app_assoc.
  destruct (zlen (reply ++ fmt_bulk v) <? cap) eqn:E; zb.
  - apply IH; lia.
  - rewrite zlen_app. pose proof (zlen_nonneg (concat (fmt_bulk <$> slice xs (i + 1) (Z.of_nat n)))).
    destruct (_ <? cap) eqn:E'; zb; [lia|done].
Qed.

Lemma spec_range_bounds n start stop a b :
  0 <= n → spec_range n start stop = (a, b) → a <= b → 0 <= a ∧ b < n.
Proof.
  unfold spec_range. intros Hn [= <- <-]. destruct (_ || _) eqn:E; zb; lia.
Qed.

Lemma lrange_refines log meta vals start stop cap :
  log_wf log → list_rep log meta vals →
  zedis_aol_lrange log meta start stop cap
  = Ok (let r := spec_lrange vals start stop in if zlen r <? cap then Some r else None).
Proof.
  intros Hwf [Hc Hcnt]. unfold zedis_aol_lrange. rewrite Hcnt.
  destruct vals as [|v vals].
  { unfold spec_lrange, spec_range, LRANGE_MAX. cbn [take zlen length Z.of_nat].
    rewrite append_fmt_eq by apply fmt_array_pos. cbn [orb app Z.eqb].
    destruct ((stop <? 0) || _) eqn:E; zb;
      destruct (_ <? Z.max 0 start) eqn:E'; zb; try done; unfold zlen in *; cbn in *; lia. }
  destruct (chain_elem _ _ _ _ _ Hwf (Z.le_refl _) Hc) as (Hne & _).
  destruct (collect_offsets_chain LRANGE_MAX log _ _ _ Hwf (Z.le_refl _) Hc) as (offs & -> & Hall).
  remember (v :: vals) as vs eqn:Hvs.
  rewrite (proj2 (Z.eqb_neq _ _) Hne), orb_false_r.
  destruct (zlen vs =? 0) eqn:E0; zb; [subst; rewrite zlen_cons in E0; pose proof (zlen_nonneg vals); lia|].
  cbn [mbind exec_bind]. unfold spec_lrange. set (xs := take LRANGE_MAX vs) in *.
  assert (zlen offs = zlen xs) as Hl by (unfold zlen; f_equal; by eapply Forall2_length).
  assert (zlen xs <= 1024) as Hmax.
  { unfold zlen, xs. rewrite length_take. unfold LRANGE_MAX. lia. }
  rewrite Hl. destruct (spec_range (zlen xs) start stop) as [a b] eqn:Hr.
  pose proof (spec_range_bounds _ _ _ _ _ (zlen_nonneg xs) Hr) as Hab.
  unfold spec_range in Hr. injection Hr as Ha Hb. rewrite Hb, Z.gtb_ltb.
  replace (if start <? 0 then 0 else start) with a by (destruct (start <? 0) eqn:E; zb; lia).
  destruct (b <? a) eqn:E; zb; [by rewrite append_fmt_eq by apply fmt_array_pos|].
  specialize (Hab E). rewrite to_i32_small by (unfold INT32_MIN, INT32_MAX; lia).
  rewrite append_fmt_eq by apply fmt_array_pos. cbn [app]. set (hd := fmt_array _).
  set (tl := concat _). pose proof (zlen_nonneg tl).
  destruct (zlen hd <? cap) eqn:E1; zb.
  - rewrite (print_elems_eq _ _ _ xs) by (done || lia). rewrite Z2Nat.id by lia. done.
  - rewrite zlen_app. destruct (zlen hd + _ <? cap) eqn:E2; zb; [lia|done].
Qed.

(** * Histories over several lists *)

Inductive aol_op :=
  | LPush (i : nat) (key val : list Z)
  | LRange (i : nat) (start stop cap : Z)
  | LLen (i : nat).

Inductive aol_reply :=
  | PushRc (rc : Z)
  | RangeReply (r : option (list Z))
  | LenReply (n : Z)
  | NoList.

Definition aol_step (st : append_log * list list_meta) (op : aol_op)
    : exec (aol_reply * (append_log * list list_meta)) :=
  let '(log, metas) := st in
  match op with
  | LPush i key val =>
      match metas !! i with
      | None => Ok (NoList, st)
      | Some meta =>
          x ← zedis_aol_lpush log meta key val;
          Ok (PushRc x.1.1, (x.1.2, <[i := x.2]> metas))
      end
  | LRange i start stop cap =>
      match metas !! i with
      | None => Ok (NoList, st)
      | Some meta => r ← zedis_aol_lrange log meta start stop cap; Ok (RangeReply r, st)
      end
  | LLen i =>
      match metas !! i with
      | None => Ok (NoList, st)
      | Some meta => Ok (LenReply (zedis_aol_llen meta), st)
      end
  end.

Fixpoint aol_run (st : append_log * list list_meta) (ops : list aol_op)
    : exec (list aol_reply * (append_log * list list_meta)) :=
  match ops with
  | [] => Ok ([], st)
  | op :: ops' =>
      x ← aol_step st op;
      rest ← aol_run x.2 ops';
      Ok (x.1 :: rest.1, rest.2)
  end.

(** The reference keeps the lists and the number of bytes written. *)
Definition spec_step (cap : Z) (st : Z * list (list (list Z))) (op : aol_op)
    : aol_reply * (Z * list (list (list Z))) :=
  let '(used, lists) := st in
  match op with
  | LPush i key val =>
      match lists !! i with
      | None => (NoList, st)
      | Some vals =>
          if (1 <=? zlen key) && (zlen key <=? ZEDIS_AOL_MAX_KEY) &&
             (1 <=? zlen val) && (zlen val <=? ZEDIS_AOL_MAX_ELEM) &&
             (used + (8 + zlen key + zlen val) <=? cap)
          then (PushRc RC_OK, (used + (8 + zlen key + zlen val), <[i := val :: vals]> lists))
          else (PushRc RC_ERR, st)
      end
  | LRange i start stop rcap =>
      match lists !! i with
      | None => (NoList, st)
      | Some vals =>
          let r := spec_lrange vals start stop in
          (RangeReply (if zlen r <? rcap then Some r else None), st)
      end
  | LLen i =>
      match lists !! i with
      | None => (NoList, st)
      | Some vals => (LenReply (zlen vals), st)
      end
  end.

Fixpoint spec_lists (cap : Z) (st : Z * list (list (list Z))) (ops : list aol_op)
    : list aol_reply :=
  match ops with
  | [] => []
  | op :: ops' => let '(r, st') := spec_step cap st op in r :: spec_lists cap st' ops'
  end.

Definition aol_refines (cap : Z) (st : append_log * list list_meta)
    (sp : Z * list (list (list Z))) : Prop :=
  log_wf st.1 ∧ l_capacity st.1 = cap ∧ write_pos st.1 = sp.1 ∧
  Forall2 (list_rep st.1) st.2 sp.2.

Lemma aol_step_refines cap st sp op :
  aol_refines cap st sp → ∃ st',
    aol_step st op = Ok ((spec_step cap sp op).1, st') ∧
    aol_refines cap st' (spec_step cap sp op).2.
Proof.
  destruct st as [log metas], sp as [used lists]. intros (Hwf & Hcap & Hu & Hall).
  cbn [fst snd] in *. pose proof (Forall2_length _ _ _ Hall) as Hlen.
  assert (∀ i, match metas !! i with
               | Some m => ∃ vals, lists !! i = Some vals ∧ list_rep log m vals
               | None => lists !! i = None end) as Hi.
  { intros i. destruct (metas !! i) as [m|] eqn:E; [by eapply Forall2_lookup_l|].
    apply lookup_ge_None in E. apply lookup_ge_None. lia. }
  unfold aol_step, spec_step, aol_refines.
  destruct op as [i key val|i start stop rcap|i]; specialize (Hi i);
    destruct (metas !! i) as [m|] eqn:Em;
    try (rewrite Hi; eexists; split; [done|]; by split_and!).
  - destruct Hi as (vals & Hv & Hrep). rewrite Hv.
    pose proof (lpush_refines log m key val vals Hwf Hrep) as Hp. unfold lpush_fits in Hp.
    rewrite Hcap, Hu in Hp. unfold record_size, SIZEOF_AOL_HDR in Hp.
    destruct (_ && _) eqn:E.
    + destruct Hp as (log' & m' & -> & Hwf' & Hrep' & Hfr & Hwp & Hcap' & _).
      eexists. split; [done|]. cbn [fst snd]. split_and!; cbn [fst snd]; try done; try lia.
      apply Forall2_insert; [|done]. eapply Forall2_impl; [done|]. apply Hfr.
    + rewrite Hp. eexists. split; [done|]. cbn. split_and!; try done. cbn.
      by rewrite list_insert_id.
  - destruct Hi as (vals & Hv & Hrep). rewrite Hv, (lrange_refines _ _ vals) by done.
    eexists. split; [done|]. by split_and!.
  - destruct Hi as (vals & Hv & Hrep). rewrite Hv. exists (log, metas).
    split; [|by split_and!]. destruct Hrep as [_ Hn]. unfold zedis_aol_llen. by rewrite Hn.
Qed.

Lemma aol_run_refines cap st sp (ops : list aol_op) :
  aol_refines cap st sp → ∃ st', aol_run st ops = Ok (spec_lists cap sp ops, st').
Proof.
  revert st sp. induction ops as [|op ops IH]; intros st sp Href; [by exists st|].
  destruct (aol_step_refines cap st sp op Href) as (st1 & Hs & Href1).
  cbn [aol_run spec_lists]. rewrite Hs. cbn [mbind exec_bind snd fst].
  destruct (spec_step cap sp op) as [r sp']. destruct (IH st1 sp' Href1) as (st' & ->). by exists st'.
Qed.

(** What mmap guarantees of a file mapping: it has the length asked for. *)
Definition mmap_whole (sys : aol_sys) : Prop :=
  ∀ fd n bytes, 0 <= n → sys_mmap_file sys fd n = Some bytes → zlen bytes = n.

Lemma aol_init_ok sys cap path log :
  mmap_whole sys → zedis_aol_init sys cap path = (RC_OK, Some log) →
  4096 <= cap ∧ zlen (l_base log) = cap ∧ l_capacity log = cap ∧ write_pos log = 0.
Proof.
  intros Hm. unfold zedis_aol_init. destruct (cap <? 4096) eqn:E; zb; [done|].
  assert ((if sys_mmap_anon sys cap
           then (RC_OK, Some (AppendLog (replicate (Z.to_nat cap) 0) cap 0 (-1) 0))
           else (RC_ERR, None)) = (RC_OK, Some log) →
          4096 <= cap ∧ zlen (l_base log) = cap ∧ l_capacity log = cap ∧ write_pos log = 0) as Hanon.
  { destruct (sys_mmap_anon sys cap); [|done]. intros [= <-]; cbn. rewrite zlen_replicate. lia. }
  destruct path as [[|c cs]|]; [exact Hanon| |exact Hanon].
  destruct (_ <? 0); [done|]. destruct (negb _); [done|].
  destruct (sys_mmap_file _ _ _) as [bytes|] eqn:Em; [|done]. intros [= <-]; cbn.
  apply Hm in Em; [done|lia].
Qed.


(** LRANGE is a range of the list as long as the list has at most 1024 values
    and none of them holds a NUL. *)
Lemma spec_lrange_plain (vals : list (list Z)) start stop :
  zlen vals <= 1024 → Forall (λ v, 0 ∉ v) vals → spec_lrange vals start stop = list_reply (list_range vals start stop).
Proof.
  intros Hn Hv. unfold spec_lrange, list_range, list_reply. rewrite take_ge by (unfold zlen in Hn; unfold LRANGE_MAX; lia).
  unfold spec_range. set (a := Z.max 0 start). set (b := if _ || _ then _ else _).
  assert (b < zlen vals) as Hb.
  { unfold b. destruct (stop <? 0) eqn:E1; cbn [orb]; [lia|]. rewrite Z.geb_leb. destruct (_ <=? stop) eqn:E2; zb; lia. }
  destruct (b <? a) eqn:E; zb; [done|].
  rewrite zlen_slice by lia. do 2 f_equal. apply list_fmap_ext. intros i v Hi. unfold fmt_bulk. do 3 f_equal.
  rewrite cstr_id; [done|]. eapply (proj1 (Forall_forall _ _) Hv), slice_elem, list_elem_of_lookup_2, Hi.
Qed.

(** * Theorems *)

(** C15: Lists that share one fresh log of less than 4 GiB - 1 bytes,
    file-backed or anonymous, behave as independent lists: over any history of
    LPUSH, LRANGE and LLEN on any of them, every push is accepted exactly when
    its key and value have a legal length and the bytes written so far leave
    room for the record, LLEN is the number of accepted pushes, and LRANGE
    answers a range of the values, newest first, or fails exactly when the reply
    does not fit the buffer.  The range is one of the newest 1024 values only,
    and a value is printed up to its first NUL under its full length; for a list
    of at most 1024 values without NUL the reply is the array of the values in
    the range.  No access leaves the mapping and no walk fails to end. *)
Theorem aol_history_refines sys cap path log k (ops : list aol_op) :
  mmap_whole sys → cap < UINT32_MAX → zedis_aol_init sys cap path = (RC_OK, Some log) →
  (∃ st', aol_run (log, replicate k empty_meta) ops
          = Ok (spec_lists cap (0, replicate k []) ops, st')) ∧
  ∀ (vals : list (list Z)) start stop, zlen vals <= 1024 → Forall (λ v, 0 ∉ v) vals →
    spec_lrange vals start stop = list_reply (list_range vals start stop).
Proof.
  intros Hm Hcap Hinit. destruct (aol_init_ok _ _ _ _ Hm Hinit) as (Hge & Hl & Hc & Hw).
  split; [|exact spec_lrange_plain].
  apply aol_run_refines. unfold aol_refines, log_wf; cbn [fst snd]. rewrite Hl, Hc, Hw.
  split; [lia|]. split; [done|]. split; [done|].
  apply Forall2_replicate. done.
Qed.

Lemma aol_history_refines_witness :
  ∃ log st', zedis_aol_init (AolSys (λ _, -1) (λ _ _, false) (λ _ _, None) (λ _, true)) 4096 None
             = (RC_OK, Some log) ∧
  aol_run (log, replicate 2 empty_meta)
    [LPush 0 [97] [49]; LPush 1 [98] [50]; LPush 0 [97] [51]; LPush 1 [] [52]; LLen 0;
     LRange 0 0 (-1) 100]
  = Ok ([PushRc 0; PushRc 0; PushRc 0; PushRc (-1); LenReply 2;
         RangeReply (Some (bytes_of_string "*2" ++ crlf ++ bytes_of_string "$1" ++ crlf ++
           bytes_of_string "3" ++ crlf ++ bytes_of_string "$1" ++ crlf ++
           bytes_of_string "1" ++ crlf))], st').
Proof.
  eexists (AppendLog (replicate (Z.to_nat 4096) 0) 4096 0 (-1) 0).
  set (sys := AolSys _ _ _ _).
  destruct (aol_history_refines sys 4096 None (AppendLog (replicate (Z.to_nat 4096) 0) 4096 0 (-1) 0) 2
    [LPush 0 [97] [49]; LPush 1 [98] [50]; LPush 0 [97] [51]; LPush 1 [] [52]; LLen 0;
     LRange 0 0 (-1) 100]) as [[st' H] _].
  - unfold mmap_whole. done.
  - done.
  - done.
  - exists st'. split; [done|]. etransitivity; [exact H|]. vm_compute. reflexivity.
Defined.



(** Opening an existing log file does not recover its records: the write
    position restarts at 0, and the first push after a restart overwrites the
    beginning of the file with the new record. *)
Theorem aol_reopen_overwrites sys cap path log key val :
  mmap_whole sys → cap < UINT32_MAX → zedis_aol_init sys cap (Some path) = (RC_OK, Some log) →
  elem_ok key val →
  write_pos log = 0 ∧ ∃ log' meta',
    zedis_aol_lpush log empty_meta key val = Ok (RC_OK, log', meta') ∧
    slice (l_base log') 0 (record_size (zlen key) (zlen val))
      = hdr_bytes (AolHdr ZEDIS_AOL_NO_PREV (zlen key) (zlen val)) ++ key ++ val.
Proof.
  intros Hm Hcap Hinit [Hk Hv]. destruct (aol_init_ok _ _ _ _ Hm Hinit) as (Hge & Hl & Hc & Hw).
  split; [done|]. assert (log_wf log) as Hwf by (unfold log_wf; lia).
  pose proof (lpush_refines log empty_meta key val [] Hwf ltac:(done)) as Hp.
  destruct (lpush_fits log key val) eqn:E.
  - destruct Hp as (log' & meta' & Hpush & _ & _ & _ & _ & _ & Hs). exists log', meta'.
    rewrite Hw in Hs. done.
  - exfalso. unfold lpush_fits in E. rewrite Hw, Hc in E.
    unfold record_size, SIZEOF_AOL_HDR, ZEDIS_AOL_MAX_KEY, ZEDIS_AOL_MAX_ELEM in *.
    repeat (apply andb_false_iff in E as [E|E]); zb; lia.
Qed.

Lemma aol_reopen_overwrites_witness :
  let sys := AolSys (λ _, 3) (λ _ _, true) (λ _ n, Some (replicate (Z.to_nat n) 7)) (λ _, false) in
  ∃ log log' meta', zedis_aol_init sys 4096 (Some [97]) = (RC_OK, Some log) ∧
    zedis_aol_lpush log empty_meta [97] [49] = Ok (RC_OK, log', meta') ∧
    slice (l_base log') 0 10 = [255; 255; 255; 255; 1; 0; 1; 0; 97; 49].
Proof.
  intros sys. exists (AppendLog (replicate (Z.to_nat 4096) 7) 4096 0 3 1).
  destruct (aol_reopen_overwrites sys 4096 [97] (AppendLog (replicate (Z.to_nat 4096) 7) 4096 0 3 1)
    [97] [49]) as (_ & log' & meta' & Hp & Hs).
  - intros fd n bytes Hn Hb. injection Hb as <-. rewrite zlen_replicate. lia.
  - done.
  - done.
  - split; vm_compute; split; discriminate.
  - exists log', meta'. split; [done|]. split; [exact Hp|exact Hs].
Defined.
