(* ===== verification/BTree.v ===== *)
(** The sorted set of src/btree.c: a B-tree of 64-byte nodes over an array of
    members.

    Nodes and members are the two arrays of the C struct; a node index is a
    [uint32_t], UINT32_MAX meaning none.  The union of [children] and [values]
    is the one field [slots].  Recursive functions take fuel for the depth of
    the tree. *)

From S2P Require Import Prelude Arena.

Definition ZEDIS_BTREE_MAX_MEMBER : Z := 48.
Definition ZEDIS_BTREE_MAX_ENTRIES : Z := 4096.
Definition SIZEOF_BTREE_NODE : Z := 64.
Definition SIZEOF_BTREE_MEMBER : Z := 64.
Definition BTREE_MAX_KEYS : Z := 3.
Definition NO_NODE : Z := UINT32_MAX.

Record btree_node := BNode {
  keys : list Z;
  slots : list Z;
  is_leaf : Z;
  n_count : Z;
}.

Record btree_member := BMember {
  m_data : list Z;
  m_len : Z;
  m_score : Z;
}.

Record btree := BTree {
  nodes : list btree_node;
  members : list btree_member;
  root : Z;
  free_node : Z;
  member_count : Z;
  max_nodes : Z;
  max_members : Z;
}.

Definition zero_node : btree_node := BNode [0; 0; 0] [0; 0; 0; 0] 0 0.
Definition zero_member : btree_member :=
  BMember (replicate (Z.to_nat ZEDIS_BTREE_MAX_MEMBER) 0) 0 0.

Definition set_nodes (t : btree) (ns : list btree_node) : btree :=
  BTree ns (members t) (root t) (free_node t) (member_count t) (max_nodes t) (max_members t).
Definition set_members (t : btree) (ms : list btree_member) (n : Z) : btree :=
  BTree (nodes t) ms (root t) (free_node t) n (max_nodes t) (max_members t).
Definition set_root (t : btree) (r : Z) : btree :=
  BTree (nodes t) (members t) r (free_node t) (member_count t) (max_nodes t) (max_members t).
Definition set_free (t : btree) (f : Z) : btree :=
  BTree (nodes t) (members t) (root t) f (member_count t) (max_nodes t) (max_members t).

Definition alloc_node (t : btree) : Z * btree :=
  if free_node t >=? max_nodes t then (NO_NODE, t)
  else (free_node t, set_free t (u32 (free_node t + 1))).

Definition alloc_member (t : btree) (score : Z) (member : list Z) : exec (Z * btree) :=
  if member_count t >=? max_members t then Ok (NO_NODE, t) else
  let idx := member_count t in
  m ← aget (members t) idx;
  let len := if zlen member <? ZEDIS_BTREE_MAX_MEMBER then zlen member
             else ZEDIS_BTREE_MAX_MEMBER - 1 in
  d ← memcpy (m_data m) 0 (take (Z.to_nat len) member);
  d' ← aset d len 0;
  ms ← aset (members t) idx (BMember d' len score);
  Ok (idx, set_members t ms (u32 (member_count t + 1))).

(** The sign of memcmp on [n] bytes. *)
Fixpoint memcmp (a b : list Z) : Z :=
  match a, b with
  | x :: a', y :: b' => if x <? y then -1 else if y <? x then 1 else memcmp a' b'
  | _, _ => 0
  end.

Definition member_equal (m : btree_member) (member : list Z) : exec bool :=
  if negb (m_len m =? zlen member) then Ok false else
  d ← read_n (m_data m) 0 (zlen member);
  Ok (memcmp d member =? 0).

Definition score_member_cmp (score_a : Z) (a : btree_member) (score_b : Z) (b : btree_member)
    : exec Z :=
  if negb (score_a =? score_b) then Ok (if score_a <? score_b then -1 else 1) else
  let n := if m_len a <? m_len b then m_len a else m_len b in
  da ← read_n (m_data a) 0 n;
  db ← read_n (m_data b) 0 n;
  let rc := memcmp da db in
  if negb (rc =? 0) then Ok rc else
  if m_len a <? m_len b then Ok (-1) else
  if m_len a >? m_len b then Ok 1 else Ok 0.

(** Loop over the entries [i .. count-1] of a leaf; the member index found. *)
Fixpoint find_in_leaf (n : nat) (i : Z) (t : btree) (nd : btree_node) (member : list Z)
    : exec (option Z) :=
  match n with
  | O => Ok None
  | S n' =>
      v ← aget (slots nd) i;
      m ← aget (members t) v;
      eq ← member_equal m member;
      if eq : bool then Ok (Some v) else find_in_leaf n' (i + 1) t nd member
  end.

(** The first child for which [f] finds something. *)
Fixpoint first_child (f : Z → exec (option Z)) (cs : list Z) : exec (option Z) :=
  match cs with
  | [] => Ok None
  | c :: cs' =>
      r ← f c;
      match r with Some v => Ok (Some v) | None => first_child f cs' end
  end.

Fixpoint find_member (fuel : nat) (t : btree) (node_idx : Z) (member : list Z)
    : exec (option Z) :=
  match fuel with
  | O => Stuck OutOfFuel
  | S fuel' =>
      nd ← aget (nodes t) node_idx;
      if negb (is_leaf nd =? 0)
      then find_in_leaf (Z.to_nat (n_count nd)) 0 t nd member
      else
        cs ← read_n (slots nd) 0 (n_count nd + 1);
        first_child (λ c, find_member fuel' t c member) cs
  end.

(** [keys[i] = keys[i-1]; values[i] = values[i-1]] for i from [i] down, [n] times. *)
Fixpoint leaf_shift (n : nat) (i : Z) (nd : btree_node) : exec btree_node :=
  match n with
  | O => Ok nd
  | S n' =>
      k ← aget (keys nd) (i - 1);
      ks ← aset (keys nd) i k;
      v ← aget (slots nd) (i - 1);
      vs ← aset (slots nd) i v;
      leaf_shift n' (i - 1) (BNode ks vs (is_leaf nd) (n_count nd))
  end.

Definition leaf_insert_at (nd : btree_node) (pos score midx : Z) : exec btree_node :=
  nd' ← leaf_shift (Z.to_nat (n_count nd - pos)) (n_count nd) nd;
  ks ← aset (keys nd') pos score;
  vs ← aset (slots nd') pos midx;
  Ok (BNode ks vs (is_leaf nd') (u8 (n_count nd' + 1))).

Fixpoint leaf_find_pos (n : nat) (i : Z) (t : btree) (nd : btree_node) (score : Z)
    (ins : btree_member) : exec Z :=
  match n with
  | O => Ok (n_count nd)
  | S n' =>
      v ← aget (slots nd) i;
      m ← aget (members t) v;
      k ← aget (keys nd) i;
      cmp ← score_member_cmp score ins k m;
      if cmp <=? 0 then Ok i else leaf_find_pos n' (i + 1) t nd score ins
  end.

(** [right->keys[i] = leaf->keys[mid+i]; right->values[i] = leaf->values[mid+i]]. *)
Fixpoint copy_leaf (n : nat) (i mid : Z) (leaf right : btree_node) : exec btree_node :=
  match n with
  | O => Ok right
  | S n' =>
      k ← aget (keys leaf) (mid + i);
      ks ← aset (keys right) i k;
      v ← aget (slots leaf) (mid + i);
      vs ← aset (slots right) i v;
      copy_leaf n' (i + 1) mid leaf (BNode ks vs (is_leaf right) (n_count right))
  end.

(** The new sibling and the promoted key; NO_NODE when the array is full. *)
Definition split_leaf (t : btree) (leaf_idx : Z) : exec (Z * Z * btree) :=
  leaf ← aget (nodes t) leaf_idx;
  let '(right_idx, t1) := alloc_node t in
  if right_idx =? NO_NODE then Ok (NO_NODE, 0, t1) else
  let mid := Z.quot (n_count leaf + 1) 2 in
  promoted ← aget (keys leaf) mid;
  let rcount := u8 (n_count leaf - u8 mid) in
  right ← copy_leaf (Z.to_nat rcount) 0 mid leaf (BNode [0; 0; 0] [0; 0; 0; 0] 1 rcount);
  ns ← aset (nodes t1) right_idx right;
  ns' ← aset ns leaf_idx (BNode (keys leaf) (slots leaf) (is_leaf leaf) (u8 mid));
  Ok (right_idx, promoted, set_nodes t1 ns').

Fixpoint copy_keys (n : nat) (i off : Z) (src dst : list Z) : exec (list Z) :=
  match n with
  | O => Ok dst
  | S n' =>
      k ← aget src (off + i);
      dst' ← aset dst i k;
      copy_keys n' (i + 1) off src dst'
  end.

Definition split_internal (t : btree) (node_idx : Z) : exec (Z * Z * btree) :=
  nd ← aget (nodes t) node_idx;
  let '(right_idx, t1) := alloc_node t in
  if right_idx =? NO_NODE then Ok (NO_NODE, 0, t1) else
  let mid := Z.quot BTREE_MAX_KEYS 2 in
  promoted ← aget (keys nd) mid;
  let rcount := u8 (n_count nd - u8 mid - 1) in
  ks ← copy_keys (Z.to_nat rcount) 0 (mid + 1) (keys nd) [0; 0; 0];
  cs ← copy_keys (Z.to_nat (rcount + 1)) 0 (mid + 1) (slots nd) [0; 0; 0; 0];
  ns ← aset (nodes t1) right_idx (BNode ks cs 0 rcount);
  ns' ← aset ns node_idx (BNode (keys nd) (slots nd) (is_leaf nd) (u8 mid));
  Ok (right_idx, promoted, set_nodes t1 ns').

Definition insert_into_leaf (t : btree) (leaf_idx score midx : Z) : exec (Z * btree) :=
  leaf ← aget (nodes t) leaf_idx;
  ins ← aget (members t) midx;
  pos ← leaf_find_pos (Z.to_nat (n_count leaf)) 0 t leaf score ins;
  leaf' ← leaf_insert_at leaf pos score midx;
  ns ← aset (nodes t) leaf_idx leaf';
  Ok (0, set_nodes t ns).

(** [while (i < count && score > keys[i]) i++] *)
Fixpoint child_pos (n : nat) (i : Z) (ks : list Z) (score : Z) : exec Z :=
  match n with
  | O => Ok i
  | S n' =>
      k ← aget ks i;
      if score >? k then child_pos n' (i + 1) ks score else Ok i
  end.

(** [keys[j] = keys[j-1]; children[j+1] = children[j]] for j from [j] down, [n] times. *)
Fixpoint node_shift (n : nat) (j : Z) (nd : btree_node) : exec btree_node :=
  match n with
  | O => Ok nd
  | S n' =>
      k ← aget (keys nd) (j - 1);
      ks ← aset (keys nd) j k;
      c ← aget (slots nd) j;
      cs ← aset (slots nd) (j + 1) c;
      node_shift n' (j - 1) (BNode ks cs (is_leaf nd) (n_count nd))
  end.

(** The promoted key and the sibling enter the parent at position [i]. *)
Definition node_insert_at (nd : btree_node) (i promoted sibling : Z) : exec btree_node :=
  nd' ← node_shift (Z.to_nat (n_count nd - i)) (n_count nd) nd;
  ks ← aset (keys nd') i promoted;
  cs ← aset (slots nd') (i + 1) sibling;
  Ok (BNode ks cs (is_leaf nd') (u8 (n_count nd' + 1))).

Definition split_node (t : btree) (idx : Z) : exec (Z * Z * btree) :=
  nd ← aget (nodes t) idx;
  if negb (is_leaf nd =? 0) then split_leaf t idx else split_internal t idx.

Fixpoint insert_nonfull (fuel : nat) (t : btree) (node_idx score midx : Z) : exec (Z * btree) :=
  match fuel with
  | O => Stuck OutOfFuel
  | S fuel' =>
      nd ← aget (nodes t) node_idx;
      if negb (is_leaf nd =? 0) then insert_into_leaf t node_idx score midx else
      i ← child_pos (Z.to_nat (n_count nd)) 0 (keys nd) score;
      child ← aget (slots nd) i;
      child_node ← aget (nodes t) child;
      if n_count child_node >=? BTREE_MAX_KEYS then
        x ← split_node t child;
        let '(sibling, promoted, t1) := x in
        if sibling =? NO_NODE then Ok (RC_ERR, t1) else
        nd1 ← aget (nodes t1) node_idx;
        nd2 ← node_insert_at nd1 i promoted sibling;
        ns ← aset (nodes t1) node_idx nd2;
        insert_nonfull fuel' (set_nodes t1 ns)
          (if score >=? promoted then sibling else child) score midx
      else insert_nonfull fuel' t child score midx
  end.

(** The depth of a tree is at most the number of its nodes. *)
Definition depth_fuel (t : btree) : nat := S (Z.to_nat (max_nodes t)).

Definition insert_entry (t : btree) (score midx : Z) : exec (Z * btree) :=
  if root t =? NO_NODE then
    let '(r, t1) := alloc_node t in
    if r =? NO_NODE then Ok (RC_ERR, t1) else
    nd ← aget (nodes t1) r;
    ks ← aset (keys nd) 0 score;
    vs ← aset (slots nd) 0 midx;
    ns ← aset (nodes t1) r (BNode ks vs 1 1);
    Ok (0, set_nodes (set_root t1 r) ns)
  else
    rt ← aget (nodes t) (root t);
    if n_count rt <? BTREE_MAX_KEYS
    then insert_nonfull (depth_fuel t) t (root t) score midx else
    let '(new_root, t1) := alloc_node t in
    x ← split_node t1 (root t1);
    let '(sibling, promoted, t2) := x in
    if (sibling =? NO_NODE) || (new_root =? NO_NODE) then Ok (RC_ERR, t2) else
    ns ← aset (nodes t2) new_root (BNode [promoted; 0; 0] [root t2; sibling; 0; 0] 0 1);
    let t3 := set_root (set_nodes t2 ns) new_root in
    if score >=? promoted
    then insert_nonfull (depth_fuel t3) t3 sibling score midx
    else insert_nonfull (depth_fuel t3) t3 (root t3) score midx.

Fixpoint sum_children (f : Z → exec Z) (total : Z) (cs : list Z) : exec Z :=
  match cs with
  | [] => Ok total
  | c :: cs' => n ← f c; total' ← chk_i32 (total + n); sum_children f total' cs'
  end.

Fixpoint count_entries (fuel : nat) (t : btree) (node_idx : Z) : exec Z :=
  match fuel with
  | O => Stuck OutOfFuel
  | S fuel' =>
      nd ← aget (nodes t) node_idx;
      if negb (is_leaf nd =? 0) then Ok (n_count nd) else
      cs ← read_n (slots nd) 0 (n_count nd + 1);
      sum_children (count_entries fuel' t) 0 cs
  end.

(** ["$%zu\r\n%.*s\r\n"] *)
Definition fmt_member (m : btree_member) : exec (list Z) :=
  d ← read_n (m_data m) 0 (m_len m);
  Ok ([36] ++ dec_u (m_len m) ++ crlf ++ cstr d ++ crlf).

(** An element that does not fit is left out. *)
Definition append_if_fits (cap : Z) (reply out : list Z) : list Z :=
  if (zlen out >? 0) && (zlen reply + zlen out <? cap) then reply ++ out else reply.

Fixpoint collect_leaf (n : nat) (i : Z) (t : btree) (nd : btree_node) (start stop cap : Z)
    (st : Z * list Z) : exec (Z * list Z) :=
  match n with
  | O => Ok st
  | S n' =>
      let '(idx, reply) := st in
      reply' ←
        (if (idx >=? start) && (idx <=? stop) then
           v ← aget (slots nd) i;
           m ← aget (members t) v;
           out ← fmt_member m;
           Ok (append_if_fits cap reply out)
         else Ok reply);
      idx' ← chk_i64 (idx + 1);
      collect_leaf n' (i + 1) t nd start stop cap (idx', reply')
  end.

Fixpoint fold_children {A} (f : Z → A → exec A) (st : A) (cs : list Z) : exec A :=
  match cs with
  | [] => Ok st
  | c :: cs' => st' ← f c st; fold_children f st' cs'
  end.

Fixpoint collect_inorder (fuel : nat) (t : btree) (node_idx start stop cap : Z)
    (st : Z * list Z) : exec (Z * list Z) :=
  match fuel with
  | O => Stuck OutOfFuel
  | S fuel' =>
      nd ← aget (nodes t) node_idx;
      if negb (is_leaf nd =? 0)
      then collect_leaf (Z.to_nat (n_count nd)) 0 t nd start stop cap st
      else
        cs ← read_n (slots nd) 0 (n_count nd + 1);
        fold_children (λ c s, collect_inorder fuel' t c start stop cap s) st cs
  end.

Definition zedis_btree_init (a : arena) (max : Z) : Z * option btree * arena :=
  if max =? 0 then (RC_ERR, None, a) else
  let max := if max >? ZEDIS_BTREE_MAX_ENTRIES then ZEDIS_BTREE_MAX_ENTRIES else max in
  let mnodes := u32 (max * 2 + 4) in
  let '(p, a1) := zedis_arena_calloc a mnodes SIZEOF_BTREE_NODE 64 in
  let '(q, a2) := zedis_arena_calloc a1 max SIZEOF_BTREE_MEMBER 64 in
  match p, q with
  | Some _, Some _ =>
      (RC_OK, Some (BTree (calloc_array mnodes SIZEOF_BTREE_NODE zero_node)
                          (calloc_array max SIZEOF_BTREE_MEMBER zero_member)
                          NO_NODE 0 0 mnodes max), a2)
  | _, _ => (RC_ERR, None, a2)
  end.

Definition zedis_btree_destroy (t : btree) : btree := BTree [] [] 0 0 0 0 0.

Fixpoint insert_members (n : nat) (i : Z) (t : btree) : exec btree :=
  match n with
  | O => Ok t
  | S n' =>
      m ← aget (members t) i;
      x ← insert_entry t (m_score m) i;
      insert_members n' (i + 1) x.2
  end.

Definition rebuild_btree (t : btree) : exec btree :=
  let t1 := BTree (replicate (Z.to_nat (max_nodes t)) zero_node) (members t) NO_NODE 0
                  (member_count t) (max_nodes t) (max_members t) in
  insert_members (Z.to_nat (member_count t)) 0 t1.

(** [find_member] on a tree that may be empty. *)
Definition lookup_member (t : btree) (member : list Z) : exec (option Z) :=
  if root t =? NO_NODE then Ok None else find_member (depth_fuel t) t (root t) member.

Definition zedis_btree_add (t : btree) (score : Z) (member : list Z) : exec (Z * btree) :=
  if (zlen member =? 0) || (zlen member >=? ZEDIS_BTREE_MAX_MEMBER) then Ok (RC_ERR, t) else
  r ← lookup_member t member;
  match r with
  | Some existing =>
      m ← aget (members t) existing;
      ms ← aset (members t) existing (BMember (m_data m) (m_len m) score);
      t' ← rebuild_btree (set_members t ms (member_count t));
      Ok (0, t')
  | None =>
      x ← alloc_member t score member;
      let '(midx, t1) := x in
      if midx =? NO_NODE then Ok (RC_ERR, t1) else insert_entry t1 score midx
  end.

Definition zedis_btree_score (t : btree) (member : list Z) : exec (option Z) :=
  if root t =? NO_NODE then Ok None else
  r ← find_member (depth_fuel t) t (root t) member;
  match r with
  | None => Ok None
  | Some midx => m ← aget (members t) midx; Ok (Some (m_score m))
  end.

(** ["*%d\r\n"] at the start of the reply, or nothing when it does not fit. *)
Definition array_header (cap n : Z) : option (list Z) :=
  let out := fmt_array n in
  if (zlen out <=? 0) || (zlen out >=? cap) then None else Some out.

Definition zedis_btree_range (t : btree) (start_idx stop_idx cap : Z) : exec (option (list Z)) :=
  if root t =? NO_NODE then Ok (array_header cap 0) else
  total ← count_entries (depth_fuel t) t (root t);
  let start := if start_idx <? 0 then 0 else start_idx in
  let stop := if (stop_idx <? 0) || (stop_idx >=? total) then total - 1 else stop_idx in
  if (start >? stop) || (total =? 0) then Ok (array_header cap 0) else
  match array_header cap (to_i32 (stop - start + 1)) with
  | None => Ok None
  | Some reply =>
      st ← collect_inorder (depth_fuel t) t (root t) start stop cap (0, reply);
      Ok (Some st.2)
  end.
