(* ===== verification/BTreeShape.v ===== *)
(** The tree that the node array of src/btree.c stores.

    [itree] is the abstract tree, its nodes labelled with their index in the
    array; [lay ns t] says that the array [ns] holds [t].  [inorder] is the
    sequence of (score, member index) entries, [seqk] the scores interleaved
    with the separator keys, the list that is kept sorted. *)

From stdpp Require Import sorting.
From S2P Require Import Prelude Arena BTree.

Inductive itree :=
  | Lf (id : Z) (ks vs : list Z)
  | Nd (id : Z) (ks : list Z) (cs : list itree).

Lemma itree_ind' (P : itree → Prop) :
  (∀ id ks vs, P (Lf id ks vs)) →
  (∀ id ks cs, Forall P cs → P (Nd id ks cs)) → ∀ t, P t.
Proof.
  intros Hl Hn. fix IH 1. intros [id ks vs|id ks cs]; [apply Hl|]. apply Hn.
  induction cs as [|c cs IHcs]; constructor; [apply IH|exact IHcs].
Qed.

Definition root_id (t : itree) : Z := match t with Lf id _ _ => id | Nd id _ _ => id end.
Definition node_keys (t : itree) : list Z := match t with Lf _ ks _ => ks | Nd _ ks _ => ks end.

Fixpoint ids (t : itree) : list Z :=
  match t with
  | Lf id _ _ => [id]
  | Nd id _ cs => id :: concat (map ids cs)
  end.

Fixpoint height (t : itree) : nat :=
  match t with
  | Lf _ _ _ => 1%nat
  | Nd _ _ cs => S (foldr max 0%nat (map height cs))
  end.

Fixpoint inorder (t : itree) : list (Z * Z) :=
  match t with
  | Lf _ ks vs => zip ks vs
  | Nd _ _ cs => concat (map inorder cs)
  end.

(** [wpost] is k0 l1 k1 l2 ...; [wpre] is l0 k0 l1 k1 ... *)
Definition wpost (ks : list Z) (ls : list (list Z)) : list Z :=
  concat (zip_with (λ k l, k :: l) ks ls).
Definition wpre (ks : list Z) (ls : list (list Z)) : list Z :=
  concat (zip_with (λ k l, l ++ [k]) ks ls).
Definition weave (ks : list Z) (ls : list (list Z)) : list Z :=
  match ls with [] => [] | l :: ls' => l ++ wpost ks ls' end.

Fixpoint seqk (t : itree) : list Z :=
  match t with
  | Lf _ ks _ => ks
  | Nd _ ks cs => weave ks (map seqk cs)
  end.

Definition sorted (l : list Z) : Prop := StronglySorted Z.le l.

(** What the array holds for a leaf and for an internal node. *)
Definition leaf_node (nd : btree_node) (ks vs : list Z) : Prop :=
  is_leaf nd = 1 ∧ n_count nd = zlen ks ∧ length vs = length ks ∧ (1 <= length ks <= 3)%nat ∧
  length (keys nd) = 3%nat ∧ length (slots nd) = 4%nat ∧
  take (length ks) (keys nd) = ks ∧ take (length ks) (slots nd) = vs.

Definition int_node (nd : btree_node) (ks cids : list Z) : Prop :=
  is_leaf nd = 0 ∧ n_count nd = zlen ks ∧ length cids = S (length ks) ∧
  (1 <= length ks <= 3)%nat ∧ length (keys nd) = 3%nat ∧ length (slots nd) = 4%nat ∧
  take (length ks) (keys nd) = ks ∧ take (S (length ks)) (slots nd) = cids.

Inductive lay (ns : list btree_node) : itree → Prop :=
  | lay_leaf id ks vs nd :
      aget ns id = Ok nd → leaf_node nd ks vs → lay ns (Lf id ks vs)
  | lay_node id ks cs nd :
      aget ns id = Ok nd → int_node nd ks (map root_id cs) → Forall (lay ns) cs →
      lay ns (Nd id ks cs).

(** * Weaving *)

Lemma weave_split ks1 ks2 ls1 l ls2 :
  length ks1 = length ls1 →
  weave (ks1 ++ ks2) (ls1 ++ l :: ls2) = wpre ks1 ls1 ++ l ++ wpost ks2 ls2.
Proof.
  unfold weave. revert ks1 l. induction ls1 as [|l1 ls1 IH]; intros [|k ks1] l Hl; try done.
  injection Hl as Hl. specialize (IH ks1 l Hl). unfold wpre, wpost in *.
  cbn [app zip_with concat]. rewrite <-!app_assoc. f_equal. cbn [app].
  destruct ls1 as [|l2 ls1]; cbn [app zip_with concat] in *; rewrite <-IH; done.
Qed.

Lemma wpre_snoc ks ls k l :
  length ks = length ls → wpre (ks ++ [k]) (ls ++ [l]) = wpre ks ls ++ l ++ [k].
Proof.
  intros Hl. unfold wpre. rewrite zip_with_app by done. rewrite concat_app. cbn.
  by rewrite app_nil_r.
Qed.

Lemma wpost_cons k ks l ls : wpost (k :: ks) (l :: ls) = k :: l ++ wpost ks ls.
Proof. done. Qed.

Lemma wpre_le ks ls s :
  sorted (wpre ks ls) → length ks = length ls → (∀ k, k ∈ ks → k <= s) →
  ∀ x, x ∈ wpre ks ls → x <= s.
Proof.
  unfold wpre, sorted. revert ls. induction ks as [|k ks IH]; intros [|l ls] Hs Hl Hk x Hx; try done.
  { by apply elem_of_nil in Hx. }
  cbn [zip_with concat] in *. injection Hl as Hl.
  apply StronglySorted_app in Hs as (_ & Hs1 & Hs2).
  apply elem_of_app in Hx as [Hx|Hx]; [|by eapply IH; [..|done]; [|done|]; [|intros; apply Hk; by right]].
  apply StronglySorted_app in Hs1 as (Hle & _ & _).
  assert (k <= s) by (apply Hk; by left).
  apply elem_of_app in Hx as [Hx|Hx].
  - specialize (Hle x k Hx ltac:(by left)). lia.
  - apply list_elem_of_singleton in Hx. by subst.
Qed.

Lemma wpost_ge ks ls s :
  sorted (wpost ks ls) → length ks = length ls → (∀ k, k ∈ ks → s <= k) →
  ∀ x, x ∈ wpost ks ls → s <= x.
Proof.
  unfold wpost, sorted. revert ls. induction ks as [|k ks IH]; intros [|l ls] Hs Hl Hk x Hx; try done.
  { by apply elem_of_nil in Hx. }
  cbn [zip_with concat] in *. injection Hl as Hl.
  apply StronglySorted_app in Hs as (_ & Hs1 & Hs2).
  apply elem_of_app in Hx as [Hx|Hx]; [|by eapply IH; [..|done]; [|done|]; [|intros; apply Hk; by right]].
  assert (s <= k) by (apply Hk; by left). apply elem_of_cons in Hx as [->|Hx]; [done|].
  apply (StronglySorted_app_1_elem_of _ [k] l k x) in Hs1; [lia|by left|done].
Qed.

(** Replacing a part of a sorted list by one with at most one new value. *)
Lemma sorted_replace pre mid post s mid' :
  sorted (pre ++ mid ++ post) → (∀ x, x ∈ pre → x <= s) → (∀ x, x ∈ post → s <= x) →
  sorted mid' → (∀ x, x ∈ mid' → x = s ∨ x ∈ mid) → sorted (pre ++ mid' ++ post).
Proof.
  unfold sorted. intros Hs Hpre Hpost Hm Hin.
  apply StronglySorted_app in Hs as (H1 & Hs1 & (H2 & Hs2 & Hs3)%StronglySorted_app).
  apply StronglySorted_app_2; [|done|apply StronglySorted_app_2; try done].
  - intros x y Hx [Hy|Hy]%elem_of_app.
    + destruct (Hin y Hy) as [->|Hy']; [by apply Hpre|]. apply H1; [done|]. apply elem_of_app; by left.
    + apply H1; [done|]. apply elem_of_app; by right.
  - intros x y Hx Hy. destruct (Hin x Hx) as [->|Hx']; [by apply Hpost|by apply H2].
Qed.

Lemma sorted_mid pre mid post : sorted (pre ++ mid ++ post) → sorted mid.
Proof.
  unfold sorted. intros (_ & _ & (_ & H & _)%StronglySorted_app)%StronglySorted_app. done.
Qed.

(** * Measures *)

Lemma lay_frame ns ns' t :
  lay ns t → (∀ j, j ∈ ids t → aget ns' j = aget ns j) → lay ns' t.
Proof.
  induction t as [id ks vs|id ks cs IH] using itree_ind'; intros Hl Hf; inversion Hl; subst.
  - econstructor; [|done]. rewrite Hf; [done|]. by left.
  - econstructor; [rewrite Hf; [done|]; by left|done|].
    match goal with H : Forall (lay ns) cs |- _ => rename H into Hcs end.
    rewrite Forall_forall in IH, Hcs |- *. intros c Hc. apply IH; [done|by apply Hcs|].
    intros j Hj. apply Hf. cbn. right. apply list_elem_of_In, in_concat.
    exists (ids c). split; [by apply in_map, list_elem_of_In|by apply list_elem_of_In].
Qed.

Lemma height_le_ids t : (height t <= length (ids t))%nat.
Proof.
  induction t as [id ks vs|id ks cs IH] using itree_ind'; cbn; [lia|].
  apply le_n_S. induction IH as [|c cs Hc _ IHcs]; cbn; [lia|]. rewrite length_app. lia.
Qed.

Lemma size_bound ns t :
  lay ns t → (1 <= length (inorder t))%nat ∧ (length (ids t) + 1 <= 2 * length (inorder t))%nat.
Proof.
  induction t as [id ks vs|id ks cs IH] using itree_ind'; intros Hl; inversion Hl; subst.
  - match goal with H : leaf_node _ _ _ |- _ => destruct H as (_ & _ & Hvs & Hks & _) end.
    cbn [inorder ids length]. rewrite length_zip_with. lia.
  - match goal with H : int_node _ _ _ |- _ => destruct H as (_ & _ & Hcs & Hks & _) end.
    rewrite length_map in Hcs. cbn [inorder ids length].
    assert ((length cs <= length (concat (map inorder cs)))%nat ∧
            (length (concat (map ids cs)) + length cs <= 2 * length (concat (map inorder cs)))%nat)
      as [? ?]; [|lia].
    match goal with H : Forall (lay ns) cs |- _ => rename H into Hlay end. clear - IH Hlay.
    induction IH as [|c cs Hc _ IHcs]; [done|]. apply Forall_cons in Hlay as [Hlc Hlcs].
    destruct (Hc Hlc), (IHcs Hlcs). cbn [map concat length]. rewrite !length_app. lia.
Qed.

(** The nodes that a subtree could still be given without new entries. *)
Definition slack (t : itree) : Z := 2 * zlen (inorder t) - 1 - zlen (ids t).

Lemma slack_nonneg ns t : lay ns t → 0 <= slack t.
Proof. intros [? ?]%size_bound. unfold slack, zlen. lia. Qed.

Lemma concat_map_split {A B} (f : A → list B) l1 x l2 :
  concat (map f (l1 ++ x :: l2)) = concat (map f l1) ++ f x ++ concat (map f l2).
Proof. by rewrite map_app, concat_app. Qed.

(** A child has no more slack than its parent. *)
Lemma slack_child ns id ks cs1 c cs2 :
  lay ns (Nd id ks (cs1 ++ c :: cs2)) → slack c <= slack (Nd id ks (cs1 ++ c :: cs2)).
Proof.
  intros Hl. inversion Hl as [|id' ks' cs' nd Hnd Hint Hcs]; subst.
  destruct Hint as (_ & _ & Hlen & Hks & _). rewrite length_map, length_app in Hlen. cbn in Hlen.
  unfold slack, zlen. cbn [inorder ids length]. rewrite !concat_map_split, !length_app.
  apply Forall_app in Hcs as [Hcs1 [_ Hcs2]%Forall_cons].
  assert (∀ ls, Forall (lay ns) ls →
    (length (concat (map ids ls)) + length ls <= 2 * length (concat (map inorder ls)))%nat) as Hsum.
  { induction 1 as [|x ls Hx _ IH]; [done|]. cbn [map concat length]. rewrite !length_app.
    destruct (size_bound _ _ Hx). lia. }
  pose proof (Hsum _ Hcs1). pose proof (Hsum _ Hcs2). lia.
Qed.

(** * Single nodes *)

Definition ins_at (p : nat) (x : Z) (l : list Z) : list Z := take p l ++ x :: drop p l.

(** Opens the two arrays of a node at their fixed lengths. *)
Ltac open_node nd :=
  let K := fresh "K" in let S := fresh "S" in
  destruct nd as [K S ? ?]; cbn [keys slots is_leaf n_count] in *;
  destruct K as [|? [|? [|? [|]]]]; try done; destruct S as [|? [|? [|? [|? [|]]]]]; try done.

Lemma leaf_insert_ok nd ks vs p score midx :
  leaf_node nd ks vs → (length ks <= 2)%nat → (p <= length ks)%nat → ∃ nd',
    leaf_insert_at nd (Z.of_nat p) score midx = Ok nd' ∧
    leaf_node nd' (ins_at p score ks) (ins_at p midx vs).
Proof.
  intros (Hl & Hc & Hvs & Hks & Hk3 & Hs4 & Htk & Htv) Hle Hp.
  open_node nd. unfold zlen in *. remember (length ks) as n eqn:Hn.
  destruct n as [|[|[|]]]; try lia; cbn in Htk, Htv; subst;
    destruct p as [|[|[|]]]; try lia; eexists; (split; [vm_compute; reflexivity|]);
    repeat split; cbn; lia.
Qed.

Lemma node_insert_ok nd ks cids p k s :
  int_node nd ks cids → (length ks <= 2)%nat → (p <= length ks)%nat → ∃ nd',
    node_insert_at nd (Z.of_nat p) k s = Ok nd' ∧
    int_node nd' (ins_at p k ks) (ins_at (S p) s cids).
Proof.
  intros (Hl & Hc & Hvs & Hks & Hk3 & Hs4 & Htk & Htv) Hle Hp.
  open_node nd. unfold zlen in *. remember (length ks) as n eqn:Hn.
  destruct n as [|[|[|]]]; try lia; cbn in Htk, Htv; subst;
    destruct p as [|[|[|]]]; try lia; eexists; (split; [vm_compute; reflexivity|]);
    repeat split; cbn; lia.
Qed.

(** * The position of a score among the keys *)

(** [p] separates the keys below [s] from those above. *)
Definition cut_at (p : nat) (s : Z) (ks : list Z) : Prop :=
  (∀ k, k ∈ take p ks → k <= s) ∧ (∀ k, k ∈ drop p ks → s <= k).

Lemma sorted_drop_ge ks p k x :
  sorted ks → ks !! p = Some k → x ∈ drop p ks → k <= x.
Proof.
  unfold sorted. intros Hs Hk Hx. rewrite (drop_S _ _ _ Hk) in Hx.
  apply elem_of_cons in Hx as [->|Hx]; [done|].
  rewrite <-(take_drop p ks), (drop_S _ _ _ Hk) in Hs.
  apply StronglySorted_app_1_r in Hs.
  by apply (StronglySorted_app_1_elem_of _ [k] (drop (S p) ks) k x) in Hs; [|left|].
Qed.

(** Reading inside the used prefix of an array. *)
Lemma prefix_lookup (arr l : list Z) n i :
  take n arr = l → (i < length l)%nat → ∃ k, aget arr (Z.of_nat i) = Ok k ∧ l !! i = Some k.
Proof.
  intros <- Hi. destruct (lookup_lt_is_Some_2 _ _ Hi) as [k Hk]. exists k. split; [|done].
  apply aget_lookup. split; [lia|]. rewrite Nat2Z.id. by apply lookup_take_Some in Hk as [? _].
Qed.

Lemma child_pos_ok nd ks cids s :
  int_node nd ks cids → sorted ks → ∃ p : nat,
    child_pos (Z.to_nat (n_count nd)) 0 (keys nd) s = Ok (Z.of_nat p) ∧
    (p <= length ks)%nat ∧ cut_at p s ks.
Proof.
  intros (_ & Hc & _ & Hks & Hk3 & _ & Ht & _) Hs. rewrite Hc. unfold zlen. rewrite Nat2Z.id.
  assert (∀ n i, (i + n = length ks)%nat → (∀ k, k ∈ take i ks → k <= s) → ∃ p,
    child_pos n (Z.of_nat i) (keys nd) s = Ok (Z.of_nat p) ∧ (p <= length ks)%nat ∧ cut_at p s ks)
    as Hloop; [|by apply (Hloop _ 0%nat); [lia|]; intros k Hk; apply elem_of_nil in Hk].
  induction n as [|n IH]; intros i Hi Hbelow; cbn [child_pos].
  - exists i. split; [done|]. split; [lia|]. split; [done|].
    intros k Hk. rewrite drop_ge in Hk by lia. by apply elem_of_nil in Hk.
  - destruct (prefix_lookup _ _ _ i Ht) as (k & -> & Hk); [lia|]. cbn [mbind exec_bind].
    rewrite Z.gtb_ltb. destruct (k <? s) eqn:E; zb.
    + replace (Z.of_nat i + 1) with (Z.of_nat (S i)) by lia. apply IH; [lia|].
      intros x. rewrite (take_S_r _ _ _ Hk). intros [Hx|Hx]%elem_of_app; [by apply Hbelow|].
      apply list_elem_of_singleton in Hx. lia.
    + exists i. split; [done|]. split; [lia|]. split; [done|].
      intros x Hx. pose proof (sorted_drop_ge _ _ _ _ Hs Hk Hx). lia.
Qed.

(** * Members *)

Definition mem_ok (m : btree_member) : Prop :=
  zlen (m_data m) = ZEDIS_BTREE_MAX_MEMBER ∧ 0 <= m_len m < ZEDIS_BTREE_MAX_MEMBER.

Lemma score_member_cmp_ok sa a sb b :
  mem_ok a → mem_ok b → ∃ c : Z, score_member_cmp sa a sb b = Ok c ∧
    (c <= 0 → sa <= sb) ∧ (0 < c → sb <= sa).
Proof.
  intros [Ha1 Ha2] [Hb1 Hb2]. unfold score_member_cmp, ZEDIS_BTREE_MAX_MEMBER in *.
  destruct (sa =? sb) eqn:E; zb; cbn [negb].
  - set (n := if m_len a <? m_len b then m_len a else m_len b).
    assert (0 <= n <= 47) by (unfold n; destruct (m_len a <? m_len b) eqn:?; zb; lia).
    rewrite !read_n_ok by lia. cbn [mbind exec_bind].
    destruct (negb _); [eexists; split; [done|lia]|].
    destruct (m_len a <? m_len b); [eexists; split; [done|lia]|].
    destruct (m_len a >? m_len b); (eexists; split; [done|lia]).
  - eexists; split; [done|]. destruct (sa <? sb) eqn:E'; zb; lia.
Qed.

Lemma leaf_find_pos_ok t nd ks vs s ins :
  leaf_node nd ks vs → sorted ks → Forall mem_ok (members t) → mem_ok ins →
  Forall (λ v : Z, 0 <= v < zlen (members t)) vs → ∃ p : nat,
    leaf_find_pos (Z.to_nat (n_count nd)) 0 t nd s ins = Ok (Z.of_nat p) ∧
    (p <= length ks)%nat ∧ cut_at p s ks.
Proof.
  intros (_ & Hc & Hvs & Hks & Hk3 & Hs4 & Ht & Htv) Hs Hm Hins Hv.
  rewrite Hc. unfold zlen at 1. rewrite Nat2Z.id.
  assert (∀ n i, (i + n = length ks)%nat → (∀ k, k ∈ take i ks → k <= s) → ∃ p,
    leaf_find_pos n (Z.of_nat i) t nd s ins = Ok (Z.of_nat p) ∧
    (p <= length ks)%nat ∧ cut_at p s ks)
    as Hloop; [|by apply (Hloop _ 0%nat); [lia|]; intros k Hk; apply elem_of_nil in Hk].
  induction n as [|n IH]; intros i Hi Hbelow; cbn [leaf_find_pos].
  - exists (length ks). rewrite Hc. split; [done|]. split; [lia|].
    assert (i = length ks) as -> by lia. split; [done|].
    intros k Hk. rewrite drop_ge in Hk by lia. by apply elem_of_nil in Hk.
  - destruct (prefix_lookup _ _ _ i Htv) as (v & -> & Hvi); [lia|].
    cbn [mbind exec_bind]. destruct (aget_ok (members t) v) as (m & -> & Hml).
    { by apply (Forall_lookup_1 _ _ _ _ Hv Hvi). }
    cbn [mbind exec_bind]. destruct (prefix_lookup _ _ _ i Ht) as (k & -> & Hk); [lia|].
    cbn [mbind exec_bind].
    destruct (score_member_cmp_ok s ins k m) as (c & -> & Hneg & Hpos);
      [done|by eapply Forall_lookup_1|]. cbn [mbind exec_bind].
    destruct (c <=? 0) eqn:E; zb.
    + exists i. split; [done|]. split; [lia|]. split; [done|].
      intros x Hx. pose proof (sorted_drop_ge _ _ _ _ Hs Hk Hx). lia.
    + replace (Z.of_nat i + 1) with (Z.of_nat (S i)) by lia. apply IH; [lia|].
      intros x. rewrite (take_S_r _ _ _ Hk). intros [Hx|Hx]%elem_of_app; [by apply Hbelow|].
      apply list_elem_of_singleton in Hx. lia.
Qed.
