(* ===== verification/BTreeInsert.v ===== *)
(** Insertion into the B-tree of src/btree.c: splitting a full node and
    [insert_nonfull], against the abstract tree of BTreeShape. *)

From stdpp Require Import sorting sets.
From S2P Require Import Prelude Arena BTree BTreeShape.

Lemma aset_get_eq {A} (l l' : list A) i x : aset l i x = Ok l' → aget l' i = Ok x.
Proof.
  intros [Hi ->]%aset_inv. apply aget_lookup. split; [lia|].
  apply list_lookup_insert_eq. unfold zlen in Hi. lia.
Qed.

Lemma aset_get_ne {A} (l l' : list A) i j x : aset l i x = Ok l' → j ≠ i → aget l' j = aget l j.
Proof.
  intros [Hi ->]%aset_inv Hne. unfold aget. destruct (j <? 0) eqn:E; zb; [done|].
  rewrite list_lookup_insert_ne by lia. done.
Qed.

Lemma aset_len {A} (l l' : list A) i x : aset l i x = Ok l' → zlen l' = zlen l.
Proof. intros [_ ->]%aset_inv. apply zlen_insert. Qed.

Lemma aset_exists {A} (l : list A) i x : 0 <= i < zlen l → ∃ l', aset l i x = Ok l'.
Proof. intros. rewrite aset_ok by done. by eexists. Qed.

Definition arr_wf (t : btree) : Prop :=
  zlen (nodes t) = max_nodes t ∧ 0 <= free_node t <= max_nodes t ∧ max_nodes t < UINT32_MAX.

Definition same_rest (t t' : btree) : Prop :=
  members t' = members t ∧ root t' = root t ∧ member_count t' = member_count t ∧
  max_nodes t' = max_nodes t ∧ max_members t' = max_members t ∧
  zlen (nodes t') = zlen (nodes t).

Lemma same_rest_trans t1 t2 t3 : same_rest t1 t2 → same_rest t2 t3 → same_rest t1 t3.
Proof. unfold same_rest. intuition congruence. Qed.

Lemma alloc_node_ok t :
  arr_wf t → free_node t < max_nodes t →
  alloc_node t = (free_node t, set_free t (free_node t + 1)) ∧ (free_node t =? NO_NODE) = false.
Proof.
  unfold arr_wf, UINT32_MAX. intros (_ & Hf & Hm) Hlt. unfold alloc_node. rewrite Z.geb_leb.
  destruct (_ <=? _) eqn:E; zb; [lia|]. rewrite u32_small by lia. split; [done|].
  apply Z.eqb_neq. unfold NO_NODE, UINT32_MAX. lia.
Qed.

(** The two nodes that a split writes. *)
Definition two_writes (t : btree) (i j : Z) (x y : btree_node) (p : Z) : exec (Z * Z * btree) :=
  ns ← aset (nodes t) i x;
  ns' ← aset ns j y;
  Ok (i, p, set_nodes (set_free t (free_node t + 1)) ns').

Lemma two_writes_ok t i j x y p :
  0 <= i < zlen (nodes t) → 0 <= j < zlen (nodes t) → i ≠ j → ∃ t',
    two_writes t i j x y p = Ok (i, p, t') ∧ same_rest t t' ∧ free_node t' = free_node t + 1 ∧
    aget (nodes t') i = Ok x ∧ aget (nodes t') j = Ok y ∧
    ∀ k, k ≠ i → k ≠ j → aget (nodes t') k = aget (nodes t) k.
Proof.
  intros Hi Hj Hne. unfold two_writes.
  destruct (aset_exists (nodes t) i x Hi) as [ns Hns]. rewrite Hns. cbn [mbind exec_bind].
  pose proof (aset_len _ _ _ _ Hns) as Hl.
  destruct (aset_exists ns j y) as [ns' Hns']; [lia|]. rewrite Hns'. cbn [mbind exec_bind].
  pose proof (aset_len _ _ _ _ Hns') as Hl'.
  eexists. split; [done|]. unfold same_rest; cbn. split_and!; try done; try lia.
  - rewrite (aset_get_ne _ _ _ i _ Hns') by done. by eapply aset_get_eq.
  - by eapply aset_get_eq.
  - intros k Hki Hkj. rewrite (aset_get_ne _ _ _ k _ Hns'), (aset_get_ne _ _ _ k _ Hns) by done. done.
Qed.

Lemma split_leaf_eq t id nd ks vs :
  arr_wf t → free_node t < max_nodes t → aget (nodes t) id = Ok nd → leaf_node nd ks vs →
  length ks = 3%nat → ∃ k0 k1 k2 v0 v1 v2 w,
    ks = [k0; k1; k2] ∧ vs = [v0; v1; v2] ∧
    split_leaf t id = two_writes t (free_node t) id
      (BNode [k2; 0; 0] [v2; 0; 0; 0] 1 1) (BNode [k0; k1; k2] [v0; v1; v2; w] 1 2) k2.
Proof.
  intros Hwf Hlt Hnd (Hl & Hc & Hvs & _ & Hk3 & Hs4 & Htk & Htv) H3.
  destruct (alloc_node_ok t Hwf Hlt) as [Ha Hne]. unfold split_leaf. rewrite Hnd.
  cbn [mbind exec_bind]. rewrite Ha, Hne. unfold zlen in Hc. rewrite H3 in *.
  open_node nd. cbn in Htk, Htv. subst. do 7 eexists. split; [done|]. split; [done|]. reflexivity.
Qed.

Lemma split_internal_eq t id nd ks cids :
  arr_wf t → free_node t < max_nodes t → aget (nodes t) id = Ok nd → int_node nd ks cids →
  length ks = 3%nat → ∃ k0 k1 k2 c0 c1 c2 c3,
    ks = [k0; k1; k2] ∧ cids = [c0; c1; c2; c3] ∧
    split_internal t id = two_writes t (free_node t) id
      (BNode [k2; 0; 0] [c2; c3; 0; 0] 0 1) (BNode [k0; k1; k2] [c0; c1; c2; c3] 0 1) k1.
Proof.
  intros Hwf Hlt Hnd (Hl & Hc & Hvs & _ & Hk3 & Hs4 & Htk & Htv) H3.
  destruct (alloc_node_ok t Hwf Hlt) as [Ha Hne]. unfold split_internal. rewrite Hnd.
  cbn [mbind exec_bind]. rewrite Ha, Hne. unfold zlen in Hc. rewrite H3 in *.
  open_node nd. cbn in Htk, Htv. subst. do 7 eexists. split; [done|]. split; [done|]. reflexivity.
Qed.

(** What a split of the full node [c] produces: [l] in its place, the key [p]
    and the new node [r]. *)
Definition split_post (t : btree) (c : itree) (p : Z) (l r : itree) (t' : btree) : Prop :=
  root_id l = root_id c ∧ root_id r = free_node t ∧
  lay (nodes t') l ∧ lay (nodes t') r ∧
  (length (node_keys l) <= 2)%nat ∧ (length (node_keys r) <= 2)%nat ∧
  ids l ++ ids r ≡ₚ free_node t :: ids c ∧
  inorder l ++ inorder r = inorder c ∧
  sorted (seqk l ++ p :: seqk r) ∧ (∀ x, x ∈ seqk l ++ p :: seqk r → x ∈ seqk c) ∧
  (height l <= height c)%nat ∧ (height r <= height c)%nat ∧
  (∀ j, j ≠ root_id c → j ≠ free_node t → aget (nodes t') j = aget (nodes t) j) ∧
  same_rest t t' ∧ free_node t' = free_node t + 1.

Lemma root_in_ids t : root_id t ∈ ids t.
Proof. destruct t; cbn; by left. Qed.

Lemma split_leaf_ok t id ks vs :
  let c := Lf id ks vs in
  arr_wf t → free_node t < max_nodes t → lay (nodes t) c → length ks = 3%nat → 0 <= id < free_node t → sorted ks →
  ∃ p l r t', split_node t id = Ok (free_node t, p, t') ∧ split_post t c p l r t'.
Proof.
  intros c Hwf Hlt Hlay H3 Hid Hs. pose proof Hwf as (Hlen & Hf & Hm). unfold split_node.
  inversion Hlay as [? ? ? nd Hg Hleaf|]; subst. rewrite Hg. cbn [mbind exec_bind]. pose proof Hleaf as (-> & _). cbn [negb Z.eqb].
  destruct (split_leaf_eq _ _ _ _ _ Hwf Hlt Hg Hleaf H3) as (k0 & k1 & k2 & v0 & v1 & v2 & w & -> & -> & ->).
  destruct (two_writes_ok t (free_node t) id (BNode [k2; 0; 0] [v2; 0; 0; 0] 1 1)
    (BNode [k0; k1; k2] [v0; v1; v2; w] 1 2) k2) as (t' & -> & Hsame & Hfree & Hi & Hj & Hk); [lia..|].
  exists k2, (Lf id [k0; k1] [v0; v1]), (Lf (free_node t) [k2] [v2]), t'. split; [done|].
  split; [done|]. split; [done|]. split; [by econstructor; [done|repeat split; cbn; lia]|].
  split; [by econstructor; [done|repeat split; cbn; lia]|].
  split; [cbn; lia|]. split; [cbn; lia|]. split; [cbn; apply Permutation_swap|].
  split; [done|]. cbn [seqk] in *. split.
  { apply (sorted_replace [k0; k1] [k2] [] k2 [k2; k2]); try done.
    - intros x Hx. apply (StronglySorted_app_1_elem_of _ [k0; k1] [k2] x k2 Hs Hx). by left.
    - intros x Hx. by apply elem_of_nil in Hx.
    - repeat constructor; lia.
    - intros x Hx. set_solver. }
  split; [intros x Hx; set_solver|]. split; [done|]. split; [done|]. split; [|done].
  intros j ??. by apply Hk.
Qed.

Lemma split_internal_ok t id ks cs :
  let c := Nd id ks cs in
  arr_wf t → free_node t < max_nodes t → lay (nodes t) c → length ks = 3%nat → 0 <= id < free_node t →
  NoDup (ids c) → Forall (λ j, 0 <= j < free_node t) (ids c) → sorted (seqk c) →
  ∃ p l r t', split_node t id = Ok (free_node t, p, t') ∧ split_post t c p l r t'.
Proof.
  intros it Hwf Hlt Hlay H3 Hid Hnd Hids Hs. pose proof Hwf as (Hlen & Hf & Hm). unfold split_node.
  inversion Hlay as [|? ? ? nd Hg Hint Hcs]; subst. rewrite Hg. cbn [mbind exec_bind]. pose proof Hint as (-> & _). cbn [negb Z.eqb].
  destruct (split_internal_eq _ _ _ _ _ Hwf Hlt Hg Hint H3) as (k0 & k1 & k2 & c0 & c1 & c2 & c3 & -> & Hc & ->).
  destruct cs as [|a [|b [|c [|d [|]]]]]; try done. injection Hc as <- <- <- <-. unfold it in *. clear it.
  destruct (two_writes_ok t (free_node t) id (BNode [k2; 0; 0] [root_id c; root_id d; 0; 0] 0 1)
    (BNode [k0; k1; k2] [root_id a; root_id b; root_id c; root_id d] 0 1) k1)
    as (t' & -> & Hsame & Hfree & Hi & Hj & Hk); [lia..|].
  cbn [ids map concat] in Hnd, Hids. rewrite app_nil_r in *.
  assert (∀ x, x ∈ [a; b; c; d] → lay (nodes t') x) as Hlay'.
  { intros x Hx. apply (lay_frame (nodes t)); [by apply (proj1 (Forall_forall _ _) Hcs)|].
    intros j Hj'. assert (j ∈ ids a ++ ids b ++ ids c ++ ids d) as Hin by set_solver.
    apply NoDup_cons in Hnd as [Hni _]. apply Forall_cons in Hids as [_ Hb].
    pose proof (proj1 (Forall_forall _ _) Hb _ Hin) as Hjb. cbv beta in Hjb.
    apply Hk; [lia|]. intros ->. done. }
  exists k1, (Nd id [k0] [a; b]), (Nd (free_node t) [k2] [c; d]), t'. split; [done|].
  split; [done|]. split; [done|].
  split; [econstructor; [done|repeat split; cbn; lia|repeat constructor; apply Hlay'; set_solver]|].
  split; [econstructor; [done|repeat split; cbn; lia|repeat constructor; apply Hlay'; set_solver]|].
  split; [cbn; lia|]. split; [cbn; lia|]. cbn [ids inorder map concat seqk height foldr].
  rewrite !app_nil_r, <-!app_assoc. cbn [app].
  split; [rewrite <-app_assoc, Permutation_middle; solve_Permutation|]. split; [done|].
  assert (weave [k0; k1; k2] [seqk a; seqk b; seqk c; seqk d]
          = weave [k0] [seqk a; seqk b] ++ k1 :: weave [k2] [seqk c; seqk d]) as Hw.
  { cbn. rewrite !app_nil_r. by rewrite <-!app_assoc. }
  cbn [seqk map] in Hs. rewrite Hw in Hs. split; [done|]. rewrite Hw. split; [done|].
  split; [lia|]. split; [lia|]. split; [|done]. intros j ??. by apply Hk.
Qed.

Lemma split_ok t c :
  arr_wf t → free_node t < max_nodes t → lay (nodes t) c → length (node_keys c) = 3%nat →
  NoDup (ids c) → Forall (λ j, 0 <= j < free_node t) (ids c) → sorted (seqk c) →
  ∃ p l r t', split_node t (root_id c) = Ok (free_node t, p, t') ∧ split_post t c p l r t'.
Proof.
  intros Hwf Hlt Hlay H3 Hnd Hids Hs.
  pose proof (proj1 (Forall_forall _ _) Hids _ (root_in_ids c)) as Hrt. cbv beta in Hrt.
  destruct c as [id ks vs|id ks cs]; [by apply split_leaf_ok|by apply split_internal_ok].
Qed.

(** * insert_nonfull *)

Definition ins_pre (t : btree) (it : itree) : Prop :=
  arr_wf t ∧ lay (nodes t) it ∧ NoDup (ids it) ∧
  Forall (λ j, 0 <= j < free_node t) (ids it) ∧ sorted (seqk it) ∧
  free_node t + slack it <= max_nodes t ∧
  Forall mem_ok (members t) ∧ Forall (λ e : Z * Z, 0 <= e.2 < zlen (members t)) (inorder it).

Definition ins_post (t : btree) (it : itree) (s midx : Z) (t' : btree) (it' : itree) : Prop :=
  same_rest t t' ∧ free_node t <= free_node t' ∧ lay (nodes t') it' ∧ root_id it' = root_id it ∧
  ids it' ≡ₚ ids it ++ seqZ (free_node t) (free_node t' - free_node t) ∧
  (∀ j, 0 <= j < free_node t → j ∉ ids it → aget (nodes t') j = aget (nodes t) j) ∧
  inorder it' ≡ₚ (s, midx) :: inorder it ∧
  sorted (seqk it') ∧ (∀ x, x ∈ seqk it' → x = s ∨ x ∈ seqk it).

Lemma insert_into_leaf_ok t id ks vs s midx :
  ins_pre t (Lf id ks vs) → (length ks <= 2)%nat → 0 <= midx < zlen (members t) → ∃ t' it',
    insert_into_leaf t id s midx = Ok (0, t') ∧ ins_post t (Lf id ks vs) s midx t' it'.
Proof.
  intros (Hwf & Hlay & Hnd & Hids & Hs & Hslack & Hmem & Hin) Hle Hmidx.
  inversion Hlay as [? ? ? nd Hg Hleaf|]; subst. unfold insert_into_leaf. rewrite Hg.
  cbn [mbind exec_bind]. destruct (aget_ok (members t) midx Hmidx) as (ins & -> & Hins).
  cbn [mbind exec_bind]. pose proof Hleaf as (_ & _ & Hvl & _).
  assert (Forall (λ v, 0 <= v < zlen (members t)) vs) as Hv.
  { cbn [inorder] in Hin. rewrite <-(snd_zip ks vs) by lia. by apply Forall_fmap. }
  destruct (leaf_find_pos_ok t nd ks vs s ins) as (p & -> & Hp & Hcut1 & Hcut2); try done.
  { by eapply Forall_lookup_1. }
  cbn [mbind exec_bind].
  destruct (leaf_insert_ok nd ks vs p s midx) as (nd' & -> & Hleaf'); [done..|].
  cbn [mbind exec_bind]. apply Forall_cons in Hids as [Hid _]. destruct Hwf as (Hlen & Hf & Hm).
  destruct (aset_exists (nodes t) id nd') as [ns Hns]; [lia|]. rewrite Hns. cbn [mbind exec_bind].
  eexists _, (Lf id (ins_at p s ks) (ins_at p midx vs)). split; [done|].
  pose proof (aset_len _ _ _ _ Hns). unfold ins_post, same_rest; cbn [set_nodes nodes members root
    free_node member_count max_nodes max_members]. split; [done|]. split; [lia|].
  split; [econstructor; [by eapply aset_get_eq|done]|]. split; [done|].
  rewrite Z.sub_diag, app_nil_r. split; [done|].
  split; [intros j ? Hj; apply (aset_get_ne _ _ _ _ _ Hns); cbn in Hj; set_solver|].
  unfold ins_at. cbn [inorder seqk]. split; [|split].
  - rewrite zip_with_app by (rewrite !length_take; lia). cbn [zip_with].
    rewrite <-(take_drop p ks) at 3. rewrite <-(take_drop p vs) at 3.
    rewrite (zip_with_app _ (take p ks)) by (rewrite !length_take; lia).
    by rewrite Permutation_middle.
  - apply (sorted_replace (take p ks) [] (drop p ks) s [s]); cbn [app]; try done.
    + by rewrite take_drop.
    + repeat constructor.
    + intros x Hx. left. by apply list_elem_of_singleton in Hx.
  - intros x [Hx|[->|Hx]%elem_of_cons]%elem_of_app; [right| by left |right].
    + rewrite <-(take_drop p ks). apply elem_of_app. by left.
    + rewrite <-(take_drop p ks). apply elem_of_app. by right.
Qed.

(** The whole of an internal node with the child [c] in the middle. *)
Lemma seqk_split id ks1 ks2 cs1 c cs2 :
  length ks1 = length cs1 →
  seqk (Nd id (ks1 ++ ks2) (cs1 ++ c :: cs2))
  = wpre ks1 (map seqk cs1) ++ seqk c ++ wpost ks2 (map seqk cs2).
Proof.
  intros Hl. cbn [seqk]. rewrite map_app. cbn [map]. apply weave_split. by rewrite length_map.
Qed.

(** Inserting into the child of an internal node is inserting into the node. *)
Lemma ins_pre_child t id ks cs1 c cs2 ks1 ks2 :
  ks = ks1 ++ ks2 → length ks1 = length cs1 →
  ins_pre t (Nd id ks (cs1 ++ c :: cs2)) → ins_pre t c.
Proof.
  intros -> Hl (Hwf & Hlay & Hnd & Hids & Hs & Hslack & Hmem & Hin).
  pose proof (slack_child _ _ _ _ _ _ Hlay) as Hsl.
  inversion Hlay as [|? ? ? nd Hg Hint Hcs]; subst.
  cbn [ids] in Hnd, Hids. rewrite concat_map_split in Hnd, Hids.
  apply NoDup_cons in Hnd as [_ (_ & _ & (Hnd & _ & _)%NoDup_app)%NoDup_app].
  apply Forall_cons in Hids as [_ [_ [Hids _]%Forall_app]%Forall_app].
  apply Forall_app in Hcs as [_ [Hc _]%Forall_cons].
  cbn [inorder] in Hin. rewrite concat_map_split in Hin.
  apply Forall_app in Hin as [_ [Hin _]%Forall_app].
  rewrite seqk_split in Hs by done. apply sorted_mid in Hs.
  split_and!; try done. unfold ins_pre. lia.
Qed.

Lemma ins_lay_child t id ks cs1 c cs2 s midx t' c' :
  ins_pre t (Nd id ks (cs1 ++ c :: cs2)) → ins_post t c s midx t' c' →
  lay (nodes t') (Nd id ks (cs1 ++ c' :: cs2)).
Proof.
  intros (Hwf & Hlay & Hnd & Hids & _) (_ & _ & Hlay' & Hrt & _ & Hframe & _).
  inversion Hlay as [|? ? ? nd Hg Hint Hcs]; subst.
  cbn [ids] in Hnd, Hids. rewrite concat_map_split in Hnd, Hids.
  apply NoDup_cons in Hnd as [Hid (_ & Hd1 & (_ & Hd2 & _)%NoDup_app)%NoDup_app].
  apply Forall_cons in Hids as [Hidb [Hb1 [_ Hb2]%Forall_app]%Forall_app].
  apply Forall_app in Hcs as [Hc1 [_ Hc2]%Forall_cons].
  rewrite Forall_forall in Hb1, Hb2. rewrite Forall_forall in Hc1, Hc2.
  assert (∀ x cs, x ∈ cs → ∀ j, j ∈ ids x → j ∈ concat (map ids cs)) as Hcat.
  { intros x cs Hx j Hj. apply list_elem_of_In, in_concat. exists (ids x).
    split; [by apply in_map, list_elem_of_In|by apply list_elem_of_In]. }
  econstructor.
  - rewrite Hframe; [done|done|]. intros Hin. apply Hid. set_solver.
  - rewrite map_app in *. cbn [map] in *. by rewrite Hrt.
  - apply Forall_app. split; [|constructor; [done|]]; apply Forall_forall; intros x Hx.
    + apply (lay_frame (nodes t)); [by apply Hc1|]. intros j Hj.
      assert (j ∈ concat (map ids cs1)) as Hj1 by by eapply Hcat.
      apply Hframe; [by apply Hb1|]. intros Hjc. apply (Hd1 j Hj1). set_solver.
    + apply (lay_frame (nodes t)); [by apply Hc2|]. intros j Hj.
      assert (j ∈ concat (map ids cs2)) as Hj2 by by eapply Hcat.
      apply Hframe; [by apply Hb2|]. intros Hjc. by apply (Hd2 j Hjc).
Qed.

Lemma ins_post_child t id ks1 ks2 cs1 c cs2 s midx t' c' :
  length ks1 = length cs1 → (∀ k, k ∈ ks1 → k <= s) → (∀ k, k ∈ ks2 → s <= k) →
  ins_pre t (Nd id (ks1 ++ ks2) (cs1 ++ c :: cs2)) → ins_post t c s midx t' c' →
  ins_post t (Nd id (ks1 ++ ks2) (cs1 ++ c :: cs2)) s midx t'
             (Nd id (ks1 ++ ks2) (cs1 ++ c' :: cs2)).
Proof.
  intros Hl H1 H2 Hpre Hpost. pose proof (ins_lay_child _ _ _ _ _ _ _ _ _ _ Hpre Hpost) as Hlay'.
  destruct Hpre as (Hwf & Hlay & Hnd & Hids & Hs & _).
  destruct Hpost as (Hsame & Hf & _ & Hrt & Hperm & Hframe & Hino & Hs' & Hsub).
  assert (length ks2 = length cs2) as Hl2.
  { inversion Hlay as [|? ? ? nd Hg Hint Hcs]; subst. destruct Hint as (_ & _ & Hlen & _).
    rewrite length_map, !length_app in Hlen. cbn in Hlen. lia. }
  rewrite seqk_split in Hs by done. pose proof Hs as Hs0. unfold sorted in Hs0.
  apply StronglySorted_app in Hs0 as (_ & Hspre & (_ & _ & Hspost)%StronglySorted_app).
  split; [done|]. split; [done|]. split; [done|]. split; [done|]. split; [|split; [|split; [|split]]].
  - cbn [ids]. rewrite !concat_map_split, Hperm. cbn [app]. solve_Permutation.
  - intros j Hj Hni. apply Hframe; [done|]. intros Hjc. apply Hni. cbn [ids].
    rewrite concat_map_split. set_solver.
  - cbn [inorder]. rewrite !concat_map_split, Hino. cbn [app]. by rewrite <-Permutation_middle.
  - rewrite seqk_split by done. apply (sorted_replace _ (seqk c) _ s); try done.
    + apply wpre_le; [done|by rewrite length_map|done].
    + apply wpost_ge; [done|by rewrite length_map|done].
  - intros x. rewrite !seqk_split by done. rewrite !elem_of_app.
    intros [Hx|[Hx|Hx]]; [tauto| |tauto]. destruct (Hsub x Hx); tauto.
Qed.

(** The parent after the split of its child [c]: its contents. *)
Lemma split_contents t id ks cs1 c cs2 p l r t1 :
  let it := Nd id ks (cs1 ++ c :: cs2) in
  let it2 := Nd id (ins_at (length cs1) p ks) (cs1 ++ l :: r :: cs2) in
  (length cs1 <= length ks)%nat → sorted (seqk it) → split_post t c p l r t1 →
  inorder it2 = inorder it ∧ ids it2 ≡ₚ ids it ++ [free_node t] ∧
  sorted (seqk it2) ∧ ∀ x, x ∈ seqk it2 → x ∈ seqk it.
Proof.
  intros it it2 Hlk Hs (_ & _ & _ & _ & _ & _ & Hperm & Hino & Hsp & Hsub & _).
  assert (seqk it2 = wpre (take (length cs1) ks) (map seqk cs1) ++ (seqk l ++ p :: seqk r) ++
          wpost (drop (length cs1) ks) (map seqk cs2)) as ->.
  { unfold it2, ins_at. rewrite seqk_split by (rewrite length_take; lia).
    cbn [map]. rewrite wpost_cons. by rewrite <-!app_assoc. }
  assert (seqk it = wpre (take (length cs1) ks) (map seqk cs1) ++ seqk c ++
          wpost (drop (length cs1) ks) (map seqk cs2)) as Hseq.
  { unfold it. rewrite <-(take_drop (length cs1) ks) at 1.
    by rewrite seqk_split by (rewrite length_take; lia). }
  rewrite Hseq in *. assert (p ∈ seqk c) as Hpc by (apply Hsub; set_solver).
  unfold it, it2. cbn [inorder ids]. rewrite !concat_map_split. cbn [map concat]. split_and!.
  - by rewrite <-Hino, <-!app_assoc.
  - rewrite (app_assoc (ids l)), Hperm. cbn [app]. solve_Permutation.
  - apply (sorted_replace _ (seqk c) _ p); try done.
    + intros x Hx. apply (StronglySorted_app_1_elem_of _ _ _ x p Hs Hx). set_solver.
    + intros x Hx. apply StronglySorted_app in Hs as (_ & _ & Hs).
      by apply (StronglySorted_app_1_elem_of _ _ _ p x Hs).
    + intros x Hx. right. by apply Hsub.
  - intros x. rewrite !elem_of_app. intros [Hx|[Hx|Hx]]; [tauto| |tauto].
    right; left. apply Hsub. by apply elem_of_app.
Qed.

Lemma elem_of_concat_ids x (cs : list itree) j : x ∈ cs → j ∈ ids x → j ∈ concat (map ids cs).
Proof.
  intros Hx Hj. apply list_elem_of_In, in_concat. exists (ids x).
  split; [by apply in_map, list_elem_of_In|by apply list_elem_of_In].
Qed.

(** The parent after the split of its child [c]: the array. *)
(** The parent after its child was split: the node and the two halves are laid
    out, and nothing else has changed. *)
Lemma lay_after_split t id ks cs1 c cs2 p l r t1 nd2 ns :
  let it := Nd id ks (cs1 ++ c :: cs2) in
  let it2 := Nd id (ins_at (length cs1) p ks) (cs1 ++ l :: r :: cs2) in
  lay (nodes t) it → NoDup (ids it) → Forall (λ j, 0 <= j < free_node t) (ids it) → split_post t c p l r t1 →
  aset (nodes t1) id nd2 = Ok ns → int_node nd2 (ins_at (length cs1) p ks) (map root_id (cs1 ++ l :: r :: cs2)) →
  lay ns it2 ∧ (∀ j, 0 <= j < free_node t → j ∉ ids it → aget ns j = aget (nodes t) j).
Proof.
  intros it it2 Hlay Hnd Hids (_ & _ & Hll & Hlr & _ & _ & Hp & _ & _ & _ & _ & _ & Hframe & _) Hns Hint2.
  assert (∀ j, 0 <= j < free_node t → j ≠ id → j ≠ root_id c → aget ns j = aget (nodes t) j) as Hfr.
  { intros j Hj Hji Hjc. rewrite (aset_get_ne _ _ _ j _ Hns) by done. apply Hframe; [done|lia]. }
  pose proof (root_in_ids c) as Hrc. split.
  2:{ intros j Hj Hni. apply Hfr; [done| |]; intros ->; apply Hni; unfold it; cbn [ids]; rewrite ?concat_map_split; set_solver. }
  inversion Hlay as [|? ? ? nd Hg Hint Hcs]; subst. unfold it in Hnd, Hids. cbn [ids] in Hnd, Hids.
  rewrite concat_map_split in Hnd, Hids.
  apply NoDup_cons in Hnd as [Hid (_ & Hd1 & (_ & Hd2 & _)%NoDup_app)%NoDup_app].
  apply Forall_cons in Hids as [Hidb [Hb1 [Hbc Hb2]%Forall_app]%Forall_app].
  apply Forall_app in Hcs as [Hc1 [_ Hc2]%Forall_cons].
  rewrite Forall_forall in Hb1, Hb2, Hbc. rewrite Forall_forall in Hc1, Hc2.
  assert (∀ x, x ∈ cs1 ++ cs2 → lay ns x) as Hrest.
  { intros x [Hx|Hx]%elem_of_app; (apply (lay_frame (nodes t)); [by auto|]); intros j Hj;
      pose proof (elem_of_concat_ids _ _ _ Hx Hj) as Hj'; apply Hfr; try by auto.
    - intros ->. apply Hid. set_solver.
    - intros ->. apply (Hd1 _ Hj'). set_solver.
    - intros ->. apply Hid. set_solver.
    - intros ->. by apply (Hd2 _ Hrc). }
  assert (∀ j, j ∈ ids l ++ ids r → aget ns j = aget (nodes t1) j) as Hlr'.
  { intros j Hj. apply (aset_get_ne _ _ _ _ _ Hns). intros ->.
    rewrite Hp in Hj. apply elem_of_cons in Hj as [->|Hj]; [lia|]. apply Hid. set_solver. }
  econstructor; [by eapply aset_get_eq|done|]. apply Forall_app. split; [|repeat constructor];
    [apply Forall_forall; intros x Hx; apply Hrest; set_solver| | |apply Forall_forall; intros x Hx; apply Hrest; set_solver];
    (apply (lay_frame (nodes t1)); [done|]; intros j Hj; apply Hlr'; set_solver).
Qed.

Lemma ins_pre_split t id ks cs1 c cs2 p l r t1 nd2 ns :
  let it := Nd id ks (cs1 ++ c :: cs2) in
  let it2 := Nd id (ins_at (length cs1) p ks) (cs1 ++ l :: r :: cs2) in
  let t2 := set_nodes t1 ns in
  (length cs1 <= length ks)%nat → ins_pre t it → split_post t c p l r t1 →
  aset (nodes t1) id nd2 = Ok ns →
  int_node nd2 (ins_at (length cs1) p ks) (map root_id (cs1 ++ l :: r :: cs2)) →
  ins_pre t2 it2 ∧ same_rest t t2 ∧ free_node t2 = free_node t + 1 ∧
  (∀ j, 0 <= j < free_node t → j ∉ ids it → aget (nodes t2) j = aget (nodes t) j).
Proof.
  intros it it2 t2 Hlk (Hwf & Hlay & Hnd & Hids & Hs & Hslack & Hmem & Hin) Hpost Hns Hint2.
  destruct (split_contents t id ks cs1 c cs2 p l r t1 Hlk Hs Hpost) as (Hino & Hperm & Hs2 & _).
  destruct (lay_after_split t id ks cs1 c cs2 p l r t1 nd2 ns Hlay Hnd Hids Hpost Hns Hint2) as [Hlay2 Hfr].
  fold it it2 in Hino, Hperm, Hs2, Hlay2, Hfr.
  destruct Hpost as (_ & _ & _ & _ & _ & _ & _ & _ & _ & _ & _ & _ & _ & Hsame & Hfree).
  assert (same_rest t t2) as Hsame2.
  { unfold same_rest, t2 in *; cbn. rewrite (aset_len _ _ _ _ Hns). done. }
  assert (free_node t2 = free_node t + 1) as Hf2 by done.
  split; [|split; [done|split; [done|exact Hfr]]].
  pose proof (slack_nonneg _ _ Hlay2) as Hsl2.
  assert (slack it2 = slack it - 1) as Hsl.
  { unfold slack. rewrite Hino. unfold zlen. rewrite Hperm, length_app. cbn. lia. }
  destruct Hwf as (Hlen & Hf & Hmax). destruct Hsame2 as (Hm & _ & _ & Hmn & _ & Hzl).
  unfold ins_pre, arr_wf. rewrite Hf2, Hmn, Hzl, Hm, Hino, Hperm. split; [lia|]. split; [done|].
  split; [|split; [|split; [done|split; [lia|done]]]].
  - apply NoDup_app. split; [done|]. split; [|apply NoDup_singleton].
    intros j Hj ->%list_elem_of_singleton. rewrite Forall_forall in Hids.
    specialize (Hids _ Hj). cbv beta in Hids. lia.
  - apply Forall_app. split; [|constructor; [lia|constructor]].
    eapply Forall_impl; [done|]. intros ? ?. cbv beta in *. lia.
Qed.

Lemma ins_post_after_split t it t2 it2 s midx t' it' :
  same_rest t t2 → free_node t2 = free_node t + 1 → root_id it2 = root_id it →
  Forall (λ j, 0 <= j < free_node t) (ids it) →
  inorder it2 = inorder it → ids it2 ≡ₚ ids it ++ [free_node t] →
  (∀ x, x ∈ seqk it2 → x ∈ seqk it) →
  (∀ j, 0 <= j < free_node t → j ∉ ids it → aget (nodes t2) j = aget (nodes t) j) →
  ins_post t2 it2 s midx t' it' → ins_post t it s midx t' it'.
Proof.
  intros Hsame Hfree Hrt Hids Hino Hperm Hsub Hframe (Hsame' & Hf & Hlay & Hrt' & Hp & Hfr & Hi & Hs & Hx).
  split; [by eapply same_rest_trans|]. split; [lia|]. split; [done|]. split; [congruence|].
  split; [|split; [|split; [by rewrite <-Hino|split; [done|]]]].
  - rewrite Hp, Hperm, <-app_assoc. f_equiv. rewrite (seqZ_cons (free_node t)) by lia.
    rewrite Hfree. unfold Z.succ, Z.pred. cbn [app].
    by replace (free_node t' - free_node t + -1) with (free_node t' - (free_node t + 1)) by lia.
  - intros j Hj Hni. rewrite Hfr; [by apply Hframe|lia|]. rewrite Hperm.
    intros [?|?%list_elem_of_singleton]%elem_of_app; [done|lia].
  - intros x Hin. destruct (Hx x Hin); [by left|right; by apply Hsub].
Qed.

Lemma wpost_keys ks ls : length ks = length ls → sorted (wpost ks ls) → sorted ks ∧ ∀ k, k ∈ ks → k ∈ wpost ks ls.
Proof.
  unfold sorted. revert ls. induction ks as [|k ks IH]; intros [|l ls] Hl Hs; try done.
  injection Hl as Hl. rewrite wpost_cons in *. change (k :: l ++ wpost ks ls) with ([k] ++ l ++ wpost ks ls) in *.
  apply StronglySorted_app in Hs as (H1 & _ & (H2 & _ & Hs)%StronglySorted_app).
  destruct (IH ls Hl Hs) as [Hk Hin]. split; [|set_solver].
  constructor; [done|]. apply Forall_forall. intros x Hx. apply H1; set_solver.
Qed.

Lemma node_keys_sorted ns id ks cs : lay ns (Nd id ks cs) → sorted (seqk (Nd id ks cs)) → sorted ks.
Proof.
  intros Hl Hs. inversion Hl as [|? ? ? nd Hg Hint Hcs]; subst. destruct Hint as (_ & _ & Hlen & _).
  rewrite length_map in Hlen. destruct cs as [|c cs]; [done|]. cbn [seqk map weave] in Hs.
  apply StronglySorted_app in Hs as (_ & _ & Hs). apply wpost_keys in Hs; [by destruct Hs|].
  rewrite length_map. cbn in Hlen. lia.
Qed.

Lemma slack_full ns t : lay ns t → length (node_keys t) = 3%nat → 2 <= slack t.
Proof.
  intros Hl H3. inversion Hl as [? ? ? nd Hg Hleaf|id ks cs nd Hg Hint Hcs]; subst; cbn [node_keys] in H3.
  - destruct Hleaf as (_ & _ & Hvs & _). unfold slack, zlen. cbn [inorder ids length].
    rewrite length_zip_with. lia.
  - destruct Hint as (_ & _ & Hlen & _). rewrite length_map, H3 in Hlen.
    destruct cs as [|a [|b [|c [|d [|]]]]]; try done. unfold slack, zlen.
    cbn [inorder ids map concat length]. rewrite !length_app. cbn [length].
    apply Forall_cons in Hcs as [Ha Hcs]. apply Forall_cons in Hcs as [Hb Hcs].
    apply Forall_cons in Hcs as [Hc Hcs]. apply Forall_cons in Hcs as [Hd _].
    destruct (size_bound _ _ Ha), (size_bound _ _ Hb), (size_bound _ _ Hc), (size_bound _ _ Hd). lia.
Qed.

Lemma lay_root_node ns t :
  lay ns t → ∃ nd, aget ns (root_id t) = Ok nd ∧ n_count nd = zlen (node_keys t) ∧
    (length (node_keys t) <= 3)%nat.
Proof.
  intros Hl. inversion Hl as [? ? ? nd Hg (_ & Hc & _ & Hk & _)|? ? ? nd Hg (_ & Hc & _ & Hk & _) _];
    subst; exists nd; (split; [done|split; [done|cbn; lia]]).
Qed.

Lemma height_child id ks cs1 c cs2 : (height c < height (Nd id ks (cs1 ++ c :: cs2)))%nat.
Proof. cbn [height]. induction cs1 as [|c1 cs1 IH]; cbn in *; lia. Qed.

(** The descent, after the child has been split: one of the halves is chosen. *)
Lemma insert_half t id ks cs1 cs2 p l r s midx (IHf : btree → Z → exec (Z * btree)) :
  let it2 := Nd id (ins_at (length cs1) p ks) (cs1 ++ l :: r :: cs2) in
  ins_pre t it2 → (length cs1 <= length ks)%nat → cut_at (length cs1) s ks →
  (∀ c, c = l ∨ c = r → ins_pre t c → ∃ t' c',
     IHf t (root_id c) = Ok (0, t') ∧ ins_post t c s midx t' c') →
  ∃ t' it', IHf t (if s >=? p then root_id r else root_id l) = Ok (0, t') ∧
    ins_post t it2 s midx t' it'.
Proof.
  intros it2 Hpre Hlk [Hc1 Hc2] IH. unfold it2, ins_at in *. rewrite Z.geb_leb.
  destruct (p <=? s) eqn:E; zb.
  - replace (take (length cs1) ks ++ p :: drop (length cs1) ks)
      with ((take (length cs1) ks ++ [p]) ++ drop (length cs1) ks) in * by by rewrite <-app_assoc.
    replace (cs1 ++ l :: r :: cs2) with ((cs1 ++ [l]) ++ r :: cs2) in * by by rewrite <-app_assoc.
    assert (length (take (length cs1) ks ++ [p]) = length (cs1 ++ [l])) as Hl.
    { rewrite !length_app, length_take. cbn. lia. }
    destruct (IH r) as (t' & c' & -> & Hpost); [by right|by eapply ins_pre_child|].
    do 2 eexists. split; [done|]. apply ins_post_child; try done.
    intros k [Hk|Hk%list_elem_of_singleton]%elem_of_app; [by apply Hc1|lia].
  - assert (length (take (length cs1) ks) = length cs1) as Hl by (rewrite length_take; lia).
    destruct (IH l) as (t' & c' & -> & Hpost); [by left|by eapply ins_pre_child|].
    do 2 eexists. split; [done|]. apply ins_post_child; try done.
    intros k [->|Hk]%elem_of_cons; [lia|by apply Hc2].
Qed.

(** The split of the child at position [length cs1], as [insert_nonfull] does it. *)
Lemma split_child_ok t id ks cs1 c cs2 nd :
  let it := Nd id ks (cs1 ++ c :: cs2) in
  ins_pre t it → aget (nodes t) id = Ok nd → (length ks <= 2)%nat →
  length (node_keys c) = 3%nat → ∃ p l r t1 nd2 ns,
    split_node t (root_id c) = Ok (root_id r, p, t1) ∧ (root_id r =? NO_NODE) = false ∧
    aget (nodes t1) id = Ok nd ∧ node_insert_at nd (zlen cs1) p (root_id r) = Ok nd2 ∧
    aset (nodes t1) id nd2 = Ok ns ∧ split_post t c p l r t1 ∧ (length cs1 <= length ks)%nat ∧
    int_node nd2 (ins_at (length cs1) p ks) (map root_id (cs1 ++ l :: r :: cs2)).
Proof.
  intros it Hpre Hg Hle H3. pose proof Hpre as (Hwf & Hlay & Hnd & Hids & Hs & Hslack & Hmem & _).
  inversion Hlay as [|? ? ? nd' Hg' Hint Hcs]; subst. rewrite Hg in Hg'. injection Hg' as <-.
  assert (length cs1 <= length ks)%nat as Hlk.
  { destruct Hint as (_ & _ & Hlen & _). rewrite length_map, length_app in Hlen. cbn in Hlen. lia. }
  pose proof (ins_pre_child t id ks cs1 c cs2 (take (length cs1) ks) (drop (length cs1) ks)) as Hpc.
  destruct Hpc as (_ & Hlayc & Hndc & Hidc & Hsc & Hslc & _);
    [by rewrite take_drop|rewrite length_take; lia|done|].
  pose proof (slack_full _ _ Hlayc H3).
  destruct (split_ok t c) as (p & l & r & t1 & Hsplit & Hpost); try done; [lia|].
  pose proof Hpost as (Hrl & Hrr & _ & _ & _ & _ & _ & _ & _ & _ & _ & _ & Hfr & Hsame & _).
  assert (id ∉ ids c) as Hidn.
  { unfold it in Hnd. cbn [ids] in Hnd. rewrite concat_map_split in Hnd.
    apply NoDup_cons in Hnd as [Hid _]. set_solver. }
  unfold it in Hids. cbn [ids] in Hids. apply Forall_cons in Hids as [Hidb _].
  pose proof (root_in_ids c) as Hrc.
  destruct (node_insert_ok nd ks (map root_id (cs1 ++ c :: cs2)) (length cs1) p (root_id r))
    as (nd2 & Hins & Hint2); [done..|].
  destruct Hwf as (Hlen & Hf & Hm). destruct Hsame as (_ & _ & _ & _ & _ & Hzl).
  destruct (aset_exists (nodes t1) id nd2) as [ns Hns]; [lia|].
  exists p, l, r, t1, nd2, ns. rewrite Hrr in *. split; [done|]. split.
  { apply Z.eqb_neq. unfold NO_NODE, UINT32_MAX in *. lia. }
  split; [rewrite Hfr; [done| |lia]; intros ->; done|]. split; [done|]. split; [done|].
  split; [done|]. split; [done|].
  enough (map root_id (cs1 ++ l :: r :: cs2)
          = ins_at (S (length cs1)) (free_node t) (map root_id (cs1 ++ c :: cs2))) as -> by done.
  unfold ins_at. rewrite !map_app. cbn [map]. rewrite Hrl, Hrr.
  replace (S (length cs1)) with (length (map root_id cs1) + 1)%nat by (rewrite length_map; lia).
  rewrite take_app_add, drop_app_add. cbn. by rewrite <-app_assoc.
Qed.

(** The child that the descent goes to. *)
Lemma descend_ok t id ks cs nd s :
  ins_pre t (Nd id ks cs) → int_node nd ks (map root_id cs) → Forall (lay (nodes t)) cs → ∃ cs1 c cs2 cn,
    cs = cs1 ++ c :: cs2 ∧ (length cs1 <= length ks)%nat ∧ cut_at (length cs1) s ks ∧
    child_pos (Z.to_nat (n_count nd)) 0 (keys nd) s = Ok (zlen cs1) ∧ aget (slots nd) (zlen cs1) = Ok (root_id c) ∧
    aget (nodes t) (root_id c) = Ok cn ∧ n_count cn = zlen (node_keys c) ∧ (length (node_keys c) <= 3)%nat.
Proof.
  intros Hpre Hint Hcs. pose proof Hpre as (_ & Hlay & _ & _ & Hs & _). pose proof Hint as (_ & _ & Hlen & _ & _ & _ & _ & Hsl).
  destruct (child_pos_ok nd ks _ s Hint) as (p & Hpos & Hp & Hcut); [by eapply node_keys_sorted|].
  destruct (prefix_lookup _ _ _ p Hsl) as (cid & Hget & Hcid); [lia|]. rewrite length_map in Hlen.
  destruct (lookup_lt_is_Some_2 cs p) as [c Hc]; [lia|].
  assert (cid = root_id c) as ->.
  { change (map root_id cs) with (root_id <$> cs) in Hcid. rewrite list_lookup_fmap, Hc in Hcid. by injection Hcid. }
  pose proof (length_take cs p) as Hlt. assert (zlen (take p cs) = Z.of_nat p) as Hz by (unfold zlen; lia).
  destruct (lay_root_node (nodes t) c) as (cn & Hcg & Hcn & Hk3); [exact (Forall_lookup_1 _ _ _ _ Hcs Hc)|].
  exists (take p cs), c, (drop (S p) cs), cn. rewrite Hz. replace (length (take p cs)) with p by lia.
  split; [by rewrite (take_drop_middle cs p c Hc)|]. done.
Qed.

Lemma insert_nonfull_ok fuel t it s midx :
  ins_pre t it → (length (node_keys it) <= 2)%nat → (height it <= fuel)%nat →
  0 <= midx < zlen (members t) → ∃ t' it',
    insert_nonfull fuel t (root_id it) s midx = Ok (0, t') ∧ ins_post t it s midx t' it'.
Proof.
  revert t it. induction fuel as [|fuel IH]; intros t it Hpre Hle Hh Hmidx; [destruct it; cbn in Hh; lia|].
  destruct it as [id ks vs|id ks cs]; pose proof Hpre as (_ & Hlay & _ & _ & Hs & _);
    inversion Hlay as [? ? ? nd Hg Hleaf|? ? ? nd Hg Hint Hcs]; subst;
    cbn [insert_nonfull root_id node_keys] in *; rewrite Hg; cbn [mbind exec_bind].
  { destruct Hleaf as (-> & _). cbn [negb Z.eqb]. by apply insert_into_leaf_ok. }
  pose proof Hint as (-> & _). cbn [negb Z.eqb].
  destruct (descend_ok t id ks cs nd s Hpre Hint Hcs) as (cs1 & c & cs2 & cn & -> & Hl1 & Hcut & -> & Hslot & Hcg & Hcn & Hk3).
  cbn [mbind exec_bind]. rewrite Hslot. cbn [mbind exec_bind]. rewrite Hcg. cbn [mbind exec_bind].
  rewrite Hcn, Z.geb_leb. pose proof (height_child id ks cs1 c cs2) as Hhc.
  destruct (BTREE_MAX_KEYS <=? _) eqn:Efull; zb; unfold BTREE_MAX_KEYS, zlen in Efull.
  - destruct (split_child_ok t id ks cs1 c cs2 nd Hpre Hg Hle) as
      (p & l & r & t1 & nd2 & ns & -> & Hno & Hg1 & Hins & Hns & Hpost & Hlk & Hint2); [lia|].
    cbn [mbind exec_bind]. rewrite Hno, Hg1. cbn [mbind exec_bind]. rewrite Hins. cbn [mbind exec_bind].
    rewrite Hns. cbn [mbind exec_bind].
    destruct (ins_pre_split t id ks cs1 c cs2 p l r t1 nd2 ns Hlk Hpre Hpost Hns Hint2)
      as (Hpre2 & Hsame2 & Hf2 & Hfr2).
    destruct (split_contents t id ks cs1 c cs2 p l r t1 Hlk Hs Hpost) as (Hino & Hperm & _ & Hsub).
    destruct Hpost as (Hrl & _ & _ & _ & Hkl & Hkr & _ & _ & _ & _ & Hhl & Hhr & _).
    destruct (insert_half (set_nodes t1 ns) id ks cs1 cs2 p l r s midx
      (λ t i, insert_nonfull fuel t i s midx)) as (t' & it' & Hrun & Hpost'); try done.
    + intros x Hx Hprex. destruct Hsame2 as (Hm2 & _).
      destruct Hx as [->| ->]; apply IH; try done; try lia; by rewrite Hm2.
    + exists t', it'. rewrite <-Hrl. split; [exact Hrun|]. pose proof Hpre as (_ & _ & _ & Hids & _).
      eapply (ins_post_after_split t (Nd id ks (cs1 ++ c :: cs2)) (set_nodes t1 ns)
        (Nd id (ins_at (length cs1) p ks) (cs1 ++ l :: r :: cs2))); done.
  - destruct (IH t c) as (t' & c' & Hrun & Hpost); [|lia|lia|done|].
    { apply (ins_pre_child t id ks cs1 c cs2 (take (length cs1) ks) (drop (length cs1) ks));
        [by rewrite take_drop|rewrite length_take; lia|done]. }
    exists t', (Nd id ks (cs1 ++ c' :: cs2)). split; [done|].
    destruct Hcut as [Hcut1 Hcut2]. rewrite <-(take_drop (length cs1) ks) in Hpre |- *.
    apply ins_post_child; try done. rewrite length_take. lia.
Qed.
