(* ===== verification/BTreeSpec.v ===== *)
(** The sorted set of src/btree.c against its specification: a list of
    (member, score) pairs without duplicates, with at most [max_members]
    entries, that ZRANGE shows in some order by score. *)

From stdpp Require Import sorting sets.
From S2P Require Import Prelude Arena BTree BTreeShape BTreeInsert.

(** The array of nodes holds exactly the tree [it]. *)
Definition bt_tree (t : btree) (it : itree) : Prop :=
  arr_wf t ∧ lay (nodes t) it ∧ ids it ≡ₚ seqZ 0 (free_node t) ∧ root_id it = root t ∧
  sorted (seqk it).

(** The tree holds the entries [es], (score, member index) pairs. *)
Definition bt_shape (t : btree) (es : list (Z * Z)) : Prop :=
  (arr_wf t ∧ nodes t = replicate (Z.to_nat (max_nodes t)) zero_node ∧
   root t = NO_NODE ∧ free_node t = 0 ∧ es = []) ∨
  (∃ it, bt_tree t it ∧ inorder it ≡ₚ es).

Definition same_store (t t' : btree) : Prop :=
  members t' = members t ∧ member_count t' = member_count t ∧
  max_nodes t' = max_nodes t ∧ max_members t' = max_members t.

Definition entries_valid (t : btree) (es : list (Z * Z)) : Prop :=
  Forall (λ e : Z * Z, 0 <= e.2 < zlen (members t)) es.

Lemma bt_tree_pre t it :
  bt_tree t it → Forall mem_ok (members t) → entries_valid t (inorder it) →
  2 * zlen (inorder it) - 1 <= max_nodes t → ins_pre t it.
Proof.
  intros (Hwf & Hlay & Hids & Hrt & Hs) Hm Hv Hmax. split; [done|]. split; [done|].
  rewrite Hids. split; [apply NoDup_seqZ|].
  split; [apply Forall_forall; intros j Hj%elem_of_seqZ; lia|]. split; [done|]. split; [|done].
  unfold slack. assert (zlen (ids it) = free_node t) as ->; [|lia].
  unfold zlen. rewrite Hids, length_seqZ. destruct Hwf as (_ & ? & _). lia.
Qed.

Lemma ins_post_tree t it s midx t' it' :
  arr_wf t → ids it ≡ₚ seqZ 0 (free_node t) → root_id it = root t → free_node t' <= max_nodes t →
  ins_post t it s midx t' it' → bt_tree t' it' ∧ same_store t t'.
Proof.
  intros (Hl & Hf & Hm) Hids Hrt Hmax (Hsame & Hle & Hlay & Hrt' & Hp & _ & _ & Hs & _).
  destruct Hsame as (? & Hroot & ? & Hmn & ? & Hzl).
  split; [|done]. unfold bt_tree, arr_wf. split; [lia|]. split; [done|].
  split; [|split; [congruence|done]]. rewrite Hp, Hids.
  replace (free_node t') with (free_node t + (free_node t' - free_node t)) at 2 by lia.
  rewrite seqZ_app by lia. done.
Qed.

(** The number of nodes in use never exceeds the bound that the entries give. *)
Lemma ins_post_free t it s midx t' it' :
  ids it ≡ₚ seqZ 0 (free_node t) → 0 <= free_node t → ins_post t it s midx t' it' →
  free_node t' <= 2 * (zlen (inorder it) + 1) - 1.
Proof.
  intros Hids Hf0 (_ & Hle & Hlay & _ & Hp & _ & Hino & _).
  destruct (size_bound _ _ Hlay) as [_ Hsz]. rewrite Hp, Hino, Hids, length_app, !length_seqZ in Hsz.
  cbn [length] in Hsz. unfold zlen. lia.
Qed.

Lemma depth_fuel_ok t it :
  bt_tree t it → (height it <= depth_fuel t)%nat.
Proof.
  intros ((_ & Hf & _) & _ & Hids & _). pose proof (height_le_ids it) as Hh.
  rewrite Hids, length_seqZ in Hh. unfold depth_fuel. lia.
Qed.

Lemma insert_entry_empty t s midx :
  arr_wf t → nodes t = replicate (Z.to_nat (max_nodes t)) zero_node → root t = NO_NODE →
  free_node t = 0 → 1 <= max_nodes t → ∃ t', insert_entry t s midx = Ok (0, t') ∧
    bt_tree t' (Lf 0 [s] [midx]) ∧ same_store t t'.
Proof.
  intros Hwf Hns Hroot Hfree Hmax. unfold insert_entry. rewrite Hroot. cbn [Z.eqb].
  change (NO_NODE =? NO_NODE) with true. cbv iota.
  destruct (alloc_node_ok t Hwf) as [-> Hne]; [lia|]. rewrite Hfree in *. cbv iota beta. rewrite Hne.
  pose proof Hwf as (Hlen & Hf & Hm).
  assert (aget (nodes t) 0 = Ok zero_node) as Hg.
  { apply aget_lookup. split; [lia|]. rewrite Hns. apply lookup_replicate. split; [done|lia]. }
  cbn [set_free nodes]. rewrite Hg. cbn [mbind exec_bind].
  change (aset (keys zero_node) 0 s) with (Ok [s; 0; 0]). cbn [mbind exec_bind].
  change (aset (slots zero_node) 0 midx) with (Ok [midx; 0; 0; 0]). cbn [mbind exec_bind].
  destruct (aset_exists (nodes t) 0 (BNode [s; 0; 0] [midx; 0; 0; 0] 1 1)) as [ns Hns']; [lia|].
  rewrite Hns'. cbn [mbind exec_bind]. eexists. split; [done|]. split; [|done].
  pose proof (aset_len _ _ _ _ Hns'). unfold bt_tree, arr_wf; cbn.
  split; [lia|]. split; [|split; [done|split; [done|repeat constructor]]].
  econstructor; [by eapply aset_get_eq|]. repeat split; cbn; lia.
Qed.

Lemma seqZ_two m : seqZ m 2 = [m; m + 1].
Proof. rewrite !seqZ_cons by lia. rewrite seqZ_nil by lia. by rewrite Z.add_1_r. Qed.

(** The new root above the two halves of a full root. *)
(** The tree with a new root above the two halves of the old one. *)
Lemma new_root_tree t it p l r t2 ns :
  let it3 := Nd (free_node t) [p] [l; r] in
  let t3 := set_root (set_nodes t2 ns) (free_node t) in
  bt_tree t it → ins_pre t it → length (node_keys it) = 3%nat → split_post (set_free t (free_node t + 1)) it p l r t2 →
  aset (nodes t2) (free_node t) (BNode [p; 0; 0] [root t2; root_id r; 0; 0] 0 1) = Ok ns →
  ins_pre t3 it3 ∧ ids it3 ≡ₚ seqZ 0 (free_node t3) ∧ inorder it3 = inorder it.
Proof.
  intros it3 t3 (Hwf & Hlay & Hperm & Hrt & Hs) (_ & _ & Hnd & Hids & _ & Hslack & Hmem & Hin) H3
    (Hrl & Hrr & Hll & Hlr & _ & _ & Hp & Hino & Hsp & _ & _ & _ & _ & (Hms & Hroot & _ & Hmn & _ & Hzl) & Hf2) Hns.
  pose proof Hwf as (Hlen & Hf & Hm). pose proof (slack_full _ _ Hlay H3) as Hsl. pose proof (aset_len _ _ _ _ Hns) as Hnl.
  cbn [set_free free_node members root max_nodes nodes] in *.
  assert (inorder it3 = inorder it) as Hino3 by (cbn; by rewrite app_nil_r).
  assert (ids it3 ≡ₚ ids it ++ [free_node t; free_node t + 1]) as Hids3.
  { unfold it3. cbn [ids map concat]. rewrite app_nil_r, Hp. solve_Permutation. }
  assert (∀ j, j ∈ ids l ++ ids r → aget ns j = aget (nodes t2) j) as Hfrn.
  { intros j Hj. apply (aset_get_ne _ _ _ _ _ Hns). rewrite Hp in Hj. rewrite Forall_forall in Hids.
    apply elem_of_cons in Hj as [->|Hj]; [lia|]. specialize (Hids _ Hj). cbv beta in Hids. lia. }
  assert (ids it3 ≡ₚ seqZ 0 (free_node t + 1 + 1)) as Hseq.
  { rewrite Hids3, Hperm. replace (free_node t + 1 + 1) with (free_node t + 2) by lia.
    rewrite (seqZ_app 0 (free_node t) 2), Z.add_0_l, seqZ_two by lia. done. }
  split; [|split; [unfold t3; cbn; by rewrite Hf2|done]].
  unfold ins_pre, arr_wf, t3. cbn [set_root set_nodes nodes free_node max_nodes members]. rewrite Hf2, Hmn, Hms, Hino3, Hseq.
  assert (slack it3 = slack it - 2) as ->.
  { unfold slack. rewrite Hino3. unfold zlen. rewrite Hids3, length_app. cbn. lia. }
  split; [lia|]. split; [|split; [apply NoDup_seqZ|split; [|split; [|split; [lia|done]]]]].
  - econstructor; [by eapply aset_get_eq| |repeat constructor].
    + repeat split; cbn; try lia. by rewrite Hroot, <-Hrt, Hrl.
    + apply (lay_frame (nodes t2)); [done|]. intros j Hj. apply Hfrn. set_solver.
    + apply (lay_frame (nodes t2)); [done|]. intros j Hj. apply Hfrn. set_solver.
  - apply Forall_forall. intros j ?%elem_of_seqZ. lia.
  - unfold it3. cbn. by rewrite app_nil_r.
Qed.

Lemma root_split t it :
  bt_tree t it → ins_pre t it → length (node_keys it) = 3%nat → ∃ p l r t2 ns,
    let t1 := set_free t (free_node t + 1) in
    let it3 := Nd (free_node t) [p] [l; r] in
    let t3 := set_root (set_nodes t2 ns) (free_node t) in
    alloc_node t = (free_node t, t1) ∧ (free_node t =? NO_NODE) = false ∧
    split_node t1 (root t) = Ok (root_id r, p, t2) ∧ (root_id r =? NO_NODE) = false ∧
    aset (nodes t2) (free_node t) (BNode [p; 0; 0] [root t2; root_id r; 0; 0] 0 1) = Ok ns ∧
    ins_pre t3 it3 ∧ ids it3 ≡ₚ seqZ 0 (free_node t3) ∧ inorder it3 = inorder it ∧
    root_id it3 = root t3 ∧ same_store t t3 ∧ (length (node_keys r) <= 2)%nat.
Proof.
  intros Ht Hpre H3. pose proof Ht as (Hwf & Hlay & _ & Hrt & Hs). pose proof Hwf as (Hlen & Hf & Hm).
  pose proof Hpre as (_ & _ & Hnd & Hids & _ & Hslack & _). pose proof (slack_full _ _ Hlay H3) as Hsl.
  destruct (alloc_node_ok t Hwf) as [Ha Hne]; [lia|]. set (t1 := set_free t (free_node t + 1)) in *.
  destruct (split_ok t1 it) as (p & l & r & t2 & Hsplit & Hpost); try done.
  { unfold arr_wf; cbn. lia. } { cbn. lia. }
  { eapply Forall_impl; [exact Hids|]. intros j Hj. cbn in *. lia. }
  pose proof Hpost as (_ & Hrr & _ & _ & _ & Hkr & _ & _ & _ & _ & _ & _ & _ & (Hms & Hroot & Hmc & Hmn & Hmm & Hzl) & _).
  cbn [t1 set_free free_node members root member_count max_nodes max_members nodes] in *.
  destruct (aset_exists (nodes t2) (free_node t) (BNode [p; 0; 0] [root t2; root_id r; 0; 0] 0 1)) as [ns Hns]; [lia|].
  destruct (new_root_tree t it p l r t2 ns Ht Hpre H3 Hpost Hns) as (H1 & H2 & H4).
  exists p, l, r, t2, ns. cbv zeta. split; [done|]. split; [done|].
  split; [by rewrite <-Hrt, Hrr|]. split; [apply Z.eqb_neq; unfold NO_NODE, UINT32_MAX in *; lia|]. done.
Qed.

(** Inserting under a root with one key, in the half that is meant for [s]. *)
Lemma insert_below_root t id p l r s midx :
  let it := Nd id [p] [l; r] in
  bt_tree t it → ins_pre t it → (length (node_keys r) <= 2)%nat → 0 <= midx < zlen (members t) → ∃ t' it',
    (if s >=? p then insert_nonfull (depth_fuel t) t (root_id r) s midx
     else insert_nonfull (depth_fuel t) t (root t) s midx) = Ok (0, t') ∧ ins_post t it s midx t' it'.
Proof.
  intros it Ht Hpre Hkr Hmidx. pose proof (depth_fuel_ok t it Ht) as Hd. pose proof Ht as (_ & _ & _ & Hrt & _).
  rewrite Z.geb_leb. destruct (p <=? s) eqn:Ep; zb.
  - pose proof (ins_pre_child t id [p] [l] r [] [p] [] eq_refl eq_refl Hpre) as Hprer.
    destruct (insert_nonfull_ok (depth_fuel t) t r s midx) as (t' & r' & -> & Hpost); try done.
    { pose proof (height_child id [p] [l] r []). cbn [app] in *. unfold it in Hd. lia. }
    exists t', (Nd id [p] [l; r']). split; [done|].
    apply (ins_post_child t id [p] [] [l] r [] s midx t' r'); try done.
    + intros k Hk%list_elem_of_singleton. lia.
    + intros k Hk. by apply elem_of_nil in Hk.
  - rewrite <-Hrt. apply insert_nonfull_ok; try done. cbn. lia.
Qed.

(** What an insertion leaves, where there is room for one more entry. *)
Lemma inserted_tree t it s midx t' it' :
  bt_tree t it → 2 * (zlen (inorder it) + 1) - 1 <= max_nodes t → ins_post t it s midx t' it' →
  bt_tree t' it' ∧ same_store t t' ∧ inorder it' ≡ₚ (s, midx) :: inorder it.
Proof.
  intros Ht Hmax Hpost. pose proof Ht as (Hwf & _ & Hperm & Hrt & _). pose proof Hwf as (_ & Hf & _).
  pose proof (ins_post_free _ _ _ _ _ _ Hperm ltac:(lia) Hpost).
  destruct (ins_post_tree t it s midx t' it') as [? ?]; try done; [lia|].
  split; [done|]. split; [done|]. by destruct Hpost as (_ & _ & _ & _ & _ & _ & ? & _).
Qed.

Lemma insert_entry_tree t it s midx :
  bt_tree t it → Forall mem_ok (members t) → entries_valid t (inorder it) →
  2 * (zlen (inorder it) + 1) - 1 <= max_nodes t → 0 <= midx < zlen (members t) →
  ∃ t' it', insert_entry t s midx = Ok (0, t') ∧ bt_tree t' it' ∧ same_store t t' ∧
    inorder it' ≡ₚ (s, midx) :: inorder it.
Proof.
  intros Ht Hm Hv Hmax Hmidx.
  assert (ins_pre t it) as Hpre by (apply bt_tree_pre; try done; lia).
  pose proof Ht as (Hwf & Hlay & Hperm & Hrt & _). pose proof Hwf as (_ & Hf & HM).
  pose proof (proj1 (Forall_forall _ _) (proj1 (proj2 (proj2 (proj2 Hpre)))) _ (root_in_ids it)) as Hr.
  cbv beta in Hr. unfold insert_entry.
  destruct (root t =? NO_NODE) eqn:E; zb; [unfold NO_NODE in *; lia|].
  destruct (lay_root_node _ _ Hlay) as (rn & Hg & Hc & Hk3). rewrite <-Hrt, Hg. cbn [mbind exec_bind].
  rewrite Hc. destruct (_ <? BTREE_MAX_KEYS) eqn:Ek; zb; unfold BTREE_MAX_KEYS, zlen in Ek.
  - destruct (insert_nonfull_ok (depth_fuel t) t it s midx) as (t' & it' & -> & Hpost); try done;
      [lia|by apply depth_fuel_ok|].
    exists t', it'. split; [done|]. by apply inserted_tree.
  - destruct (root_split t it Ht Hpre) as (p & l & r & t2 & ns & H); [lia|]. cbv zeta in H.
    destruct H as (-> & Hno & Hsplit & Hno2 & Hns & Hpre3 & Hperm3 & Hino3 & Hrt3 & Hst3 & Hkr).
    change (root (set_free t (free_node t + 1))) with (root t). rewrite Hsplit.
    cbn [mbind exec_bind]. rewrite Hno2, Hno. cbn [orb]. rewrite Hns. cbn [mbind exec_bind].
    set (t3 := set_root _ _) in *. set (it3 := Nd _ _ _) in *.
    pose proof Hpre3 as (Hwf3 & Hlay3 & _ & _ & Hs3 & _). assert (bt_tree t3 it3) as Ht3 by done.
    pose proof Hst3 as (Hms & _). destruct (insert_below_root t3 (free_node t) p l r s midx) as (t' & it' & -> & Hpost);
      [done|done|done|by rewrite Hms|]. fold it3 in Hpost.
    destruct (inserted_tree t3 it3 s midx t' it' Ht3) as (Ht' & Hst & Hi); [|done|].
    { rewrite Hino3. unfold same_store in Hst3. destruct Hst3 as (_ & _ & Hmn & _). lia. }
    exists t', it'. split; [done|]. split; [done|]. rewrite Hino3 in Hi. split; [|done].
    unfold same_store in *. intuition congruence.
Qed.

Lemma insert_entry_ok t es s midx :
  bt_shape t es → Forall mem_ok (members t) → entries_valid t es →
  2 * (zlen es + 1) - 1 <= max_nodes t → 0 <= midx < zlen (members t) →
  ∃ t', insert_entry t s midx = Ok (0, t') ∧ bt_shape t' ((s, midx) :: es) ∧ same_store t t'.
Proof.
  intros [(Hwf & Hns & Hrt & Hf & ->)|(it & Ht & Hino)] Hm Hv Hmax Hmidx.
  - destruct (insert_entry_empty t s midx) as (t' & -> & Ht' & Hst); try done.
    exists t'. split; [done|]. split; [|done]. right. by exists (Lf 0 [s] [midx]).
  - destruct (insert_entry_tree t it s midx) as (t' & it' & -> & Ht' & Hst & Hi); try done.
    { unfold entries_valid. by rewrite Hino. } { unfold zlen in *. by rewrite Hino. }
    exists t'. split; [done|]. split; [|done]. right. exists it'. split; [done|]. by rewrite Hi, Hino.
Qed.
