(* ===== verification/BTreeQuery.v ===== *)
(** Searching and listing the B-tree of src/btree.c: [find_member],
    [count_entries] and [collect_inorder] on a tree that the array holds. *)

From stdpp Require Import sorting sets.
From S2P Require Import Prelude Arena BTree BTreeShape BTreeInsert BTreeSpec.

(** * Members *)

Definition member_name (m : btree_member) : list Z := slice (m_data m) 0 (m_len m).

Lemma memcmp_eq (a b : list Z) : length a = length b → memcmp a b = 0 ↔ a = b.
Proof.
  revert b. induction a as [|x a IH]; intros [|y b] Hl; try done. injection Hl as Hl. cbn.
  destruct (x <? y) eqn:E1; zb; [split; [done|intros [= -> ->]; lia]|].
  destruct (y <? x) eqn:E2; zb; [split; [done|intros [= -> ->]; lia]|].
  assert (x = y) as -> by lia. rewrite IH by done. split; [by intros ->|by intros [= ->]].
Qed.

Lemma member_equal_ok m member :
  mem_ok m → ∃ b, member_equal m member = Ok b ∧ (b = true ↔ member_name m = member).
Proof.
  intros [Hd Hl]. unfold member_equal, ZEDIS_BTREE_MAX_MEMBER in *.
  assert (zlen (member_name m) = m_len m) as Hn by (apply zlen_slice; lia).
  destruct (m_len m =? zlen member) eqn:E; zb; cbn [negb].
  - rewrite read_n_ok by (pose proof (zlen_nonneg member); lia). cbn [mbind exec_bind].
    eexists. split; [done|]. rewrite <-E. fold (member_name m). rewrite Z.eqb_eq. apply memcmp_eq.
    unfold zlen in *. lia.
  - exists false. split; [done|]. split; [done|]. intros <-. lia.
Qed.

(** The name of the member with index [v]. *)
Definition name_of (t : btree) (v : Z) : list Z :=
  match members t !! Z.to_nat v with Some m => member_name m | None => [] end.

Definition valid_idx (t : btree) (v : Z) : Prop := 0 <= v < zlen (members t).

Lemma name_of_get t v :
  Forall mem_ok (members t) → valid_idx t v → ∃ m,
    aget (members t) v = Ok m ∧ mem_ok m ∧ name_of t v = member_name m.
Proof.
  intros Hm Hv. destruct (aget_ok (members t) v Hv) as (m & Hg & Hl). exists m.
  split; [done|]. split; [by eapply Forall_lookup_1|]. unfold name_of. by rewrite Hl.
Qed.

(** * Reading the contents of one node *)

Lemma leaf_values nd ks vs :
  leaf_node nd ks vs → n_count nd = zlen vs ∧ take (length vs) (slots nd) = vs.
Proof. intros (_ & Hc & Hl & _ & _ & _ & _ & Hv). unfold zlen in *. rewrite Hl. split; [lia|done]. Qed.

Lemma node_children nd ks cids :
  int_node nd ks cids → is_leaf nd = 0 ∧ read_n (slots nd) 0 (n_count nd + 1) = Ok cids.
Proof.
  intros (Hl & Hc & Hlen & Hk & _ & Hs4 & _ & Hv). split; [done|].
  rewrite read_n_ok by (unfold zlen in *; lia). rewrite slice_take, Hc.
  unfold zlen. rewrite Z.add_1_r, <-Nat2Z.inj_succ, Nat2Z.id. by rewrite Hv.
Qed.

(** A loop over the values of a leaf, as a recursion over the list of values:
    the array read at position [i] is the [i]-th value. *)
Lemma leaf_value_at nd (vs vs1 vs2 : list Z) v :
  take (length vs) (slots nd) = vs → vs = vs1 ++ v :: vs2 → aget (slots nd) (zlen vs1) = Ok v.
Proof.
  intros Ht ->. unfold zlen. rewrite length_app in Ht. cbn in Ht.
  destruct (prefix_lookup _ _ _ (length vs1) Ht) as (k & -> & Hk); [rewrite length_app; cbn; lia|].
  rewrite list_lookup_middle in Hk by done. by injection Hk as <-.
Qed.

(** * find_member *)

(** The result of searching the member indices [vs] for [member]. *)
Definition found (t : btree) (member : list Z) (vs : list Z) (r : option Z) : Prop :=
  match r with
  | Some v => v ∈ vs ∧ name_of t v = member
  | None => ∀ v, v ∈ vs → name_of t v ≠ member
  end.

Lemma find_in_leaf_ok t nd (vs : list Z) member :
  Forall mem_ok (members t) → Forall (valid_idx t) vs → take (length vs) (slots nd) = vs →
  ∃ r, find_in_leaf (length vs) 0 t nd member = Ok r ∧ found t member vs r.
Proof.
  intros Hm Hv Ht.
  assert (∀ vs2 vs1, vs = vs1 ++ vs2 → ∃ r,
    find_in_leaf (length vs2) (zlen vs1) t nd member = Ok r ∧ found t member vs2 r) as Hloop;
    [|by apply (Hloop vs [])].
  induction vs2 as [|v vs2 IH]; intros vs1 Heq; cbn [length find_in_leaf].
  { exists None. split; [done|]. intros v Hin. by apply elem_of_nil in Hin. }
  rewrite (leaf_value_at nd vs vs1 vs2 v) by done. cbn [mbind exec_bind].
  assert (valid_idx t v) as Hvv by (rewrite Forall_forall in Hv; apply Hv; subst vs; set_solver).
  destruct (name_of_get t v Hm Hvv) as (m & -> & Hmo & Hname). cbn [mbind exec_bind].
  destruct (member_equal_ok m member Hmo) as (b & -> & Hb). cbn [mbind exec_bind].
  destruct b.
  - exists (Some v). split; [done|]. split; [by left|]. rewrite Hname. by apply Hb.
  - destruct (IH (vs1 ++ [v])) as (r & Hr & Hf); [by rewrite <-app_assoc|].
    rewrite zlen_app in Hr. exists r. split; [exact Hr|]. destruct r as [w|]; cbn in *.
    + destruct Hf. split; [by right|done].
    + intros w [->|Hw]%elem_of_cons; [|by apply Hf]. rewrite Hname. intros Heq'. by apply Hb in Heq'.
Qed.

Lemma found_app t member vs ws r :
  (∀ v, v ∈ vs → name_of t v ≠ member) → found t member ws r → found t member (vs ++ ws) r.
Proof. destruct r; cbn; set_solver. Qed.

Definition values (it : itree) : list Z := (inorder it).*2.

Lemma values_leaf id ks vs : length vs = length ks → values (Lf id ks vs) = vs.
Proof. intros. unfold values. cbn [inorder]. apply snd_zip. lia. Qed.

Lemma values_node id ks cs : values (Nd id ks cs) = concat (map values cs).
Proof. unfold values. cbn [inorder]. induction cs as [|c cs IH]; [done|]. cbn. by rewrite fmap_app, IH. Qed.

Lemma find_member_ok t it fuel member :
  lay (nodes t) it → Forall mem_ok (members t) → Forall (valid_idx t) (values it) →
  (height it <= fuel)%nat → ∃ r,
    find_member fuel t (root_id it) member = Ok r ∧ found t member (values it) r.
Proof.
  intros Hlay Hm. revert fuel. induction it as [id ks vs|id ks cs IH] using itree_ind';
    intros [|fuel] Hv Hh; try (cbn in Hh; lia);
    inversion Hlay as [? ? ? nd Hg Hleaf|? ? ? nd Hg Hint Hcs]; subst;
    cbn [find_member root_id]; rewrite Hg; cbn [mbind exec_bind].
  - destruct (leaf_values _ _ _ Hleaf) as [Hc Ht]. pose proof Hleaf as (-> & _ & Hl & _). cbn [negb Z.eqb].
    rewrite values_leaf in * by done. rewrite Hc. unfold zlen. rewrite Nat2Z.id.
    by apply find_in_leaf_ok.
  - destruct (node_children _ _ _ Hint) as [-> ->]. cbn [negb Z.eqb mbind exec_bind].
    rewrite values_node in *. clear Hg Hint Hlay. cbn [height] in Hh. apply le_S_n in Hh.
    induction cs as [|c cs IHcs]; cbn [map first_child concat] in *.
    { exists None. split; [done|]. intros v Hin. by apply elem_of_nil in Hin. }
    apply Forall_cons in IH as [IHc IH]. apply Forall_cons in Hcs as [Hc Hcs].
    apply Forall_app in Hv as [Hvc Hv]. cbn in Hh.
    destruct (IHc Hc fuel Hvc) as (r & -> & Hf); [lia|]. cbn [mbind exec_bind].
    destruct r as [v|].
    + exists (Some v). split; [done|]. destruct Hf. split; [set_solver|done].
    + destruct (IHcs IH Hv ltac:(lia) Hcs) as (r & -> & Hf'). exists r. split; [done|].
      by apply found_app.
Qed.

(** * count_entries *)

Lemma count_entries_ok t it fuel :
  lay (nodes t) it → (height it <= fuel)%nat → zlen (inorder it) <= INT32_MAX →
  count_entries fuel t (root_id it) = Ok (zlen (inorder it)).
Proof.
  intros Hlay. revert fuel. induction it as [id ks vs|id ks cs IH] using itree_ind';
    intros [|fuel] Hh Hmax; try (cbn in Hh; lia);
    inversion Hlay as [? ? ? nd Hg Hleaf|? ? ? nd Hg Hint Hcs]; subst;
    cbn [count_entries root_id]; rewrite Hg; cbn [mbind exec_bind].
  - pose proof Hleaf as (-> & -> & Hl & _). cbn [negb Z.eqb inorder]. do 2 f_equal.
    unfold zlen. rewrite length_zip_with. lia.
  - destruct (node_children _ _ _ Hint) as [-> ->]. cbn [negb Z.eqb mbind exec_bind].
    cbn [height] in Hh. apply le_S_n in Hh. cbn [inorder] in *. clear Hg Hint Hlay.
    assert (∀ total, 0 <= total → total + zlen (concat (map inorder cs)) <= INT32_MAX →
      sum_children (count_entries fuel t) total (map root_id cs)
      = Ok (total + zlen (concat (map inorder cs)))) as Hsum; [|by apply Hsum].
    clear Hmax. induction cs as [|c cs IHcs]; intros total Ht Hmax; cbn [map sum_children concat] in *.
    { f_equal. unfold zlen. cbn. lia. }
    apply Forall_cons in IH as [IHc IH]. apply Forall_cons in Hcs as [Hc Hcs].
    rewrite zlen_app in *. pose proof (zlen_nonneg (inorder c)).
    pose proof (zlen_nonneg (concat (map inorder cs))). cbn in Hh.
    rewrite IHc by (done || lia). cbn [mbind exec_bind].
    rewrite chk_i32_ok by (unfold INT32_MIN, INT32_MAX in *; lia). cbn [mbind exec_bind].
    rewrite IHcs; [f_equal; lia|done|lia|done|lia|lia].
Qed.

(** * collect_inorder *)

Definition emit (t : btree) (start stop cap : Z) (st : Z * list Z) (v : Z) : Z * list Z :=
  (st.1 + 1,
   if (st.1 >=? start) && (st.1 <=? stop)
   then append_if_fits cap st.2 (fmt_bulk (name_of t v)) else st.2).

Lemma fmt_member_ok m : mem_ok m → fmt_member m = Ok (fmt_bulk (member_name m)).
Proof.
  intros [Hd Hl]. unfold fmt_member, ZEDIS_BTREE_MAX_MEMBER in *. rewrite read_n_ok by lia.
  cbn [mbind exec_bind]. unfold fmt_bulk, member_name. by rewrite zlen_slice by lia.
Qed.

Lemma emit_idx t start stop cap st (vs : list Z) :
  (foldl (emit t start stop cap) st vs).1 = st.1 + zlen vs.
Proof.
  revert st. induction vs as [|v vs IH]; intros st; [unfold zlen; cbn; lia|].
  cbn [foldl]. rewrite IH, zlen_cons. cbn. lia.
Qed.

Lemma collect_leaf_ok t nd (vs : list Z) start stop cap st :
  Forall mem_ok (members t) → Forall (valid_idx t) vs → take (length vs) (slots nd) = vs →
  0 <= st.1 → st.1 + zlen vs <= INT32_MAX →
  collect_leaf (length vs) 0 t nd start stop cap st = Ok (foldl (emit t start stop cap) st vs).
Proof.
  intros Hm Hv Ht.
  assert (∀ vs2 vs1 st, vs = vs1 ++ vs2 → 0 <= st.1 → st.1 + zlen vs2 <= INT32_MAX →
    collect_leaf (length vs2) (zlen vs1) t nd start stop cap st
    = Ok (foldl (emit t start stop cap) st vs2)) as Hloop;
    [|by apply (Hloop vs [])].
  induction vs2 as [|v vs2 IH]; intros vs1 [idx reply] Heq Hi Hmax; cbn [length collect_leaf foldl]; [done|].
  rewrite zlen_cons in Hmax. pose proof (zlen_nonneg vs2). cbn [fst] in *.
  assert (valid_idx t v) as Hvv by (rewrite Forall_forall in Hv; apply Hv; subst vs; set_solver).
  destruct (name_of_get t v Hm Hvv) as (m & Hg & Hmo & Hname).
  rewrite (leaf_value_at nd vs vs1 vs2 v) by done. cbn [mbind exec_bind]. rewrite Hg.
  cbn [mbind exec_bind]. rewrite fmt_member_ok, <-Hname by done. cbn [mbind exec_bind].
  unfold emit at 2; cbn [fst snd].
  destruct ((idx >=? start) && (idx <=? stop)); cbn [mbind exec_bind];
    rewrite chk_i64_ok by (unfold INT64_MIN, INT64_MAX, INT32_MAX in *; lia); cbn [mbind exec_bind];
    (replace (zlen vs1 + 1) with (zlen (vs1 ++ [v])) by (rewrite zlen_app; done));
    (apply IH; [by rewrite <-app_assoc|cbn; lia|cbn [fst]; lia]).
Qed.

Lemma collect_inorder_ok t it fuel start stop cap st :
  lay (nodes t) it → Forall mem_ok (members t) → Forall (valid_idx t) (values it) →
  (height it <= fuel)%nat → 0 <= st.1 → st.1 + zlen (values it) <= INT32_MAX →
  collect_inorder fuel t (root_id it) start stop cap st
  = Ok (foldl (emit t start stop cap) st (values it)).
Proof.
  intros Hlay Hm. revert fuel st. induction it as [id ks vs|id ks cs IH] using itree_ind';
    intros [|fuel] st Hv Hh Hi Hmax; try (cbn in Hh; lia);
    inversion Hlay as [? ? ? nd Hg Hleaf|? ? ? nd Hg Hint Hcs]; subst;
    cbn [collect_inorder root_id]; rewrite Hg; cbn [mbind exec_bind].
  - destruct (leaf_values _ _ _ Hleaf) as [Hc Ht]. pose proof Hleaf as (-> & _ & Hl & _). cbn [negb Z.eqb].
    rewrite values_leaf in * by done. rewrite Hc. unfold zlen at 1. rewrite Nat2Z.id.
    by apply collect_leaf_ok.
  - destruct (node_children _ _ _ Hint) as [-> ->]. cbn [negb Z.eqb mbind exec_bind].
    rewrite values_node in *. clear Hg Hint Hlay. cbn [height] in Hh. apply le_S_n in Hh.
    revert st Hi Hmax. induction cs as [|c cs IHcs]; intros st Hi Hmax;
      cbn [map fold_children concat foldl] in *; [done|].
    apply Forall_cons in IH as [IHc IH]. apply Forall_cons in Hcs as [Hc Hcs].
    apply Forall_app in Hv as [Hvc Hv]. cbn in Hh. rewrite zlen_app in Hmax.
    pose proof (zlen_nonneg (values c)). pose proof (zlen_nonneg (concat (map values cs))).
    rewrite IHc by (done || lia). cbn [mbind exec_bind]. rewrite foldl_app.
    apply IHcs; try done; [lia|rewrite emit_idx; lia|rewrite emit_idx; lia].
Qed.

(** * The scores in order *)

Lemma sorted_sublist l k : sublist l k → sorted k → sorted l.
Proof.
  unfold sorted. induction 1 as [|x l k Hsub IH|x l k Hsub IH]; intros Hs; [constructor| |];
    inversion Hs as [|? ? Hk Hall]; subst.
  - constructor; [by apply IH|]. rewrite Forall_forall in Hall |- *. intros y Hy. apply Hall.
    apply (elem_of_submseteq l); [done|]. by apply sublist_submseteq.
  - by apply IH.
Qed.

Definition scores (it : itree) : list Z := (inorder it).*1.

Lemma scores_sublist ns it : lay ns it → sublist (scores it) (seqk it).
Proof.
  unfold scores. induction it as [id ks vs|id ks cs IH] using itree_ind'; intros Hlay;
    inversion Hlay as [? ? ? nd Hg Hleaf|? ? ? nd Hg Hint Hcs]; subst; cbn [inorder seqk].
  - destruct Hleaf as (_ & _ & Hl & _). rewrite fst_zip by lia. done.
  - destruct Hint as (_ & _ & Hlen & _). rewrite length_map in Hlen. clear Hlay Hg.
    destruct cs as [|c cs]; [done|]. cbn [map concat weave]. rewrite fmap_app.
    apply Forall_cons in IH as [IHc IH]. apply Forall_cons in Hcs as [Hc Hcs].
    apply sublist_app; [by apply IHc|]. injection Hlen as Hlen. revert ks Hlen.
    induction cs as [|d cs IHcs]; intros [|k ks] Hlen; try done; cbn [map concat].
    rewrite wpost_cons, fmap_app. apply Forall_cons in IH as [IHd IH].
    apply Forall_cons in Hcs as [Hd Hcs]. apply sublist_cons, sublist_app; [by apply IHd|].
    injection Hlen as Hlen. by apply IHcs.
Qed.

Lemma scores_sorted t it : bt_tree t it → sorted (scores it).
Proof. intros (_ & Hl & _ & _ & Hs). eapply sorted_sublist; [by eapply scores_sublist|done]. Qed.
