(* ===== verification/ZSet.v ===== *)
(** The sorted set of src/btree.c against its specification: a list of
    (member, score) pairs without duplicate members and with at most
    [max_members] entries.  ZADD updates or appends, ZSCORE looks up, ZRANGE
    shows the pairs in an order by score. *)

From stdpp Require Import sorting sets.
From S2P Require Import Prelude Arena BTree BTreeShape BTreeInsert BTreeSpec BTreeQuery.

Abbreviation zset := (list (list Z * Z)) (only parsing).

(** * The reference *)

Definition zset_index (zs : zset) (member : list Z) : option nat :=
  fst <$> list_find (λ e, e.1 = member) zs.

Definition zset_score (zs : zset) (member : list Z) : option Z :=
  i ← zset_index zs member; snd <$> zs !! i.

Definition zset_add (max : Z) (zs : zset) (score : Z) (member : list Z) : Z * zset :=
  if (zlen member =? 0) || (zlen member >=? ZEDIS_BTREE_MAX_MEMBER) then (RC_ERR, zs) else
  match zset_index zs member with
  | Some i => (RC_OK, <[i := (member, score)]> zs)
  | None => if zlen zs >=? max then (RC_ERR, zs) else (RC_OK, zs ++ [(member, score)])
  end.

(** What ZRANGE prints of the members in the order [names]: an element that
    does not fit the buffer is left out. *)
Definition zset_range (names : list (list Z)) (start stop cap : Z) : option (list Z) :=
  let n := zlen names in
  let a := Z.max 0 start in
  let b := if (stop <? 0) || (stop >=? n) then n - 1 else stop in
  if b <? a then array_header cap 0 else
  (λ h, foldl (append_if_fits cap) h (fmt_bulk <$> slice names a (b - a + 1)))
    <$> array_header cap (b - a + 1).

(** * Representation *)

Definition entries (zs : zset) : list (Z * Z) := imap (λ i e, (e.2, Z.of_nat i)) zs.

Definition store_ok (t : btree) : Prop :=
  zlen (members t) = max_members t ∧ 0 < max_members t <= ZEDIS_BTREE_MAX_ENTRIES ∧
  max_nodes t = 2 * max_members t + 4 ∧ Forall mem_ok (members t).

Definition store_holds (t : btree) (zs : zset) : Prop :=
  ∀ i e, zs !! i = Some e → ∃ m,
    members t !! i = Some m ∧ member_name m = e.1 ∧ m_score m = e.2.

Definition bt_rep (t : btree) (zs : zset) : Prop :=
  store_ok t ∧ member_count t = zlen zs ∧ zlen zs <= max_members t ∧ NoDup zs.*1 ∧
  store_holds t zs ∧ bt_shape t (entries zs).

Lemma bt_shape_perm t es es' : es ≡ₚ es' → bt_shape t es → bt_shape t es'.
Proof.
  intros Hp [(H1 & H2 & H3 & H4 & ->)|(it & Ht & Hi)].
  - left. apply Permutation_nil_l in Hp as ->. done.
  - right. exists it. by rewrite <-Hp.
Qed.

Lemma zlen_entries zs : zlen (entries zs) = zlen zs.
Proof. unfold zlen, entries. by rewrite length_imap. Qed.

Lemma entries_lookup zs e : e ∈ entries zs ↔ ∃ i m, zs !! i = Some (m, e.1) ∧ e.2 = Z.of_nat i.
Proof.
  unfold entries. rewrite elem_of_lookup_imap. split.
  - intros (i & [m s] & -> & Hi). by exists i, m.
  - intros (i & m & Hi & He). exists i, (m, e.1). destruct e; cbn in *. by subst.
Qed.

Lemma entries_snoc zs m s : entries (zs ++ [(m, s)]) = entries zs ++ [(s, zlen zs)].
Proof. unfold entries, zlen. rewrite imap_app. cbn. by rewrite Nat.add_0_r. Qed.

Lemma entries_valid_rep t zs : store_ok t → zlen zs <= max_members t → entries_valid t (entries zs).
Proof.
  intros (Hl & _) Hle. apply Forall_forall. intros e (i & m & Hi & ->)%entries_lookup.
  apply lookup_lt_Some in Hi. unfold zlen in *. lia.
Qed.

(** * Searching *)

Lemma zset_index_spec zs member :
  NoDup zs.*1 →
  match zset_index zs member with
  | Some i => ∃ s, zs !! i = Some (member, s)
  | None => member ∉ zs.*1
  end.
Proof.
  intros Hnd. unfold zset_index. destruct (list_find _ zs) as [[i [m s]]|] eqn:E; cbn.
  - apply list_find_Some in E as (Hi & <- & _). by exists s.
  - apply list_find_None in E. rewrite list_elem_of_fmap. intros ([m s] & -> & Hin).
    rewrite Forall_forall in E. by apply (E _ Hin).
Qed.

Lemma zset_index_Some zs i member s :
  NoDup zs.*1 → zs !! i = Some (member, s) → zset_index zs member = Some i.
Proof.
  intros Hnd Hi. pose proof (zset_index_spec zs member Hnd) as H.
  destruct (zset_index zs member) as [j|].
  - destruct H as [s' Hj]. f_equal. apply (NoDup_lookup zs.*1 j i member Hnd);
      rewrite list_lookup_fmap; [by rewrite Hj|by rewrite Hi].
  - exfalso. apply H. apply list_elem_of_fmap. exists (member, s). split; [done|].
    by eapply list_elem_of_lookup_2.
Qed.

Lemma bt_shape_tree t zs it :
  store_ok t → zlen zs <= max_members t → bt_tree t it → inorder it ≡ₚ entries zs →
  Forall (valid_idx t) (values it) ∧ (root t =? NO_NODE) = false ∧ zlen (inorder it) = zlen zs.
Proof.
  intros Hst Hle Ht Hi. split; [|split].
  - unfold values. apply Forall_fmap. rewrite Hi. by apply entries_valid_rep.
  - destruct Ht as ((_ & Hf & Hm) & _ & Hids & Hrt & _). pose proof (root_in_ids it) as Hin.
    rewrite Hids in Hin. apply elem_of_seqZ in Hin. apply Z.eqb_neq. unfold NO_NODE. lia.
  - unfold zlen. rewrite Hi. pose proof (zlen_entries zs). unfold zlen in *. lia.
Qed.

Lemma entries_nil zs : entries zs = [] → zs = [].
Proof. by destruct zs. Qed.

Lemma lookup_member_ok t zs member :
  bt_rep t zs → lookup_member t member = Ok (Z.of_nat <$> zset_index zs member).
Proof.
  intros (Hst & Hc & Hle & Hnd & Hh & [(_ & _ & Hrt & _ & Hes)|(it & Ht & Hi)]);
    unfold lookup_member.
  { rewrite Hrt. apply entries_nil in Hes as ->. done. }
  destruct (bt_shape_tree t zs it Hst Hle Ht Hi) as (Hv & -> & _).
  pose proof Ht as (_ & Hlay & _ & Hrt & _). destruct Hst as (_ & _ & _ & Hm).
  destruct (find_member_ok t it (depth_fuel t) member) as (r & Hr & Hf); try done.
  { by apply depth_fuel_ok. }
  rewrite Hrt in Hr. rewrite Hr. f_equal.
  assert (∀ v, v ∈ values it ↔ ∃ i e, zs !! i = Some e ∧ v = Z.of_nat i) as Hval.
  { intros v. unfold values. rewrite Hi, list_elem_of_fmap. split.
    - intros ([s w] & -> & (i & m & Hin & ->)%entries_lookup). by exists i, (m, s).
    - intros (i & [m s] & Hin & ->). exists (s, Z.of_nat i). split; [done|].
      apply entries_lookup. by exists i, m. }
  assert (∀ i e, zs !! i = Some e → name_of t (Z.of_nat i) = e.1) as Hname.
  { intros i e He. destruct (Hh i e He) as (m & Hml & Hmn & _). unfold name_of.
    by rewrite Nat2Z.id, Hml. }
  destruct r as [v|]; cbn in Hf.
  - destruct Hf as [(i & [m s] & Hin & ->)%Hval Hn]. rewrite (Hname _ _ Hin) in Hn. cbn in Hn. subst m.
    by rewrite (zset_index_Some zs i member s).
  - pose proof (zset_index_spec zs member Hnd) as Hx. destruct (zset_index zs member) as [i|]; [|done].
    destruct Hx as [s Hs]. exfalso. apply (Hf (Z.of_nat i)); [apply Hval; by eauto|].
    by rewrite (Hname _ _ Hs).
Qed.

(** * Adding a member *)

Lemma alloc_member_ok t zs score member :
  bt_rep t zs → zlen zs < max_members t → 1 <= zlen member < ZEDIS_BTREE_MAX_MEMBER →
  ∃ m t1, alloc_member t score member = Ok (zlen zs, t1) ∧ mem_ok m ∧ member_name m = member ∧
    m_score m = score ∧ members t1 = <[length zs := m]> (members t) ∧
    member_count t1 = zlen zs + 1 ∧ nodes t1 = nodes t ∧ root t1 = root t ∧
    free_node t1 = free_node t ∧ max_nodes t1 = max_nodes t ∧ max_members t1 = max_members t.
Proof.
  intros ((Hl & Hmx & _ & Hm) & Hc & _ & _ & _ & _) Hlt Hmem. unfold alloc_member, ZEDIS_BTREE_MAX_ENTRIES in *.
  rewrite Hc, Z.geb_leb. pose proof (zlen_nonneg zs).
  destruct (_ <=? _) eqn:E; zb; [lia|].
  destruct (aget_ok (members t) (zlen zs)) as (m0 & -> & Hm0); [lia|]. cbn [mbind exec_bind].
  assert (mem_ok m0) as [Hd Hlen0] by (by eapply Forall_lookup_1).
  unfold ZEDIS_BTREE_MAX_MEMBER in *.
  destruct (zlen member <? 48) eqn:E2; zb; [|lia].
  replace (take (Z.to_nat (zlen member)) member) with member by (unfold zlen; by rewrite Nat2Z.id, firstn_all).
  rewrite memcpy0_ok by lia. cbn [mbind exec_bind].
  rewrite aset_ok by (rewrite zlen_prefix_drop; lia). cbn [mbind exec_bind].
  rewrite aset_ok by lia. cbn [mbind exec_bind]. rewrite u32_small by lia.
  set (m := BMember _ (zlen member) score). exists m. eexists. split; [done|].
  cbn [set_members members member_count nodes root free_node max_nodes
    max_members m_score]. replace (Z.to_nat (zlen zs)) with (length zs) by (unfold zlen; lia).
  unfold m. split_and!; try done.
  - split; cbn [m_data m_len]; [|unfold ZEDIS_BTREE_MAX_MEMBER; lia].
    rewrite zlen_insert, zlen_prefix_drop by lia. done.
  - unfold member_name; cbn [m_data m_len]. rewrite slice_take, take_insert_ge by (unfold zlen; lia).
    unfold zlen. by rewrite Nat2Z.id, take_app_length.
Qed.

Lemma store_ok_insert t t' i m :
  store_ok t → mem_ok m → members t' = <[i := m]> (members t) → max_nodes t' = max_nodes t →
  max_members t' = max_members t → store_ok t'.
Proof.
  intros (Hl & Hmx & Hn & Hm) Hmo Hms Hmn Hmm. unfold store_ok. rewrite Hms, Hmn, Hmm, zlen_insert.
  split; [done|]. split; [done|]. split; [done|]. by apply Forall_insert.
Qed.

Lemma store_ok_same t t' : same_store t t' → store_ok t → store_ok t'.
Proof. intros (Hms & _ & Hn & Hm). unfold store_ok. by rewrite Hms, Hn, Hm. Qed.

Lemma bt_shape_eq t t' es :
  nodes t' = nodes t → root t' = root t → free_node t' = free_node t →
  max_nodes t' = max_nodes t → bt_shape t es → bt_shape t' es.
Proof.
  intros Hn Hr Hf Hm. unfold bt_shape, bt_tree, arr_wf. rewrite Hn, Hr, Hf, Hm. done.
Qed.

Lemma insert_rep t zs midx s :
  store_ok t → zlen zs < max_members t → bt_shape t (entries zs) → midx = zlen zs →
  ∃ t', insert_entry t s midx = Ok (0, t') ∧ same_store t t' ∧
    ∀ m, bt_shape t' (entries (zs ++ [(m, s)])).
Proof.
  intros Hst Hlt Hsh ->. pose proof Hst as (Hl & Hmx & Hmn & Hm). pose proof (zlen_nonneg zs).
  destruct (insert_entry_ok t (entries zs) s (zlen zs)) as (t' & Hrun & Hsh' & Hsame); try done.
  { apply entries_valid_rep; [done|lia]. } { rewrite zlen_entries. lia. } { lia. }
  exists t'. split; [done|]. split; [done|]. intros m. eapply bt_shape_perm; [|done].
  rewrite entries_snoc. by rewrite (Permutation_app_comm (entries zs)).
Qed.

Lemma NoDup_snoc {A} (l : list A) x : NoDup l → x ∉ l → NoDup (l ++ [x]).
Proof.
  intros Hl Hx. apply NoDup_app. split; [done|]. split; [|apply NoDup_singleton].
  intros y Hy ->%list_elem_of_singleton. done.
Qed.

Lemma add_new_ok t zs score member :
  bt_rep t zs → zlen zs < max_members t → 1 <= zlen member < ZEDIS_BTREE_MAX_MEMBER →
  member ∉ zs.*1 → ∃ t1 t', alloc_member t score member = Ok (zlen zs, t1) ∧
    insert_entry t1 score (zlen zs) = Ok (0, t') ∧ bt_rep t' (zs ++ [(member, score)]) ∧
    max_members t' = max_members t.
Proof.
  intros Hrep Hlt Hmem Hni.
  destruct (alloc_member_ok t zs score member Hrep Hlt Hmem)
    as (m & t1 & Ha & Hmo & Hname & Hsc & Hms & Hcnt & Hn & Hr & Hf & Hmn & Hmm).
  destruct Hrep as (Hst & Hc & Hle & Hnd & Hh & Hsh).
  assert (store_ok t1) as Hst1 by by eapply store_ok_insert.
  destruct (insert_rep t1 zs (zlen zs) score Hst1) as (t' & Hins & Hsame & Hsh'); try done; [lia| |].
  { by apply (bt_shape_eq t). }
  exists t1, t'. split; [done|]. split; [done|].
  assert (store_ok t') as Hst' by by eapply store_ok_same.
  destruct Hsame as (Hms' & Hcnt' & _ & Hmm'). split; [|congruence].
  split; [done|]. rewrite zlen_app. change (zlen [(member, score)]) with 1.
  split; [congruence|]. split; [lia|]. split; [|split; [|apply Hsh']].
  - rewrite fmap_app. by apply NoDup_snoc.
  - intros i e [He|[Hge He]]%lookup_app_Some; rewrite Hms', Hms.
    + rewrite list_lookup_insert_ne by (apply lookup_lt_Some in He; lia). by apply Hh.
    + apply list_lookup_singleton_Some in He as [Hi <-]. exists m. split; [|done].
      replace i with (length zs) by lia. apply list_lookup_insert_eq.
      destruct Hst as (Hl & _). unfold zlen in *. lia.
Qed.

(** * Changing a score: the whole tree is rebuilt *)

Lemma insert_members_ok t zs n i :
  store_ok t → zlen zs <= max_members t → store_holds t zs → (i + n = length zs)%nat →
  bt_shape t (entries (take i zs)) →
  ∃ t', insert_members n (Z.of_nat i) t = Ok t' ∧ bt_shape t' (entries zs) ∧ same_store t t'.
Proof.
  intros Hst Hle Hh. revert t Hst Hle Hh i. induction n as [|n IH]; intros t Hst Hle Hh i Hi Hsh.
  { exists t. rewrite take_ge in Hsh by lia. done. }
  cbn [insert_members]. destruct (lookup_lt_is_Some_2 zs i) as [[mem s] Hz]; [lia|].
  destruct (Hh i _ Hz) as (m & Hm & Hname & Hsc). cbn in Hsc.
  assert (aget (members t) (Z.of_nat i) = Ok m) as ->.
  { apply aget_lookup. rewrite Nat2Z.id. split; [lia|done]. }
  cbn [mbind exec_bind].
  assert (zlen (take i zs) = Z.of_nat i) as Hti by (unfold zlen; rewrite length_take; lia).
  destruct (insert_rep t (take i zs) (Z.of_nat i) (m_score m)) as (t1 & Hins & Hsame & Hsh1); try done.
  { rewrite Hti. unfold zlen in Hle. lia. }
  rewrite Hins. cbn [mbind exec_bind snd]. replace (Z.of_nat i + 1) with (Z.of_nat (S i)) by lia.
  destruct (IH t1) with (i := S i) as (t' & Hrun & Hsh' & Hsame').
  - by eapply store_ok_same.
  - destruct Hsame as (_ & _ & _ & ->). done.
  - unfold store_holds. destruct Hsame as (-> & _). exact Hh.
  - lia.
  - rewrite (take_S_r _ _ _ Hz), <-Hsc. apply Hsh1.
  - exists t'. split; [done|]. split; [done|]. unfold same_store in *. intuition congruence.
Qed.

Lemma update_ok t zs i member s score :
  bt_rep t zs → zs !! i = Some (member, s) → ∃ m ms t',
    aget (members t) (Z.of_nat i) = Ok m ∧
    aset (members t) (Z.of_nat i) (BMember (m_data m) (m_len m) score) = Ok ms ∧
    rebuild_btree (set_members t ms (member_count t)) = Ok t' ∧
    bt_rep t' (<[i := (member, score)]> zs) ∧ max_members t' = max_members t.
Proof.
  intros (Hst & Hc & Hle & Hnd & Hh & _) Hi. pose proof Hst as (Hl & Hmx & Hmn & Hm).
  destruct (Hh i _ Hi) as (m & Hml & Hname & Hsc). cbn in Hname, Hsc.
  assert (mem_ok m) as Hmo by by eapply Forall_lookup_1.
  set (m' := BMember (m_data m) (m_len m) score). set (zs' := <[i := (member, score)]> zs).
  pose proof (lookup_lt_Some _ _ _ Hml) as Hlt.
  exists m, (<[i := m']> (members t)).
  set (t1 := BTree (replicate (Z.to_nat (max_nodes t)) zero_node) (<[i := m']> (members t)) NO_NODE 0
    (member_count t) (max_nodes t) (max_members t)).
  assert (zlen zs' = zlen zs) as Hlen by apply zlen_insert.
  assert (store_ok t1) as Hst1 by by apply (store_ok_insert t _ i m').
  assert (store_holds t1 zs') as Hh1.
  { intros j e. unfold zs'. destruct (decide (i = j)) as [<-|Hne].
    - rewrite list_lookup_insert_eq by (by eapply lookup_lt_Some). intros [= <-]. exists m'.
      split; [by apply list_lookup_insert_eq|done].
    - rewrite list_lookup_insert_ne by done. cbn [t1 members].
      rewrite (list_lookup_insert_ne (members t)) by done. apply Hh. }
  destruct (insert_members_ok t1 zs' (Z.to_nat (member_count t)) 0) as (t' & Hrun & Hsh & Hsame); try done.
  { cbn. lia. } { unfold zs'. rewrite length_insert, Hc. unfold zlen. lia. }
  { left. unfold arr_wf; cbn. rewrite zlen_replicate. unfold ZEDIS_BTREE_MAX_ENTRIES, UINT32_MAX in *.
    split_and!; try done; lia. }
  exists t'. assert (store_ok t') as Hst' by by eapply store_ok_same.
  assert (store_holds t' zs') as Hh'.
  { unfold store_holds. destruct Hsame as (Hms & _). rewrite Hms. exact Hh1. }
  destruct Hsame as (_ & Hcnt & _ & Hmm). cbn in Hcnt, Hmm.
  split; [apply aget_lookup; rewrite Nat2Z.id; split; [lia|done]|].
  split; [rewrite aset_ok by (unfold zlen; lia); by rewrite Nat2Z.id|]. split; [exact Hrun|].
  split; [|done]. split; [done|]. split; [congruence|]. split; [lia|]. split; [|by split].
  unfold zs'. rewrite list_fmap_insert. cbn. rewrite list_insert_id; [done|].
  rewrite list_lookup_fmap, Hi. done.
Qed.

Lemma add_refines t zs score member :
  bt_rep t zs → ∃ t', zedis_btree_add t score member
    = Ok ((zset_add (max_members t) zs score member).1, t') ∧
    bt_rep t' (zset_add (max_members t) zs score member).2 ∧ max_members t' = max_members t.
Proof.
  intros Hrep. unfold zedis_btree_add, zset_add.
  destruct (_ || _) eqn:E; [by exists t|]. zb. pose proof (zlen_nonneg member).
  rewrite (lookup_member_ok t zs member Hrep). cbn [mbind exec_bind].
  pose proof Hrep as (_ & Hc & Hle & Hnd & _).
  pose proof (zset_index_spec zs member Hnd) as Hx. destruct (zset_index zs member) as [i|]; cbn [fmap option_fmap option_map].
  - destruct Hx as [s Hs].
    destruct (update_ok t zs i member s score Hrep Hs) as (m & ms & t' & -> & Hset & Hreb & Hrep' & Hmm).
    cbn [mbind exec_bind]. rewrite Hset. cbn [mbind exec_bind]. rewrite Hreb. by exists t'.
  - rewrite Z.geb_leb. destruct (max_members t <=? zlen zs) eqn:E2; zb.
    + exists t. unfold alloc_member. rewrite Hc, Z.geb_leb, (proj2 (Z.leb_le _ _) E2). done.
    + destruct (add_new_ok t zs score member) as (t1 & t' & -> & Hins & Hrep' & Hmm); try done; [lia|].
      cbn [mbind exec_bind]. pose proof (zlen_nonneg zs).
      destruct (zlen zs =? NO_NODE) eqn:E3; zb.
      { destruct Hrep as ((_ & Hmx & _) & _). unfold NO_NODE, UINT32_MAX, ZEDIS_BTREE_MAX_ENTRIES in *. lia. }
      rewrite Hins. by exists t'.
Qed.

Lemma score_refines t zs member :
  bt_rep t zs → zedis_btree_score t member = Ok (zset_score zs member).
Proof.
  intros Hrep. pose proof (lookup_member_ok t zs member Hrep) as Hl.
  unfold zedis_btree_score, zset_score. unfold lookup_member in Hl.
  destruct Hrep as (_ & _ & _ & Hnd & Hh & _).
  pose proof (zset_index_spec zs member Hnd) as Hx.
  destruct (root t =? NO_NODE).
  - injection Hl as Hl. by destruct (zset_index zs member).
  - rewrite Hl. cbn [mbind exec_bind]. destruct (zset_index zs member) as [i|]; [|done].
    destruct Hx as [s Hs]. destruct (Hh i _ Hs) as (m & Hm & _ & Hsc). cbn.
    assert (aget (members t) (Z.of_nat i) = Ok m) as ->.
    { apply aget_lookup. rewrite Nat2Z.id. split; [lia|done]. }
    cbn. by rewrite Hsc, Hs.
Qed.

(** * Listing *)

Lemma emit_range t a b cap (vs : list Z) idx reply :
  a <= b + 1 →
  (foldl (emit t a b cap) (idx, reply) vs).2
  = foldl (append_if_fits cap) reply
      (fmt_bulk <$> slice (name_of t <$> vs) (a - idx) (b + 1 - Z.max a idx)).
Proof.
  intros Hab. revert idx reply. induction vs as [|v vs IH]; intros idx reply.
  { unfold slice. cbn. by rewrite drop_nil, take_nil. }
  cbn [foldl fmap list_fmap]. unfold emit at 2; cbn [fst snd]. rewrite IH, Z.geb_leb.
  destruct (a <=? idx) eqn:E1; zb.
  - destruct (idx <=? b) eqn:E2; zb; cbn [andb].
    + rewrite !Z.max_r by lia. unfold slice.
      replace (Z.to_nat (a - idx)) with 0%nat by lia.
      replace (Z.to_nat (a - (idx + 1))) with 0%nat by lia. rewrite !drop_0.
      replace (Z.to_nat (b + 1 - idx)) with (S (Z.to_nat (b + 1 - (idx + 1)))) by lia. done.
    + rewrite !slice_nonpos by lia. done.
  - cbn [andb]. rewrite !Z.max_l by lia. unfold slice.
    replace (Z.to_nat (a - idx)) with (S (Z.to_nat (a - (idx + 1)))) by lia. done.
Qed.

Lemma array_header_zset cap n : zlen (fmt_array n) < cap → array_header cap n = Some (fmt_array n).
Proof.
  intros H. unfold array_header. pose proof (fmt_array_pos n). rewrite Z.geb_leb.
  destruct (zlen (fmt_array n) <=? 0) eqn:E1; zb; [lia|].
  destruct (cap <=? zlen (fmt_array n)) eqn:E2; zb; [lia|done].
Qed.

Lemma range_tree t zs it start stop cap :
  store_ok t → zlen zs <= max_members t → bt_tree t it → inorder it ≡ₚ entries zs →
  zedis_btree_range t start stop cap = Ok (zset_range (name_of t <$> values it) start stop cap).
Proof.
  intros Hst Hle Ht Hi. destruct (bt_shape_tree t zs it Hst Hle Ht Hi) as (Hv & Hno & Hlen).
  pose proof Ht as (_ & Hlay & _ & Hrt & _). pose proof (depth_fuel_ok t it Ht) as Hd.
  pose proof Hst as (_ & Hmx & _ & Hm). pose proof (zlen_nonneg zs).
  unfold ZEDIS_BTREE_MAX_ENTRIES in *.
  unfold zedis_btree_range. rewrite Hno, <-Hrt, count_entries_ok by (done || unfold INT32_MAX; lia).
  cbn [mbind exec_bind]. unfold zset_range.
  assert (zlen (values it) = zlen (inorder it)) as Hvl by (unfold zlen, values; by rewrite length_fmap).
  assert (zlen (name_of t <$> values it) = zlen (inorder it)) as ->.
  { rewrite <-Hvl. unfold zlen. by rewrite length_fmap. }
  assert (1 <= zlen (inorder it)) as Hpos.
  { destruct (size_bound _ _ Hlay). unfold zlen. lia. }
  replace (if start <? 0 then 0 else start) with (Z.max 0 start) by (destruct (start <? 0) eqn:?; zb; lia).
  set (a := Z.max 0 start). set (b := if (stop <? 0) || _ then _ else stop).
  assert (b < zlen (inorder it)) by (unfold b; destruct (_ || _) eqn:?; zb; lia).
  rewrite Z.gtb_ltb. destruct (zlen (inorder it) =? 0) eqn:E; zb; [lia|]. rewrite orb_false_r.
  destruct (b <? a) eqn:E2; zb; [done|].
  rewrite to_i32_small by (unfold INT32_MIN, INT32_MAX; lia).
  destruct (array_header cap (b - a + 1)) as [h|]; [|done]. cbn [fmap option_fmap option_map].
  rewrite collect_inorder_ok; [|done..|cbn [fst]; lia|cbn [fst]; unfold INT32_MAX; lia].
  cbn [mbind exec_bind]. rewrite emit_range by lia.
  rewrite Z.sub_0_r, Z.max_l by lia. do 4 f_equal. f_equal. lia.
Qed.

Lemma imap_entries t zs :
  store_holds t zs → (λ e : Z * Z, (name_of t e.2, e.1)) <$> entries zs = zs.
Proof.
  intros Hh. apply list_eq. intros i. unfold entries. rewrite list_lookup_fmap, list_lookup_imap.
  destruct (zs !! i) as [[m s]|] eqn:E; [|done]. cbn. destruct (Hh i _ E) as (x & Hx & Hn & _).
  unfold name_of. rewrite Nat2Z.id, Hx, Hn. done.
Qed.

(** What the set shows: the pairs in an order by score, the same for every range. *)
Definition shows (t : btree) (l : zset) : Prop :=
  ∀ start stop cap, zedis_btree_range t start stop cap = Ok (zset_range l.*1 start stop cap).

Lemma range_refines t zs :
  bt_rep t zs → ∃ l, l ≡ₚ zs ∧ sorted l.*2 ∧ shows t l.
Proof.
  intros (Hst & Hc & Hle & Hnd & Hh & [(_ & _ & Hrt & _ & Hes)|(it & Ht & Hi)]).
  - apply entries_nil in Hes as ->. exists []. split; [done|]. split; [constructor|].
    intros start stop cap. unfold zedis_btree_range. rewrite Hrt. cbn [Z.eqb].
    unfold zset_range. change (zlen ([] : zset).*1) with 0.
    destruct ((stop <? 0) || _) eqn:E; zb; destruct (_ <? Z.max 0 start) eqn:E2; zb; done || lia.
  - exists ((λ e : Z * Z, (name_of t e.2, e.1)) <$> inorder it). split; [|split].
    + rewrite Hi. by rewrite imap_entries.
    + rewrite <-list_fmap_compose. by apply (scores_sorted t it).
    + intros start stop cap. rewrite <-list_fmap_compose. rewrite (range_tree t zs it) by done.
      unfold values. by rewrite <-list_fmap_compose.
Qed.

(** * Histories *)

Fixpoint add_all (t : btree) (ops : list (Z * list Z)) : exec (list Z * btree) :=
  match ops with
  | [] => Ok ([], t)
  | (score, member) :: ops' =>
      x ← zedis_btree_add t score member;
      rest ← add_all x.2 ops';
      Ok (x.1 :: rest.1, rest.2)
  end.

Fixpoint zset_add_all (max : Z) (zs : zset) (ops : list (Z * list Z)) : list Z * zset :=
  match ops with
  | [] => ([], zs)
  | (score, member) :: ops' =>
      let '(rc, zs') := zset_add max zs score member in
      let '(rcs, zs'') := zset_add_all max zs' ops' in (rc :: rcs, zs'')
  end.

Lemma add_all_refines t zs (ops : list (Z * list Z)) :
  bt_rep t zs → ∃ t', add_all t ops = Ok ((zset_add_all (max_members t) zs ops).1, t') ∧
    bt_rep t' (zset_add_all (max_members t) zs ops).2.
Proof.
  revert t zs. induction ops as [|[score member] ops IH]; intros t zs Hrep; [by exists t|].
  cbn [add_all zset_add_all]. destruct (add_refines t zs score member Hrep) as (t1 & -> & Hrep1 & Hmm).
  cbn [mbind exec_bind snd fst]. destruct (zset_add (max_members t) zs score member) as [rc zs'].
  cbn [snd fst] in *. destruct (IH t1 zs' Hrep1) as (t' & -> & Hrep'). rewrite Hmm in *.
  destruct (zset_add_all (max_members t) zs' ops) as [rcs zs'']. by exists t'.
Qed.

Lemma btree_init_rep a max t a' :
  0 < max < 2 ^ 32 → zedis_btree_init a max = (RC_OK, Some t, a') →
  bt_rep t [] ∧ max_members t = Z.min max ZEDIS_BTREE_MAX_ENTRIES.
Proof.
  intros Hmax. unfold zedis_btree_init. destruct (max =? 0) eqn:E; zb; [lia|].
  replace (if max >? _ then _ else max) with (Z.min max ZEDIS_BTREE_MAX_ENTRIES)
    by (rewrite Z.gtb_ltb; destruct (_ <? max) eqn:?; zb; lia).
  set (n := Z.min _ _). unfold ZEDIS_BTREE_MAX_ENTRIES in n. assert (0 < n <= 4096) as Hn by lia.
  rewrite u32_small by lia. unfold SIZEOF_BTREE_NODE, SIZEOF_BTREE_MEMBER.
  rewrite !calloc_array_eq by lia.
  destruct (zedis_arena_calloc a _ _ _) as [[p|] a1]; destruct (zedis_arena_calloc a1 _ _ _) as [[q|] a2];
    try done. intros [= <- <-]. split; [|done].
  unfold bt_rep, store_ok; cbn [members max_members max_nodes member_count].
  rewrite zlen_replicate. unfold ZEDIS_BTREE_MAX_ENTRIES. change (zlen ([] : zset)) with 0.
  split; [split_and!; try lia; by apply Forall_replicate|]. split; [done|]. split; [lia|].
  split; [constructor|]. split; [intros i e He; by rewrite lookup_nil in He|].
  left. unfold arr_wf; cbn [nodes max_nodes free_node root]. rewrite zlen_replicate.
  unfold UINT32_MAX. replace (n * 2 + 4) with (2 * n + 4) by lia. split_and!; done || lia.
Qed.

(** * Theorems *)

(** C14: A sorted set fresh from zedis_btree_init behaves, over any sequence
    of ZADD calls, as a set of (member, score) pairs of at most
    min(max_members, 4096) members: every call returns what the reference
    returns (members of length 0 or over 47 and new members of a full set are
    refused, an existing member has its score replaced), no call runs out of
    nodes or leaves the arrays; afterwards ZSCORE answers the score of each
    member, and every ZRANGE shows a part of one listing of all the pairs,
    sorted by score. *)
Theorem zset_history_refines a max t a' (ops : list (Z * list Z)) :
  0 < max < 2 ^ 32 → zedis_btree_init a max = (RC_OK, Some t, a') →
  let '(rcs, zs) := zset_add_all (Z.min max ZEDIS_BTREE_MAX_ENTRIES) [] ops in
  ∃ t', add_all t ops = Ok (rcs, t') ∧
    (∀ member, zedis_btree_score t' member = Ok (zset_score zs member)) ∧
    ∃ l, l ≡ₚ zs ∧ sorted l.*2 ∧ shows t' l.
Proof.
  intros Hmax Hinit. destruct (btree_init_rep _ _ _ _ Hmax Hinit) as [Hrep <-].
  destruct (add_all_refines t [] ops Hrep) as (t' & Hrun & Hrep').
  destruct (zset_add_all (max_members t) [] ops) as [rcs zs]. cbn [fst snd] in *.
  exists t'. split; [done|]. split; [intros member; by apply score_refines|]. by apply range_refines.
Qed.

Definition small_tree : btree :=
  BTree (replicate 12 zero_node) (replicate 4 zero_member) NO_NODE 0 0 12 4.

Lemma zset_history_refines_witness :
  ∃ t', add_all small_tree [(5, [97]); (3, [98]); (4, []); (1, [97]); (7, [99]); (2, [100]); (9, [101])]
        = Ok ([0; 0; -1; 0; 0; 0; -1], t') ∧ zedis_btree_score t' [97] = Ok (Some 1).
Proof.
  pose proof (zset_history_refines (Arena 4096 2097152 0 0) 4 small_tree (Arena 4096 2097152 1024 0)
    [(5, [97]); (3, [98]); (4, []); (1, [97]); (7, [99]); (2, [100]); (9, [101])]) as H.
  destruct H as (t' & Hrun & Hsc & _); [lia|vm_compute; reflexivity|].
  exists t'. split; [exact Hrun|]. etransitivity; [apply Hsc|]. vm_compute. reflexivity.
Defined.

(** The number of nodes in use is at most twice the number of members
    minus one, so the array of 2 * max_members + 4 nodes is never exhausted. *)
Theorem btree_node_bound t zs :
  bt_rep t zs → zs ≠ [] → free_node t <= 2 * zlen zs - 1 ∧ 2 * zlen zs - 1 < max_nodes t.
Proof.
  intros ((_ & _ & Hmn & _) & _ & Hle & _ & _ & Hsh) Hne.
  split; [|pose proof (zlen_nonneg zs); lia]. destruct Hsh as [(_ & _ & _ & _ & Hes)|(it & Ht & Hi)].
  - by apply entries_nil in Hes.
  - destruct Ht as ((_ & Hf & _) & Hlay & Hids & _). destruct (size_bound _ _ Hlay) as [_ Hsz].
    rewrite Hids, length_seqZ, Hi in Hsz. pose proof (zlen_entries zs). unfold zlen in *. lia.
Qed.

Lemma btree_node_bound_witness :
  ∃ t, add_all small_tree [(1, [97]); (1, [98]); (1, [99]); (1, [100])] = Ok ([0; 0; 0; 0], t) ∧
    free_node t <= 7 ∧ free_node t = 3.
Proof.
  assert (bt_rep small_tree [] ∧ max_members small_tree = 4) as [Hrep Hm].
  { apply (btree_init_rep (Arena 4096 2097152 0 0) 4 small_tree (Arena 4096 2097152 1024 0));
      [lia|vm_compute; reflexivity]. }
  destruct (add_all_refines small_tree [] [(1, [97]); (1, [98]); (1, [99]); (1, [100])] Hrep)
    as (t & Hrun & Hrep'). exists t. split; [exact Hrun|]. split.
  - apply (btree_node_bound t [([97], 1); ([98], 1); ([99], 1); ([100], 1)]); [exact Hrep'|done].
  - vm_compute in Hrun. injection Hrun as <-. reflexivity.
Defined.

(** Members with equal scores are not listed in the order of their names
    once they are in different leaves: after ZADD of a, b, c, d and e with the
    same score, ZRANGE 0 -1 lists a, b, e, c, d. *)
Theorem zrange_ties_unordered :
  ∃ t, add_all (BTree (replicate 14 zero_node) (replicate 5 zero_member) NO_NODE 0 0 14 5)
         [(1, [97]); (1, [98]); (1, [99]); (1, [100]); (1, [101])] = Ok ([0; 0; 0; 0; 0], t) ∧
    zedis_btree_range t 0 (-1) 4096
    = Ok (Some (fmt_array 5 ++ concat (fmt_bulk <$> [[97]; [98]; [101]; [99]; [100]]))).
Proof. eexists. split; [vm_compute; reflexivity|vm_compute; reflexivity]. Qed.

(** ZRANGE 0 -1 prints every member of the set, each up to its first NUL, in
    order by score, when the reply fits the buffer. *)
Lemma whole_range t zs :
  bt_rep t zs → zs ≠ [] → ∃ l, l ≡ₚ zs ∧ sorted l.*2 ∧
    let r := fmt_array (zlen zs) ++ concat (fmt_bulk <$> l.*1) in
    ∀ cap, zlen r < cap → zedis_btree_range t 0 (-1) cap = Ok (Some r).
Proof.
  intros Hrep Hne. destruct (range_refines t zs Hrep) as (l & Hp & Hs & Hsh). exists l.
  split; [done|]. split; [done|]. intros r cap Hr. rewrite Hsh. unfold zset_range.
  assert (zlen l.*1 = zlen zs) as -> by (unfold zlen; by rewrite length_fmap, Hp).
  assert (0 < zlen zs) by (destruct zs; [done|rewrite zlen_cons; pose proof (zlen_nonneg zs); lia]).
  cbn [Z.ltb orb Z.compare]. destruct (zlen zs - 1 <? Z.max 0 0) eqn:E; zb; [lia|].
  replace (zlen zs - 1 - Z.max 0 0 + 1) with (zlen zs) by lia.
  change (Z.max 0 0) with 0. rewrite slice_take, take_ge by (rewrite length_fmap, Hp; unfold zlen; lia).
  unfold r in Hr. rewrite zlen_app in Hr. pose proof (zlen_nonneg (concat (fmt_bulk <$> l.*1))).
  rewrite array_header_zset by lia. cbn [fmap option_fmap option_map]. do 2 f_equal. unfold r. clear r.
  set (h := fmt_array (zlen zs)) in *. clearbody h. clear - Hr. induction l.*1 as [|x xs IH] in h, Hr |- *.
  - cbn. by rewrite app_nil_r.
  - cbn [fmap list_fmap foldl concat] in *. rewrite zlen_app in Hr.
    pose proof (zlen_nonneg (concat (fmt_bulk <$> xs))). pose proof (fmt_bulk_pos x).
    unfold append_if_fits at 2. rewrite Z.gtb_ltb, !(proj2 (Z.ltb_lt _ _)) by lia. cbn [andb].
    rewrite IH, app_assoc; [done|]. rewrite zlen_app. lia.
Qed.

(** When the reply does not fit, ZRANGE leaves elements out but still
    announces all of them in the array header. *)
Theorem zrange_drops_elements :
  ∃ t, add_all small_tree [(1, [97]); (2, [98])] = Ok ([0; 0], t) ∧
    zedis_btree_range t 0 (-1) 16 = Ok (Some (fmt_array 2 ++ fmt_bulk [97])).
Proof. eexists. split; [vm_compute; reflexivity|vm_compute; reflexivity]. Qed.
