(* ===== verification/KeyRegistry.v ===== *)
(** The two registries of src/key_registry.c: named sorted sets and named
    lists.

    A registry keeps its objects in an array and their names in a hash table
    that maps a name to the decimal numeral of its index.  The operations are
    written over any [KeyStore], the interface of HashTableSpec, and
    instantiated with the hash table of src/hash_table.c. *)

From stdpp Require Import gmap sorting.
From S2P Require Import Prelude Arena HashTable HashTableSpec AppendLog BTree BTreeShape ZSet.

Definition SIZEOF_ZEDIS_BTREE : Z := 40.
Definition SIZEOF_LIST_META : Z := 12.
Definition IDX_BUF : Z := 32.

(** * strtoul in base 10 *)

Definition is_space (b : Z) : bool := (b =? 32) || ((9 <=? b) && (b <=? 13)).

Fixpoint skip_space (l : list Z) : list Z :=
  match l with
  | b :: l' => if is_space b then skip_space l' else l
  | [] => []
  end.

Fixpoint strtoul_digits (acc : Z) (l : list Z) : Z :=
  match l with
  | b :: l' => if is_digit b then strtoul_digits (acc * 10 + (b - 48)) l' else acc
  | [] => acc
  end.

Definition ULONG_MAX : Z := 2 ^ 64 - 1.

Definition strtoul (s : list Z) : Z :=
  let sat l := let v := strtoul_digits 0 l in if v >? ULONG_MAX then ULONG_MAX else v in
  match skip_space s with
  | [] => 0
  | b :: l => if b =? 45 then u64 (- sat l) else if b =? 43 then sat l else sat (b :: l)
  end.

(** * Indices in the hash table *)

Section index.
Context {T : Type} `{KeyStore T}.

Definition lookup_index (ht : T) (key : list Z) : exec (option Z) :=
  r ← ks_get ht key IDX_BUF;
  match r with
  | None => Ok None
  | Some (buf, _) => Ok (Some (u32 (strtoul buf)))
  end.

Definition store_index (ht : T) (key : list Z) (idx : Z) : exec (Z * T) :=
  let out := dec_u idx in
  if zlen out <=? 0 then Ok (RC_ERR, ht) else
  buf ← read_n (snprintf_buf IDX_BUF out) 0 (zlen out);
  ks_set ht key buf.

(** The common body of zset_index_for_key and list_index_for_key: the index,
    the table and the number of used slots. *)
Definition index_for_key (ht : T) (max used : Z) (key : list Z) (create : bool)
    : exec (option Z * T * Z) :=
  r ← lookup_index ht key;
  match r with
  | Some idx => Ok (Some idx, ht, used)
  | None =>
      if negb create then Ok (None, ht, used) else
      if used >=? max then Ok (None, ht, used) else
      x ← store_index ht key used;
      if negb (x.1 =? 0) then Ok (None, x.2, u32 (used + 1))
      else Ok (Some used, x.2, u32 (used + 1))
  end.
End index.

(** * Registries *)

Record zset_registry := ZsetRegistry {
  zr_trees : list btree;
  zr_keys : hash_table;
  max_zsets : Z;
  zr_used : Z;
}.

Record list_registry := ListRegistry {
  lr_lists : list list_meta;
  lr_keys : hash_table;
  max_lists : Z;
  lr_used : Z;
}.

(** The loop over zedis_btree_init. *)
Fixpoint init_trees (n : nat) (a : arena) (max_members : Z) : option (list btree) * arena :=
  match n with
  | O => (Some [], a)
  | S n' =>
      match zedis_btree_init a max_members with
      | (_, Some t, a') =>
          let '(r, a'') := init_trees n' a' max_members in (cons t <$> r, a'')
      | (_, None, a') => (None, a')
      end
  end.

Definition zedis_zset_reg_init (a : arena) (max max_members : Z) : Z * option zset_registry * arena :=
  if max =? 0 then (RC_ERR, None, a) else
  let '(p, a1) := zedis_arena_calloc a max SIZEOF_ZEDIS_BTREE 64 in
  match p with
  | None => (RC_ERR, None, a1)
  | Some _ =>
      let '(ts, a2) := init_trees (Z.to_nat max) a1 max_members in
      match ts with
      | None => (RC_ERR, None, a2)
      | Some trees =>
          match zedis_ht_init a2 (u32 (max * 2)) with
          | (_, Some ht, a3) => (RC_OK, Some (ZsetRegistry trees ht max 0), a3)
          | (_, None, a3) => (RC_ERR, None, a3)
          end
      end
  end.

Definition zedis_zset_reg_destroy (reg : zset_registry) : zset_registry :=
  ZsetRegistry [] (HashTable [] 0 0) 0 0.

Definition zset_index_for_key (reg : zset_registry) (key : list Z) (create : bool)
    : exec (option Z * zset_registry) :=
  x ← index_for_key (zr_keys reg) (max_zsets reg) (zr_used reg) key create;
  let '(r, ht, used) := x in
  Ok (r, ZsetRegistry (zr_trees reg) ht (max_zsets reg) used).

Definition zedis_zset_reg_add (reg : zset_registry) (key : list Z) (score : Z) (member : list Z)
    : exec (Z * zset_registry) :=
  x ← zset_index_for_key reg key true;
  let '(r, reg1) := x in
  match r with
  | None => Ok (RC_ERR, reg1)
  | Some idx =>
      t ← aget (zr_trees reg1) idx;
      y ← zedis_btree_add t score member;
      ts ← aset (zr_trees reg1) idx y.2;
      Ok (y.1, ZsetRegistry ts (zr_keys reg1) (max_zsets reg1) (zr_used reg1))
  end.

Definition zedis_zset_reg_score (reg : zset_registry) (key member : list Z) : exec (option Z) :=
  r ← lookup_index (zr_keys reg) key;
  match r with
  | None => Ok None
  | Some idx => t ← aget (zr_trees reg) idx; zedis_btree_score t member
  end.

Definition zedis_zset_reg_range (reg : zset_registry) (key : list Z) (start stop cap : Z)
    : exec (option (list Z)) :=
  r ← lookup_index (zr_keys reg) key;
  match r with
  | None => Ok (array_header cap 0)
  | Some idx => t ← aget (zr_trees reg) idx; zedis_btree_range t start stop cap
  end.

Definition zedis_list_reg_init (a : arena) (max : Z) : Z * option list_registry * arena :=
  if max =? 0 then (RC_ERR, None, a) else
  let '(p, a1) := zedis_arena_calloc a max SIZEOF_LIST_META 64 in
  match p with
  | None => (RC_ERR, None, a1)
  | Some _ =>
      let lists := (λ m, ListMeta ZEDIS_AOL_NO_PREV ZEDIS_AOL_NO_PREV (lm_count m)) <$>
                   calloc_array max SIZEOF_LIST_META (ListMeta 0 0 0) in
      match zedis_ht_init a1 (u32 (max * 2)) with
      | (_, Some ht, a2) => (RC_OK, Some (ListRegistry lists ht max 0), a2)
      | (_, None, a2) => (RC_ERR, None, a2)
      end
  end.

Definition zedis_list_reg_destroy (reg : list_registry) : list_registry :=
  ListRegistry [] (HashTable [] 0 0) 0 0.

Definition list_index_for_key (reg : list_registry) (key : list Z) (create : bool)
    : exec (option Z * list_registry) :=
  x ← index_for_key (lr_keys reg) (max_lists reg) (lr_used reg) key create;
  let '(r, ht, used) := x in
  Ok (r, ListRegistry (lr_lists reg) ht (max_lists reg) used).

Definition zedis_list_reg_lpush (reg : list_registry) (log : append_log) (key val : list Z)
    : exec (Z * list_registry * append_log) :=
  x ← list_index_for_key reg key true;
  let '(r, reg1) := x in
  match r with
  | None => Ok (RC_ERR, reg1, log)
  | Some idx =>
      m ← aget (lr_lists reg1) idx;
      y ← zedis_aol_lpush log m key val;
      let '(rc, log', m') := y in
      ls ← aset (lr_lists reg1) idx m';
      Ok (rc, ListRegistry ls (lr_keys reg1) (max_lists reg1) (lr_used reg1), log')
  end.

Definition zedis_list_reg_lrange (reg : list_registry) (log : append_log) (key : list Z)
    (start stop cap : Z) : exec (option (list Z)) :=
  r ← lookup_index (lr_keys reg) key;
  match r with
  | None => Ok (append_fmt cap [] (fmt_array 0))
  | Some idx => m ← aget (lr_lists reg) idx; zedis_aol_lrange log m start stop cap
  end.

Definition zedis_list_reg_llen (reg : list_registry) (key : list Z) : exec Z :=
  r ← lookup_index (lr_keys reg) key;
  match r with
  | None => Ok 0
  | Some idx => m ← aget (lr_lists reg) idx; Ok (zedis_aol_llen m)
  end.

(** * The index layer on the abstract store *)

Lemma strtoul_digits_app acc ds rest :
  Forall (λ d, is_digit d = true) ds →
  strtoul_digits acc (ds ++ 0 :: rest) = dval_from acc ds.
Proof.
  intros Hds. revert acc. induction Hds as [|d ds Hd _ IH]; intros acc; [done|].
  cbn [app strtoul_digits]. rewrite Hd. by rewrite IH.
Qed.

Lemma strtoul_dec_u n rest : 0 <= n < 2 ^ 64 → strtoul (dec_u n ++ 0 :: rest) = n.
Proof.
  intros Hn. destruct (dec_u_spec n) as (Hv & Hne & Hall); [lia|].
  pose proof (strtoul_digits_app 0 (dec_u n) rest Hall) as Hd.
  assert (strtoul_digits 0 (dec_u n ++ 0 :: rest) = n) as Hx by (rewrite Hd; exact Hv).
  destruct (dec_u n) as [|d ds] eqn:E; [done|]. apply Forall_cons in Hall as [Hdd _].
  apply is_digit_spec in Hdd. unfold strtoul. cbn [app skip_space].
  unfold is_space. destruct (d =? 32) eqn:E1; zb; [lia|].
  destruct (9 <=? d) eqn:E2; zb; [|lia]. destruct (d <=? 13) eqn:E3; zb; [lia|]. cbn [orb andb].
  destruct (d =? 45) eqn:E4; zb; [lia|]. destruct (d =? 43) eqn:E5; zb; [lia|].
  cbn [app] in Hx. rewrite Hx, Z.gtb_ltb. unfold ULONG_MAX.
  destruct (_ <? n) eqn:E6; zb; [lia|done].
Qed.

Section index_proofs.
Context {T : Type} `{KeyStore T}.

(** The store maps the names to the numerals of [im]. *)
Definition idx_refines (t : T) (im : gmap (list Z) Z) : Prop :=
  ks_refines t (dec_u <$> im) ∧ ∀ k i, im !! k = Some i → 0 <= i < 2 ^ 32.

Lemma lookup_index_ok t im key :
  idx_refines t im → lookup_index t key = Ok (im !! key).
Proof.
  intros [Hks Hr]. unfold lookup_index. rewrite (ks_get_ok t _ key IDX_BUF Hks). cbn [mbind exec_bind].
  rewrite lookup_fmap. destruct (im !! key) as [i|] eqn:E; cbn [fmap option_fmap option_map]; [|done].
  specialize (Hr _ _ E). pose proof (dec_u_length i 10 ltac:(lia) ltac:(lia)) as Hlen.
  unfold get_result, IDX_BUF. cbn [Z.gtb Z.compare].
  destruct (zlen (dec_u i) <? 32) eqn:E2; zb; [|lia].
  rewrite (take_ge (dec_u i)) by (unfold zlen; lia). rewrite strtoul_dec_u by lia.
  by rewrite u32_small.
Qed.

(** A new name is refused only for its length, as long as the table is below
    its load limit. *)
Lemma store_index_ok t im key i :
  idx_refines t im → 0 <= i < 2 ^ 32 → Z.of_nat (size im) * 10 < ks_cap t * 7 → ∃ t',
    store_index t key i = Ok (if zlen key <=? ZEDIS_HT_MAX_KEY then RC_OK else RC_ERR, t') ∧
    ks_cap t' = ks_cap t ∧
    idx_refines t' (if zlen key <=? ZEDIS_HT_MAX_KEY then <[key := i]> im else im).
Proof.
  intros [Hks Hr] Hi Hload. pose proof (dec_u_length i 10 ltac:(lia) ltac:(lia)) as Hlen.
  unfold store_index. destruct (zlen (dec_u i) <=? 0) eqn:E; zb; [lia|].
  assert (snprintf_buf IDX_BUF (dec_u i) = dec_u i) as ->.
  { unfold snprintf_buf, IDX_BUF. apply take_ge. unfold zlen in Hlen. lia. }
  rewrite read_n_ok by lia. rewrite slice_take, take_ge by (unfold zlen; lia). cbn [mbind exec_bind].
  destruct (ks_set_ok t (dec_u <$> im) key (dec_u i) Hks) as (t' & Hset & Hks' & Hcap).
  unfold spec_set, spec_accepts in Hset, Hks'. rewrite map_size_fmap in Hset, Hks'.
  unfold ZEDIS_HT_MAX_VALUE in *.
  destruct (zlen (dec_u i) <=? 4096) eqn:E1; zb; [|lia].
  rewrite (proj2 (Z.ltb_lt _ _) Hload), andb_true_r in Hset, Hks'. exists t'.
  destruct (zlen key <=? ZEDIS_HT_MAX_KEY); cbn [andb fst snd] in *; (split; [done|split; [done|]]).
  - split; [by rewrite fmap_insert|]. intros k j. rewrite lookup_insert_Some.
    intros [[_ <-]|[_ Hj]]; [done|by apply (Hr k)].
  - done.
Qed.

(** What a registry keeps: every name has an index below [used]. *)
Definition idx_wf (t : T) (max used : Z) (im : gmap (list Z) Z) : Prop :=
  idx_refines t im ∧ 0 <= used <= max ∧ 0 < max < 2 ^ 31 ∧ ks_cap t = 2 * max ∧
  Z.of_nat (size im) <= used ∧ (∀ k i, im !! k = Some i → 0 <= i < used) ∧
  (∀ k k' i, im !! k = Some i → im !! k' = Some i → k = k').

Lemma index_create t max used im key :
  idx_wf t max used im →
  match im !! key with
  | Some i => index_for_key t max used key true = Ok (Some i, t, used)
  | None =>
      if max <=? used then index_for_key t max used key true = Ok (None, t, used) else
      if zlen key <=? ZEDIS_HT_MAX_KEY
      then ∃ t', index_for_key t max used key true = Ok (Some used, t', used + 1) ∧
        idx_wf t' max (used + 1) (<[key := used]> im)
      else ∃ t', index_for_key t max used key true = Ok (None, t', used + 1) ∧
        idx_wf t' max (used + 1) im
  end.
Proof.
  intros (Href & Hu & Hmax & Hcap & Hsz & Hb & Hinj). unfold index_for_key.
  rewrite (lookup_index_ok t im key Href). cbn [mbind exec_bind].
  destruct (im !! key) as [i|] eqn:E; [done|]. cbn [negb]. rewrite Z.geb_leb.
  destruct (max <=? used) eqn:E2; zb; [done|].
  destruct (store_index_ok t im key used Href) as (t' & -> & Hcap' & Href'); [lia|lia|].
  cbn [mbind exec_bind fst snd]. rewrite u32_small by lia.
  destruct (zlen key <=? ZEDIS_HT_MAX_KEY); cbn [negb Z.eqb RC_OK RC_ERR]; exists t'; (split; [done|]).
  - split; [done|]. split; [lia|]. split; [lia|]. split; [lia|]. split; [|split].
    + rewrite map_size_insert_None by done. lia.
    + intros k i. rewrite lookup_insert_Some. intros [[_ <-]|[_ Hi]]; [lia|].
      specialize (Hb k i Hi). lia.
    + intros k k' i. rewrite !lookup_insert_Some.
      intros [[<- <-]|[Hk Hi]] [[<- Hu']|[Hk' Hi']]; [done| | |by eapply Hinj].
      * specialize (Hb _ _ Hi'). lia.
      * subst i. specialize (Hb _ _ Hi). lia.
  - split; [done|]. split; [lia|]. split; [lia|]. split; [lia|]. split; [lia|]. split; [|done].
    intros k i Hi. specialize (Hb k i Hi). lia.
Qed.
End index_proofs.
