(* ===== verification/RegistrySpec.v ===== *)
(** The registries of src/key_registry.c against finite maps from names to
    sorted sets and from names to lists. *)

From stdpp Require Import gmap sorting.
From S2P Require Import Prelude Arena HashTable HashTableSpec AppendLog BTree BTreeShape ZSet KeyRegistry.

(** * Sorted sets by name *)

Abbreviation zmap := (gmap (list Z) zset) (only parsing).

(** The reference: [room] is the number of sets that can still be created. *)
Definition zmap_add (maxm : Z) (M : zmap) (room : Z) (key : list Z) (score : Z) (member : list Z)
    : Z * (zmap * Z) :=
  match M !! key with
  | Some zs => let r := zset_add maxm zs score member in (r.1, (<[key := r.2]> M, room))
  | None =>
      if room <=? 0 then (RC_ERR, (M, room)) else
      if zlen key <=? ZEDIS_HT_MAX_KEY
      then let r := zset_add maxm [] score member in (r.1, (<[key := r.2]> M, room - 1))
      else (RC_ERR, (M, room - 1))
  end.

(** The names have the indices [im], where [at_] finds what they stand for. *)
Definition indexed {A} (at_ : Z → A → Prop) (im : gmap (list Z) Z) (M : gmap (list Z) A) : Prop :=
  ∀ k, match im !! k, M !! k with
       | Some i, Some x => at_ i x
       | None, None => True
       | _, _ => False
       end.

(** One name gets an index or changes at its own. *)
Lemma indexed_insert {A} (at1 at2 : Z → A → Prop) im M key i x :
  indexed at1 im M → at2 i x → (∀ k j y, k ≠ key → im !! k = Some j → j ≠ i ∧ (at1 j y → at2 j y)) →
  indexed at2 (<[key := i]> im) (<[key := x]> M).
Proof.
  intros Hm Hx Hother k. destruct (decide (k = key)) as [->|Hne]; [by rewrite !lookup_insert_eq|].
  rewrite !lookup_insert_ne by done. specialize (Hm k). destruct (im !! k) as [j|] eqn:Ej, (M !! k) as [y|]; try done.
  by apply (Hother k j y Hne Ej).
Qed.

Definition tree_at (reg : zset_registry) (maxm i : Z) (zs : zset) : Prop :=
  ∃ t, zr_trees reg !! Z.to_nat i = Some t ∧ bt_rep t zs ∧ max_members t = maxm.

Definition zreg_rep (reg : zset_registry) (maxm : Z) (M : zmap) (room : Z) : Prop :=
  ∃ im, idx_wf (zr_keys reg) (max_zsets reg) (zr_used reg) im ∧
    room = max_zsets reg - zr_used reg ∧ zlen (zr_trees reg) = max_zsets reg ∧
    indexed (tree_at reg maxm) im M ∧
    (∀ i, zr_used reg <= i < max_zsets reg → tree_at reg maxm i []).

(** Adding to the tree with index [i]. *)
Lemma tree_add reg maxm i zs score member :
  0 <= i < zlen (zr_trees reg) → tree_at reg maxm i zs → ∃ t t' ts,
    aget (zr_trees reg) i = Ok t ∧
    zedis_btree_add t score member = Ok ((zset_add maxm zs score member).1, t') ∧
    aset (zr_trees reg) i t' = Ok ts ∧ zlen ts = zlen (zr_trees reg) ∧
    ∀ ht mx u, let reg' := ZsetRegistry ts ht mx u in
      tree_at reg' maxm i (zset_add maxm zs score member).2 ∧
      ∀ j zs', 0 <= j → j ≠ i → tree_at reg maxm j zs' → tree_at reg' maxm j zs'.
Proof.
  intros Hi (t & Ht & Hrep & Hm). destruct (add_refines t zs score member Hrep) as (t' & Hadd & Hrep' & Hm').
  rewrite Hm in *. exists t, t', (<[Z.to_nat i := t']> (zr_trees reg)).
  split; [apply aget_lookup; split; [lia|done]|]. split; [done|].
  split; [by apply aset_ok|]. split; [apply zlen_insert|]. intros ht mx u reg'. split.
  - exists t'. cbn. rewrite list_lookup_insert_eq by (unfold zlen in Hi; lia). done.
  - intros j zs' Hj Hne (x & Hx & ?). exists x. cbn. by rewrite list_lookup_insert_ne by lia.
Qed.

(** The tree that is added to belongs to [key] afterwards. *)
Lemma zreg_added reg maxm im im' M key i zs score member ht' used' :
  indexed (tree_at reg maxm) im M → im' = <[key := i]> im → 0 <= i < max_zsets reg → zlen (zr_trees reg) = max_zsets reg →
  tree_at reg maxm i zs → (∀ k j, im !! k = Some j → 0 <= j ∧ (k ≠ key → j ≠ i)) →
  idx_wf ht' (max_zsets reg) used' im' → i < used' →
  (∀ j, used' <= j < max_zsets reg → tree_at reg maxm j []) → ∃ t t' ts,
    let reg' := ZsetRegistry ts ht' (max_zsets reg) used' in
    aget (zr_trees reg) i = Ok t ∧ zedis_btree_add t score member = Ok ((zset_add maxm zs score member).1, t') ∧
    aset (zr_trees reg) i t' = Ok ts ∧
    zreg_rep reg' maxm (<[key := (zset_add maxm zs score member).2]> M) (max_zsets reg - used').
Proof.
  intros Hmap -> Hi Hlen Hat Hother Hidx Hu Hfree.
  destruct (tree_add reg maxm i zs score member) as (t & t' & ts & Hget & Hadd & Hset & Hlts & Htr); [lia|done|].
  destruct (Htr ht' (max_zsets reg) used') as [H1 H2]. exists t, t', ts. split; [done|]. split; [done|]. split; [done|].
  pose proof Hidx as (_ & Hu0 & _).
  eexists. split; [exact Hidx|]. cbn [zr_trees max_zsets zr_used]. split; [done|]. split; [lia|]. split.
  - apply (indexed_insert (tree_at reg maxm)); [done|done|]. intros k j y Hne Hj. destruct (Hother k j Hj) as [? Hji].
    split; [by apply Hji|]. by apply H2; [|apply Hji].
  - intros j Hj. apply H2; [lia|lia|by apply Hfree].
Qed.

Lemma zreg_add_refines reg maxm M room key score member :
  zreg_rep reg maxm M room → ∃ reg',
    zedis_zset_reg_add reg key score member
    = Ok ((zmap_add maxm M room key score member).1, reg') ∧
    zreg_rep reg' maxm (zmap_add maxm M room key score member).2.1
                       (zmap_add maxm M room key score member).2.2.
Proof.
  intros (im & Hidx & Hroom & Hlen & Hmap & Hfree). pose proof Hidx as (_ & Hu & Hmx & _ & _ & Hb & Hinj).
  unfold zedis_zset_reg_add, zset_index_for_key, zmap_add.
  pose proof (index_create _ _ _ _ key Hidx) as Hc. pose proof (Hmap key) as Hk.
  destruct (im !! key) as [i|] eqn:Ei, (M !! key) as [zs|] eqn:EM; try done.
  - rewrite Hc. cbn [mbind exec_bind zr_trees zr_keys max_zsets zr_used]. pose proof (Hb _ _ Ei) as Hbi.
    destruct (zreg_added reg maxm im im M key i zs score member (zr_keys reg) (zr_used reg))
      as (t & t' & ts & -> & Hadd & Hset & Hrep); try done; [by rewrite insert_id|lia| |lia|].
    { intros k j Hj. pose proof (Hb _ _ Hj). split; [lia|]. intros Hne ->. apply Hne. by apply (Hinj k key i). }
    cbn [mbind exec_bind]. rewrite Hadd. cbn [mbind exec_bind fst snd]. rewrite Hset. cbn [mbind exec_bind].
    eexists. split; [done|]. by rewrite Hroom.
  - rewrite Hroom. destruct (max_zsets reg <=? zr_used reg) eqn:Eu; zb.
    { rewrite Hc. cbn [mbind exec_bind]. destruct (_ <=? 0) eqn:E; zb; [|lia].
      eexists. split; [done|]. cbn [fst snd]. by exists im. }
    destruct (_ <=? 0) eqn:E; zb; [lia|].
    destruct (zlen key <=? ZEDIS_HT_MAX_KEY) eqn:El.
    + destruct Hc as (ht' & -> & Hidx'). cbn [mbind exec_bind zr_trees zr_keys max_zsets zr_used].
      destruct (zreg_added reg maxm im _ M key (zr_used reg) [] score member ht' (zr_used reg + 1) Hmap eq_refl)
        as (t & t' & ts & -> & Hadd & Hset & Hrep); try done; [lia|apply Hfree; lia| |lia|intros j Hj; apply Hfree; lia|].
      { intros k j Hj. pose proof (Hb _ _ Hj). split; lia. }
      cbn [mbind exec_bind]. rewrite Hadd. cbn [mbind exec_bind fst snd]. rewrite Hset. cbn [mbind exec_bind].
      eexists. split; [done|]. cbn [fst snd]. by replace (max_zsets reg - zr_used reg - 1) with (max_zsets reg - (zr_used reg + 1)) by lia.
    + destruct Hc as (ht' & -> & Hidx'). cbn [mbind exec_bind].
      eexists. split; [done|]. cbn [fst snd]. exists im. cbn [zr_trees zr_keys max_zsets zr_used].
      split; [done|]. split; [lia|]. split; [lia|]. split; [done|]. intros j Hj. apply Hfree. lia.
Qed.

Fixpoint zreg_run (reg : zset_registry) (ops : list (list Z * Z * list Z))
    : exec (list Z * zset_registry) :=
  match ops with
  | [] => Ok ([], reg)
  | (key, score, member) :: ops' =>
      x ← zedis_zset_reg_add reg key score member;
      rest ← zreg_run x.2 ops';
      Ok (x.1 :: rest.1, rest.2)
  end.

Fixpoint zmap_run (maxm : Z) (st : zmap * Z) (ops : list (list Z * Z * list Z))
    : list Z * (zmap * Z) :=
  match ops with
  | [] => ([], st)
  | (key, score, member) :: ops' =>
      let r := zmap_add maxm st.1 st.2 key score member in
      let rest := zmap_run maxm r.2 ops' in (r.1 :: rest.1, rest.2)
  end.

Lemma zreg_run_refines reg maxm M room (ops : list (list Z * Z * list Z)) :
  zreg_rep reg maxm M room → ∃ reg',
    zreg_run reg ops = Ok ((zmap_run maxm (M, room) ops).1, reg') ∧
    zreg_rep reg' maxm (zmap_run maxm (M, room) ops).2.1 (zmap_run maxm (M, room) ops).2.2.
Proof.
  revert reg M room. induction ops as [|[[key score] member] ops IH]; intros reg M room Hrep; [by exists reg|].
  cbn [zreg_run zmap_run fst snd].
  destruct (zreg_add_refines reg maxm M room key score member Hrep) as (reg1 & -> & Hrep1).
  cbn [mbind exec_bind fst snd]. destruct (zmap_add maxm M room key score member) as [rc [M1 room1]].
  cbn [fst snd] in *. destruct (IH reg1 M1 room1 Hrep1) as (reg' & -> & Hrep'). by exists reg'.
Qed.

Lemma zreg_score_refines reg maxm M room key member :
  zreg_rep reg maxm M room →
  zedis_zset_reg_score reg key member = Ok (M !! key ≫= λ zs, zset_score zs member).
Proof.
  intros (im & Hidx & _ & _ & Hmap & _). unfold zedis_zset_reg_score.
  pose proof Hidx as (Href & _ & _ & _ & _ & Hb & _).
  rewrite (lookup_index_ok _ im key Href). cbn [mbind exec_bind]. specialize (Hmap key).
  destruct (im !! key) as [i|] eqn:Ei, (M !! key) as [zs|]; try done.
  destruct Hmap as (t & Ht & Hrep & _). pose proof (Hb _ _ Ei).
  assert (aget (zr_trees reg) i = Ok t) as -> by (apply aget_lookup; split; [lia|done]).
  cbn [mbind exec_bind option_bind]. by apply score_refines.
Qed.

Lemma zreg_range_refines reg maxm M room key :
  zreg_rep reg maxm M room → ∃ l, l ≡ₚ default [] (M !! key) ∧ sorted l.*2 ∧
  ∀ start stop cap, zedis_zset_reg_range reg key start stop cap
                    = Ok (zset_range l.*1 start stop cap).
Proof.
  intros (im & Hidx & _ & _ & Hmap & _). unfold zedis_zset_reg_range.
  pose proof Hidx as (Href & _ & _ & _ & _ & Hb & _).
  rewrite (lookup_index_ok _ im key Href). cbn [mbind exec_bind]. specialize (Hmap key).
  destruct (im !! key) as [i|] eqn:Ei, (M !! key) as [zs|]; try done; cbn [default from_option].
  - destruct Hmap as (t & Ht & Hrep & _). pose proof (Hb _ _ Ei).
    assert (aget (zr_trees reg) i = Ok t) as -> by (apply aget_lookup; split; [lia|done]).
    cbn [mbind exec_bind]. by apply range_refines.
  - exists []. split; [done|]. split; [constructor|]. intros start stop cap.
    unfold zset_range. change (zlen ([] : zset).*1) with 0.
    destruct ((stop <? 0) || _) eqn:E; zb; destruct (_ <? Z.max 0 start) eqn:E2; zb; done || lia.
Qed.

Lemma init_trees_rep n a max ts a' :
  0 < max < 2 ^ 32 → init_trees n a max = (Some ts, a') → length ts = n ∧
  Forall (λ t, bt_rep t [] ∧ max_members t = Z.min max ZEDIS_BTREE_MAX_ENTRIES) ts.
Proof.
  intros Hmax. revert a ts a'. induction n as [|n IH]; intros a ts a' Hi; cbn [init_trees] in Hi.
  { injection Hi as <- <-. by split; [|constructor]. }
  destruct (zedis_btree_init a max) as [[rc [t|]] a1] eqn:Et; [|done].
  destruct (init_trees n a1 max) as [[ts'|] a2] eqn:Ets; [|done]. injection Hi as <- <-.
  destruct (IH _ _ _ Ets) as [Hl Hall]. split; [cbn; lia|]. constructor; [|done].
  apply (btree_init_rep a max t a1); [done|].
  assert (rc = RC_OK) as ->; [|done]. unfold zedis_btree_init in Et. destruct (max =? 0); [done|].
  destruct (zedis_arena_calloc a _ _ _) as [[p|] b1]; destruct (zedis_arena_calloc b1 _ _ _) as [[q|] b2];
    try done. by injection Et.
Qed.

Lemma ht_init_rc a cap rc ht a' : zedis_ht_init a cap = (rc, Some ht, a') → rc = RC_OK.
Proof.
  unfold zedis_ht_init. destruct (cap =? 0); [done|].
  destruct (zedis_arena_calloc _ _ _ _) as [[p|] b]; [|done]. by intros [= <- _ _].
Qed.

Lemma idx_wf_fresh a max rc ht a' :
  0 < max < 2 ^ 31 → zedis_ht_init a (u32 (max * 2)) = (rc, Some ht, a') →
  idx_wf ht max 0 (∅ : gmap (list Z) Z).
Proof.
  intros Hmax Hi. pose proof (ht_init_rc _ _ _ _ _ Hi) as ->. rewrite u32_small in Hi by lia.
  destruct (ht_init_refines a (max * 2) ht a' ltac:(lia) Hi) as [Href Hcap].
  split; [split; [by rewrite fmap_empty|]|].
  - intros k i. by rewrite lookup_empty.
  - split; [lia|]. split; [lia|]. split; [change (ks_cap ht) with (ht_capacity ht); lia|]. rewrite map_size_empty. split; [lia|].
    split; [intros k i; by rewrite lookup_empty|]. intros k k' i. by rewrite lookup_empty.
Qed.

Lemma zreg_init_rep a max maxm reg a' :
  0 < max < 2 ^ 31 → 0 < maxm < 2 ^ 32 → zedis_zset_reg_init a max maxm = (RC_OK, Some reg, a') →
  zreg_rep reg (Z.min maxm ZEDIS_BTREE_MAX_ENTRIES) ∅ max.
Proof.
  intros Hmax Hmaxm. unfold zedis_zset_reg_init. destruct (max =? 0) eqn:E; zb; [lia|].
  destruct (zedis_arena_calloc a _ _ _) as [[p|] a1]; [|done].
  destruct (init_trees (Z.to_nat max) a1 maxm) as [[ts|] a2] eqn:Ets; [|done].
  destruct (zedis_ht_init a2 _) as [[rc [ht|]] a3] eqn:Eht; [|done]. intros [= <- <-].
  destruct (init_trees_rep _ _ _ _ _ Hmaxm Ets) as [Hl Hall].
  exists ∅. cbn [zr_trees zr_keys max_zsets zr_used]. split; [by eapply idx_wf_fresh|].
  split; [lia|]. split; [unfold zlen; lia|]. split; [intros k; by rewrite !lookup_empty|].
  intros i Hi. destruct (lookup_lt_is_Some_2 ts (Z.to_nat i)) as [t Ht]; [lia|].
  exists t. split; [done|]. by apply (Forall_lookup_1 _ _ _ _ Hall Ht).
Qed.

(** * Lists by name *)

Abbreviation lmap := (gmap (list Z) (list (list Z))) (only parsing).

(** Pushing onto one list of a log of [cap] bytes, [used] of them written. *)
Definition spec_push (cap used : Z) (vals : list (list Z)) (key val : list Z)
    : Z * (list (list Z) * Z) :=
  if (1 <=? zlen key) && (zlen key <=? ZEDIS_AOL_MAX_KEY) &&
     (1 <=? zlen val) && (zlen val <=? ZEDIS_AOL_MAX_ELEM) &&
     (used + record_size (zlen key) (zlen val) <=? cap)
  then (RC_OK, (val :: vals, used + record_size (zlen key) (zlen val)))
  else (RC_ERR, (vals, used)).

(** The reference state: the lists, how many can still be created, and the
    bytes written. *)
Definition lmap_push (cap : Z) (st : lmap * Z * Z) (key val : list Z) : Z * (lmap * Z * Z) :=
  let '(L, room, used) := st in
  match L !! key with
  | Some vals =>
      let r := spec_push cap used vals key val in (r.1, (<[key := r.2.1]> L, room, r.2.2))
  | None =>
      if room <=? 0 then (RC_ERR, st) else
      if zlen key <=? ZEDIS_HT_MAX_KEY
      then let r := spec_push cap used [] key val in
           (r.1, (<[key := r.2.1]> L, room - 1, r.2.2))
      else (RC_ERR, (L, room - 1, used))
  end.

Definition meta_at (reg : list_registry) (log : append_log) (i : Z) (vals : list (list Z)) : Prop :=
  ∃ m, lr_lists reg !! Z.to_nat i = Some m ∧ list_rep log m vals.

Definition lreg_rep (reg : list_registry) (log : append_log) (cap : Z) (st : lmap * Z * Z) : Prop :=
  let '(L, room, used) := st in
  ∃ im, idx_wf (lr_keys reg) (max_lists reg) (lr_used reg) im ∧
    room = max_lists reg - lr_used reg ∧ zlen (lr_lists reg) = max_lists reg ∧
    log_wf log ∧ l_capacity log = cap ∧ write_pos log = used ∧
    indexed (meta_at reg log) im L ∧
    (∀ i, lr_used reg <= i < max_lists reg → meta_at reg log i []).

Lemma meta_push reg log i vals key val :
  0 <= i < zlen (lr_lists reg) → log_wf log → meta_at reg log i vals → ∃ m log' m' ls,
    let r := spec_push (l_capacity log) (write_pos log) vals key val in
    aget (lr_lists reg) i = Ok m ∧ zedis_aol_lpush log m key val = Ok (r.1, log', m') ∧
    aset (lr_lists reg) i m' = Ok ls ∧ zlen ls = zlen (lr_lists reg) ∧
    log_wf log' ∧ l_capacity log' = l_capacity log ∧ write_pos log' = r.2.2 ∧
    ∀ ht mx u, let reg' := ListRegistry ls ht mx u in
      meta_at reg' log' i r.2.1 ∧
      ∀ j vs, 0 <= j → j ≠ i → meta_at reg log j vs → meta_at reg' log' j vs.
Proof.
  intros Hi Hwf (m & Hm & Hrep). pose proof (lpush_refines log m key val vals Hwf Hrep) as Hp.
  assert (aget (lr_lists reg) i = Ok m) as Hg by (apply aget_lookup; split; [lia|done]).
  unfold lpush_fits in Hp. unfold spec_push.
  destruct (_ && _) eqn:E.
  - destruct Hp as (log' & m' & Hpush & Hwf' & Hrep' & Hfr & Hwp & Hcap & _).
    exists m, log', m', (<[Z.to_nat i := m']> (lr_lists reg)). cbn [fst snd].
    split; [done|]. split; [done|]. split; [by apply aset_ok|]. split; [apply zlen_insert|].
    split; [done|]. split; [done|]. split; [done|]. intros ht mx u. split.
    + exists m'. cbn. rewrite list_lookup_insert_eq by (unfold zlen in Hi; lia). done.
    + intros j vs Hj Hne (x & Hx & Hrx). exists x. cbn. rewrite list_lookup_insert_ne by lia.
      split; [done|by apply Hfr].
  - exists m, log, m, (lr_lists reg). cbn [fst snd].
    split; [done|]. split; [done|]. split; [rewrite aset_ok by done; by rewrite list_insert_id|].
    split; [done|]. split; [done|]. split; [done|]. split; [done|]. intros ht mx u.
    split; [by exists m|done].
Qed.

(** The list that is pushed to belongs to [key] afterwards. *)
Lemma lreg_pushed reg log im im' L key i vals val ht' used' :
  let r := spec_push (l_capacity log) (write_pos log) vals key val in
  indexed (meta_at reg log) im L → im' = <[key := i]> im → 0 <= i < max_lists reg → zlen (lr_lists reg) = max_lists reg →
  log_wf log → meta_at reg log i vals → (∀ k j, im !! k = Some j → 0 <= j ∧ (k ≠ key → j ≠ i)) →
  idx_wf ht' (max_lists reg) used' im' → i < used' →
  (∀ j, used' <= j < max_lists reg → meta_at reg log j []) → ∃ m log' m' ls,
    let reg' := ListRegistry ls ht' (max_lists reg) used' in
    aget (lr_lists reg) i = Ok m ∧ zedis_aol_lpush log m key val = Ok (r.1, log', m') ∧ aset (lr_lists reg) i m' = Ok ls ∧
    lreg_rep reg' log' (l_capacity log) (<[key := r.2.1]> L, max_lists reg - used', r.2.2).
Proof.
  intros r Hmap -> Hi Hlen Hwf Hat Hother Hidx Hu Hfree.
  destruct (meta_push reg log i vals key val) as
    (m & log' & m' & ls & Hget & Hpush & Hset & Hll & Hwf' & Hcap' & Hwp' & Hm); [lia|done|done|].
  destruct (Hm ht' (max_lists reg) used') as [H1 H2]. exists m, log', m', ls. split; [done|]. split; [done|]. split; [done|].
  pose proof Hidx as (_ & Hu0 & _).
  eexists. split; [exact Hidx|]. cbn [lr_lists max_lists lr_used]. split; [done|]. split; [lia|]. split; [done|]. split; [done|].
  split; [done|]. split.
  - apply (indexed_insert (meta_at reg log)); [done|done|]. intros k j y Hne Hj. destruct (Hother k j Hj) as [? Hji].
    split; [by apply Hji|]. by apply H2; [|apply Hji].
  - intros j Hj. apply H2; [lia|lia|by apply Hfree].
Qed.

Lemma lreg_push_refines reg log cap st key val :
  lreg_rep reg log cap st → ∃ reg' log',
    zedis_list_reg_lpush reg log key val = Ok ((lmap_push cap st key val).1, reg', log') ∧
    lreg_rep reg' log' cap (lmap_push cap st key val).2.
Proof.
  destruct st as [[L room] used].
  intros (im & Hidx & Hroom & Hlen & Hwf & <- & <- & Hmap & Hfree).
  pose proof Hidx as (_ & Hu & Hmx & _ & _ & Hb & Hinj).
  unfold zedis_list_reg_lpush, list_index_for_key, lmap_push.
  pose proof (index_create _ _ _ _ key Hidx) as Hc. pose proof (Hmap key) as Hk.
  destruct (im !! key) as [i|] eqn:Ei, (L !! key) as [vals|] eqn:EL; try done.
  - rewrite Hc. cbn [mbind exec_bind lr_lists lr_keys max_lists lr_used]. pose proof (Hb _ _ Ei).
    destruct (lreg_pushed reg log im im L key i vals val (lr_keys reg) (lr_used reg))
      as (m & log' & m' & ls & -> & Hpush & Hset & Hrep); try done; [by rewrite insert_id|lia| |lia|].
    { intros k j Hj. pose proof (Hb _ _ Hj). split; [lia|]. intros Hne ->. apply Hne. by apply (Hinj k key i). }
    cbn [mbind exec_bind]. rewrite Hpush. cbn [mbind exec_bind]. rewrite Hset. cbn [mbind exec_bind].
    do 2 eexists. split; [done|]. by rewrite Hroom.
  - rewrite Hroom. destruct (max_lists reg <=? lr_used reg) eqn:Eu; zb.
    { rewrite Hc. cbn [mbind exec_bind]. destruct (_ <=? 0) eqn:E; zb; [|lia].
      do 2 eexists. split; [done|]. cbn [fst snd]. exists im. done. }
    destruct (_ <=? 0) eqn:E; zb; [lia|].
    destruct (zlen key <=? ZEDIS_HT_MAX_KEY) eqn:El.
    + destruct Hc as (ht' & -> & Hidx'). cbn [mbind exec_bind lr_lists lr_keys max_lists lr_used].
      destruct (lreg_pushed reg log im _ L key (lr_used reg) [] val ht' (lr_used reg + 1) Hmap eq_refl)
        as (m & log' & m' & ls & -> & Hpush & Hset & Hrep); try done; [lia|apply Hfree; lia| |lia|intros j Hj; apply Hfree; lia|].
      { intros k j Hj. pose proof (Hb _ _ Hj). split; lia. }
      cbn [mbind exec_bind]. rewrite Hpush. cbn [mbind exec_bind]. rewrite Hset. cbn [mbind exec_bind].
      do 2 eexists. split; [done|]. by replace (max_lists reg - lr_used reg - 1) with (max_lists reg - (lr_used reg + 1)) by lia.
    + destruct Hc as (ht' & -> & Hidx'). cbn [mbind exec_bind].
      do 2 eexists. split; [done|]. cbn [fst snd]. exists im. cbn [lr_lists lr_keys max_lists lr_used].
      split; [done|]. split; [lia|]. do 5 (split; [done|]). intros j Hj. apply Hfree. lia.
Qed.

Fixpoint lreg_run (reg : list_registry) (log : append_log) (ops : list (list Z * list Z))
    : exec (list Z * (list_registry * append_log)) :=
  match ops with
  | [] => Ok ([], (reg, log))
  | (key, val) :: ops' =>
      x ← zedis_list_reg_lpush reg log key val;
      let '(rc, reg', log') := x in
      rest ← lreg_run reg' log' ops';
      Ok (rc :: rest.1, rest.2)
  end.

Fixpoint lmap_run (cap : Z) (st : lmap * Z * Z) (ops : list (list Z * list Z))
    : list Z * (lmap * Z * Z) :=
  match ops with
  | [] => ([], st)
  | (key, val) :: ops' =>
      let r := lmap_push cap st key val in
      let rest := lmap_run cap r.2 ops' in (r.1 :: rest.1, rest.2)
  end.

Lemma lreg_run_refines reg log cap st (ops : list (list Z * list Z)) :
  lreg_rep reg log cap st → ∃ reg' log',
    lreg_run reg log ops = Ok ((lmap_run cap st ops).1, (reg', log')) ∧
    lreg_rep reg' log' cap (lmap_run cap st ops).2.
Proof.
  revert reg log st. induction ops as [|[key val] ops IH]; intros reg log st Hrep; [by exists reg, log|].
  cbn [lreg_run lmap_run].
  destruct (lreg_push_refines reg log cap st key val Hrep) as (reg1 & log1 & -> & Hrep1).
  cbn [mbind exec_bind]. destruct (IH reg1 log1 _ Hrep1) as (reg' & log' & -> & Hrep').
  by exists reg', log'.
Qed.

(** Every query by name finds the metadata of the list. *)
Lemma lreg_lookup reg log cap L room used key :
  lreg_rep reg log cap (L, room, used) → log_wf log ∧
  match L !! key with
  | None => lookup_index (lr_keys reg) key = Ok None
  | Some vals => ∃ i m, lookup_index (lr_keys reg) key = Ok (Some i) ∧
      aget (lr_lists reg) i = Ok m ∧ list_rep log m vals
  end.
Proof.
  intros (im & Hidx & _ & _ & Hwf & _ & _ & Hmap & _). split; [done|].
  pose proof Hidx as (Href & _ & _ & _ & _ & Hb & _).
  rewrite (lookup_index_ok _ im key Href). specialize (Hmap key).
  destruct (im !! key) as [i|] eqn:Ei, (L !! key) as [vals|]; try done.
  destruct Hmap as (m & Hm & Hrep). exists i, m. split; [done|]. split; [|done].
  pose proof (Hb _ _ Ei). apply aget_lookup. split; [lia|done].
Qed.

Lemma lreg_llen_refines reg log cap L room used key :
  lreg_rep reg log cap (L, room, used) →
  zedis_list_reg_llen reg key = Ok (zlen (default [] (L !! key))).
Proof.
  intros Hrep. destruct (lreg_lookup _ _ _ _ _ _ key Hrep) as [_ Hk]. unfold zedis_list_reg_llen.
  destruct (L !! key) as [vals|].
  - destruct Hk as (i & m & -> & Hg & [_ Hc]). cbn [mbind exec_bind]. rewrite Hg. cbn [mbind exec_bind].
    unfold zedis_aol_llen. by rewrite Hc.
  - by rewrite Hk.
Qed.

Lemma lreg_lrange_refines reg log cap L room used key start stop rcap :
  lreg_rep reg log cap (L, room, used) →
  zedis_list_reg_lrange reg log key start stop rcap
  = Ok (let r := spec_lrange (default [] (L !! key)) start stop in
        if zlen r <? rcap then Some r else None).
Proof.
  intros Hrep. destruct (lreg_lookup _ _ _ _ _ _ key Hrep) as [Hwf Hk]. unfold zedis_list_reg_lrange.
  destruct (L !! key) as [vals|].
  - destruct Hk as (i & m & -> & Hg & Hl). cbn [mbind exec_bind]. rewrite Hg. cbn [mbind exec_bind].
    by rewrite (lrange_refines log m vals).
  - rewrite Hk. cbn [mbind exec_bind].
    pose proof (lrange_refines log empty_meta [] start stop rcap Hwf ltac:(done)) as H. exact H.
Qed.

Lemma lreg_init_rep a max reg a' log :
  0 < max < 2 ^ 31 → zedis_list_reg_init a max = (RC_OK, Some reg, a') → log_wf log →
  lreg_rep reg log (l_capacity log) (∅, max, write_pos log).
Proof.
  intros Hmax. unfold zedis_list_reg_init. destruct (max =? 0) eqn:E; zb; [lia|].
  destruct (zedis_arena_calloc a _ _ _) as [[p|] a1]; [|done].
  destruct (zedis_ht_init a1 _) as [[rc [ht|]] a2] eqn:Eht; [|done]. intros [= <- <-] Hwf.
  exists ∅. cbn [lr_lists lr_keys max_lists lr_used].
  unfold SIZEOF_LIST_META. rewrite calloc_array_eq by lia. rewrite fmap_replicate, zlen_replicate.
  split; [by eapply idx_wf_fresh|]. split; [lia|]. split; [lia|]. do 3 (split; [done|]).
  split; [intros k; by rewrite !lookup_empty|].
  intros i Hi. exists empty_meta. split; [|done]. apply lookup_replicate. split; [done|lia].
Qed.

(** * Theorems *)

(** C25: A fresh registry of sorted sets behaves, over any sequence of ZADD
    calls, as a finite map from names to sorted sets: sets under different
    names do not affect each other, a name of up to 256 bytes is created on
    first use while fewer than max_zsets indices were given out, and
    afterwards ZSCORE and ZRANGE answer for each name from its own set (an
    unknown name has no members). *)
Theorem zset_registry_refines a max maxm reg a' (ops : list (list Z * Z * list Z)) :
  0 < max < 2 ^ 31 → 0 < maxm < 2 ^ 32 →
  zedis_zset_reg_init a max maxm = (RC_OK, Some reg, a') →
  let '(rcs, (M, room)) := zmap_run (Z.min maxm ZEDIS_BTREE_MAX_ENTRIES) (∅, max) ops in
  ∃ reg', zreg_run reg ops = Ok (rcs, reg') ∧
    (∀ key member, zedis_zset_reg_score reg' key member
                   = Ok (M !! key ≫= λ zs, zset_score zs member)) ∧
    (∀ key, ∃ l, l ≡ₚ default [] (M !! key) ∧ sorted l.*2 ∧
       ∀ start stop cap, zedis_zset_reg_range reg' key start stop cap
                         = Ok (zset_range l.*1 start stop cap)).
Proof.
  intros Hmax Hmaxm Hinit. pose proof (zreg_init_rep _ _ _ _ _ Hmax Hmaxm Hinit) as Hrep.
  destruct (zreg_run_refines reg _ ∅ max ops Hrep) as (reg' & Hrun & Hrep').
  destruct (zmap_run _ _ ops) as [rcs [M room]]. cbn [fst snd] in *.
  exists reg'. split; [done|]. split.
  - intros key member. by eapply zreg_score_refines.
  - intros key. by eapply zreg_range_refines.
Qed.

Definition two_sets : zset_registry :=
  ZsetRegistry (replicate 2 (BTree (replicate 8 zero_node) (replicate 2 zero_member) NO_NODE 0 0 8 2))
               (HashTable (replicate 4 zero_entry) 4 0) 2 0.

Lemma zset_registry_refines_witness :
  ∃ reg', zreg_run two_sets [([97], 5, [120]); ([98], 6, [120]); ([99], 7, [120])]
          = Ok ([0; 0; -1], reg') ∧ zedis_zset_reg_score reg' [98] [120] = Ok (Some 6).
Proof.
  destruct (zset_registry_refines (Arena 4096 2097152 0 0) 2 2 two_sets (Arena 4096 2097152 18944 0)
    [([97], 5, [120]); ([98], 6, [120]); ([99], 7, [120])]) as (reg' & Hrun & Hsc & _);
    [lia|lia|vm_compute; reflexivity|].
  exists reg'. split; [exact Hrun|]. etransitivity; [apply Hsc|]. vm_compute. reflexivity.
Defined.

(** C26: A fresh registry of lists over a log of less than 4 GiB - 1 bytes
    behaves, over any sequence of LPUSH calls, as a finite map from names to
    lists of values: LLEN of a name is the number of its accepted pushes, LRANGE
    answers a range of them, newest first, or fails when the reply does not fit,
    and pushes under other names change neither.  LRANGE sees the newest 1024
    values of a name only and cuts the text of each at its first NUL; where a
    name has at most 1024 values without NUL the reply is the array of the
    values in the range. *)
Theorem list_registry_refines a max reg a' log (ops : list (list Z * list Z)) :
  0 < max < 2 ^ 31 → zedis_list_reg_init a max = (RC_OK, Some reg, a') →
  l_capacity log < UINT32_MAX → zlen (l_base log) = l_capacity log → 0 <= write_pos log <= l_capacity log →
  let '(rcs, (L, room, used)) := lmap_run (l_capacity log) (∅, max, write_pos log) ops in
  ∃ reg' log', lreg_run reg log ops = Ok (rcs, (reg', log')) ∧
    ∀ key, let vals := default [] (L !! key) in
      zedis_list_reg_llen reg' key = Ok (zlen vals) ∧
      ∀ start stop cap, let r := spec_lrange vals start stop in
        zedis_list_reg_lrange reg' log' key start stop cap = Ok (if zlen r <? cap then Some r else None) ∧
        (zlen vals <= 1024 → Forall (λ v, 0 ∉ v) vals → r = list_reply (list_range vals start stop)).
Proof.
  intros Hmax Hinit H32 Hb Hw. pose proof (lreg_init_rep _ _ _ _ log Hmax Hinit ltac:(by split)) as Hrep.
  destruct (lreg_run_refines reg log _ _ ops Hrep) as (reg' & log' & Hrun & Hrep').
  destruct (lmap_run _ _ ops) as [rcs [[L room] used]]. cbn [fst snd] in *.
  exists reg', log'. split; [done|]. intros key. split; [by eapply lreg_llen_refines|].
  intros start stop cap. split; [by eapply lreg_lrange_refines|apply spec_lrange_plain].
Qed.

Definition two_lists : list_registry :=
  ListRegistry (replicate 2 empty_meta) (HashTable (replicate 4 zero_entry) 4 0) 2 0.

Lemma list_registry_refines_witness :
  let log := AppendLog (replicate (Z.to_nat 4096) 0) 4096 0 (-1) 0 in
  ∃ reg' log', lreg_run two_lists log [([97], [49]); ([98], [50]); ([97], [51])]
               = Ok ([0; 0; 0], (reg', log')) ∧ zedis_list_reg_llen reg' [97] = Ok 2.
Proof.
  intros log.
  destruct (list_registry_refines (Arena 4096 2097152 0 0) 2 two_lists (Arena 4096 2097152 17600 0) log
    [([97], [49]); ([98], [50]); ([97], [51])]) as (reg' & log' & Hrun & Hkey);
    [lia|vm_compute; reflexivity|reflexivity|reflexivity|split; discriminate|].
  destruct (Hkey [97]) as [Hlen _]. exists reg', log'. split; [exact Hrun|]. etransitivity; [exact Hlen|]. vm_compute. reflexivity.
Defined.

(** A name longer than 256 bytes is refused only after an index was
    given out for it: as many such ZADD calls as there are free sets, all
    answered -1, leave a registry in which no new set can be created, although
    none of them was. *)
Theorem zset_registry_leaks reg maxm M room key score member :
  zreg_rep reg maxm M room → ZEDIS_HT_MAX_KEY < zlen key → M !! key = None →
  ∃ reg', zreg_run reg (replicate (Z.to_nat room) (key, score, member))
          = Ok (replicate (Z.to_nat room) RC_ERR, reg') ∧
    ∀ key' score' member', M !! key' = None → ∃ reg'',
      zedis_zset_reg_add reg' key' score' member' = Ok (RC_ERR, reg'').
Proof.
  intros Hrep Hlong Hnone.
  assert (∀ n r, Z.of_nat n = Z.max 0 r →
    zmap_run maxm (M, r) (replicate n (key, score, member)) = (replicate n RC_ERR, (M, Z.min 0 r))) as Hrun.
  { induction n as [|n IH]; intros r Hr; cbn [replicate zmap_run]; [do 2 f_equal; lia|].
    unfold zmap_add. cbn [fst snd]. rewrite Hnone.
    destruct (r <=? 0) eqn:E1; zb; [lia|]. destruct (zlen key <=? _) eqn:E2; zb; [lia|].
    cbn [fst snd]. rewrite IH by lia. cbn [fst snd]. do 2 f_equal. lia. }
  destruct (zreg_run_refines reg maxm M room (replicate (Z.to_nat room) (key, score, member)) Hrep)
    as (reg' & Hr & Hrep'). rewrite Hrun in Hr, Hrep' by lia. cbn [fst snd] in *.
  exists reg'. split; [done|]. intros key' score' member' Hn.
  destruct (zreg_add_refines _ _ _ _ key' score' member' Hrep') as (reg'' & Hadd & _).
  exists reg''. rewrite Hadd. unfold zmap_add. rewrite Hn.
  destruct (_ <=? 0) eqn:E; zb; [done|lia].
Qed.

Lemma zset_registry_leaks_witness :
  ∃ reg' reg'', zreg_run two_sets (replicate 2 (replicate 257 97, 1, [120])) = Ok ([-1; -1], reg') ∧
    zedis_zset_reg_add reg' [98] 1 [120] = Ok (RC_ERR, reg'').
Proof.
  destruct (zset_registry_leaks two_sets 2 ∅ 2 (replicate 257 97) 1 [120]) as (reg' & Hrun & Hadd).
  - apply (zreg_init_rep (Arena 4096 2097152 0 0) 2 2 two_sets (Arena 4096 2097152 18944 0));
      [lia|lia|vm_compute; reflexivity].
  - vm_compute. reflexivity.
  - done.
  - destruct (Hadd [98] 1 [120]) as (reg'' & H); [done|]. exists reg', reg''. split; [exact Hrun|exact H].
Defined.
