(* ===== verification/Types.v ===== *)
(** The types of the data structures' fields.  The definitions compute with
    unbounded integers and lists; the structs of hash_table.h, order_book.h,
    ring_buffer.h, append_log.h, btree.h and key_registry.h have fields of 8,
    16, 32 and 64 bits and arrays of fixed sizes.  A struct is [typed] when
    every integer field is in the range of its C type, in every element of
    every array, whether it is in use or not, and every array has its declared
    size; of character arrays only the size is stated.  Every operation that
    ends gives typed results on typed arguments. *)

From stdpp Require Import gmap.
From S2P Require Import Prelude Arena HashTable HashTableSpec OrderBook RingBuffer AppendLog BTree.
From S2P Require Import KeyRegistry RegistrySpec.

(** * Runs that end *)

Definition yields {A} (m : exec A) (Q : A → Prop) : Prop := match m with Ok a => Q a | Stuck _ => True end.

Lemma yields_bind {A B} (m : exec A) (k : A → exec B) (Q : A → Prop) (R : B → Prop) :
  yields m Q → (∀ a, Q a → yields (k a) R) → yields (m ≫= k) R.
Proof. destruct m as [a|f]; cbn; auto. Qed.

Lemma yields_any {A} (m : exec A) : yields m (λ _, True).
Proof. by destruct m. Qed.

Lemma yields_ok {A} (m : exec A) a Q : yields m Q → m = Ok a → Q a.
Proof. by intros H ->. Qed.

(** * Fields *)

Definition in_u8 (z : Z) : Prop := 0 <= z < 2 ^ 8.
Definition in_u32 (z : Z) : Prop := 0 <= z < 2 ^ 32.
Definition in_u64 (z : Z) : Prop := 0 <= z < 2 ^ 64.
Definition in_i32 (z : Z) : Prop := INT32_MIN <= z <= INT32_MAX.

(** [T a[n]] *)
Definition array {A} (n : Z) (P : A → Prop) (l : list A) : Prop := zlen l = n ∧ Forall P l.
Definition chars (n : Z) (l : list Z) : Prop := zlen l = n.

Lemma u8_typed z : in_u8 (u8 z).
Proof. by apply Z.mod_pos_bound. Qed.
Lemma u32_typed z : in_u32 (u32 z).
Proof. apply u32_range. Qed.
Lemma u64_typed z : in_u64 (u64 z).
Proof. apply u64_range. Qed.

Create HintDb types.
#[export] Hint Resolve u8_typed u32_typed u64_typed : types.
#[export] Hint Extern 1 (in_u8 _) => (unfold in_u8; lia) : types.
#[export] Hint Extern 1 (in_u32 _) => (unfold in_u32; lia) : types.
#[export] Hint Extern 1 (in_u64 _) => (unfold in_u64; lia) : types.

Lemma yields_aget {A} (P : A → Prop) l i : Forall P l → yields (aget l i) P.
Proof.
  intros Hl. destruct (aget l i) as [x|] eqn:E; [|done]. apply aget_lookup in E as [_ E]. exact (Forall_lookup_1 P l _ x Hl E).
Qed.

Lemma yields_aset {A} (P : A → Prop) l i x : Forall P l → P x → yields (aset l i x) (Forall P).
Proof. intros Hl Hx. unfold aset. destruct (_ && _); [|done]. by apply Forall_insert. Qed.

Lemma yields_get {A} (P : A → Prop) n l i : array n P l → yields (aget l i) P.
Proof. intros [_ Hl]. by apply yields_aget. Qed.

Lemma yields_set {A} (P : A → Prop) n l i x : array n P l → P x → yields (aset l i x) (array n P).
Proof.
  intros [Hn Hl] Hx. unfold aset. destruct (_ && _); [|done]. split; [|by apply Forall_insert].
  unfold zlen. by rewrite length_insert.
Qed.

Lemma yields_chars_copy n l off bs : chars n l → yields (memcpy l off bs) (chars n).
Proof.
  intros Hl. destruct (memcpy l off bs) as [l'|] eqn:E; [|done]. apply memcpy_zlen in E. unfold chars, yields in *. lia.
Qed.

Lemma yields_chars_set n l i x : chars n l → yields (aset l i x) (chars n).
Proof. intros Hl. unfold aset. destruct (_ && _); [|done]. unfold chars, zlen, yields in *. by rewrite length_insert. Qed.

Lemma calloc_typed {A} (P : A → Prop) count size zero : P zero → Forall P (calloc_array count size zero).
Proof. intros Hz. by apply Forall_replicate. Qed.

(** One statement of a run: by a lemma on it, or without one. *)
Tactic Notation "ty" uconstr(lem) "as" simple_intropattern(x) simple_intropattern(H) :=
  eapply yields_bind; [eapply lem; eauto with types|intros x H].
Ltac ty_skip := eapply yields_bind; [apply yields_any|intros ? _].
Ltac ty_end := cbn; eauto with types.

(** * hash_table.h *)

Record entry_typed (e : ht_entry) : Prop := EntryTyped {
  et_psl : in_u32 (e_psl e);
  et_hash : in_u32 (e_hash e);
  et_key_len : in_u64 (e_key_len e);
  et_value_len : in_u64 (e_value_len e);
  et_key : chars ZEDIS_HT_MAX_KEY (e_key e);
  et_value : chars ZEDIS_HT_MAX_VALUE (e_value e);
}.

Record table_typed (t : hash_table) : Prop := TableTyped {
  tt_entries : Forall entry_typed (ht_entries t);
  tt_capacity : in_u64 (ht_capacity t);
  tt_count : in_u64 (ht_count t);
}.

Lemma zero_entry_typed : entry_typed zero_entry.
Proof. split; (done || (unfold chars; cbn [zero_entry e_key e_value]; rewrite zlen_replicate; done)). Qed.

Lemma ht_hash_typed key : in_u32 (ht_hash key).
Proof.
  unfold ht_hash. assert (∀ h, in_u32 h → in_u32 (foldl (λ h b, u32 (Z.lxor h b * 16777619)) h key)) as H; [|by apply H].
  induction key as [|b key IH]; intros h Hh; [done|]. apply IH. apply u32_typed.
Qed.

Lemma ht_init_typed a cap ht a' : in_u64 cap → zedis_ht_init a cap = (RC_OK, Some ht, a') → table_typed ht.
Proof.
  intros Hc. unfold zedis_ht_init. destruct (_ =? _); [done|]. destruct (zedis_arena_calloc _ _ _ _) as [[p|] a1]; [|done].
  intros [= <- _]. split; [apply calloc_typed, zero_entry_typed|done|done].
Qed.

#[export] Hint Resolve ht_hash_typed zero_entry_typed : types.
#[export] Hint Resolve et_psl et_hash et_key_len et_value_len et_key et_value : types.

Lemma ht_store_typed e psl incoming :
  entry_typed e → in_u32 psl → entry_typed incoming → yields (ht_store e psl incoming) entry_typed.
Proof.
  intros He Hp Hi. unfold ht_store. ty yields_chars_copy as kb Hk. ty yields_chars_copy as vb Hv.
  split; ty_end.
Qed.

Lemma ht_overwrite_typed e value : entry_typed e → zlen value < 2 ^ 64 → yields (ht_overwrite e value) entry_typed.
Proof.
  intros He Hv. pose proof (zlen_nonneg value). unfold ht_overwrite. ty yields_chars_copy as vb Hvb. split; ty_end.
Qed.

Lemma ht_set_loop_typed fuel es cap count hash key value idx psl incoming :
  Forall entry_typed es → in_u64 count → in_u32 psl → entry_typed incoming → zlen value < 2 ^ 64 →
  yields (ht_set_loop fuel es cap count hash key value idx psl incoming) (λ r, Forall entry_typed r.1 ∧ in_u64 r.2).
Proof.
  revert es idx psl incoming. induction fuel as [|fuel IH]; intros es idx psl incoming Hes Hc Hp Hi Hv; cbn [ht_set_loop]; [done|].
  ty yields_aget as e He. destruct (_ || _).
  { ty ht_store_typed as e' He'. ty yields_aset as es' Hes'. ty_end. }
  destruct (entry_key_match _ _ _).
  { ty ht_overwrite_typed as e' He'. ty yields_aset as es' Hes'. ty_end. }
  destruct (_ >? _).
  - ty ht_store_typed as e' He'. ty yields_aset as es' Hes'. ty_skip. apply IH; eauto with types.
  - ty_skip. apply IH; eauto with types.
Qed.

Lemma ht_set_typed ht key value : table_typed ht → yields (zedis_ht_set ht key value) (λ r, table_typed r.2).
Proof.
  intros [He Hc Hn]. unfold zedis_ht_set. destruct (_ || _) eqn:E; [by split|]. destruct (_ >=? _); [by split|].
  apply orb_false_iff in E as [E1 E2]. zb. pose proof (zlen_nonneg key). pose proof (zlen_nonneg value).
  unfold ZEDIS_HT_MAX_KEY, ZEDIS_HT_MAX_VALUE in *. ty_skip.
  eapply yields_bind with (Q := entry_typed).
  { unfold ht_incoming. ty yields_chars_copy as kb Hk. ty yields_chars_copy as vb Hv. split; ty_end. }
  intros incoming Hi. ty ht_set_loop_typed as [es n] [Hes Hn']; [lia|]. by split.
Qed.

Lemma ht_probe_typed fuel es cap hash key idx psl :
  Forall entry_typed es → yields (ht_probe fuel es cap hash key idx psl) (λ r, match r with Some (_, e) => entry_typed e | None => True end).
Proof.
  revert idx psl. induction fuel as [|fuel IH]; intros idx psl Hes; cbn [ht_probe]; [done|]. ty yields_aget as e He.
  destruct (bool_decide _); [done|]. destruct (entry_key_match _ _ _); [done|]. destruct (_ >? _); [done|]. ty_skip. by apply IH.
Qed.

Lemma ht_del_typed ht key : table_typed ht → yields (zedis_ht_del ht key) (λ r, table_typed r.2).
Proof.
  intros [He Hc Hn]. unfold zedis_ht_del. ty_skip. ty ht_probe_typed as r Hr. destruct r as [[i e]|]; [|by split].
  eapply yields_bind; [apply yields_aset; [done|]|intros es' Hes'; split; ty_end]. split; cbn; eauto with types.
Qed.

(** * order_book.h *)

Record level_typed (l : price_level) : Prop := LevelTyped {
  lt_bid : int64 (bid_qty l);
  lt_ask : int64 (ask_qty l);
}.

Record book_typed (b : order_book) : Prop := BookTyped {
  bt_levels : Forall level_typed (levels b);
  bt_min : in_i32 (price_min b);
  bt_max : in_i32 (price_max b);
  bt_num : in_u64 (num_levels b);
}.

#[export] Hint Resolve lt_bid lt_ask : types.

Lemma clamp_typed sum : int64 sum → int64 (if sum <? 0 then 0 else sum).
Proof. by destruct (_ <? _). Qed.

Lemma yields_chk_i64 z : yields (chk_i64 z) int64.
Proof. unfold chk_i64. destruct (_ && _) eqn:E; [|done]. cbn. unfold int64. lia. Qed.

Lemma place_typed b o : book_typed b → yields (place b o) (λ r, book_typed r.2).
Proof.
  intros [Hl H1 H2 H3]. unfold place. destruct (o_side o); [unfold zedis_book_bid|unfold zedis_book_ask];
    ty_skip; (destruct (_ <? 0); [by split|]); ty yields_aget as l Hlv; ty yields_chk_i64 as sum Hs;
    (eapply yields_bind; [apply yields_aset; [done|split; cbn; auto using clamp_typed with types]|]); intros ls Hls; by split.
Qed.

Lemma book_init_typed a lo hi b a' :
  INT32_MIN <= lo → hi <= INT32_MAX → zedis_book_init a lo hi = Ok (RC_OK, Some b, a') → book_typed b.
Proof.
  intros Hlo Hhi. unfold zedis_book_init. destruct (_ <? _) eqn:E; zb; [done|]. unfold chk_i32.
  destruct (_ && _); [|done]. cbn [mbind exec_bind]. destruct (_ && _) eqn:E2; [|done]. cbn [mbind exec_bind].
  destruct (zedis_arena_calloc _ _ _ _) as [[p|] a1]; [|done]. intros [= <- _].
  split; cbn; [by apply calloc_typed|..]; zb; unfold in_i32, in_u64, INT32_MAX in *; lia.
Qed.

(** * ring_buffer.h *)

Record slot_typed (s : ring_slot) : Prop := SlotTyped {
  st_channel : chars RING_CHANNEL_SIZE (s_channel s);
  st_payload : chars ZEDIS_RING_MSG_MAX (s_payload s);
  st_len : in_u64 (s_payload_len s);
  st_seq : in_u64 (s_seq s);
}.

Record ring_typed (r : ring_buffer) : Prop := RingTyped {
  rt_slots : Forall slot_typed (r_slots r);
  rt_capacity : in_u64 (r_capacity r);
  rt_write : in_u64 (write_seq r);
  rt_read : in_u64 (read_seq r);
}.
#[export] Hint Resolve st_channel st_payload st_len st_seq : types.

Lemma ring_init_typed a cap r a' : zedis_ring_init a cap = (RC_OK, Some r, a') → ring_typed r.
Proof.
  unfold zedis_ring_init. destruct (_ =? _); [done|]. destruct (zedis_arena_calloc _ _ _ _) as [[p|] a1]; [|done].
  intros [= <- _]. split; [|cbn [r_capacity]|done|done].
  - apply calloc_typed. split; (done || (unfold chars; cbn [zero_slot s_channel s_payload]; rewrite zlen_replicate; done)).
  - unfold next_power_of_two. destruct (_ <? _); auto with types.
Qed.

Lemma publish_typed r channel payload : ring_typed r → yields (zedis_ring_publish r channel payload) (λ x, ring_typed x.2).
Proof.
  intros [Hs Hc Hw Hr]. unfold zedis_ring_publish. rewrite Z.gtb_ltb. destruct (_ <? _) eqn:E; zb; [by split|].
  destruct (_ >=? _); [by split|]. pose proof (zlen_nonneg payload). unfold ZEDIS_RING_MSG_MAX in E.
  ty yields_aget as s Hsl. eapply yields_bind with (Q := slot_typed).
  { unfold fill_slot. ty yields_chars_copy as ch Hch. ty yields_chars_set as ch' Hch'. ty yields_chars_copy as pl Hpl. split; ty_end. }
  intros s' Hs'. ty yields_aset as slots' Hsl'. split; ty_end.
Qed.

(** * append_log.h *)

Record meta_typed (m : list_meta) : Prop := MetaTyped {
  mt_head : in_u32 (head_off m);
  mt_tail : in_u32 (tail_off m);
  mt_count : in_u32 (lm_count m);
}.

Record log_typed (l : append_log) : Prop := LogTyped {
  lo_base : chars (l_capacity l) (l_base l);
  lo_capacity : in_u64 (l_capacity l);
  lo_pos : in_u64 (write_pos l);
  lo_is_file : in_i32 (is_file l);
}.

Lemma aol_init_typed sys cap path log :
  mmap_whole sys → cap < 2 ^ 64 → zedis_aol_init sys cap path = (RC_OK, Some log) → log_typed log.
Proof.
  intros Hm Hc Hi. destruct (aol_init_ok _ _ _ _ Hm Hi) as (Hlo & Hb & Hcap & Hp).
  split; [by rewrite Hcap|unfold in_u64; lia|unfold in_u64; lia|].
  revert Hi. unfold zedis_aol_init. repeat case_match; by intros [= <-].
Qed.

Lemma lpush_typed log meta key val :
  log_typed log → meta_typed meta → yields (zedis_aol_lpush log meta key val) (λ x, log_typed x.1.2 ∧ meta_typed x.2).
Proof.
  intros [Hb Hc Hp Hf] Hm. unfold zedis_aol_lpush. destruct (_ || _ || _ || _); [by split|]. destruct (_ >? _); [by split|].
  ty yields_chars_copy as b1 H1. ty yields_chars_copy as b2 H2. ty yields_chars_copy as b3 H3. destruct Hm as [Hh Ht Hn].
  split; split; cbn; auto with types. destruct (_ =? _); auto with types.
Qed.

(** * btree.h *)

Record node_typed (n : btree_node) : Prop := NodeTyped {
  nt_keys : array 3 int64 (keys n);
  nt_slots : array 4 in_u32 (slots n);
  nt_leaf : in_u8 (is_leaf n);
  nt_count : in_u8 (n_count n);
}.

Record member_typed (m : btree_member) : Prop := MemberTyped {
  me_data : chars ZEDIS_BTREE_MAX_MEMBER (m_data m);
  me_len : in_u64 (m_len m);
  me_score : int64 (m_score m);
}.

Record tree_typed (t : btree) : Prop := TreeTyped {
  tr_nodes : Forall node_typed (nodes t);
  tr_members : Forall member_typed (members t);
  tr_root : in_u32 (root t);
  tr_free : in_u32 (free_node t);
  tr_count : in_u32 (member_count t);
  tr_max_nodes : in_u32 (max_nodes t);
  tr_max_members : in_u32 (max_members t);
}.
#[export] Hint Resolve nt_keys nt_slots nt_leaf nt_count me_data me_len me_score : types.
#[export] Hint Resolve tr_nodes tr_members tr_root tr_free tr_count tr_max_nodes tr_max_members : types.
#[export] Hint Resolve yields_aget yields_get : types.

Lemma int64_zero : int64 0.
Proof. done. Qed.
Lemma zeros_keys : array 3 int64 [0; 0; 0].
Proof. by repeat constructor. Qed.
Lemma zeros_slots : array 4 in_u32 [0; 0; 0; 0].
Proof. by repeat constructor. Qed.
Lemma NO_NODE_typed : in_u32 NO_NODE.
Proof. done. Qed.
#[export] Hint Resolve int64_zero zeros_keys zeros_slots NO_NODE_typed : types.

Lemma zero_node_typed : node_typed zero_node.
Proof. split; ty_end. Qed.
Lemma zero_member_typed : member_typed zero_member.
Proof. by split. Qed.
#[export] Hint Resolve zero_node_typed zero_member_typed : types.

Lemma set_nodes_typed t ns : tree_typed t → Forall node_typed ns → tree_typed (set_nodes t ns).
Proof. intros [] ?. by split. Qed.
Lemma set_root_typed t r : tree_typed t → in_u32 r → tree_typed (set_root t r).
Proof. intros [] ?. by split. Qed.
#[export] Hint Resolve set_nodes_typed set_root_typed : types.

Lemma alloc_node_typed t i t' : alloc_node t = (i, t') → tree_typed t → in_u32 i ∧ tree_typed t'.
Proof.
  unfold alloc_node. intros Ha Ht. destruct (_ >=? _); injection Ha as <- <-; [auto with types|].
  split; [auto with types|]. destruct Ht. split; ty_end.
Qed.

Lemma btree_init_typed a max t a' : in_u32 max → zedis_btree_init a max = (RC_OK, Some t, a') → tree_typed t.
Proof.
  intros Hm. unfold zedis_btree_init. destruct (_ =? _); [done|]. set (m := if _ >? _ then _ else _).
  assert (in_u32 m) by (unfold m; destruct (_ >? _); [done|done]).
  destruct (zedis_arena_calloc a _ _ _) as [p a1]. destruct (zedis_arena_calloc a1 _ _ _) as [q a2].
  destruct p; [|done]. destruct q; [|done]. intros [= <- _]. split; cbn; auto using calloc_typed with types.
Qed.

(** The loops that move keys and slots. *)
Lemma copy_keys_typed {n' : Z} (P : Z → Prop) n i off src dst k :
  array k P src → array n' P dst → yields (copy_keys n i off src dst) (array n' P).
Proof.
  intros Hs. revert i dst. induction n as [|n IH]; intros i dst Hd; cbn [copy_keys]; [done|].
  ty yields_get as x Hx. ty yields_set as dst' Hd'. by apply IH.
Qed.

Lemma leaf_shift_typed n i nd : node_typed nd → yields (leaf_shift n i nd) node_typed.
Proof.
  revert i nd. induction n as [|n IH]; intros i nd Hn; cbn [leaf_shift]; [done|].
  ty yields_get as k Hk. ty yields_set as ks Hks. ty yields_get as v Hv. ty yields_set as vs Hvs. apply IH. split; ty_end.
Qed.

Lemma node_shift_typed n i nd : node_typed nd → yields (node_shift n i nd) node_typed.
Proof.
  revert i nd. induction n as [|n IH]; intros i nd Hn; cbn [node_shift]; [done|].
  ty yields_get as k Hk. ty yields_set as ks Hks. ty yields_get as v Hv. ty yields_set as vs Hvs. apply IH. split; ty_end.
Qed.

Lemma copy_leaf_typed n i mid leaf right :
  node_typed leaf → node_typed right → yields (copy_leaf n i mid leaf right) node_typed.
Proof.
  intros Hl. revert i right. induction n as [|n IH]; intros i nd Hn; cbn [copy_leaf]; [done|].
  ty yields_get as k Hk. ty yields_set as ks Hks. ty yields_get as v Hv. ty yields_set as vs Hvs. apply IH. split; ty_end.
Qed.

Lemma leaf_insert_typed nd pos score midx :
  node_typed nd → int64 score → in_u32 midx → yields (leaf_insert_at nd pos score midx) node_typed.
Proof.
  intros Hn Hs Hm. unfold leaf_insert_at. ty leaf_shift_typed as nd' Hn'.
  ty yields_set as ks Hks. ty yields_set as vs Hvs. split; ty_end.
Qed.

Lemma node_insert_typed nd i promoted sibling :
  node_typed nd → int64 promoted → in_u32 sibling → yields (node_insert_at nd i promoted sibling) node_typed.
Proof.
  intros Hn Hs Hm. unfold node_insert_at. ty node_shift_typed as nd' Hn'.
  ty yields_set as ks Hks. ty yields_set as vs Hvs. split; ty_end.
Qed.

(** * Splitting and inserting *)

Definition split_typed (x : Z * Z * btree) : Prop := in_u32 x.1.1 ∧ int64 x.1.2 ∧ tree_typed x.2.

Lemma split_leaf_typed t i : tree_typed t → yields (split_leaf t i) split_typed.
Proof.
  intros Ht. unfold split_leaf. ty (yields_aget node_typed) as leaf Hl. destruct (alloc_node t) as [r t1] eqn:Ea.
  destruct (alloc_node_typed _ _ _ Ea Ht) as [Hr Ht1]. destruct (_ =? _); [unfold split_typed; ty_end|].
  ty yields_get as promoted Hp. eapply yields_bind; [apply copy_leaf_typed; [done|split; ty_end]|intros right Hrt].
  ty (yields_aset node_typed) as ns Hns. eapply yields_bind; [apply (yields_aset node_typed); [done|split; ty_end]|].
  intros ns' Hns'. unfold split_typed. ty_end.
Qed.

Lemma split_internal_typed t i : tree_typed t → yields (split_internal t i) split_typed.
Proof.
  intros Ht. unfold split_internal. ty (yields_aget node_typed) as nd Hn. destruct (alloc_node t) as [r t1] eqn:Ea.
  destruct (alloc_node_typed _ _ _ Ea Ht) as [Hr Ht1]. destruct (_ =? _); [unfold split_typed; ty_end|].
  ty yields_get as promoted Hp. ty copy_keys_typed as ks Hks. ty copy_keys_typed as cs Hcs.
  eapply yields_bind; [apply (yields_aset node_typed); [auto with types|split; ty_end]|intros ns Hns].
  eapply yields_bind; [apply (yields_aset node_typed); [done|split; ty_end]|].
  intros ns' Hns'. unfold split_typed. ty_end.
Qed.

Lemma split_node_typed t i : tree_typed t → yields (split_node t i) split_typed.
Proof.
  intros Ht. unfold split_node. ty_skip. destruct (negb _); [by apply split_leaf_typed|by apply split_internal_typed].
Qed.

Lemma insert_leaf_typed t i score midx :
  tree_typed t → int64 score → in_u32 midx → yields (insert_into_leaf t i score midx) (λ x, tree_typed x.2).
Proof.
  intros Ht Hs Hm. unfold insert_into_leaf. ty (yields_aget node_typed) as leaf Hl. do 2 ty_skip.
  ty leaf_insert_typed as leaf' Hl'. ty (yields_aset node_typed) as ns Hns. ty_end.
Qed.

Lemma insert_nonfull_typed fuel t i score midx :
  tree_typed t → int64 score → in_u32 midx → yields (insert_nonfull fuel t i score midx) (λ x, tree_typed x.2).
Proof.
  revert t i. induction fuel as [|fuel IH]; intros t i Ht Hs Hm; cbn [insert_nonfull]; [done|].
  ty (yields_aget node_typed) as nd Hn. destruct (negb _); [by apply insert_leaf_typed|]. ty_skip.
  ty yields_get as child Hc. ty_skip. destruct (_ >=? _); [|by apply IH].
  ty split_node_typed as [[sibling promoted] t1] (Hsib & Hp & Ht1). cbn [fst snd] in *. destruct (_ =? _); [done|].
  ty (yields_aget node_typed) as nd1 Hn1. ty node_insert_typed as nd2 Hn2. ty (yields_aset node_typed) as ns Hns.
  apply IH; auto with types.
Qed.

Lemma insert_entry_typed t score midx :
  tree_typed t → int64 score → in_u32 midx → yields (insert_entry t score midx) (λ x, tree_typed x.2).
Proof.
  intros Ht Hs Hm. unfold insert_entry. destruct (_ =? _).
  - destruct (alloc_node t) as [r t1] eqn:Ea. destruct (alloc_node_typed _ _ _ Ea Ht) as [Hr Ht1]. destruct (_ =? _); [done|].
    ty (yields_aget node_typed) as nd Hn. ty yields_set as ks Hks. ty yields_set as vs Hvs.
    eapply yields_bind; [apply (yields_aset node_typed); [auto with types|split; ty_end]|]. intros ns Hns. ty_end.
  - ty_skip. destruct (_ <? _); [by apply insert_nonfull_typed; auto with types|].
    destruct (alloc_node t) as [r t1] eqn:Ea. destruct (alloc_node_typed _ _ _ Ea Ht) as [Hr Ht1].
    ty split_node_typed as [[sibling promoted] t2] (Hsib & Hp & Ht2). cbn [fst snd] in *. destruct (_ || _); [done|].
    eapply yields_bind; [apply (yields_aset node_typed); [auto with types|]|intros ns Hns].
    { split; cbn; auto with types; (split; [done|]); repeat (apply Forall_cons; split); auto with types. }
    cbv zeta. destruct (_ >=? _); apply insert_nonfull_typed; auto with types.
Qed.

Lemma insert_members_typed n i t : tree_typed t → 0 <= i → i + Z.of_nat n < 2 ^ 32 → yields (insert_members n i t) tree_typed.
Proof.
  revert i t. induction n as [|n IH]; intros i t Ht Hi Hn; cbn [insert_members]; [done|].
  ty (yields_aget member_typed) as m Hm. ty insert_entry_typed as [rc t'] Ht'. cbn [snd] in *. apply IH; [done|lia|lia].
Qed.

Lemma btree_add_typed t score member :
  tree_typed t → int64 score → yields (zedis_btree_add t score member) (λ x, tree_typed x.2).
Proof.
  intros Ht Hs. unfold zedis_btree_add. destruct (_ || _); [done|]. ty_skip. destruct a as [existing|].
  - ty (yields_aget member_typed) as m Hm.
    eapply yields_bind; [apply (yields_aset member_typed); [auto with types|split; ty_end]|intros ms Hms].
    eapply yields_bind with (Q := tree_typed); [|by intros t'].
    unfold rebuild_btree. pose proof (tr_count _ Ht) as Hc. apply insert_members_typed; [|lia|cbn; unfold in_u32 in Hc; lia].
    split; cbn; auto with types. apply Forall_replicate. auto with types.
  - eapply yields_bind with (Q := λ x, in_u32 x.1 ∧ tree_typed x.2).
    + unfold alloc_member. destruct (_ >=? _); [ty_end|]. ty (yields_aget member_typed) as m Hm.
      ty yields_chars_copy as d Hd. ty yields_chars_set as d' Hd'.
      eapply yields_bind; [apply (yields_aset member_typed); [auto with types|split; cbn; [done| |done]]|].
      { pose proof (zlen_nonneg member). unfold ZEDIS_BTREE_MAX_MEMBER. destruct (_ <? _) eqn:E; zb; auto with types. }
      intros ms Hms. split; [ty_end|]. destruct Ht. split; ty_end.
    + intros [midx t1] [Hm Ht1]. cbn [fst snd] in *. destruct (_ =? _); [done|]. by apply insert_entry_typed.
Qed.

(** * key_registry.h *)

Record zreg_typed (r : zset_registry) : Prop := ZregTyped {
  zt_trees : Forall tree_typed (zr_trees r);
  zt_keys : table_typed (zr_keys r);
  zt_max : in_u32 (max_zsets r);
  zt_used : in_u32 (zr_used r);
}.

Record lreg_typed (r : list_registry) : Prop := LregTyped {
  ly_lists : Forall meta_typed (lr_lists r);
  ly_keys : table_typed (lr_keys r);
  ly_max : in_u32 (max_lists r);
  ly_used : in_u32 (lr_used r);
}.
#[export] Hint Resolve zt_trees zt_keys zt_max zt_used ly_lists ly_keys ly_max ly_used : types.

Lemma index_typed (ht : hash_table) max used key create :
  table_typed ht → in_u32 used → yields (index_for_key ht max used key create) (λ x, table_typed x.1.2 ∧ in_u32 x.2).
Proof.
  intros Ht Hu. unfold index_for_key. ty_skip. destruct a as [idx|]; [done|]. destruct (negb _); [done|]. destruct (_ >=? _); [done|].
  eapply yields_bind with (Q := λ x, table_typed x.2).
  - unfold store_index. destruct (_ <=? _); [done|]. ty_skip. by apply ht_set_typed.
  - intros [rc ht'] Ht'. cbn [fst snd] in *. destruct (negb _); ty_end.
Qed.

Lemma init_trees_typed n a max ts a' : in_u32 max → init_trees n a max = (Some ts, a') → Forall tree_typed ts.
Proof.
  intros Hm. revert a ts. induction n as [|n IH]; intros a ts; cbn [init_trees]; [by intros [= <- _]|].
  destruct (zedis_btree_init a max) as [[rc [t|]] a1] eqn:Et; [|done].
  destruct (init_trees n a1 max) as [[ts'|] a2] eqn:Ei; [|done]. intros [= <- ->].
  assert (rc = RC_OK) as ->.
  { revert Et. unfold zedis_btree_init. destruct (_ =? _); [done|]. destruct (zedis_arena_calloc a _ _ _) as [p b1].
    destruct (zedis_arena_calloc b1 _ _ _) as [q b2]. destruct p; [|done]. destruct q; [|done]. by intros [= <- _]. }
  constructor; [by eapply btree_init_typed|by eapply IH].
Qed.

Lemma zreg_init_typed a max maxm r a' :
  in_u32 max → in_u32 maxm → zedis_zset_reg_init a max maxm = (RC_OK, Some r, a') → zreg_typed r.
Proof.
  intros Hm Hmm. unfold zedis_zset_reg_init. destruct (_ =? _); [done|].
  destruct (zedis_arena_calloc _ _ _ _) as [[p|] a1]; [|done]. destruct (init_trees _ _ _) as [[ts|] a2] eqn:Et; [|done].
  destruct (zedis_ht_init _ _) as [[rc [ht|]] a3] eqn:Eh; [|done]. intros [= <- _].
  pose proof (ht_init_rc _ _ _ _ _ Eh) as ->. split; cbn; auto with types; [by eapply init_trees_typed|].
  eapply ht_init_typed; [|exact Eh]. pose proof (u32_range (max * 2)). unfold in_u64. lia.
Qed.

Lemma lreg_init_typed a max r a' : in_u32 max → zedis_list_reg_init a max = (RC_OK, Some r, a') → lreg_typed r.
Proof.
  intros Hm. unfold zedis_list_reg_init. destruct (_ =? _); [done|].
  destruct (zedis_arena_calloc _ _ _ _) as [[p|] a1]; [|done].
  destruct (zedis_ht_init _ _) as [[rc [ht|]] a3] eqn:Eh; [|done]. intros [= <- _].
  pose proof (ht_init_rc _ _ _ _ _ Eh) as ->. split; cbn; auto with types.
  - apply Forall_fmap. unfold compose. apply calloc_typed. by split.
  - eapply ht_init_typed; [|exact Eh]. pose proof (u32_range (max * 2)). unfold in_u64. lia.
Qed.

Lemma zreg_add_typed r key score member :
  zreg_typed r → int64 score → yields (zedis_zset_reg_add r key score member) (λ x, zreg_typed x.2).
Proof.
  intros Hr Hs. unfold zedis_zset_reg_add, zset_index_for_key. eapply yields_bind with (Q := λ x, zreg_typed x.2).
  - ty index_typed as [[i ht] used] [Hht Hu]. split; ty_end.
  - intros [[idx|] r1] Hr1; [|done]. cbn [fst snd] in Hr1. ty (yields_aget tree_typed) as t Ht. ty btree_add_typed as [rc t'] Ht'.
    ty (yields_aset tree_typed) as ts Hts. split; ty_end.
Qed.

Lemma lreg_lpush_typed r log key val :
  lreg_typed r → log_typed log → yields (zedis_list_reg_lpush r log key val) (λ x, lreg_typed x.1.2 ∧ log_typed x.2).
Proof.
  intros Hr Hl. unfold zedis_list_reg_lpush, list_index_for_key. eapply yields_bind with (Q := λ x, lreg_typed x.2).
  - ty index_typed as [[i ht] used] [Hht Hu]. split; ty_end.
  - intros [[idx|] r1] Hr1; [|done]. cbn [fst snd] in Hr1. ty (yields_aget meta_typed) as m Hm.
    ty lpush_typed as [[rc log'] m'] [Hlog Hm']. ty (yields_aset meta_typed) as ls Hls. split; [split; ty_end|done].
Qed.

(** * All data of a server *)

Record data_typed (k : hash_table) (b : order_book) (r : ring_buffer) (lg : append_log) (zs : zset_registry)
    (ls : list_registry) : Prop := DataTyped {
  dt_kv : table_typed k;
  dt_book : book_typed b;
  dt_ring : ring_typed r;
  dt_log : log_typed lg;
  dt_zsets : zreg_typed zs;
  dt_lists : lreg_typed ls;
}.
Arguments dt_kv {_ _ _ _ _ _} _.
Arguments dt_book {_ _ _ _ _ _} _.
Arguments dt_ring {_ _ _ _ _ _} _.
Arguments dt_log {_ _ _ _ _ _} _.
Arguments dt_zsets {_ _ _ _ _ _} _.
Arguments dt_lists {_ _ _ _ _ _} _.
