(* ===== verification/Slab.v ===== *)
(** The block pools of src/slab.c.

    A pool's free blocks are linked through the [next] field at the start of
    each block; [nexts] is the memory of those fields, by address.  The
    compare-and-exchange loops run once: the server is the only thread that
    uses its slab.

    Theorems: over any history of allocations and frees the outstanding blocks
    are distinct blocks of their pool and a request is refused exactly when
    its pool is used up; and how many bytes of a block its user really owns. *)

From stdpp Require Import gmap.
From S2P Require Import Prelude Arena.

Definition ZEDIS_SLAB_64 : Z := 64.
Definition ZEDIS_SLAB_256 : Z := 256.
Definition ZEDIS_SLAB_512 : Z := 512.
Definition ZEDIS_SLAB_4096 : Z := 4096.

(** offsetof (slab_block_t, data) *)
Definition BLOCK_DATA : Z := 8.

Record slab_pool := SlabPool {
  block_size : Z;
  block_count : Z;
  free_list : option Z;
  storage : Z;
  nexts : gmap Z (option Z);
}.

Abbreviation slab := (list slab_pool) (only parsing).

(** [block->next = head; head = block] for the blocks [i], [i+1], ... of a
    region of [size] bytes: the link of a block has eight bytes. *)
Fixpoint link_blocks (n : nat) (i base stride size : Z) (head : option Z) (m : gmap Z (option Z))
    : exec (option Z * gmap Z (option Z)) :=
  match n with
  | O => Ok (head, m)
  | S n' =>
      if i * stride + BLOCK_DATA <=? size then
        let block := base + i * stride in
        link_blocks n' (i + 1) base stride size (Some block) (<[block := head]> m)
      else Stuck OutOfBounds
  end.

Definition init_pool (a : arena) (bsize bcount : Z) : exec (option slab_pool * arena) :=
  let size := u64 (bsize * bcount) in
  match zedis_arena_alloc a size 64 with
  | (None, a') => Ok (None, a')
  | (Some base, a') =>
      x ← link_blocks (Z.to_nat bcount) 0 base bsize size None ∅;
      Ok (Some (SlabPool bsize bcount x.1 base x.2), a')
  end.

Definition zedis_slab_init (a : arena) (count_64 count_256 count_512 count_4096 : Z)
    : exec (Z * option slab * arena) :=
  x0 ← init_pool a ZEDIS_SLAB_64 count_64;
  match x0 with
  | (None, a1) => Ok (RC_ERR, None, a1)
  | (Some p0, a1) =>
      x1 ← init_pool a1 ZEDIS_SLAB_256 count_256;
      match x1 with
      | (None, a2) => Ok (RC_ERR, None, a2)
      | (Some p1, a2) =>
          x2 ← init_pool a2 ZEDIS_SLAB_512 count_512;
          match x2 with
          | (None, a3) => Ok (RC_ERR, None, a3)
          | (Some p2, a3) =>
              x3 ← init_pool a3 ZEDIS_SLAB_4096 count_4096;
              match x3 with
              | (None, a4) => Ok (RC_ERR, None, a4)
              | (Some p3, a4) => Ok (RC_OK, Some [p0; p1; p2; p3], a4)
              end
          end
      end
  end.

Definition zedis_slab_destroy (s : slab) : slab := replicate 4 (SlabPool 0 0 None 0 ∅).

(** The index of the pool for a size. *)
Definition pool_for_size (size : Z) : option nat :=
  if size <=? ZEDIS_SLAB_64 then Some 0%nat else
  if size <=? ZEDIS_SLAB_256 then Some 1%nat else
  if size <=? ZEDIS_SLAB_512 then Some 2%nat else
  if size <=? ZEDIS_SLAB_4096 then Some 3%nat else None.

Definition zedis_slab_alloc (s : slab) (size : Z) : exec (option Z * slab) :=
  match pool_for_size size with
  | None => Ok (None, s)
  | Some i =>
      p ← aget s (Z.of_nat i);
      match free_list p with
      | None => Ok (None, s)
      | Some head =>
          match nexts p !! head with
          | None => Stuck OutOfBounds
          | Some next =>
              let p' := SlabPool (block_size p) (block_count p) next (storage p)
                                 (<[head := None]> (nexts p)) in
              Ok (Some (head + BLOCK_DATA), <[i := p']> s)
          end
      end
  end.

Definition zedis_slab_free (s : slab) (ptr : option Z) (size : Z) : exec slab :=
  match ptr with
  | None => Ok s
  | Some ptr =>
      match pool_for_size size with
      | None => Ok s
      | Some i =>
          p ← aget s (Z.of_nat i);
          let block := ptr - BLOCK_DATA in
          Ok (<[i := SlabPool (block_size p) (block_count p) (Some block) (storage p)
                              (<[block := free_list p]> (nexts p))]> s)
      end
  end.

(** * Histories *)

(** [SFree i size] frees the [i]-th outstanding allocation, newest first. *)
Inductive slab_op := SAlloc (size : Z) | SFree (i : nat).

(** The state of the pools with the outstanding (pointer, size) pairs; the
    replies are the pointers that the allocations returned. *)
Fixpoint slab_run (s : slab) (outs : list (Z * Z)) (ops : list slab_op)
    : exec (list (option Z) * (slab * list (Z * Z))) :=
  match ops with
  | [] => Ok ([], (s, outs))
  | SAlloc size :: ops' =>
      x ← zedis_slab_alloc s size;
      rest ← slab_run x.2 (match x.1 with Some p => (p, size) :: outs | None => outs end) ops';
      Ok (x.1 :: rest.1, rest.2)
  | SFree i :: ops' =>
      match outs !! i with
      | None => slab_run s outs ops'
      | Some (p, size) =>
          s' ← zedis_slab_free s (Some p) size;
          slab_run s' (delete i outs) ops'
      end
  end.

(** * Invariant *)

(** The [next] fields link exactly the blocks [fl] from [head] on. *)
Fixpoint linked (m : gmap Z (option Z)) (head : option Z) (fl : list Z) : Prop :=
  match fl with
  | [] => head = None
  | b :: fl' => head = Some b ∧ ∃ next, m !! b = Some next ∧ linked m next fl'
  end.

Definition blocks (p : slab_pool) : list Z :=
  (λ i, storage p + i * block_size p) <$> seqZ 0 (block_count p).

(** The blocks of pool [i] that are outstanding. *)
Definition outs_of (i : nat) (outs : list (Z * Z)) : list Z :=
  (λ o : Z * Z, o.1 - BLOCK_DATA) <$> filter (λ o, pool_for_size o.2 = Some i) outs.

Definition class_size (i : nat) : Z :=
  match i with
  | 0%nat => ZEDIS_SLAB_64 | 1%nat => ZEDIS_SLAB_256
  | 2%nat => ZEDIS_SLAB_512 | _ => ZEDIS_SLAB_4096
  end.

Definition pool_rep (p : slab_pool) (i : nat) (outs : list (Z * Z)) : Prop :=
  block_size p = class_size i ∧ 0 < block_count p ∧
  ∃ fl, linked (nexts p) (free_list p) fl ∧ fl ++ outs_of i outs ≡ₚ blocks p.

Definition slab_rep (s : slab) (outs : list (Z * Z)) : Prop :=
  length s = 4%nat ∧ ∀ i p, s !! i = Some p → pool_rep p i outs.

Lemma pool_for_size_lt size i : pool_for_size size = Some i → (i < 4)%nat.
Proof. unfold pool_for_size. repeat bcase; intros [= <-]; lia. Qed.

Lemma class_size_pos i : 64 <= class_size i.
Proof. unfold class_size. repeat case_match; done. Qed.

Lemma blocks_NoDup p i : block_size p = class_size i → NoDup (blocks p).
Proof.
  intros Hb. unfold blocks. pose proof (class_size_pos i). apply NoDup_fmap_2_strong; [|apply NoDup_seqZ].
  intros x y _ _ Heq. rewrite Hb in Heq. nia.
Qed.

Lemma linked_insert_ne m b x head fl :
  b ∉ fl → linked m head fl → linked (<[b := x]> m) head fl.
Proof.
  revert head. induction fl as [|c fl IH]; intros head Hni Hl; [done|].
  destruct Hl as [-> (next & Hm & Hl)]. split; [done|]. exists next.
  apply not_elem_of_cons in Hni as [Hne Hni]. rewrite lookup_insert_ne by done. split; [done|].
  by apply IH.
Qed.

Lemma outs_of_cons i p size outs :
  outs_of i ((p, size) :: outs)
  = if decide (pool_for_size size = Some i) then (p - BLOCK_DATA) :: outs_of i outs
    else outs_of i outs.
Proof. unfold outs_of. rewrite filter_cons. cbn [snd]. by destruct (decide _). Qed.

#[export] Instance outs_of_proper i : Proper (Permutation ==> Permutation) (outs_of i).
Proof. intros l k Hp. unfold outs_of. apply fmap_Permutation. by rewrite Hp. Qed.

Lemma outs_of_delete i j p size outs :
  outs !! j = Some (p, size) → outs_of i outs ≡ₚ outs_of i ((p, size) :: delete j outs).
Proof. intros Hj. apply outs_of_proper. by apply delete_Permutation. Qed.

(** What a request is answered: a free block of its class, or nothing. *)
Lemma slab_alloc_ok s outs size :
  slab_rep s outs →
  match pool_for_size size with
  | None => zedis_slab_alloc s size = Ok (None, s)
  | Some i => ∃ p, s !! i = Some p ∧
      ((zedis_slab_alloc s size = Ok (None, s) ∧ outs_of i outs ≡ₚ blocks p) ∨
       ∃ b s', zedis_slab_alloc s size = Ok (Some (b + BLOCK_DATA), s') ∧ b ∈ blocks p ∧
         (b ∉ outs_of i outs) ∧ slab_rep s' ((b + BLOCK_DATA, size) :: outs))
  end.
Proof.
  intros [H4 Hrep]. unfold zedis_slab_alloc. destruct (pool_for_size size) as [i|] eqn:Ei; [|done].
  pose proof (pool_for_size_lt _ _ Ei) as Hi. destruct (lookup_lt_is_Some_2 s i) as [p Hp]; [lia|].
  exists p. split; [done|]. pose proof (Hrep i p Hp) as (Hbs & Hbc & fl & Hl & Hperm).
  assert (aget s (Z.of_nat i) = Ok p) as -> by (apply aget_lookup; rewrite Nat2Z.id; split; [lia|done]).
  cbn [mbind exec_bind]. destruct fl as [|b fl]; [left; cbn in Hl; by rewrite Hl|right].
  destruct Hl as [-> (next & -> & Hl)]. exists b. eexists. split; [done|].
  pose proof (blocks_NoDup p i Hbs) as Hnd. rewrite <-Hperm in Hnd.
  apply NoDup_app in Hnd as ([Hbf _]%NoDup_cons & Hd & _).
  split; [rewrite <-Hperm; by left|]. split; [apply Hd; by left|].
  split; [by rewrite length_insert|]. intros j q Hq.
  destruct (decide (i = j)) as [<-|Hne].
  - rewrite list_lookup_insert_eq in Hq by lia. injection Hq as <-.
    split; [done|]. split; [done|]. exists fl. split; [by apply linked_insert_ne|].
    rewrite outs_of_cons, decide_True by done. rewrite Z.add_simpl_r, <-Permutation_middle. exact Hperm.
  - rewrite list_lookup_insert_ne in Hq by done. destruct (Hrep j q Hq) as (? & ? & fl' & ? & ?).
    split; [done|]. split; [done|]. exists fl'. split; [done|].
    rewrite outs_of_cons, decide_False by congruence. done.
Qed.

Lemma slab_free_ok s outs j p size :
  slab_rep s outs → outs !! j = Some (p, size) → (∃ i, pool_for_size size = Some i) → ∃ s',
    zedis_slab_free s (Some p) size = Ok s' ∧ slab_rep s' (delete j outs).
Proof.
  intros [H4 Hrep] Hj [i Ei]. unfold zedis_slab_free. rewrite Ei.
  pose proof (pool_for_size_lt _ _ Ei) as Hi. destruct (lookup_lt_is_Some_2 s i) as [q Hq]; [lia|].
  assert (aget s (Z.of_nat i) = Ok q) as -> by (apply aget_lookup; rewrite Nat2Z.id; split; [lia|done]).
  cbn [mbind exec_bind]. eexists. split; [done|]. split; [by rewrite length_insert|]. intros k r Hr.
  destruct (decide (i = k)) as [<-|Hne].
  - rewrite list_lookup_insert_eq in Hr by lia. injection Hr as <-.
    destruct (Hrep i q Hq) as (Hbs & Hbc & fl & Hl & Hperm). split; [done|]. split; [done|].
    exists ((p - BLOCK_DATA) :: fl). pose proof (outs_of_delete i j p size outs Hj) as Hdel.
    rewrite outs_of_cons, decide_True in Hdel by done. rewrite Hdel in Hperm.
    pose proof (blocks_NoDup q i Hbs) as Hnd. rewrite <-Hperm in Hnd.
    apply NoDup_app in Hnd as (_ & Hd & _). split.
    + split; [done|]. exists (free_list q). cbn [nexts]. split; [by rewrite lookup_insert_eq|].
      apply linked_insert_ne; [|done]. intros Hin. apply (Hd _ Hin). by left.
    + change (p - BLOCK_DATA :: fl ++ outs_of i (delete j outs) ≡ₚ blocks q).
      by rewrite Permutation_middle.
  - rewrite list_lookup_insert_ne in Hr by done. destruct (Hrep k r Hr) as (? & ? & fl' & ? & Hp).
    split; [done|]. split; [done|]. exists fl'. split; [done|].
    pose proof (outs_of_delete k j p size outs Hj) as Hdel.
    rewrite outs_of_cons, decide_False in Hdel by congruence. by rewrite Hdel in Hp.
Qed.

Lemma link_blocks_linked n i base stride size head m fl head' m' :
  0 <= i → 0 < stride → linked m head fl → (∀ b, b ∈ fl → b < base + i * stride) →
  link_blocks n i base stride size head m = Ok (head', m') →
  ∃ fl', linked m' head' fl' ∧
    fl' ≡ₚ ((λ j, base + j * stride) <$> seqZ i (Z.of_nat n)) ++ fl.
Proof.
  revert i head m fl. induction n as [|n IH]; intros i head m fl Hi Hs Hl Hb; cbn [link_blocks].
  { intros [= <- <-]. exists fl. split; [done|]. rewrite seqZ_nil by lia. done. }
  destruct (_ <=? _); [|done]. set (b := base + i * stride). intros Hrun.
  destruct (IH (i + 1) (Some b) (<[b := head]> m) (b :: fl)) as (fl' & Hl' & Hp); [lia|done| | |done|].
  - split; [done|]. exists head. split; [by rewrite lookup_insert_eq|].
    apply linked_insert_ne; [|done]. intros Hin. specialize (Hb _ Hin). lia.
  - intros c [->|Hc]%elem_of_cons; [unfold b; nia|]. specialize (Hb _ Hc). nia.
  - exists fl'. split; [done|]. rewrite Hp, (seqZ_cons i) by lia. unfold Z.succ.
    rewrite Nat2Z.inj_succ, Z.pred_succ. cbn [fmap list_fmap app]. by rewrite <-Permutation_middle.
Qed.

(** The links stay inside a region that has room for all blocks. *)
Lemma link_blocks_ok n i base stride size head m :
  0 <= i → BLOCK_DATA <= stride → (i + Z.of_nat n) * stride <= size →
  ∃ x, link_blocks n i base stride size head m = Ok x.
Proof.
  revert i head m. induction n as [|n IH]; intros i head m Hi Hs Hsz; cbn [link_blocks]; [by eexists|].
  unfold BLOCK_DATA in *. rewrite Nat2Z.inj_succ in Hsz. destruct (_ <=? size) eqn:E; zb; [apply IH; lia|nia].
Qed.

Lemma init_pool_rep a i bcount p a' :
  0 < bcount → init_pool a (class_size i) bcount = Ok (Some p, a') → pool_rep p i [].
Proof.
  intros Hc. unfold init_pool. destruct (zedis_arena_alloc _ _ _) as [[base|] a1]; [|done].
  destruct (link_blocks _ _ _ _ _ _ _) as [[head m]|] eqn:El; [|done]. cbn [mbind exec_bind]. intros [= <- <-].
  pose proof (class_size_pos i).
  destruct (link_blocks_linked (Z.to_nat bcount) 0 base (class_size i) (u64 (class_size i * bcount)) None ∅ [] head m) as (fl & Hl & Hp);
    [lia|lia|done|intros b Hb; by apply elem_of_nil in Hb|exact El|].
  split; [done|]. split; [done|]. exists fl. split; [done|]. unfold outs_of, blocks; cbn.
  rewrite app_nil_r in *. by rewrite Hp, Z2Nat.id by lia.
Qed.

(** Where the size of the pool does not wrap, nothing is written outside. *)
Lemma init_pool_ok a i bcount :
  0 <= bcount → class_size i * bcount < 2 ^ 64 → ∃ x, init_pool a (class_size i) bcount = Ok x.
Proof.
  intros Hc Hw. pose proof (class_size_pos i). unfold init_pool. rewrite u64_small by nia.
  destruct (zedis_arena_alloc _ _ _) as [[base|] a1]; [|by eexists].
  destruct (link_blocks_ok (Z.to_nat bcount) 0 base (class_size i) (class_size i * bcount) None ∅) as [x ->];
    [lia|unfold BLOCK_DATA; lia|rewrite Z2Nat.id by lia; lia|]. by eexists.
Qed.

(** The pools of an initialised slab. *)
Lemma slab_init_pools a c0 c1 c2 c3 rc s a' :
  zedis_slab_init a c0 c1 c2 c3 = Ok (rc, Some s, a') → rc = RC_OK ∧ length s = 4%nat ∧
  ∀ i p, s !! i = Some p → ∃ a1 a2, init_pool a1 (class_size i) (nth i [c0; c1; c2; c3] 0) = Ok (Some p, a2).
Proof.
  unfold zedis_slab_init.
  destruct (init_pool a _ _) as [[[p0|] a1]|] eqn:E0; [|done..]. cbn [mbind exec_bind].
  destruct (init_pool a1 _ _) as [[[p1|] a2]|] eqn:E1; [|done..]. cbn [mbind exec_bind].
  destruct (init_pool a2 _ _) as [[[p2|] a3]|] eqn:E2; [|done..]. cbn [mbind exec_bind].
  destruct (init_pool a3 _ _) as [[[p3|] a4]|] eqn:E3; [|done..]. cbn [mbind exec_bind]. intros [= <- <- <-].
  split; [done|]. split; [done|]. intros i p Hp.
  destruct i as [|[|[|[|i]]]]; [injection Hp as <-; do 2 eexists; eassumption..|done].
Qed.

Lemma slab_init_rep a c0 c1 c2 c3 rc s a' :
  0 < c0 → 0 < c1 → 0 < c2 → 0 < c3 → zedis_slab_init a c0 c1 c2 c3 = Ok (rc, Some s, a') →
  slab_rep s [].
Proof.
  intros H0 H1 H2 H3 Hinit. apply slab_init_pools in Hinit as (_ & Hl & Hps). split; [done|]. intros i p Hp.
  destruct (Hps i p Hp) as (a1 & a2 & Hpool). eapply init_pool_rep; [|exact Hpool].
  apply lookup_lt_Some in Hp. rewrite Hl in Hp. destruct i as [|[|[|[|i]]]]; [done..|lia].
Qed.

(** zedis_slab_init does not fault where the sizes of the pools do not wrap. *)
Lemma slab_init_ok a c0 c1 c2 c3 :
  0 <= c0 < 2 ^ 58 → 0 <= c1 < 2 ^ 56 → 0 <= c2 < 2 ^ 55 → 0 <= c3 < 2 ^ 52 →
  ∃ x, zedis_slab_init a c0 c1 c2 c3 = Ok x.
Proof.
  intros H0 H1 H2 H3. unfold zedis_slab_init. pose proof init_pool_ok as Hp.
  destruct (Hp a 0%nat c0 ltac:(lia) ltac:(cbn; unfold ZEDIS_SLAB_64; lia)) as [[[p0|] a1] E0];
    cbn [class_size] in E0; rewrite E0; [|by eexists]; cbn [mbind exec_bind].
  destruct (Hp a1 1%nat c1 ltac:(lia) ltac:(cbn; unfold ZEDIS_SLAB_256; lia)) as [[[p1|] a2] E1];
    cbn [class_size] in E1; rewrite E1; [|by eexists]; cbn [mbind exec_bind].
  destruct (Hp a2 2%nat c2 ltac:(lia) ltac:(cbn; unfold ZEDIS_SLAB_512; lia)) as [[[p2|] a3] E2];
    cbn [class_size] in E2; rewrite E2; [|by eexists]; cbn [mbind exec_bind].
  destruct (Hp a3 3%nat c3 ltac:(lia) ltac:(cbn; unfold ZEDIS_SLAB_4096; lia)) as [[[p3|] a4] E3];
    cbn [class_size] in E3; rewrite E3; by eexists.
Qed.

Definition outs_ok (outs : list (Z * Z)) : Prop :=
  Forall (λ o : Z * Z, ∃ i, pool_for_size o.2 = Some i) outs.

Lemma slab_run_ok s outs (ops : list slab_op) :
  slab_rep s outs → outs_ok outs → ∃ rs s' outs',
    slab_run s outs ops = Ok (rs, (s', outs')) ∧ slab_rep s' outs' ∧ outs_ok outs'.
Proof.
  revert s outs. induction ops as [|op ops IH]; intros s outs Hrep Hok; [by exists [], s, outs|].
  cbn [slab_run]. destruct op as [size|i].
  - pose proof (slab_alloc_ok s outs size Hrep) as Ha.
    destruct (pool_for_size size) as [k|] eqn:Ek.
    + destruct Ha as (p & Hp & [[-> _]|(b & s1 & -> & _ & _ & Hrep1)]); cbn [mbind exec_bind fst snd].
      * destruct (IH s outs Hrep Hok) as (rs & s' & outs' & -> & ?). by eexists _, s', outs'.
      * destruct (IH s1 ((b + BLOCK_DATA, size) :: outs) Hrep1) as (rs & s' & outs' & -> & ?);
          [by constructor; [exists k|]|]. by eexists _, s', outs'.
    + rewrite Ha. cbn [mbind exec_bind fst snd].
      destruct (IH s outs Hrep Hok) as (rs & s' & outs' & -> & ?). by eexists _, s', outs'.
  - destruct (outs !! i) as [[p size]|] eqn:Ei; [|by apply IH].
    destruct (slab_free_ok s outs i p size Hrep Ei) as (s1 & -> & Hrep1).
    { by apply (Forall_lookup_1 _ _ _ _ Hok Ei). }
    cbn [mbind exec_bind]. apply IH; [done|]. by apply Forall_delete.
Qed.

(** * Theorems *)

(** C27: From a fresh slab, any history of allocations and frees of what was
    allocated runs to its end; afterwards the outstanding blocks of each size
    class are pairwise different blocks of its pool, and the next request is
    refused exactly when its size exceeds 4096 or every block of its class is
    outstanding, and otherwise gets a block that is not. *)
Theorem slab_history_safe a c0 c1 c2 c3 s a' (ops : list slab_op) :
  0 < c0 → 0 < c1 → 0 < c2 → 0 < c3 → zedis_slab_init a c0 c1 c2 c3 = Ok (RC_OK, Some s, a') →
  ∃ rs s' outs, slab_run s [] ops = Ok (rs, (s', outs)) ∧
  ∀ size, match pool_for_size size with
    | None => zedis_slab_alloc s' size = Ok (None, s')
    | Some i => ∃ p, s' !! i = Some p ∧ NoDup (outs_of i outs) ∧ outs_of i outs ⊆ blocks p ∧
        ((zedis_slab_alloc s' size = Ok (None, s') ∧ zlen (outs_of i outs) = block_count p) ∨
         ∃ b s'', zedis_slab_alloc s' size = Ok (Some (b + BLOCK_DATA), s'') ∧ b ∈ blocks p ∧
           (b ∉ outs_of i outs) ∧ zlen (outs_of i outs) < block_count p)
    end.
Proof.
  intros H0 H1 H2 H3 Hinit. pose proof (slab_init_rep _ _ _ _ _ _ _ _ H0 H1 H2 H3 Hinit) as Hrep.
  destruct (slab_run_ok s [] ops Hrep) as (rs & s' & outs & Hrun & Hrep' & _); [by constructor|].
  exists rs, s', outs. split; [done|]. intros size. pose proof (slab_alloc_ok s' outs size Hrep') as Ha.
  destruct (pool_for_size size) as [i|] eqn:Ei; [|done]. destruct Ha as (p & Hp & Ha).
  exists p. split; [done|]. destruct Hrep' as [_ Hall]. destruct (Hall i p Hp) as (Hbs & Hbc & fl & _ & Hperm).
  pose proof (blocks_NoDup p i Hbs) as Hnd. rewrite <-Hperm in Hnd. apply NoDup_app in Hnd as (_ & _ & Hnd).
  split; [done|]. split; [intros b Hb; rewrite <-Hperm; apply elem_of_app; by right|].
  assert (zlen (blocks p) = block_count p) as Hlen.
  { unfold blocks, zlen. rewrite length_fmap, length_seqZ. lia. }
  destruct Ha as [[Ha Hfull]|(b & s'' & Ha & Hb & Hni & _)].
  - left. split; [done|]. unfold zlen in *. by rewrite Hfull.
  - right. exists b, s''. split; [done|]. split; [done|]. split; [done|].
    rewrite <-Hperm in Hb. rewrite <-Hlen. unfold zlen. rewrite <-Hperm, length_app.
    apply elem_of_app in Hb as [Hb|Hb]; [|done]. destruct fl; [by apply elem_of_nil in Hb|]. cbn. lia.
Qed.

(** The slab that a fresh arena of 2 MiB gives. *)
Definition slab_of (c0 c1 c2 c3 : Z) : slab :=
  match zedis_slab_init (Arena 4096 2097152 0 0) c0 c1 c2 c3 with
  | Ok (_, Some s, _) => s
  | _ => []
  end.

Lemma slab_history_safe_witness :
  ∃ rs s' outs,
    slab_run (slab_of 2 1 1 1) [] [SAlloc 10; SAlloc 64; SAlloc 64; SFree 0; SAlloc 5000]
      = Ok (rs, (s', outs)) ∧
    zlen (outs_of 0 outs) = 1 ∧ ∃ p s'', zedis_slab_alloc s' 64 = Ok (Some p, s'').
Proof.
  destruct (slab_history_safe (Arena 4096 2097152 0 0) 2 1 1 1 (slab_of 2 1 1 1)
    (Arena 4096 2097152 4992 0) [SAlloc 10; SAlloc 64; SAlloc 64; SFree 0; SAlloc 5000])
    as (rs & s' & outs & Hrun & Hnext); [lia..|vm_compute; reflexivity|].
  exists rs, s', outs. split; [exact Hrun|].
  vm_compute in Hrun. injection Hrun as <- <- <-. split; [reflexivity|].
  destruct (Hnext 64) as (p & _ & _ & _ & [[Ha _]|(b & s'' & Ha & _)]); [discriminate Ha|].
  by exists (b + BLOCK_DATA), s''.
Defined.

(** A request is served with a block of its class although the first
    eight bytes of the block hold the link: a request of more than the block
    size minus eight bytes runs past the end of its block, over the link of
    the following block, or past the storage of the pool for the last one. *)
Theorem slab_block_too_small s outs size p s' i pool :
  slab_rep s outs → pool_for_size size = Some i → s !! i = Some pool →
  zedis_slab_alloc s size = Ok (Some p, s') → block_size pool - BLOCK_DATA < size →
  let fin := p - BLOCK_DATA + block_size pool in
  p + size > fin ∧ (fin ∈ blocks pool ∨ fin = storage pool + block_count pool * block_size pool).
Proof.
  intros Hrep Ei Hp Ha Hsize fin. split; [unfold fin, BLOCK_DATA in *; lia|].
  pose proof (slab_alloc_ok s outs size Hrep) as H. rewrite Ei in H.
  destruct H as (q & Hq & [[Hn _]|(b & s1 & Hs & Hb & _)]); [congruence|].
  rewrite Hq in Hp. injection Hp as ->. rewrite Ha in Hs. injection Hs as -> ->.
  unfold fin. rewrite Z.add_simpl_r. unfold blocks in *.
  apply list_elem_of_fmap in Hb as (j & -> & Hj%elem_of_seqZ).
  destruct (decide (j + 1 = block_count pool)) as [He|Hne].
  - right. rewrite <-He. lia.
  - left. apply list_elem_of_fmap. exists (j + 1). split; [lia|]. apply elem_of_seqZ. lia.
Qed.

Lemma slab_block_too_small_witness :
  ∃ p s', zedis_slab_alloc (slab_of 1 1 1 2) 4096 = Ok (Some p, s') ∧
    p + 4096 > p - BLOCK_DATA + 4096.
Proof.
  assert (∃ p s', zedis_slab_alloc (slab_of 1 1 1 2) 4096 = Ok (Some p, s')) as (p & s' & Ha).
  { do 2 eexists. vm_compute. reflexivity. }
  assert (∃ pool, slab_of 1 1 1 2 !! 3%nat = Some pool ∧ block_size pool = 4096) as (pool & Hp & Hb).
  { eexists. split; vm_compute; reflexivity. }
  exists p, s'. split; [exact Ha|].
  destruct (slab_block_too_small (slab_of 1 1 1 2) [] 4096 p s' 3%nat pool) as [H _].
  - apply (slab_init_rep (Arena 4096 2097152 0 0) 1 1 1 2 RC_OK (slab_of 1 1 1 2) (Arena 4096 2097152 9024 0));
      [lia..|vm_compute; reflexivity].
  - reflexivity.
  - exact Hp.
  - exact Ha.
  - rewrite Hb. reflexivity.
  - rewrite Hb in H. exact H.
Defined.
