(* ===== verification/SlabSteps.v ===== *)
(** A pool of the slab that several threads use: the accesses that
    zedis_slab_alloc and zedis_slab_free of src/slab.c make to [free_list] and
    to the [next] fields, one step each.  The compare-and-swap may fail for no
    reason, as atomic_compare_exchange_weak does.

    While one thread allocates, any number of threads may free: the blocks
    that are held stay apart.  Two threads that allocate can be handed the same
    block: between the read of [head->next] and the compare-and-swap the head
    may be taken, and given back with another successor. *)

From stdpp Require Import gmap.
From S2P Require Import Prelude Arena Slab.

(** Where a thread is: before the access that the constructor names. *)
Inductive thread :=
  | Idle
  | AllocLoad
  | AllocNext (head : Z)
  | AllocCas (head : Z) (next : option Z)
  | AllocClear (head : Z)
  | FreeLoad (block : Z)
  | FreeLink (block : Z) (head : option Z)
  | FreeCas (block : Z) (head : option Z).

#[export] Instance thread_eq_dec : EqDecision thread.
Proof. solve_decision. Defined.

Definition set_head (p : slab_pool) (h : option Z) : slab_pool :=
  SlabPool (block_size p) (block_count p) h (storage p) (nexts p).
Definition set_next (p : slab_pool) (b : Z) (n : option Z) : slab_pool :=
  SlabPool (block_size p) (block_count p) (free_list p) (storage p) (<[b := n]> (nexts p)).

(** The loop condition of zedis_slab_alloc, with the head that was read; the
    pointer that the call returns, if it does. *)
Definition alloc_test (head : option Z) : option (option Z) * thread :=
  match head with None => (Some None, Idle) | Some h => (None, AllocNext h) end.

(** One step; [weak] is a compare-and-swap that fails for no reason. *)
Definition alloc_step (p : slab_pool) (t : thread) (weak : bool) : exec (option (option Z) * slab_pool * thread) :=
  match t with
  | AllocLoad => let '(r, t') := alloc_test (free_list p) in Ok (r, p, t')
  | AllocNext h =>
      match nexts p !! h with
      | None => Stuck OutOfBounds
      | Some n => Ok (None, p, AllocCas h n)
      end
  | AllocCas h n =>
      if negb weak && bool_decide (free_list p = Some h) then Ok (None, set_head p n, AllocClear h)
      else let '(r, t') := alloc_test (free_list p) in Ok (r, p, t')
  | AllocClear h => Ok (Some (Some (h + BLOCK_DATA)), set_next p h None, Idle)
  | _ => Ok (None, p, t)
  end.

Definition free_step (p : slab_pool) (t : thread) (weak : bool) : slab_pool * thread :=
  match t with
  | FreeLoad b => (p, FreeLink b (free_list p))
  | FreeLink b h => (set_next p b h, FreeCas b h)
  | FreeCas b h =>
      if negb weak && bool_decide (free_list p = h) then (set_head p (Some b), Idle)
      else (p, FreeLink b (free_list p))
  | _ => (p, t)
  end.

(** [held]: the pointers that were returned and not yet passed to free. *)
Record system := System { pool : slab_pool; threads : list thread; held : list Z }.

(** What may happen next: a thread calls alloc, or free on the [j]-th pointer
    that is held, or makes a step. *)
Inductive action := CallAlloc (i : nat) | CallFree (i j : nat) | Step (i : nat) (weak : bool).

Definition allocating (t : thread) : bool :=
  match t with AllocLoad | AllocNext _ | AllocCas _ _ | AllocClear _ => true | _ => false end.

(** Calls by a thread that is busy, and frees of nothing, do not happen. *)
Definition act (s : system) (x : action) : exec system :=
  match x with
  | CallAlloc i =>
      Ok (if bool_decide (threads s !! i = Some Idle) then System (pool s) (<[i := AllocLoad]> (threads s)) (held s) else s)
  | CallFree i j =>
      Ok (match threads s !! i, held s !! j with
          | Some Idle, Some ptr => System (pool s) (<[i := FreeLoad (ptr - BLOCK_DATA)]> (threads s)) (delete j (held s))
          | _, _ => s
          end)
  | Step i weak =>
      match threads s !! i with
      | None => Ok s
      | Some t =>
          if allocating t then
            y ← alloc_step (pool s) t weak;
            let '(r, p', t') := y in
            Ok (System p' (<[i := t']> (threads s)) (match r with Some (Some ptr) => ptr :: held s | _ => held s end))
          else let '(p', t') := free_step (pool s) t weak in Ok (System p' (<[i := t']> (threads s)) (held s))
      end
  end.

Fixpoint acts (s : system) (xs : list action) : exec system :=
  match xs with [] => Ok s | x :: xs' => s' ← act s x; acts s' xs' end.

(** * A call that is not interrupted *)

Fixpoint alloc_alone (fuel : nat) (p : slab_pool) (t : thread) : exec (option Z * slab_pool) :=
  match fuel with
  | O => Stuck OutOfFuel
  | S fuel' =>
      y ← alloc_step p t false;
      match y with (Some r, p', _) => Ok (r, p') | (None, p', t') => alloc_alone fuel' p' t' end
  end.

Fixpoint free_alone (fuel : nat) (p : slab_pool) (t : thread) : exec slab_pool :=
  match fuel with
  | O => Stuck OutOfFuel
  | S fuel' => match free_step p t false with (p', Idle) => Ok p' | (p', t') => free_alone fuel' p' t' end
  end.

(** The steps of a call that no other thread interrupts give the result of
    zedis_slab_alloc and zedis_slab_free, faults included. *)
Theorem slab_steps_are_operations s size i p :
  pool_for_size size = Some i → s !! i = Some p →
  zedis_slab_alloc s size = (x ← alloc_alone 4 p AllocLoad; Ok (x.1, <[i := x.2]> s)) ∧
  ∀ ptr, zedis_slab_free s (Some ptr) size = (p' ← free_alone 3 p (FreeLoad (ptr - BLOCK_DATA)); Ok (<[i := p']> s)).
Proof.
  intros Hi Hp. assert (aget s (Z.of_nat i) = Ok p) as Hg by (apply aget_lookup; rewrite Nat2Z.id; split; [lia|done]).
  split.
  - unfold zedis_slab_alloc. rewrite Hi, Hg. cbn [mbind exec_bind alloc_alone alloc_step alloc_test].
    destruct (free_list p) as [h|] eqn:Eh; cbn [mbind exec_bind alloc_alone alloc_step alloc_test fst snd].
    + destruct (nexts p !! h) as [n|]; [|done]. cbn [mbind exec_bind alloc_step]. by rewrite Eh, bool_decide_eq_true_2 by done.
    + by rewrite list_insert_id.
  - intros ptr. unfold zedis_slab_free. rewrite Hi, Hg. cbn [mbind exec_bind free_alone free_step set_next free_list].
    by rewrite bool_decide_eq_true_2 by done.
Qed.

(** * The invariant *)

(** The block that is neither in the list nor held while a thread moves it. *)
Definition moving (t : thread) : list Z :=
  match t with AllocClear b | FreeLoad b | FreeLink b _ | FreeCas b _ => [b] | _ => [] end.
Definition all_moving (ts : list thread) : list Z := ts ≫= moving.

Definition block_of (ptr : Z) : Z := ptr - BLOCK_DATA.

(** What a thread knows of the list [fl]; only [a] allocates. *)
Definition knows (m : gmap Z (option Z)) (fl : list Z) (t : thread) : Prop :=
  match t with
  | AllocNext h => h ∈ fl
  | AllocCas h n => h ∈ fl ∧ m !! h = Some n
  | FreeCas b h => m !! b = Some h
  | _ => True
  end.

Definition same_storage (p0 p : slab_pool) : Prop :=
  block_size p = block_size p0 ∧ block_count p = block_count p0 ∧ storage p = storage p0.

Record inv (a : nat) (p0 : slab_pool) (s : system) : Prop := Inv {
  inv_storage : same_storage p0 (pool s);
  inv_list : ∃ fl, linked (nexts (pool s)) (free_list (pool s)) fl ∧
    fl ++ all_moving (threads s) ++ (block_of <$> held s) ≡ₚ blocks p0 ∧
    ∀ i t, threads s !! i = Some t → knows (nexts (pool s)) fl t;
  inv_alone : ∀ i t, threads s !! i = Some t → allocating t = true → i = a;
}.

Lemma all_moving_lookup ts i t : ts !! i = Some t → all_moving ts ≡ₚ moving t ++ all_moving (delete i ts).
Proof. intros Ht. unfold all_moving. by rewrite (delete_Permutation ts i t Ht) at 1. Qed.

Lemma delete_insert_same {A} (l : list A) i x : delete i (<[i := x]> l) = delete i l.
Proof. revert i. induction l as [|y l IH]; intros [|i]; [done..|]. cbn. f_equal. apply IH. Qed.

Lemma all_moving_insert ts i t t' :
  ts !! i = Some t → all_moving (<[i := t']> ts) ≡ₚ moving t' ++ all_moving (delete i ts).
Proof.
  intros Ht. rewrite (all_moving_lookup (<[i := t']> ts) i t').
  - f_equiv. unfold all_moving. by rewrite delete_insert_same.
  - apply list_lookup_insert_eq. by eapply lookup_lt_Some.
Qed.

(** A change of one [next] field that is in no list and that no other thread
    waits on. *)
Lemma knows_insert m fl b x t : b ∉ fl → b ∉ moving t → knows m fl t → knows (<[b := x]> m) fl t.
Proof.
  intros Hfl Hb Hk. destruct t as [| |h|h n|h|c|c h|c h]; try done; cbn in *.
  - destruct Hk as [Hin Hm]. split; [done|]. rewrite lookup_insert_ne; [done|]. by intros ->.
  - rewrite lookup_insert_ne; [done|]. set_solver.
Qed.

Lemma knows_push m fl b t : knows m fl t → knows m (b :: fl) t.
Proof. destruct t; cbn; set_solver. Qed.

(** The blocks of the threads are apart from each other and from the rest. *)
Lemma moving_apart fl ts rest i t b j u :
  NoDup (fl ++ all_moving ts ++ rest) → ts !! i = Some t → b ∈ moving t →
  (b ∉ fl) ∧ (b ∉ rest) ∧ (ts !! j = Some u → j ≠ i → b ∉ moving u).
Proof.
  intros Hnd Hi Hb. rewrite (all_moving_lookup ts i t Hi) in Hnd. rewrite !NoDup_app in Hnd.
  split; [set_solver|]. split; [set_solver|]. intros Hj Hne Hu.
  assert (b ∈ all_moving (delete i ts)) as Hin; [|set_solver].
  apply list_elem_of_bind. exists u. split; [done|]. destruct (decide (j < i)%nat).
  - apply list_elem_of_lookup. exists j. by rewrite list_lookup_delete_lt.
  - apply list_elem_of_lookup. exists (Nat.pred j). rewrite list_lookup_delete_ge by lia. by replace (S (Nat.pred j)) with j by lia.
Qed.

(** A thread goes on from [t] to [t']; the list is [fl] before and [fl'] after. *)
Lemma inv_go a p0 s fl i t p' fl' t' held' :
  inv a p0 s → fl ++ all_moving (threads s) ++ (block_of <$> held s) ≡ₚ blocks p0 →
  (∀ j u, threads s !! j = Some u → knows (nexts (pool s)) fl u) →
  threads s !! i = Some t → same_storage p0 p' → linked (nexts p') (free_list p') fl' →
  fl' ++ moving t' ++ (block_of <$> held') ≡ₚ fl ++ moving t ++ (block_of <$> held s) →
  knows (nexts p') fl' t' →
  (∀ j u, threads s !! j = Some u → j ≠ i → knows (nexts (pool s)) fl u → knows (nexts p') fl' u) →
  (allocating t' = true → i = a) → inv a p0 (System p' (<[i := t']> (threads s)) held').
Proof.
  intros [_ _ Halone] Hp Hk Hi Hb Hl Hperm Ht' Hother Hal.
  assert (∀ j u, <[i := t']> (threads s) !! j = Some u → (j = i ∧ u = t') ∨ (j ≠ i ∧ threads s !! j = Some u)) as Hlook.
  { intros j u. rewrite list_lookup_insert_Some. naive_solver. }
  split; [done| |].
  - exists fl'. split; [done|]. split.
    + rewrite <-Hp. cbn [threads held]. rewrite (all_moving_insert _ _ _ _ Hi), (all_moving_lookup _ _ _ Hi).
      rewrite <-!app_assoc, !(Permutation_app_comm (all_moving _)), !app_assoc, <-(app_assoc fl'), <-(app_assoc fl). by rewrite Hperm.
    + intros j u Hj. destruct (Hlook j u Hj) as [[-> ->]|[Hne Hu]]; [done|]. by eapply Hother; [..|eapply Hk].
  - intros j u Hj. destruct (Hlook j u Hj) as [[-> ->]|[Hne Hu]]; [done|by eapply Halone].
Qed.

Lemma linked_head m h fl : linked m h fl → h = head fl.
Proof. by destruct fl; [|intros [-> _]]. Qed.

(** The head that a thread which allocates has read is in the list. *)
Lemma alloc_test_ok p fl r t' :
  linked (nexts p) (free_list p) fl → alloc_test (free_list p) = (r, t') →
  (r = None ∨ r = Some None) ∧ knows (nexts p) fl t' ∧ moving t' = [].
Proof.
  intros Hl. rewrite (linked_head _ _ _ Hl). destruct fl as [|b fl]; intros [= <- <-]; [split; [by right|done]|]. split; [by left|].
  split; [by left|done].
Qed.

Lemma step_alloc_ok a p0 s i t weak :
  NoDup (blocks p0) → inv a p0 s → threads s !! i = Some t → allocating t = true → ∃ r p' t',
    alloc_step (pool s) t weak = Ok (r, p', t') ∧
    inv a p0 (System p' (<[i := t']> (threads s)) (match r with Some (Some ptr) => ptr :: held s | _ => held s end)).
Proof.
  intros Hnd Hinv Hi Ha. pose proof Hinv as [Hb (fl & Hl & Hp & Hk) Halone]. pose proof (Halone i t Hi Ha) as ->.
  pose proof (Hk _ _ Hi) as Hkt.
  assert (∀ r t', alloc_test (free_list (pool s)) = (r, t') → moving t = [] →
    inv a p0 (System (pool s) (<[a := t']> (threads s)) (match r with Some (Some ptr) => ptr :: held s | _ => held s end))) as Htest.
  { intros r t' Ht Hm. destruct (alloc_test_ok _ _ _ _ Hl Ht) as (Hr & Hkn & Hm').
    replace (match r with Some (Some ptr) => ptr :: held s | _ => held s end) with (held s) by (by destruct Hr as [-> | ->]).
    by apply (inv_go a p0 s fl a t (pool s) fl t'); try done; rewrite ?Hm, ?Hm'. }
  destruct t as [| |h|h n|h| | |]; try done; cbn [alloc_step].
  - destruct (alloc_test _) as [r t'] eqn:Et. do 3 eexists. split; [done|]. by apply Htest.
  - assert (∃ n, nexts (pool s) !! h = Some n) as [n Hn].
    { cbn in Hkt. clear -Hl Hkt. revert Hl. generalize (free_list (pool s)). induction fl as [|b fl IH]; [by apply elem_of_nil in Hkt|].
      intros o [_ (nx & Hnx & Hl)]. apply elem_of_cons in Hkt as [->|Hin]; [by exists nx|by eapply IH]. }
    rewrite Hn. do 3 eexists. split; [done|]. by apply (inv_go a p0 s fl a (AllocNext h) (pool s) fl).
  - destruct (negb weak && _) eqn:E.
    + apply andb_true_iff in E as [_ E]. apply bool_decide_eq_true in E. do 3 eexists. split; [done|].
      destruct fl as [|b fl]; [destruct Hkt as [Hin _]; by apply elem_of_nil in Hin|].
      destruct Hl as [Hhd (nx & Hnx & Hl)]. destruct Hkt as [_ Hn]. assert (b = h) as -> by congruence.
      assert (nx = n) as -> by congruence.
      apply (inv_go a p0 s (h :: fl) a (AllocCas h n) _ fl); try done; [cbn; by rewrite Permutation_middle|].
      intros j u Hj Hne Hu. destruct u as [| |h'|h' n'|h'|c|c h'|c h']; try done; destruct Hne; by eapply Halone.
    + destruct (alloc_test _) as [r t'] eqn:Et. do 3 eexists. split; [done|]. by apply Htest.
  - do 3 eexists. split; [done|]. rewrite <-Hp in Hnd.
    apply (inv_go a p0 s fl a (AllocClear h) _ fl); try done.
    + apply linked_insert_ne; [|done]. exact (proj1 (moving_apart fl _ _ a _ h a Idle Hnd Hi ltac:(by left))).
    + cbn [moving fmap list_fmap app]. unfold block_of at 1. by rewrite Z.add_simpl_r.
    + intros j u Hj Hne Hu. destruct (moving_apart fl _ _ a _ h j u Hnd Hi ltac:(by left)) as (H1 & _ & H3).
      apply knows_insert; [done|by apply H3|done].
Qed.

Lemma step_free_ok a p0 s i t weak p' t' :
  NoDup (blocks p0) → inv a p0 s → threads s !! i = Some t → allocating t = false → free_step (pool s) t weak = (p', t') →
  inv a p0 (System p' (<[i := t']> (threads s)) (held s)).
Proof.
  intros Hnd Hinv Hi Ha Hst. pose proof Hinv as [Hb (fl & Hl & Hp & Hk) Halone]. pose proof (Hk _ _ Hi) as Hkt. rewrite <-Hp in Hnd.
  destruct t as [| |h|h n|h|b|b h|b h]; try done; cbn [free_step] in Hst.
  - injection Hst as <- <-. by apply (inv_go a p0 s fl i Idle (pool s) fl).
  - injection Hst as <- <-. by apply (inv_go a p0 s fl i (FreeLoad b) (pool s) fl).
  - injection Hst as <- <-.
    pose proof (λ j u, moving_apart fl _ _ i _ b j u Hnd Hi ltac:(by left)) as Hap.
    apply (inv_go a p0 s fl i (FreeLink b h) _ fl); try done; cbn [set_next nexts free_list].
    + apply linked_insert_ne; [|done]. apply (Hap i Idle).
    + apply lookup_insert_eq.
    + intros j u Hj Hne Hu. destruct (Hap j u) as (H1 & _ & H3). apply knows_insert; [done|by apply H3|done].
  - destruct (negb weak && _) eqn:E; injection Hst as <- <-.
    + apply andb_true_iff in E as [_ E]. apply bool_decide_eq_true in E.
      apply (inv_go a p0 s fl i (FreeCas b h) _ (b :: fl)); try done.
      * cbn in *. split; [done|]. exists h. split; [done|]. by rewrite <-E.
      * cbn. by rewrite Permutation_middle.
      * intros j u _ _ Hu. by apply knows_push.
    + by apply (inv_go a p0 s fl i (FreeCas b h) (pool s) fl).
Qed.

Lemma act_ok a p0 s x :
  NoDup (blocks p0) → inv a p0 s → (∀ i, x = CallAlloc i → i = a) → ∃ s', act s x = Ok s' ∧ inv a p0 s'.
Proof.
  intros Hnd Hinv Hx. pose proof Hinv as [Hb (fl & Hl & Hp & Hk) Halone]. destruct x as [i|i j|i weak]; cbn [act].
  - eexists. split; [done|]. case_bool_decide as Hi; [|done].
    apply (inv_go a p0 s fl i Idle (pool s) fl); try done. intros _. by apply Hx.
  - eexists. split; [done|]. destruct (threads s !! i) as [[]|] eqn:Hi; try done. destruct (held s !! j) as [ptr|] eqn:Hj; [|done].
    apply (inv_go a p0 s fl i Idle (pool s) fl); try done. cbn [moving app]. f_equiv.
    by rewrite (delete_Permutation (held s) j ptr Hj) at 2.
  - destruct (threads s !! i) as [t|] eqn:Hi; [|by eexists]. destruct (allocating t) eqn:Ea.
    + destruct (step_alloc_ok a p0 s i t weak Hnd Hinv Hi Ea) as (r & p' & t' & -> & Hinv'). by eexists.
    + destruct (free_step _ _ _) as [p' t'] eqn:Ef. eexists. split; [done|]. by eapply step_free_ok.
Qed.

Lemma acts_ok a p0 s xs :
  NoDup (blocks p0) → inv a p0 s → Forall (λ x, ∀ i, x = CallAlloc i → i = a) xs → ∃ s', acts s xs = Ok s' ∧ inv a p0 s'.
Proof.
  intros Hnd Hinv Hxs. revert s Hinv. induction Hxs as [|x xs Hx _ IH]; intros s Hinv; cbn [acts]; [by exists s|].
  destruct (act_ok a p0 s x Hnd Hinv Hx) as (s1 & -> & H1). by apply IH.
Qed.

(** * One thread that allocates *)

(** C28: With any number of threads on a pool, of which one allocates and all
    may free what is held, every interleaving of their accesses, with
    compare-and-swaps that fail for no reason, keeps the blocks that are held
    apart and inside the pool, and no access is to anything else; when no
    thread is inside a call, the free list holds exactly the other blocks. *)
Theorem slab_one_allocator ar k count p ar' (n a : nat) (xs : list action) :
  0 < count → init_pool ar (class_size k) count = Ok (Some p, ar') → pool_for_size (class_size k) = Some k →
  Forall (λ x, ∀ i, x = CallAlloc i → i = a) xs →
  ∃ s, acts (System p (replicate n Idle) []) xs = Ok s ∧ NoDup (held s) ∧
    (∀ ptr, ptr ∈ held s → ptr - BLOCK_DATA ∈ blocks p) ∧
    (Forall (eq Idle) (threads s) → pool_rep (pool s) k ((λ ptr, (ptr, class_size k)) <$> held s)).
Proof.
  intros Hc Hinit Hk Hxs. destruct (init_pool_rep _ _ _ _ _ Hc Hinit) as (Hbs & Hbc & fl & Hl & Hp).
  pose proof (blocks_NoDup p k Hbs) as Hnd.
  assert (all_moving (replicate n Idle) = []) as Hm0 by (unfold all_moving; clear; by induction n).
  destruct (acts_ok a p (System p (replicate n Idle) []) xs Hnd) as (s & Hrun & [(H1 & H2 & H3) (fl' & Hl' & Hp' & _) _]); [|done|].
  { split; [done| |]; cbn [pool threads held].
    - exists fl. rewrite Hm0. split; [done|]. split; [done|]. intros i t [-> _]%lookup_replicate. done.
    - intros i t [-> _]%lookup_replicate. done. }
  exists s. split; [done|]. pose proof Hnd as Hnd'. rewrite <-Hp', !NoDup_app in Hnd'. split.
  { destruct Hnd' as (_ & _ & _ & _ & Hh). by eapply NoDup_fmap_1. }
  split.
  { intros ptr Hin. rewrite <-Hp'. do 2 (apply elem_of_app; right). apply list_elem_of_fmap. by exists ptr. }
  intros Hidle. split; [by rewrite H1|]. split; [by rewrite H2|]. exists fl'. split; [done|].
  assert (outs_of k ((λ ptr, (ptr, class_size k)) <$> held s) = block_of <$> held s) as ->.
  { clear -Hk. induction (held s) as [|ptr l IH]; [done|]. rewrite !fmap_cons, outs_of_cons, decide_True by done. by rewrite IH. }
  assert (all_moving (threads s) = []) as Hm.
  { unfold all_moving. clear -Hidle. induction Hidle as [|t ts <- _ IH]; [done|exact IH]. }
  rewrite Hm in Hp'. cbn [app] in Hp'. rewrite Hp'. unfold blocks. by rewrite H1, H2, H3.
Qed.

(** A pool of three blocks of 64 bytes. *)
Definition three_blocks : slab_pool :=
  match init_pool (Arena 4096 2097152 0 0) ZEDIS_SLAB_64 3 with Ok (Some p, _) => p | _ => SlabPool 0 0 None 0 ∅ end.

(** Thread 0 takes a block, which thread 1 gives back while thread 0 takes the next. *)
Definition overlapping : list action :=
  [CallAlloc 0; Step 0 false; Step 0 false; Step 0 false; Step 0 false; CallFree 1 0; CallAlloc 0; Step 1 false; Step 0 false;
   Step 1 false; Step 0 false; Step 1 false; Step 0 false; Step 0 true; Step 0 false; Step 0 false; Step 0 false; Step 0 false].

Lemma slab_one_allocator_witness :
  ∃ s, acts (System three_blocks [Idle; Idle] []) overlapping = Ok s ∧ length (held s) = 1%nat ∧ NoDup (held s).
Proof.
  destruct (slab_one_allocator (Arena 4096 2097152 0 0) 0 3 three_blocks (Arena 4096 2097152 192 0) 2 0 overlapping)
    as (s & Hrun & Hnd & _).
  - lia.
  - vm_compute. reflexivity.
  - reflexivity.
  - unfold overlapping. repeat (apply Forall_cons; split; [intros i Hi; congruence|]). constructor.
  - exists s. split; [exact Hrun|]. split; [|exact Hnd]. vm_compute in Hrun. by injection Hrun as <-.
Defined.

(** C29: Two threads that allocate can be handed the same block: one of them
    reads the head and its successor, the other one takes both blocks and gives
    the first one back, and the compare-and-swap of the first thread succeeds
    and puts the second block, which is held, at the head of the free list. *)
Theorem slab_two_allocators : ∃ xs s,
  acts (System three_blocks [Idle; Idle] []) xs = Ok s ∧ threads s = [Idle; Idle] ∧ ¬ NoDup (held s).
Proof.
  exists ([CallAlloc 0; Step 0 false; Step 0 false]
    ++ [CallAlloc 1; Step 1 false; Step 1 false; Step 1 false; Step 1 false]
    ++ [CallAlloc 1; Step 1 false; Step 1 false; Step 1 false; Step 1 false]
    ++ [CallFree 1 1; Step 1 false; Step 1 false; Step 1 false]
    ++ [Step 0 false; Step 0 false]
    ++ [CallAlloc 1; Step 1 false; Step 1 false; Step 1 false; Step 1 false]).
  eexists. split; [vm_compute; reflexivity|]. split; [reflexivity|].
  intros Hnd. apply (bool_decide_pack _) in Hnd. vm_compute in Hnd. done.
Qed.
