(* ===== verification/Resp.v ===== *)
(** The RESP parser: src/resp_buf.c, resp_scan.c, resp_nodes.c and
    resp_decode.c.

    A parsed value refers to its text by (offset, length) in the parser's
    buffer, as the zero-copy pointers of the C code do.  Array elements carry
    the address of the node that holds them, so that the free list and the
    slab can be followed; [malloc] is the C library's, and [n_malloc] the
    addresses it will still return (none left: NULL). *)

From S2P Require Import Prelude Arena Slab.

Definition RESP_PARSER_DEFAULT_BUF : Z := 64 * 1024.
Definition SIZEOF_RESP_NODE : Z := 72.

(** [out->type] with its payload; a text is an (offset, length) pair. *)
Inductive resp_value :=
  | RSimple (text : Z * Z)
  | RError (text : Z * Z)
  | RInteger (value : Z)
  | RBulk (text : Z * Z)
  | RNull
  | RArray (elems : list (Z * resp_value)).

Inductive resp_parse_status := RESP_NEED_MORE | RESP_OK | RESP_ERROR.

(** Where nodes come from: the parser's free list, the slab, malloc. *)
Record node_env := NodeEnv {
  n_free : list Z;
  n_slab : option slab;
  n_malloc : list Z;
}.

Record resp_parser := RespParser {
  buf : list Z;
  buf_cap : Z;
  r_pos : Z;
  w_pos : Z;
  env : node_env;
}.

(** * resp_buf.c *)

(** [mem] is the block that malloc returns, with its indeterminate bytes. *)
Definition resp_parser_init_ex (mem : Z → option (list Z)) (sl : option slab) (ms : list Z)
    (cap : Z) : option resp_parser :=
  let cap := if cap =? 0 then RESP_PARSER_DEFAULT_BUF else cap in
  match mem cap with
  | None => None
  | Some b => Some (RespParser b cap 0 0 (NodeEnv [] sl ms))
  end.

Definition resp_parser_init (mem : Z → option (list Z)) (sl : option slab) (ms : list Z)
    : option resp_parser := resp_parser_init_ex mem sl ms RESP_PARSER_DEFAULT_BUF.

(** The nodes that are given back to malloc: those of the free list, but only
    when the parser has no slab. *)
Definition resp_parser_destroy (p : resp_parser) : list Z :=
  match n_slab (env p) with None => n_free (env p) | Some _ => [] end.

Definition resp_parser_reset (p : resp_parser) : resp_parser :=
  RespParser (buf p) (buf_cap p) 0 0 (env p).

Definition resp__compact (p : resp_parser) : exec resp_parser :=
  if r_pos p =? 0 then Ok p else
  let unread := u64 (w_pos p - r_pos p) in
  b ← (if unread >? 0 then
         bytes ← read_n (buf p) (r_pos p) unread;
         memcpy (buf p) 0 bytes
       else Ok (buf p));
  Ok (RespParser b (buf_cap p) 0 unread (env p)).

Definition resp_parser_space (p : resp_parser) : Z := u64 (buf_cap p - w_pos p).

(** The bytes that the caller stores at [resp_parser_write_ptr]. *)
Definition resp_parser_write (p : resp_parser) (data : list Z) : exec resp_parser :=
  b ← memcpy (buf p) (w_pos p) data;
  Ok (RespParser b (buf_cap p) (r_pos p) (w_pos p) (env p)).

Definition resp_parser_commit (p : resp_parser) (n : Z) : resp_parser :=
  RespParser (buf p) (buf_cap p) (r_pos p) (u64 (w_pos p + n)) (env p).

Definition resp_parser_feed (p : resp_parser) (data : list Z) : exec (Z * resp_parser) :=
  let len := zlen data in
  if len =? 0 then Ok (0, p) else
  if u64 (w_pos p + len) <=? buf_cap p then
    p1 ← resp_parser_write p data;
    Ok (0, resp_parser_commit p1 len)
  else
    let free_total := u64 (buf_cap p - u64 (w_pos p - r_pos p)) in
    if free_total <? len then Ok (RC_ERR, p) else
    p1 ← resp__compact p;
    p2 ← resp_parser_write p1 data;
    Ok (0, resp_parser_commit p2 len).

(** * resp_nodes.c *)

(** A node, or nothing when malloc fails. *)
Definition resp__node_alloc (e : node_env) : exec (option Z * node_env) :=
  match n_free e with
  | n :: fl => Ok (Some n, NodeEnv fl (n_slab e) (n_malloc e))
  | [] =>
      let from_malloc sl :=
        match n_malloc e with
        | n :: ms => Ok (Some n, NodeEnv [] sl ms)
        | [] => Ok (None, NodeEnv [] sl [])
        end in
      match n_slab e with
      | None => from_malloc None
      | Some s =>
          x ← zedis_slab_alloc s SIZEOF_RESP_NODE;
          match x with
          | (Some n, s') => Ok (Some n, NodeEnv [] (Some s') (n_malloc e))
          | (None, s') => from_malloc (Some s')
          end
      end
  end.

Definition resp__node_free (e : node_env) (n : Z) : node_env :=
  NodeEnv (n :: n_free e) (n_slab e) (n_malloc e).

(** The nodes of a list of elements in the order in which the loop of
    resp__node_list_release frees them: children before their parent. *)
Fixpoint release_order (v : resp_value) : list Z :=
  match v with
  | RArray es => concat (map (λ e, release_order e.2 ++ [e.1]) es)
  | _ => []
  end.

Definition resp__node_list_release (e : node_env) (es : list (Z * resp_value)) : node_env :=
  foldl resp__node_free e (release_order (RArray es)).

(** * resp_scan.c *)

(** The loop from [i] on; [n] is the number of bytes left. *)
Fixpoint find_crlf_loop (n : nat) (p : resp_parser) (i : Z) : exec (option Z) :=
  match n with
  | O => Ok None
  | S n' =>
      if i + 1 <? w_pos p then
        a ← aget (buf p) i;
        b ← aget (buf p) (i + 1);
        if (a =? CR) && (b =? LF) then Ok (Some i) else find_crlf_loop n' p (i + 1)
      else Ok None
  end.

Definition resp__find_crlf (p : resp_parser) (from : Z) : exec (option Z) :=
  find_crlf_loop (Z.to_nat (w_pos p - from)) p from.

Fixpoint parse_digits (n : nat) (b : list Z) (i value : Z) : exec (option Z) :=
  match n with
  | O => Ok (Some value)
  | S n' =>
      c ← aget b i;
      if negb (is_digit c) then Ok None else
      v10 ← chk_i64 (value * 10);
      v ← chk_i64 (v10 + (c - 48));
      parse_digits n' b (i + 1) v
  end.

Definition resp__parse_int (b : list Z) (from to : Z) : exec (option Z) :=
  if from >=? to then Ok None else
  c ← aget b from;
  let neg := c =? 45 in
  let i := if neg then from + 1 else from in
  if i >=? to then Ok None else
  d ← aget b i;
  if negb (is_digit d) then Ok None else
  r ← parse_digits (Z.to_nat (to - i)) b i 0;
  match r with
  | None => Ok None
  | Some value => if neg then v ← chk_i64 (- value); Ok (Some v) else Ok (Some value)
  end.

(** Loop for the first LF. *)
Fixpoint find_lf (n : nat) (b : list Z) (i : Z) : exec (option Z) :=
  match n with
  | O => Ok None
  | S n' => c ← aget b i; if c =? LF then Ok (Some i) else find_lf n' b (i + 1)
  end.

Definition is_blank (c : Z) : bool := (c =? 32) || (c =? 9).

(** [while (i < line_end && test (buf[i])) i++] *)
Fixpoint skip_while (n : nat) (test : Z → bool) (b : list Z) (i : Z) : exec Z :=
  match n with
  | O => Ok i
  | S n' => c ← aget b i; if test c then skip_while n' test b (i + 1) else Ok i
  end.

(** The outcome of parsing at a position: the status, and for RESP_OK the
    value and the position after it. *)
Inductive presult :=
  | PNeedMore
  | PError
  | POk (v : resp_value) (pos : Z).

Fixpoint inline_tokens (fuel : nat) (b : list Z) (i line_end : Z) (es : list (Z * resp_value))
    (e : node_env) : exec (option (list (Z * resp_value)) * node_env) :=
  match fuel with
  | O => Stuck OutOfFuel
  | S fuel' =>
      if i >=? line_end then Ok (Some es, e) else
      tok ← skip_while (Z.to_nat (line_end - i)) is_blank b i;
      if tok >=? line_end then Ok (Some es, e) else
      i' ← skip_while (Z.to_nat (line_end - tok)) (λ c, negb (is_blank c)) b tok;
      x ← resp__node_alloc e;
      match x with
      | (None, e') => Ok (None, resp__node_list_release e' es)
      | (Some n, e') => inline_tokens fuel' b i' line_end (es ++ [(n, RBulk (tok, i' - tok))]) e'
      end
  end.

Definition resp__parse_inline (p : resp_parser) (pos : Z) (e : node_env)
    : exec (presult * node_env) :=
  r ← find_lf (Z.to_nat (w_pos p - pos)) (buf p) pos;
  match r with
  | None => Ok (PNeedMore, e)
  | Some lf =>
      line_end ← (if lf >? pos then
                    c ← aget (buf p) (lf - 1); Ok (if c =? CR then lf - 1 else lf)
                  else Ok lf);
      x ← inline_tokens (S (Z.to_nat (line_end - pos))) (buf p) pos line_end [] e;
      match x with
      | (None, e') => Ok (PError, e')
      | (Some es, e') => Ok (POk (RArray es) (lf + 1), e')
      end
  end.

(** * resp_decode.c *)

(** The loop of parse_array; [pv] parses one value.  [es] are the elements so
    far and [remaining] the number still to come. *)
Fixpoint parse_elems (fuel : nat) (pv : Z → node_env → exec (presult * node_env))
    (pos remaining : Z) (es : list (Z * resp_value)) (e : node_env) : exec (presult * node_env) :=
  match fuel with
  | O => Stuck OutOfFuel
  | S fuel' =>
      if remaining <=? 0 then Ok (POk (RArray es) pos, e) else
      x ← resp__node_alloc e;
      match x with
      | (None, e1) => Ok (PError, resp__node_list_release e1 es)
      | (Some n, e1) =>
          y ← pv pos e1;
          match y with
          | (POk v pos', e2) => parse_elems fuel' pv pos' (remaining - 1) (es ++ [(n, v)]) e2
          | (r, e2) => Ok (r, resp__node_list_release (resp__node_free e2 n) es)
          end
      end
  end.

Definition is_prefix_byte (c : Z) : bool :=
  (c =? 43) || (c =? 45) || (c =? 58) || (c =? 36) || (c =? 42).

Fixpoint parse_value (fuel : nat) (p : resp_parser) (pos : Z) (e : node_env)
    : exec (presult * node_env) :=
  match fuel with
  | O => Stuck OutOfFuel
  | S fuel' =>
      if pos >=? w_pos p then Ok (PNeedMore, e) else
      prefix ← aget (buf p) pos;
      let line_start := pos + 1 in
      if negb (is_prefix_byte prefix) then resp__parse_inline p pos e else
      r ← resp__find_crlf p line_start;
      match r with
      | None => Ok (PNeedMore, e)
      | Some crlf =>
          if (prefix =? 43) || (prefix =? 45) then
            let text := (line_start, crlf - line_start) in
            Ok (POk (if prefix =? 43 then RSimple text else RError text) (crlf + 2), e)
          else
            n ← resp__parse_int (buf p) line_start crlf;
            match n with
            | None => Ok (PError, e)
            | Some value =>
                if prefix =? 58 then Ok (POk (RInteger value) (crlf + 2), e) else
                if value <? 0 then Ok (POk RNull (crlf + 2), e) else
                if prefix =? 36 then
                  let data_start := crlf + 2 in
                  let data_end := u64 (data_start + value) in
                  if u64 (data_end + 2) >? w_pos p then Ok (PNeedMore, e) else
                  a ← aget (buf p) data_end;
                  b ← aget (buf p) (data_end + 1);
                  if negb (a =? CR) || negb (b =? LF) then Ok (PError, e)
                  else Ok (POk (RBulk (data_start, value)) (data_end + 2), e)
                else
                  parse_elems (S (Z.to_nat (w_pos p - pos))) (parse_value fuel' p)
                    (crlf + 2) value [] e
            end
      end
  end.

Definition status_of (r : presult) : resp_parse_status :=
  match r with PNeedMore => RESP_NEED_MORE | PError => RESP_ERROR | POk _ _ => RESP_OK end.

Definition resp_parser_next (p : resp_parser) : exec (presult * resp_parser) :=
  p1 ← (if r_pos p >? Z.quot (buf_cap p) 2 then resp__compact p else Ok p);
  x ← parse_value (S (Z.to_nat (w_pos p1 - r_pos p1))) p1 (r_pos p1) (env p1);
  let '(r, e) := x in
  let pos := match r with POk _ pos => pos | _ => r_pos p1 end in
  Ok (r, RespParser (buf p1) (buf_cap p1) pos (w_pos p1) e).

Definition resp_value_release (p : resp_parser) (v : resp_value) : resp_parser :=
  match v with
  | RArray es =>
      RespParser (buf p) (buf_cap p) (r_pos p) (w_pos p) (resp__node_list_release (env p) es)
  | _ => p
  end.
