(* ===== verification/RespSafe.v ===== *)
(** Safety of the RESP parser: for any buffer contents it ends, stays inside
    the buffer, loses no node, and the only undefined behaviour it can reach
    is the overflow of a numeral. *)

From stdpp Require Import gmap.
From S2P Require Import Prelude Arena Slab Resp.

(** A run that ends in [Q], or that overflows a signed integer. *)
Definition safe {A} (m : exec A) (Q : A → Prop) : Prop :=
  match m with Ok a => Q a | Stuck f => f = SignedOverflow end.

Lemma safe_bind {A B} (m : exec A) (k : A → exec B) (Q : A → Prop) (R : B → Prop) :
  safe m Q → (∀ a, Q a → safe (k a) R) → safe (m ≫= k) R.
Proof. destruct m as [a|f]; cbn; [intros HQ Hk; by apply Hk|done]. Qed.

Lemma safe_weaken {A} (m : exec A) (Q R : A → Prop) :
  safe m Q → (∀ a, Q a → R a) → safe m R.
Proof. destruct m as [a|f]; cbn; [intros HQ Hk; by apply Hk|done]. Qed.

Lemma safe_chk z (Q : Z → Prop) : Q z → safe (chk_i64 z) Q.
Proof. unfold chk_i64. destruct (_ && _); done. Qed.

Definition parser_wf (p : resp_parser) : Prop :=
  zlen (buf p) = buf_cap p ∧ 0 <= r_pos p <= w_pos p ∧ w_pos p <= buf_cap p ∧ buf_cap p < 2 ^ 62.

(** The part of [parser_wf] that a parse relies on. *)
Definition buf_wf (p : resp_parser) : Prop :=
  0 <= w_pos p <= zlen (buf p) ∧ zlen (buf p) < 2 ^ 62.

Lemma safe_aget {A} (l : list A) i (Q : A → Prop) :
  0 <= i < zlen l → (∀ x, l !! Z.to_nat i = Some x → Q x) → safe (aget l i) Q.
Proof. intros Hi HQ. destruct (aget_ok l i Hi) as (x & -> & Hx). by apply HQ. Qed.

(** * Scanning *)

Definition crlf_at (b : list Z) (i : Z) : Prop :=
  b !! Z.to_nat i = Some CR ∧ b !! Z.to_nat (i + 1) = Some LF.

Lemma find_crlf_ok p from :
  buf_wf p → 0 <= from → ∃ r, resp__find_crlf p from = Ok r ∧
  match r with
  | Some i => from <= i ∧ i + 1 < w_pos p ∧ crlf_at (buf p) i ∧
              ∀ j, from <= j < i → ¬ crlf_at (buf p) j
  | None => ∀ j, from <= j → j + 1 < w_pos p → ¬ crlf_at (buf p) j
  end.
Proof.
  intros [Hw _] Hf. unfold resp__find_crlf.
  assert (∀ n i, 0 <= i → w_pos p - i <= Z.of_nat n → ∃ r, find_crlf_loop n p i = Ok r ∧
    match r with
    | Some k => i <= k ∧ k + 1 < w_pos p ∧ crlf_at (buf p) k ∧ ∀ j, i <= j < k → ¬ crlf_at (buf p) j
    | None => ∀ j, i <= j → j + 1 < w_pos p → ¬ crlf_at (buf p) j
    end) as Hloop; [|apply Hloop; lia].
  induction n as [|n IH]; intros i Hi Hn; cbn [find_crlf_loop].
  { exists None. split; [done|]. intros j Hj Hjw. lia. }
  destruct (i + 1 <? w_pos p) eqn:E; zb.
  2:{ exists None. split; [done|]. intros j Hj Hjw. lia. }
  destruct (aget_ok (buf p) i) as (a & -> & Ha); [lia|]. cbn [mbind exec_bind].
  destruct (aget_ok (buf p) (i + 1)) as (b & -> & Hb); [lia|]. cbn [mbind exec_bind].
  destruct ((a =? CR) && (b =? LF)) eqn:Eab.
  - zb. subst a b. exists (Some i). split; [done|]. split; [lia|]. split; [lia|]. split; [done|]. lia.
  - assert (¬ crlf_at (buf p) i) as Hni.
    { intros [Hc Hl]. rewrite Ha in Hc. rewrite Hb in Hl. injection Hc as ->. injection Hl as ->. done. }
    destruct (IH (i + 1)) as (r & -> & Hr); [lia|lia|]. exists r. split; [done|].
    destruct r as [k|].
    + destruct Hr as (? & ? & ? & Hno). split; [lia|]. split; [done|]. split; [done|].
      intros j Hj. destruct (decide (j = i)) as [->|]; [done|]. apply Hno. lia.
    + intros j Hj Hjw. destruct (decide (j = i)) as [->|]; [done|]. apply Hr; lia.
Qed.

Definition in_i64 (r : option Z) : Prop := ∀ v, r = Some v → - 2 ^ 63 <= v < 2 ^ 63.

Lemma chk_i64_safe z : safe (chk_i64 z) (λ v, - 2 ^ 63 <= v < 2 ^ 63).
Proof.
  unfold chk_i64. destruct (_ && _) eqn:E; [|done]. unfold INT64_MIN, INT64_MAX in E. zb. cbn. lia.
Qed.

Lemma parse_digits_safe n b i v :
  0 <= i → i + Z.of_nat n <= zlen b → - 2 ^ 63 <= v < 2 ^ 63 → safe (parse_digits n b i v) in_i64.
Proof.
  revert i v. induction n as [|n IH]; intros i v Hi Hn Hv; cbn [parse_digits]; [by intros ? [= <-]|].
  eapply safe_bind; [apply (safe_aget _ _ (λ _, True)); [lia|done]|]. intros c _.
  destruct (negb (is_digit c)); [done|].
  eapply safe_bind; [apply chk_i64_safe|]. intros v10 _.
  eapply safe_bind; [apply chk_i64_safe|]. intros v' Hv'. apply IH; [lia|lia|done].
Qed.

Lemma parse_int_safe b from to :
  0 <= from → to <= zlen b → safe (resp__parse_int b from to) in_i64.
Proof.
  intros Hf Ht. unfold resp__parse_int. destruct (from >=? to) eqn:E; zb; [done|].
  eapply safe_bind; [apply (safe_aget _ _ (λ _, True)); [lia|done]|]. intros c _.
  set (i := if c =? 45 then _ else _).
  assert (from <= i <= from + 1) by (unfold i; destruct (c =? 45); lia). clearbody i.
  destruct (i >=? to) eqn:E2; zb; [done|].
  eapply safe_bind; [apply (safe_aget _ _ (λ _, True)); [lia|done]|]. intros d _.
  destruct (negb (is_digit d)); [done|].
  eapply safe_bind; [apply parse_digits_safe; lia|]. intros [v|] Hr; [|done].
  destruct (c =? 45); [|done]. eapply safe_bind; [apply chk_i64_safe|]. intros w Hw ? [= <-]. done.
Qed.

Lemma find_lf_ok n b i :
  0 <= i → i + Z.of_nat n <= zlen b → ∃ r, find_lf n b i = Ok r ∧
  match r with
  | Some k => i <= k < i + Z.of_nat n ∧ b !! Z.to_nat k = Some LF ∧
              ∀ j, i <= j < k → b !! Z.to_nat j ≠ Some LF
  | None => ∀ j, i <= j < i + Z.of_nat n → b !! Z.to_nat j ≠ Some LF
  end.
Proof.
  revert i. induction n as [|n IH]; intros i Hi Hn; cbn [find_lf].
  { exists None. split; [done|]. intros j Hj. lia. }
  destruct (aget_ok b i) as (c & -> & Hc); [lia|]. cbn [mbind exec_bind].
  destruct (c =? LF) eqn:E; zb.
  - subst c. exists (Some i). split; [done|]. split; [lia|]. split; [done|]. lia.
  - destruct (IH (i + 1)) as (r & -> & Hr); [lia|lia|]. exists r. split; [done|].
    assert (b !! Z.to_nat i ≠ Some LF) by congruence. destruct r as [k|].
    + destruct Hr as (? & ? & Hno). split; [lia|]. split; [done|].
      intros j Hj. destruct (decide (j = i)) as [->|]; [done|]. apply Hno. lia.
    + intros j Hj. destruct (decide (j = i)) as [->|]; [done|]. apply Hr; lia.
Qed.

Lemma skip_while_ok n test b i :
  0 <= i → i + Z.of_nat n <= zlen b → ∃ k, skip_while n test b i = Ok k ∧ i <= k <= i + Z.of_nat n ∧
    (∀ j, i <= j < k → ∃ c, b !! Z.to_nat j = Some c ∧ test c = true) ∧
    (k < i + Z.of_nat n → ∃ c, b !! Z.to_nat k = Some c ∧ test c = false).
Proof.
  revert i. induction n as [|n IH]; intros i Hi Hn; cbn [skip_while].
  { exists i. split; [done|]. split; [lia|]. split; intros; lia. }
  destruct (aget_ok b i) as (c & -> & Hc); [lia|]. cbn [mbind exec_bind].
  destruct (test c) eqn:E.
  - destruct (IH (i + 1)) as (k & -> & Hk & Hall & Hend); [lia|lia|]. exists k.
    split; [done|]. split; [lia|]. split; [|intros; apply Hend; lia].
    intros j Hj. destruct (decide (j = i)) as [->|]; [by exists c|]. apply Hall. lia.
  - exists i. split; [done|]. split; [lia|]. split; [intros; lia|]. intros _. by exists c.
Qed.

(** * Nodes *)

Definition env_ok (e : node_env) : Prop :=
  match n_slab e with Some s => ∃ outs, slab_rep s outs | None => True end.

(** [draws sl ms taken sl' ms']: the nodes [taken] were obtained from the slab
    or, where it had none, from malloc. *)
Inductive draws : option slab → list Z → list Z → option slab → list Z → Prop :=
  | draws_nil sl ms : draws sl ms [] sl ms
  | draws_slab s n s' ms taken sl' ms' :
      zedis_slab_alloc s SIZEOF_RESP_NODE = Ok (Some n, s') →
      draws (Some s') ms taken sl' ms' → draws (Some s) ms (n :: taken) sl' ms'
  | draws_malloc sl n ms taken sl' ms' :
      (∀ s, sl = Some s → zedis_slab_alloc s SIZEOF_RESP_NODE = Ok (None, s)) →
      draws sl ms taken sl' ms' → draws sl (n :: ms) (n :: taken) sl' ms'.

Lemma draws_app sl ms t1 sl1 ms1 t2 sl2 ms2 :
  draws sl ms t1 sl1 ms1 → draws sl1 ms1 t2 sl2 ms2 → draws sl ms (t1 ++ t2) sl2 ms2.
Proof. induction 1; intros; cbn; [done|by econstructor; eauto|by econstructor; eauto]. Qed.

(** No node is lost or used twice: the free nodes and those in use ([ns])
    after a step are the free nodes before and what was newly drawn. *)
Definition conserved (e : node_env) (ns : list Z) (e' : node_env) : Prop :=
  env_ok e' ∧ ∃ taken, draws (n_slab e) (n_malloc e) taken (n_slab e') (n_malloc e') ∧
    n_free e' ++ ns ≡ₚ n_free e ++ taken.

Lemma conserved_refl e : env_ok e → conserved e [] e.
Proof. intros He. split; [done|]. exists []. split; [constructor|]. by rewrite !app_nil_r. Qed.

Lemma conserved_trans e1 ns1 e2 ns2 e3 :
  conserved e1 ns1 e2 → conserved e2 ns2 e3 → conserved e1 (ns1 ++ ns2) e3.
Proof.
  intros [_ (t1 & Hd1 & Hp1)] [He3 (t2 & Hd2 & Hp2)]. split; [done|]. exists (t1 ++ t2).
  split; [by eapply draws_app|]. rewrite (Permutation_app_comm ns1), (app_assoc (n_free e3)), Hp2.
  rewrite <-app_assoc, (Permutation_app_comm t2), app_assoc, Hp1. by rewrite <-app_assoc.
Qed.

Lemma conserved_perm e ns ns' e' : ns ≡ₚ ns' → conserved e ns e' → conserved e ns' e'.
Proof. intros Hp [He (t & Hd & Hpt)]. split; [done|]. exists t. by rewrite <-Hp. Qed.

(** Freeing nodes in use. *)
Lemma conserved_free e ns ns' e' :
  conserved e (ns ++ ns') e' → conserved e ns' (foldl resp__node_free e' ns).
Proof.
  revert e'. induction ns as [|n ns IH]; intros e' Hc; [done|]. cbn [foldl]. apply IH.
  destruct Hc as [He (t & Hd & Hp)]. split; [done|]. exists t. split; [done|].
  rewrite <-Hp. cbn. by rewrite <-Permutation_middle.
Qed.

Definition opt_list (o : option Z) : list Z := match o with Some n => [n] | None => [] end.

Lemma node_alloc_ok e :
  env_ok e → ∃ r e', resp__node_alloc e = Ok (r, e') ∧ conserved e (opt_list r) e' ∧
    (r = None → n_free e = [] ∧ n_malloc e = []).
Proof.
  destruct e as [[|n fl] sl ms]; intros He; unfold resp__node_alloc; cbn [n_free n_slab n_malloc].
  2:{ do 2 eexists. split; [done|]. split; [|done]. split; [done|]. exists []. cbn.
      split; [constructor|]. by rewrite app_nil_r, Permutation_app_comm. }
  assert (∀ sl, env_ok (NodeEnv [] sl ms) →
    (∀ s, sl = Some s → zedis_slab_alloc s SIZEOF_RESP_NODE = Ok (None, s)) → ∃ r e',
    match ms with
    | n :: ms' => Ok (Some n, NodeEnv [] sl ms')
    | [] => Ok (None, NodeEnv [] sl [])
    end = Ok (r, e') ∧ conserved (NodeEnv [] sl ms) (opt_list r) e' ∧ (r = None → @nil Z = [] ∧ ms = [])) as Hm.
  { clear He sl. intros sl He Hno. destruct ms as [|n ms]; do 2 eexists; (split; [done|]); (split; [|done]).
    - by apply conserved_refl.
    - split; [done|]. exists [n]. cbn. split; [|done]. constructor; [done|constructor]. }
  destruct sl as [s|]; [|by apply Hm]. cbn in He. destruct He as [outs Hrep].
  pose proof (slab_alloc_ok s outs SIZEOF_RESP_NODE Hrep) as Ha.
  change (pool_for_size SIZEOF_RESP_NODE) with (Some 1%nat) in Ha. cbv iota in Ha.
  destruct Ha as (p & Hp & [[Ha _]|(b & s' & Ha & _ & _ & Hrep')]); rewrite Ha; cbn [mbind exec_bind].
  - apply Hm; [by exists outs|]. by intros ? [= <-].
  - do 2 eexists. split; [done|]. split; [|done]. split; [by eexists|].
    exists [b + BLOCK_DATA]. cbn. split; [|done]. econstructor; [done|constructor].
Qed.

(** * Parsing *)

Definition text_in (lo hi : Z) (t : Z * Z) : Prop := lo <= t.1 ∧ 0 <= t.2 ∧ t.1 + t.2 <= hi.

(** Every text of the value is in the bytes [lo .. hi) of the buffer. *)
Fixpoint value_in (lo hi : Z) (v : resp_value) : Prop :=
  match v with
  | RSimple t | RError t | RBulk t => text_in lo hi t
  | RInteger _ | RNull => True
  | RArray es => foldr (λ e P, value_in lo hi e.2 ∧ P) True es
  end.

Lemma value_in_array lo hi es :
  value_in lo hi (RArray es) ↔ Forall (λ e : Z * resp_value, value_in lo hi e.2) es.
Proof.
  cbn. induction es as [|e es IH]; cbn; [by split|]. rewrite IH, Forall_cons. done.
Qed.

(** A structural induction for values. *)
Lemma resp_value_ind' (P : resp_value → Prop) :
  (∀ t, P (RSimple t)) → (∀ t, P (RError t)) → (∀ z, P (RInteger z)) → (∀ t, P (RBulk t)) →
  P RNull → (∀ es, Forall (λ e : Z * resp_value, P e.2) es → P (RArray es)) → ∀ v, P v.
Proof.
  intros H1 H2 H3 H4 H5 H6. fix IH 1. intros [t|t|z|t| |es];
    [apply H1|apply H2|apply H3|apply H4|apply H5|apply H6].
  induction es as [|[n v] es IHes]; constructor; [apply IH|exact IHes].
Qed.

Lemma value_in_mono lo hi lo' hi' v :
  lo' <= lo → hi <= hi' → value_in lo hi v → value_in lo' hi' v.
Proof.
  intros Hl Hh. induction v as [t|t|z|t| |es IH] using resp_value_ind'; unfold text_in in *;
    try (cbn; unfold text_in; lia); try done.
  rewrite !value_in_array. intros Hall.
  rewrite Forall_forall in IH, Hall |- *. intros e He. apply IH; [done|by apply Hall].
Qed.

Definition res_nodes (r : presult) : list Z :=
  match r with POk v _ => release_order v | _ => [] end.

(** What parsing at [pos] yields: a longer position inside the written bytes,
    texts in between, and nodes accounted for. *)
Definition parse_post (p : resp_parser) (pos : Z) (e : node_env) (x : presult * node_env) : Prop :=
  conserved e (res_nodes x.1) x.2 ∧
  match x.1 with POk v pos' => pos < pos' <= w_pos p ∧ value_in pos pos' v | _ => True end.

Lemma release_order_snoc es n v :
  release_order (RArray (es ++ [(n, v)])) = release_order (RArray es) ++ release_order v ++ [n].
Proof. cbn. rewrite map_app, concat_app. cbn. by rewrite app_nil_r. Qed.

Lemma inline_tokens_ok fuel b pos i line_end es e0 e :
  0 <= pos <= i → line_end <= zlen b → (Z.to_nat (line_end - i) < fuel)%nat →
  conserved e0 (release_order (RArray es)) e → value_in pos line_end (RArray es) →
  ∃ r e', inline_tokens fuel b i line_end es e = Ok (r, e') ∧
    match r with
    | Some es' => conserved e0 (release_order (RArray es')) e' ∧ value_in pos line_end (RArray es')
    | None => conserved e0 [] e'
    end.
Proof.
  revert i es e. induction fuel as [|fuel IH]; intros i es e Hi Hle Hfuel Hc Hv; [lia|].
  cbn [inline_tokens]. destruct (i >=? line_end) eqn:E1; zb; [by exists (Some es), e|].
  destruct (skip_while_ok (Z.to_nat (line_end - i)) is_blank b i) as (tok & -> & Htok & _ & Hnb); [lia|lia|].
  cbn [mbind exec_bind]. destruct (tok >=? line_end) eqn:E2; zb; [by exists (Some es), e|].
  rewrite Z2Nat.id in * by lia. destruct Hnb as (c & Hc0 & Hblank); [lia|].
  destruct (skip_while_ok (Z.to_nat (line_end - tok)) (λ c, negb (is_blank c)) b tok)
    as (i' & -> & Hi' & _ & Hend); [lia|lia|]. rewrite Z2Nat.id in * by lia.
  assert (tok < i') as Hlt.
  { destruct (decide (tok = i')) as [<-|]; [|lia]. destruct Hend as (c' & Hc' & Hb'); [lia|].
    rewrite Hc0 in Hc'. injection Hc' as <-. by rewrite Hblank in Hb'. }
  cbn [mbind exec_bind]. destruct (node_alloc_ok e) as (r & e1 & -> & Hc1 & _); [by destruct Hc|].
  cbn [mbind exec_bind]. pose proof (conserved_trans _ _ _ _ _ Hc Hc1) as Hc2.
  destruct r as [n|]; cbn [opt_list] in Hc2.
  - apply IH; [lia|done|lia| |].
    + rewrite release_order_snoc. exact Hc2.
    + apply value_in_array, Forall_app. split; [by apply value_in_array|].
      constructor; [|constructor]. cbn. unfold text_in; cbn. lia.
  - exists None. eexists. split; [done|]. by apply conserved_free.
Qed.

Lemma parse_inline_ok p pos e :
  buf_wf p → 0 <= pos < w_pos p → env_ok e → ∃ x,
    resp__parse_inline p pos e = Ok x ∧ parse_post p pos e x.
Proof.
  intros Hwf Hpos He. pose proof Hwf as [Hw _]. unfold resp__parse_inline.
  destruct (find_lf_ok (Z.to_nat (w_pos p - pos)) (buf p) pos) as (r & -> & Hr); [lia|lia|].
  cbn [mbind exec_bind]. destruct r as [lf|].
  2:{ eexists. split; [done|]. split; [by apply conserved_refl|done]. }
  destruct Hr as (Hlf & _). rewrite Z2Nat.id in Hlf by lia.
  assert (∃ le, (if lf >? pos then c ← aget (buf p) (lf - 1); Ok (if c =? CR then lf - 1 else lf)
    else Ok lf) = Ok le ∧ pos <= le <= lf) as (le & -> & Hle).
  { rewrite Z.gtb_ltb. destruct (pos <? lf) eqn:E; zb; [|exists lf; split; [done|lia]].
    destruct (aget_ok (buf p) (lf - 1)) as (c & -> & _); [lia|]. cbn [mbind exec_bind].
    eexists. split; [done|]. destruct (c =? CR); lia. }
  cbn [mbind exec_bind].
  destruct (inline_tokens_ok (S (Z.to_nat (le - pos))) (buf p) pos pos le [] e e)
    as (r & e' & -> & Hpost); [lia|lia|lia|by apply conserved_refl|done|].
  cbn [mbind exec_bind]. destruct r as [es|]; eexists; (split; [done|]).
  - destruct Hpost as [Hc Hv]. split; [done|]. cbn [fst]. split; [lia|].
    eapply value_in_mono; [| |done]; lia.
  - by split.
Qed.

Lemma parse_elems_safe fuel p pv start pos cnt es e0 e :
  0 <= start <= pos → pos <= w_pos p → (Z.to_nat (w_pos p - pos) + 1 < fuel)%nat →
  (∀ q e, pos <= q <= w_pos p → env_ok e → safe (pv q e) (parse_post p q e)) →
  conserved e0 (release_order (RArray es)) e → value_in start pos (RArray es) →
  safe (parse_elems fuel pv pos cnt es e) (λ x, conserved e0 (res_nodes x.1) x.2 ∧
    match x.1 with POk v pos' => pos <= pos' <= w_pos p ∧ value_in start pos' v | _ => True end).
Proof.
  revert pos cnt es e. induction fuel as [|fuel IH]; intros pos cnt es e Hs Hw Hf Hpv Hc Hv; [lia|].
  cbn [parse_elems]. destruct (cnt <=? 0) eqn:E; zb.
  { cbn. split; [done|]. split; [lia|done]. }
  destruct (node_alloc_ok e) as (r & e1 & -> & Hc1 & _); [by destruct Hc|]. cbn [mbind exec_bind].
  pose proof (conserved_trans _ _ _ _ _ Hc Hc1) as Hc2.
  destruct r as [n|]; cbn [opt_list] in Hc2.
  2:{ cbn. split; [|done]. by apply conserved_free. }
  eapply safe_bind; [apply (Hpv pos e1); [lia|by destruct Hc1]|].
  intros [r e2] [Hcr Hr]; cbn [fst snd] in *. pose proof (conserved_trans _ _ _ _ _ Hc2 Hcr) as Hc3.
  assert (conserved e0 (release_order (RArray es) ++ [n]) e2 →
    conserved e0 [] (resp__node_list_release (resp__node_free e2 n) es)) as Hfail.
  { intros Hc4. unfold resp__node_list_release. apply conserved_free. rewrite app_nil_r.
    apply (conserved_free e0 [n]). eapply conserved_perm; [|done]. by rewrite Permutation_app_comm. }
  destruct r as [| |v pos']; cbn [res_nodes] in Hc3; [rewrite app_nil_r in Hc3; by split; [apply Hfail|]..|].
  eapply safe_weaken.
  - apply (IH pos' (cnt - 1) (es ++ [(n, v)]) e2); [lia|lia|lia| | |].
    + intros q e' Hq. apply Hpv. lia.
    + rewrite release_order_snoc. eapply conserved_perm; [|done].
      rewrite <-app_assoc. f_equiv. apply Permutation_app_comm.
    + apply value_in_array, Forall_app. split.
      * apply value_in_array. eapply value_in_mono; [| |done]; lia.
      * constructor; [|constructor]. cbn [snd]. destruct Hr as [? ?]. eapply value_in_mono; [| |done]; lia.
  - intros [r e3] [? Hr3]; cbn [fst snd] in *. split; [done|]. destruct r; try done.
    destruct Hr3. split; [lia|done].
Qed.

Lemma parse_value_safe fuel p pos e :
  buf_wf p → 0 <= pos <= w_pos p → (Z.to_nat (w_pos p - pos) < fuel)%nat → env_ok e →
  safe (parse_value fuel p pos e) (parse_post p pos e).
Proof.
  intros Hwf. pose proof Hwf as [Hw H62]. revert pos e.
  induction fuel as [|fuel IH]; intros pos e Hpos Hf He; [lia|]. cbn [parse_value].
  assert (∀ r, res_nodes r = [] → (∀ v q, r = POk v q → pos < q <= w_pos p ∧ value_in pos q v) →
    safe (Ok (r, e)) (parse_post p pos e)) as Hret.
  { intros r Hn Hr. split; cbn [fst snd]; [rewrite Hn; by apply conserved_refl|].
    destruct r; try done. by apply Hr. }
  destruct (pos >=? w_pos p) eqn:E; zb; [by apply Hret|].
  eapply safe_bind; [apply (safe_aget _ _ (λ _, True)); [lia|done]|]. intros prefix _.
  destruct (negb (is_prefix_byte prefix)).
  { destruct (parse_inline_ok p pos e) as (x & -> & Hx); [done|lia|done|]. done. }
  destruct (find_crlf_ok p (pos + 1)) as (r & -> & Hr); [done|lia|]. cbn [mbind exec_bind].
  destruct r as [crlf|]; [|by apply Hret]. destruct Hr as (Hc1 & Hc2 & _).
  destruct ((prefix =? 43) || (prefix =? 45)).
  { apply Hret; [by destruct (prefix =? 43)|]. intros v q [= <- <-]. split; [lia|].
    destruct (prefix =? 43); cbn; unfold text_in; cbn; lia. }
  eapply safe_bind; [apply parse_int_safe; lia|]. intros [value|] Hval; [|by apply Hret].
  specialize (Hval value eq_refl).
  destruct (prefix =? 58). { apply Hret; [done|]. intros v q [= <- <-]. split; [lia|done]. }
  destruct (value <? 0) eqn:Ev; zb. { apply Hret; [done|]. intros v q [= <- <-]. split; [lia|done]. }
  destruct (prefix =? 36).
  - rewrite !(u64_small (crlf + 2 + value)), u64_small by lia. rewrite Z.gtb_ltb.
    destruct (w_pos p <? _) eqn:E2; zb; [by apply Hret|].
    eapply safe_bind; [apply (safe_aget _ _ (λ _, True)); [lia|done]|]. intros a _.
    eapply safe_bind; [apply (safe_aget _ _ (λ _, True)); [lia|done]|]. intros b _.
    destruct (_ || _); [by apply Hret|]. apply Hret; [done|]. intros v q [= <- <-].
    split; [lia|]. cbn; unfold text_in; cbn; lia.
  - eapply safe_weaken.
    + apply (parse_elems_safe _ p _ pos (crlf + 2) value [] e e); [lia|lia|lia| |by apply conserved_refl|done].
      intros q e' Hq He'. apply IH; [lia|lia|done].
    + intros [r e'] [Hc Hr]; cbn [fst snd] in *. split; [done|]. cbn [fst]. destruct r; try done.
      destruct Hr. split; [lia|done].
Qed.

(** * The parser *)

(** The bytes fed and not yet consumed. *)
Definition unread (p : resp_parser) : list Z := slice (buf p) (r_pos p) (w_pos p - r_pos p).

Lemma compact_ok p :
  parser_wf p → ∃ p', resp__compact p = Ok p' ∧ parser_wf p' ∧ unread p' = unread p ∧
    env p' = env p ∧ buf_cap p' = buf_cap p ∧ r_pos p' = 0 ∧ w_pos p' = w_pos p - r_pos p.
Proof.
  intros (Hl & Hr & Hw & H62). unfold resp__compact.
  destruct (r_pos p =? 0) eqn:E; zb.
  { exists p. rewrite E. split; [done|]. rewrite Z.sub_0_r. done. }
  rewrite u64_small, Z.gtb_ltb by lia. destruct (0 <? w_pos p - r_pos p) eqn:E2; zb.
  - rewrite read_n_ok by lia. cbn [mbind exec_bind]. set (u := slice _ _ _).
    assert (zlen u = w_pos p - r_pos p) as Hu by (apply zlen_slice; lia).
    rewrite memcpy0_ok by lia. cbn [mbind exec_bind]. eexists. split; [done|].
    unfold parser_wf, unread; cbn [buf buf_cap r_pos w_pos env].
    rewrite zlen_prefix_drop by lia. split; [lia|]. split; [|done].
    rewrite Z.sub_0_r. by apply slice_prefix_len.
  - cbn [mbind exec_bind]. eexists. split; [done|].
    unfold parser_wf, unread; cbn [buf buf_cap r_pos w_pos env].
    split; [lia|]. split; [|done]. by rewrite !slice_nonpos by lia.
Qed.

Lemma feed_ok p data :
  parser_wf p → zlen data < 2 ^ 62 →
  if zlen (unread p) + zlen data <=? buf_cap p
  then ∃ p', resp_parser_feed p data = Ok (0, p') ∧ parser_wf p' ∧
    unread p' = unread p ++ data ∧ env p' = env p ∧ buf_cap p' = buf_cap p
  else resp_parser_feed p data = Ok (RC_ERR, p).
Proof.
  intros Hwf Hd. pose proof Hwf as (Hl & Hr & Hw & H62). pose proof (zlen_nonneg data) as Hd0.
  assert (zlen (unread p) = w_pos p - r_pos p) as Hu by (apply zlen_slice; lia).
  unfold resp_parser_feed. destruct (zlen data =? 0) eqn:E; zb.
  { destruct data; [|rewrite zlen_cons in E; pose proof (zlen_nonneg data); lia].
    destruct (_ <=? _) eqn:E1; zb; [exists p; by rewrite app_nil_r|]. rewrite zlen_nil in E1. lia. }
  assert (∀ q, parser_wf q → w_pos q + zlen data <= buf_cap q → buf_cap q < 2 ^ 62 → ∃ p',
    (p1 ← resp_parser_write q data; Ok (0, resp_parser_commit p1 (zlen data))) = Ok (0, p') ∧
    parser_wf p' ∧ unread p' = unread q ++ data ∧ env p' = env q ∧ buf_cap p' = buf_cap q) as Hwrite.
  { intros q (Hl' & Hr' & Hw' & _) Hroom Hq. unfold resp_parser_write.
    destruct (memcpy (buf q) (w_pos q) data) as [b|] eqn:Hb; [|rewrite memcpy_ok in Hb by lia; done].
    cbn [mbind exec_bind]. eexists. split; [done|].
    unfold resp_parser_commit, parser_wf, unread; cbn [buf buf_cap r_pos w_pos env].
    rewrite u64_small, (memcpy_zlen _ _ _ _ Hb) by lia. split; [lia|]. split; [|done].
    replace (w_pos q + zlen data - r_pos q) with ((w_pos q - r_pos q) + zlen data) by lia.
    rewrite slice_split by lia. f_equal; [by apply (memcpy_frame _ _ _ _ _ _ Hb); lia|].
    replace (r_pos q + (w_pos q - r_pos q)) with (w_pos q) by lia. by eapply memcpy_read. }
  rewrite u64_small by lia. destruct (w_pos p + zlen data <=? buf_cap p) eqn:E1; zb.
  { destruct (_ <=? buf_cap p) eqn:E2; zb; [|lia]. by apply Hwrite. }
  rewrite (u64_small (w_pos p - r_pos p)), u64_small by lia.
  destruct (zlen (unread p) + zlen data <=? buf_cap p) eqn:E2; zb.
  - destruct (_ <? zlen data) eqn:E3; zb; [lia|].
    destruct (compact_ok p Hwf) as (p1 & -> & Hwf1 & Hu1 & He1 & Hc1 & Hr1 & Hw1). cbn [mbind exec_bind].
    destruct (Hwrite p1) as (p' & Hrun & ? & Hu' & ? & ?); [done|lia|lia|].
    exists p'. split; [exact Hrun|]. rewrite Hu', Hu1. split; [done|]. split; [done|]. split; congruence.
  - destruct (_ <? zlen data) eqn:E3; zb; [done|lia].
Qed.

(** * Theorems *)

Lemma next_safe p :
  parser_wf p → env_ok (env p) →
  match resp_parser_next p with
  | Stuck f => f = SignedOverflow
  | Ok (r, p') =>
      parser_wf p' ∧ conserved (env p) (res_nodes r) (env p') ∧
      match r with
      | POk v pos => value_in 0 (r_pos p') v ∧
          ∃ k, 0 < k <= zlen (unread p) ∧ unread p' = slice (unread p) k (zlen (unread p) - k)
      | _ => unread p' = unread p
      end
  end.
Proof.
  intros Hwf He.
  assert (∃ p1, (if r_pos p >? Z.quot (buf_cap p) 2 then resp__compact p else Ok p) = Ok p1 ∧
    parser_wf p1 ∧ unread p1 = unread p ∧ env p1 = env p) as (p1 & Hp1 & Hwf1 & Hu1 & He1).
  { destruct (_ >? _); [|by exists p].
    destruct (compact_ok p Hwf) as (p1 & ? & ? & ? & ? & _). by exists p1. }
  unfold resp_parser_next. rewrite Hp1. cbn [mbind exec_bind].
  pose proof Hwf1 as (Hl & Hr & Hw & H62).
  pose proof (parse_value_safe (S (Z.to_nat (w_pos p1 - r_pos p1))) p1 (r_pos p1) (env p1)) as Hs.
  destruct (parse_value _ _ _ _) as [[r e]|f]; cbn [mbind exec_bind].
  2:{ apply Hs; [split; lia|lia|lia|by rewrite He1]. }
  destruct Hs as [Hc Hv]; [split; lia|lia|lia|by rewrite He1|]. cbn [fst snd] in *. rewrite He1 in Hc.
  assert (zlen (unread p1) = w_pos p1 - r_pos p1) as Hul by (apply zlen_slice; lia).
  unfold parser_wf in *. cbn [buf buf_cap r_pos w_pos env] in *.
  destruct r as [| |v pos]; [split; [lia|split; [done|by rewrite <-Hu1]]..|].
  destruct Hv as [Hpos Hv]. split; [lia|]. split; [done|].
  split; [eapply value_in_mono; [| |exact Hv]; lia|].
  exists (pos - r_pos p1). split; [rewrite <-Hu1; lia|]. rewrite <-Hu1, Hul. unfold unread; cbn [buf r_pos w_pos].
  unfold slice. rewrite !skipn_firstn_comm, drop_drop, take_take. f_equal; [lia|]. f_equal. lia.
Qed.

(** C23: resp_parser_next on any buffer contents ends, without reading outside
    the written bytes; the only undefined behaviour it can reach is the signed
    overflow of a numeral.  When it returns a value, it consumes at least one
    byte and every text of the value lies in the consumed bytes; otherwise
    nothing is consumed.  In every case, error paths included, the free nodes
    and the nodes of the value are exactly the nodes that were free before and
    those drawn from the slab or malloc. *)
Theorem resp_next_safe p :
  parser_wf p → env_ok (env p) →
  match resp_parser_next p with
  | Stuck f => f = SignedOverflow
  | Ok (r, p') =>
      parser_wf p' ∧ conserved (env p) (res_nodes r) (env p') ∧
      match r with
      | POk v pos => value_in 0 (r_pos p') v ∧
          ∃ k, 0 < k <= zlen (unread p) ∧ unread p' = slice (unread p) k (zlen (unread p) - k)
      | _ => unread p' = unread p
      end
  end.
Proof. apply next_safe. Qed.

(** A parser over the bytes [b], all of them unread, with [n] nodes to draw. *)
Definition parser_of (b : list Z) (n : nat) : resp_parser :=
  RespParser b (zlen b) 0 (zlen b) (NodeEnv [] None (seqZ 1 (Z.of_nat n))).

Lemma resp_next_safe_witness :
  ∃ v pos p', resp_parser_next (parser_of (bytes_of_string "*1" ++ crlf ++ bytes_of_string "$1" ++
      crlf ++ [97] ++ crlf) 4) = Ok (POk v pos, p') ∧ parser_wf p'.
Proof.
  pose proof (resp_next_safe (parser_of (bytes_of_string "*1" ++ crlf ++ bytes_of_string "$1" ++
      crlf ++ [97] ++ crlf) 4)) as H.
  destruct H as [Hwf _]; [vm_compute; repeat split; discriminate|exact I|].
  do 3 eexists. split; [vm_compute; reflexivity|exact Hwf].
Defined.

(** Feeding bytes appends them to the unread bytes, compacting the buffer
    when needed, and is refused, without a change, exactly when the unread
    bytes and the new ones together exceed the buffer. *)
Theorem resp_feed_appends p data :
  parser_wf p → zlen data < 2 ^ 62 →
  if zlen (unread p) + zlen data <=? buf_cap p
  then ∃ p', resp_parser_feed p data = Ok (0, p') ∧ parser_wf p' ∧ unread p' = unread p ++ data
  else resp_parser_feed p data = Ok (RC_ERR, p).
Proof.
  intros Hwf Hd. pose proof (feed_ok p data Hwf Hd) as H. destruct (_ <=? _); [|done].
  destruct H as (p' & ? & ? & ? & _). by exists p'.
Qed.

Lemma resp_feed_appends_witness :
  ∃ p', resp_parser_feed (RespParser [1; 2; 3; 4] 4 2 4 (NodeEnv [] None [])) [5; 6] = Ok (0, p') ∧
    unread p' = [3; 4; 5; 6].
Proof.
  pose proof (resp_feed_appends (RespParser [1; 2; 3; 4] 4 2 4 (NodeEnv [] None [])) [5; 6]) as H.
  destruct H as (p' & Hf & _ & Hu); [vm_compute; repeat split; discriminate|done|].
  exists p'. split; [exact Hf|exact Hu].
Defined.
