(* ===== verification/RespRound.v ===== *)
(** What the RESP parser recognises: a value encoded by the protocol is parsed
    back, whatever follows it in the buffer; a strict prefix of it is never
    mistaken for a message; and what the formatters write is such an encoding. *)

From stdpp Require Import gmap.
From S2P Require Import Prelude Arena Slab Resp RespSafe.

(** * Values and their encoding *)

Inductive rval :=
  | VSimple (s : list Z)
  | VError (s : list Z)
  | VInt (z : Z)
  | VBulk (s : list Z)
  | VNil
  | VArr (vs : list rval).

Lemma rval_ind' (P : rval → Prop) :
  (∀ s, P (VSimple s)) → (∀ s, P (VError s)) → (∀ z, P (VInt z)) → (∀ s, P (VBulk s)) →
  P VNil → (∀ vs, Forall P vs → P (VArr vs)) → ∀ v, P v.
Proof.
  intros H1 H2 H3 H4 H5 H6. fix IH 1.
  intros [s|s|z|s| |vs]; [apply H1|apply H2|apply H3|apply H4|apply H5|apply H6].
  induction vs as [|v vs IHvs]; constructor; [apply IH|exact IHvs].
Qed.

Fixpoint enc (v : rval) : list Z :=
  match v with
  | VSimple s => [43] ++ s ++ crlf
  | VError s => [45] ++ s ++ crlf
  | VInt z => [58] ++ dec_d z ++ crlf
  | VBulk s => [36] ++ dec_u (zlen s) ++ crlf ++ s ++ crlf
  | VNil => [36; 45; 49] ++ crlf
  | VArr vs => [42] ++ dec_u (zlen vs) ++ crlf ++ concat (map enc vs)
  end.

(** No CR LF inside a line. *)
Definition one_line (s : list Z) : Prop := ∀ i, ¬ (s !! i = Some CR ∧ s !! S i = Some LF).

(** The values the encoding can carry; INT64_MIN is the one integer whose
    numeral overflows while it is read. *)
Fixpoint encodable (v : rval) : Prop :=
  match v with
  | VSimple s | VError s => one_line s
  | VInt z => - INT64_MAX <= z <= INT64_MAX
  | VBulk _ | VNil => True
  | VArr vs => foldr (λ v P, encodable v ∧ P) True vs
  end.

(** The nodes that parsing takes. *)
Fixpoint nodes_of (v : rval) : nat :=
  match v with
  | VArr vs => foldr (λ v n, S (nodes_of v) + n)%nat 0%nat vs
  | _ => 0%nat
  end.

(** The value that a parse result denotes. *)
Fixpoint denote (b : list Z) (v : resp_value) : rval :=
  match v with
  | RSimple t => VSimple (slice b t.1 t.2)
  | RError t => VError (slice b t.1 t.2)
  | RInteger z => VInt z
  | RBulk t => VBulk (slice b t.1 t.2)
  | RNull => VNil
  | RArray es => VArr (map (λ e, denote b e.2) es)
  end.

(** * Bytes at a position of the buffer *)

Definition at_pos (p : resp_parser) (pos : Z) (bs : list Z) : Prop :=
  0 <= pos ∧ pos + zlen bs <= w_pos p ∧ slice (buf p) pos (zlen bs) = bs.

Lemma at_pos_app p pos a b :
  at_pos p pos (a ++ b) → at_pos p pos a ∧ at_pos p (pos + zlen a) b.
Proof.
  intros (H0 & Hw & Hs). rewrite zlen_app in *. pose proof (zlen_nonneg a). pose proof (zlen_nonneg b).
  rewrite slice_split in Hs by lia.
  destruct (decide (length (slice (buf p) pos (zlen a)) = length a)) as [Hl|Hl].
  - apply app_inj_1 in Hs as [Ha Hb]; [|done]. split; (split; [lia|split; [lia|done]]).
  - exfalso. pose proof (f_equal length Hs) as Hlen. rewrite !length_app in Hlen.
    unfold slice in *. rewrite !length_take, !length_drop in *. unfold zlen in *. lia.
Qed.

Lemma at_pos_lookup p pos bs i x :
  at_pos p pos bs → bs !! i = Some x → buf p !! Z.to_nat (pos + Z.of_nat i) = Some x.
Proof.
  intros (H0 & _ & Hs) Hx. pose proof (lookup_lt_Some _ _ _ Hx) as Hlt. rewrite <-Hs in Hx. unfold slice in Hx.
  apply lookup_take_Some in Hx as [Hx _]. rewrite lookup_drop in Hx.
  by replace (Z.to_nat (pos + Z.of_nat i)) with (Z.to_nat pos + i)%nat by lia.
Qed.

Lemma at_pos_get p pos bs i x :
  buf_wf p → at_pos p pos bs → bs !! i = Some x → aget (buf p) (pos + Z.of_nat i) = Ok x.
Proof.
  intros Hwf Hat Hx. apply aget_lookup. split; [destruct Hat; lia|]. by eapply at_pos_lookup.
Qed.

Lemma at_pos_head p pos x bs : buf_wf p → at_pos p pos (x :: bs) → aget (buf p) pos = Ok x.
Proof. intros Hwf Hat. rewrite <-(Z.add_0_r pos). by apply (at_pos_get p pos (x :: bs) 0). Qed.

(** * Lines and numerals *)

Lemma find_crlf_line p from s :
  buf_wf p → at_pos p from (s ++ crlf) → one_line s →
  resp__find_crlf p from = Ok (Some (from + zlen s)).
Proof.
  intros Hwf Hat Hone. destruct (find_crlf_ok p from Hwf) as (r & -> & Hr); [by destruct Hat|].
  assert (crlf_at (buf p) (from + zlen s)) as Hend.
  { split.
    - unfold zlen. apply (at_pos_lookup p from (s ++ crlf)); [done|]. by apply list_lookup_middle.
    - replace (from + zlen s + 1) with (from + Z.of_nat (S (length s))) by (unfold zlen; lia).
      apply (at_pos_lookup p from (s ++ crlf)); [done|]. unfold crlf.
      rewrite lookup_app_r by lia. by replace (S (length s) - length s)%nat with 1%nat by lia. }
  assert (∀ j, from <= j < from + zlen s → ¬ crlf_at (buf p) j) as Hno.
  { intros j Hj [Hc Hl]. set (i := Z.to_nat (j - from)).
    assert ((i < length s)%nat) as Hi by (unfold i, zlen in *; lia).
    destruct (lookup_lt_is_Some_2 (s ++ crlf) i) as [x Hx]; [rewrite length_app; lia|].
    destruct (lookup_lt_is_Some_2 (s ++ crlf) (S i)) as [y Hy]; [rewrite length_app; cbn; lia|].
    pose proof (at_pos_lookup _ _ _ _ _ Hat Hx) as Hx'. pose proof (at_pos_lookup _ _ _ _ _ Hat Hy) as Hy'.
    replace (from + Z.of_nat i) with j in Hx' by (unfold i; lia).
    replace (from + Z.of_nat (S i)) with (j + 1) in Hy' by (unfold i; lia).
    rewrite Hc in Hx'. rewrite Hl in Hy'. injection Hx' as <-. injection Hy' as <-.
    rewrite lookup_app_l in Hx by lia. destruct (decide (S i < length s)%nat).
    - rewrite lookup_app_l in Hy by lia. by apply (Hone i).
    - rewrite lookup_app_r in Hy by lia. by replace (S i - length s)%nat with 0%nat in Hy by lia. }
  destruct Hat as (H0 & Hw & _). rewrite zlen_app in Hw. change (zlen crlf) with 2 in Hw.
  pose proof (zlen_nonneg s). destruct r as [i|].
  - destruct Hr as (Hi & _ & Hci & Hfirst). do 2 f_equal.
    destruct (decide (i < from + zlen s)); [by destruct (Hno i)|].
    destruct (decide (from + zlen s < i)); [|lia]. destruct (Hfirst (from + zlen s)); [lia|done].
  - destruct (Hr (from + zlen s)); [lia|lia|done].
Qed.

Definition all_digits (ds : list Z) : Prop := Forall (λ d, is_digit d = true) ds.

Lemma digits_one_line pre ds : all_digits ds → (pre = [] ∨ pre = [45]) → one_line (pre ++ ds).
Proof.
  intros Hds Hpre i [Hc _].
  assert (CR ∈ pre ++ ds) as Hin by (by eapply list_elem_of_lookup_2).
  apply elem_of_app in Hin as [Hin|Hin].
  - destruct Hpre as [-> | ->]; [by apply elem_of_nil in Hin|]. by apply list_elem_of_singleton in Hin.
  - unfold all_digits in Hds. rewrite Forall_forall in Hds. specialize (Hds _ Hin). done.
Qed.

Lemma parse_digits_ok b i v (ds : list Z) :
  all_digits ds → 0 <= v → dval_from v ds <= INT64_MAX → 0 <= i →
  (∀ j d, ds !! j = Some d → aget b (i + Z.of_nat j) = Ok d) →
  parse_digits (length ds) b i v = Ok (Some (dval_from v ds)).
Proof.
  intros Hds. revert i v. induction Hds as [|d ds Hd Hds IH]; intros i v Hv Hmax Hi Hb; [done|].
  cbn [length parse_digits]. pose proof (Hb 0%nat d eq_refl) as Hb0. rewrite Z.add_0_r in Hb0.
  rewrite Hb0. cbn [mbind exec_bind]. rewrite Hd. cbn [negb]. rewrite dval_from_cons in *.
  apply is_digit_spec in Hd.
  destruct (dval_from_mono (v * 10 + (d - 48)) (v * 10 + (d - 48)) ds Hds) as [Hle _]; [lia|].
  unfold INT64_MAX in *. rewrite chk_i64_ok by (unfold INT64_MIN, INT64_MAX; lia). cbn [mbind exec_bind].
  rewrite chk_i64_ok by (unfold INT64_MIN, INT64_MAX; lia). cbn [mbind exec_bind].
  apply IH; [lia|done|lia|]. intros j x Hx. replace (i + 1 + Z.of_nat j) with (i + Z.of_nat (S j)) by lia.
  by apply (Hb (S j)).
Qed.

Lemma dec_u_digits n : 0 <= n → ∃ d ds, dec_u n = d :: ds ∧ all_digits (d :: ds) ∧ dval (d :: ds) = n.
Proof.
  intros Hn. destruct (dec_u_spec n Hn) as (Hv & Hne & Hall). destruct (dec_u n) as [|d ds]; [done|].
  by exists d, ds.
Qed.

Lemma parse_int_dec_d p from z rest :
  buf_wf p → at_pos p from (dec_d z ++ rest) → - INT64_MAX <= z <= INT64_MAX →
  resp__parse_int (buf p) from (from + zlen (dec_d z)) = Ok (Some z).
Proof.
  intros Hwf Hat Hz. apply at_pos_app in Hat as [Hat _].
  assert (∀ i x, dec_d z !! i = Some x → aget (buf p) (from + Z.of_nat i) = Ok x) as Hget.
  { intros i x Hx. by eapply at_pos_get. }
  destruct Hat as (H0 & _). unfold resp__parse_int, dec_d in *.
  destruct (z <? 0) eqn:E; zb.
  - destruct (dec_u_digits (- z)) as (d & ds & Heq & Hall & Hv); [lia|]. rewrite Heq in *.
    rewrite !zlen_cons. pose proof (zlen_nonneg ds).
    rewrite Z.geb_leb.
    destruct (_ <=? from) eqn:E1; zb; [lia|].
    pose proof (Hget 0%nat 45 eq_refl) as Hg0. rewrite Z.add_0_r in Hg0. rewrite Hg0.
    cbn [mbind exec_bind]. change (45 =? 45) with true. cbv iota zeta. rewrite Z.geb_leb.
    destruct (_ <=? from + 1) eqn:E2; zb; [lia|].
    rewrite (Hget 1%nat d eq_refl : aget (buf p) (from + 1) = Ok d). cbn [mbind exec_bind].
    pose proof (Forall_cons_1 _ _ _ Hall) as [Hd _]. rewrite Hd. cbn [negb].
    replace (Z.to_nat _) with (length (d :: ds)) by (unfold zlen; cbn; lia).
    rewrite parse_digits_ok; [|done|lia|unfold dval in Hv; lia|lia|].
    + cbn [mbind exec_bind]. unfold dval in Hv. rewrite Hv, Z.opp_involutive.
      rewrite chk_i64_ok by (unfold INT64_MIN, INT64_MAX in *; lia). done.
    + intros j x Hx. replace (from + 1 + Z.of_nat j) with (from + Z.of_nat (S j)) by lia.
      by apply (Hget (S j)).
  - destruct (dec_u_digits z) as (d & ds & Heq & Hall & Hv); [lia|]. rewrite Heq in *.
    rewrite !zlen_cons. pose proof (zlen_nonneg ds).
    rewrite Z.geb_leb.
    destruct (_ <=? from) eqn:E1; zb; [lia|].
    pose proof (Hget 0%nat d eq_refl) as Hg0. rewrite Z.add_0_r in Hg0. rewrite Hg0.
    cbn [mbind exec_bind]. pose proof (Forall_cons_1 _ _ _ Hall) as [Hd _].
    assert ((d =? 45) = false) as -> by (apply is_digit_spec in Hd; apply Z.eqb_neq; lia).
    cbv iota zeta. rewrite Z.geb_leb, (proj2 (Z.leb_gt _ _) E1), Hg0. cbn [mbind exec_bind]. rewrite Hd. cbn [negb].
    replace (Z.to_nat _) with (length (d :: ds)) by (unfold zlen; cbn; lia).
    rewrite parse_digits_ok; [|done|lia|unfold dval in Hv; lia|lia|done].
    cbn [mbind exec_bind]. unfold dval in Hv. by rewrite Hv.
Qed.

(** * Parsing an encoded value *)

(** The nodes that certainly can be had. *)
Definition supply (e : node_env) : nat := length (n_free e) + length (n_malloc e).

Lemma node_alloc_supply e :
  env_ok e → (0 < supply e)%nat → ∃ n e',
    resp__node_alloc e = Ok (Some n, e') ∧ env_ok e' ∧ (supply e <= S (supply e'))%nat.
Proof.
  intros He Hs. destruct (node_alloc_ok e He) as (r & e' & Ha & [He' _] & Hnone).
  destruct r as [n|]; [|destruct Hnone as [Hf Hm]; [done|]; unfold supply in Hs; rewrite Hf, Hm in Hs; cbn in Hs; lia].
  exists n, e'. split; [done|]. split; [done|]. revert Ha. unfold resp__node_alloc, supply.
  destruct (n_free e) as [|m fl]; [|intros [= <- <-]; cbn; lia].
  destruct (n_slab e) as [s|].
  - destruct (zedis_slab_alloc s _) as [[[m|] s']|]; cbn [mbind exec_bind]; [intros [= <- <-]; cbn; lia| |done].
    destruct (n_malloc e); [done|]. intros [= <- <-]; cbn; lia.
  - destruct (n_malloc e); [done|]. intros [= <- <-]; cbn; lia.
Qed.

Lemma enc_pos v : 0 < zlen (enc v).
Proof.
  assert (∃ c l, enc v = c :: l) as (c & l & ->) by (destruct v; cbn; by eauto).
  rewrite zlen_cons. pose proof (zlen_nonneg l). lia.
Qed.

Lemma concat_enc_ge (vs : list rval) : zlen vs <= zlen (concat (map enc vs)).
Proof.
  induction vs as [|v vs IH]; [done|]. cbn [map concat]. rewrite zlen_cons, zlen_app.
  pose proof (enc_pos v). lia.
Qed.

(** What parsing the encoding of [v] at [pos] gives. *)
Definition parses (p : resp_parser) (pv : Z → node_env → exec (presult * node_env)) (v : rval) : Prop :=
  ∀ pos e, at_pos p pos (enc v) → env_ok e → (nodes_of v <= supply e)%nat → ∃ v' e',
    pv pos e = Ok (POk v' (pos + zlen (enc v)), e') ∧ denote (buf p) v' = v ∧ env_ok e' ∧
    (supply e <= nodes_of v + supply e')%nat.

Lemma parse_elems_enc p pv (vs : list rval) fuel pos es e :
  (length vs < fuel)%nat → Forall (parses p pv) vs → at_pos p pos (concat (map enc vs)) → env_ok e →
  (nodes_of (VArr vs) <= supply e)%nat → ∃ es' e',
    parse_elems fuel pv pos (zlen vs) es e
    = Ok (POk (RArray (es ++ es')) (pos + zlen (concat (map enc vs))), e') ∧
    map (λ x, denote (buf p) x.2) es' = vs ∧ env_ok e' ∧
    (supply e <= nodes_of (VArr vs) + supply e')%nat.
Proof.
  revert fuel pos es e. induction vs as [|v vs IH]; intros [|fuel] pos es e Hf Hall Hat He Hn; try (cbn in Hf; lia).
  { exists [], e. cbn [parse_elems map concat zlen length Z.of_nat Z.leb Z.compare].
    rewrite app_nil_r, Z.add_0_r. split; [done|]. split; [done|]. split; [done|]. cbn. lia. }
  cbn [parse_elems]. rewrite zlen_cons. pose proof (zlen_nonneg vs).
  destruct (1 + zlen vs <=? 0) eqn:E; zb; [lia|]. cbn [nodes_of foldr] in Hn.
  destruct (node_alloc_supply e He) as (n & e1 & -> & He1 & Hs1); [lia|]. cbn [mbind exec_bind].
  apply Forall_cons in Hall as [Hv Hall]. cbn [map concat] in Hat. apply at_pos_app in Hat as [Hat1 Hat2].
  destruct (Hv pos e1 Hat1 He1) as (v' & e2 & -> & Hd & He2 & Hs2); [lia|]. cbn [mbind exec_bind].
  replace (1 + zlen vs - 1) with (zlen vs) by lia. cbn [length] in Hf.
  destruct (IH fuel (pos + zlen (enc v)) (es ++ [(n, v')]) e2) as (es' & e' & -> & Hds & He' & Hs');
    [lia|done|done|done|cbn [nodes_of]; lia|].
  exists ((n, v') :: es'), e'. rewrite <-app_assoc. cbn [map concat app snd]. rewrite zlen_app, Z.add_assoc.
  split; [done|]. split; [by rewrite Hd, Hds|]. split; [done|]. cbn [nodes_of foldr] in *. lia.
Qed.

Lemma dec_u_dec_d n : 0 <= n → dec_u n = dec_d n.
Proof. intros. unfold dec_d. destruct (n <? 0) eqn:E; zb; [lia|done]. Qed.

Lemma dec_d_one_line z : one_line (dec_d z).
Proof.
  unfold dec_d. destruct (z <? 0) eqn:E; zb.
  - apply (digits_one_line [45]); [|by right]. by apply dec_u_spec; lia.
  - apply (digits_one_line []); [|by left]. by apply dec_u_spec; lia.
Qed.

(** The header line of a typed value: the prefix, a numeral, CR LF. *)
Lemma header_line p pos c z rest :
  buf_wf p → at_pos p pos ([c] ++ dec_d z ++ crlf ++ rest) → - INT64_MAX <= z <= INT64_MAX →
  aget (buf p) pos = Ok c ∧
  resp__find_crlf p (pos + 1) = Ok (Some (pos + 1 + zlen (dec_d z))) ∧
  resp__parse_int (buf p) (pos + 1) (pos + 1 + zlen (dec_d z)) = Ok (Some z) ∧
  at_pos p (pos + 1 + zlen (dec_d z) + 2) rest.
Proof.
  intros Hwf Hat Hz. split; [by eapply at_pos_head|].
  apply at_pos_app in Hat as [_ Hat]. change (zlen [c]) with 1 in Hat.
  split; [|split].
  - apply find_crlf_line; [done| |apply dec_d_one_line]. rewrite app_assoc in Hat. by apply at_pos_app in Hat as [? _].
  - by eapply parse_int_dec_d.
  - apply at_pos_app in Hat as [_ Hat]. by apply at_pos_app in Hat as [_ Hat].
Qed.

Lemma encodable_array vs : encodable (VArr vs) ↔ Forall encodable vs.
Proof. cbn. induction vs as [|v vs IH]; cbn; [by split|]. rewrite IH, Forall_cons. done. Qed.

Lemma at_pos_inside p pos v : at_pos p pos (enc v) → (pos >=? w_pos p) = false.
Proof.
  intros (_ & Hw & _). pose proof (enc_pos v). rewrite Z.geb_leb. apply Z.leb_gt. lia.
Qed.

Lemma parses_line fuel p c s :
  buf_wf p → one_line s → c = 43 ∨ c = 45 →
  parses p (parse_value (S fuel) p) (if c =? 43 then VSimple s else VError s).
Proof.
  intros Hwf Hone Hc pos e Hat He _. cbn [parse_value]. rewrite (at_pos_inside _ _ _ Hat).
  assert (enc (if c =? 43 then VSimple s else VError s) = [c] ++ s ++ crlf) as Henc by (by destruct Hc as [-> | ->]).
  rewrite Henc in *. rewrite (at_pos_head p pos c (s ++ crlf)) by done. cbn [mbind exec_bind].
  assert (is_prefix_byte c = true) as -> by (by destruct Hc as [-> | ->]). cbn [negb].
  apply at_pos_app in Hat as [_ Hat]. change (zlen [c]) with 1 in Hat.
  rewrite (find_crlf_line p (pos + 1) s) by done. cbn [mbind exec_bind].
  assert ((c =? 43) || (c =? 45) = true) as -> by (by destruct Hc as [-> | ->]).
  apply at_pos_app in Hat as [(_ & _ & Hs) _].
  replace (pos + zlen ([c] ++ s ++ crlf)) with (pos + 1 + zlen s + 2).
  2:{ rewrite !zlen_app. change (zlen [c]) with 1. change (zlen crlf) with 2. lia. }
  do 2 eexists. split; [done|]. split; [|split; [done|destruct (c =? 43); cbn; lia]].
  destruct (c =? 43); cbn [denote fst snd];
    (replace (pos + 1 + zlen s - (pos + 1)) with (zlen s) by lia); by rewrite Hs.
Qed.

Lemma parses_int fuel p z :
  buf_wf p → - INT64_MAX <= z <= INT64_MAX → parses p (parse_value (S fuel) p) (VInt z).
Proof.
  intros Hwf Hz pos e Hat He _. cbn [parse_value]. rewrite (at_pos_inside _ _ _ Hat). cbn [enc] in *.
  destruct (header_line p pos 58 z []) as (-> & Hc & Hi & _); [done|by rewrite app_nil_r|done|].
  cbn [mbind exec_bind]. rewrite Hc. cbn [mbind exec_bind negb is_prefix_byte Z.eqb Pos.eqb orb].
  rewrite Hi. cbn [mbind exec_bind].
  replace (pos + zlen ([58] ++ dec_d z ++ crlf)) with (pos + 1 + zlen (dec_d z) + 2).
  2:{ rewrite !zlen_app. change (zlen [58]) with 1. change (zlen crlf) with 2. lia. }
  do 2 eexists. split; [done|]. split; [done|]. split; [done|cbn; lia].
Qed.

Lemma parses_nil fuel p : buf_wf p → parses p (parse_value (S fuel) p) VNil.
Proof.
  intros Hwf pos e Hat He _. cbn [parse_value]. rewrite (at_pos_inside _ _ _ Hat). cbn [enc] in *.
  destruct (header_line p pos 36 (-1) []) as (-> & Hc & Hi & _); [done|exact Hat|done|].
  cbn [mbind exec_bind]. rewrite Hc. cbn [mbind exec_bind negb is_prefix_byte Z.eqb Pos.eqb orb].
  rewrite Hi. cbn [mbind exec_bind Z.ltb Z.compare].
  change (pos + zlen ([36; 45; 49] ++ crlf)) with (pos + 5).
  do 2 eexists. split; [change (zlen (dec_d (-1))) with 2; do 3 f_equal; lia|].
  split; [done|]. split; [done|cbn; lia].
Qed.

Lemma parses_bulk fuel p s : buf_wf p → parses p (parse_value (S fuel) p) (VBulk s).
Proof.
  intros Hwf pos e Hat He _. pose proof Hwf as [Hw H62].
  cbn [parse_value]. rewrite (at_pos_inside _ _ _ Hat). cbn [enc] in *. pose proof (zlen_nonneg s) as Hs0.
  pose proof Hat as (H0 & Hend & _). rewrite !zlen_app in Hend. pose proof (zlen_nonneg (dec_u (zlen s))).
  change (zlen [36]) with 1 in Hend. change (zlen crlf) with 2 in Hend. rewrite dec_u_dec_d in * by done.
  destruct (header_line p pos 36 (zlen s) (s ++ crlf)) as (-> & Hc & Hi & Hrest); [done|done|unfold INT64_MAX; lia|].
  cbn [mbind exec_bind]. rewrite Hc. cbn [mbind exec_bind negb is_prefix_byte Z.eqb Pos.eqb orb].
  rewrite Hi. cbn [mbind exec_bind]. destruct (zlen s <? 0) eqn:E; zb; [lia|].
  set (ds := pos + 1 + zlen (dec_d (zlen s)) + 2) in *.
  rewrite !(u64_small (ds + zlen s)), u64_small, Z.gtb_ltb by lia.
  destruct (w_pos p <? _) eqn:E2; zb; [lia|]. apply at_pos_app in Hrest as [(_ & _ & Hbytes) Hcrlf].
  rewrite (at_pos_head p (ds + zlen s) CR [LF] Hwf Hcrlf). cbn [mbind exec_bind].
  pose proof (at_pos_get p (ds + zlen s) crlf 1%nat LF Hwf Hcrlf eq_refl) as Hlf. change (Z.of_nat 1) with 1 in Hlf. rewrite Hlf.
  cbn [mbind exec_bind].
  replace (pos + zlen ([36] ++ dec_d (zlen s) ++ crlf ++ s ++ crlf)) with (ds + zlen s + 2).
  2:{ rewrite !zlen_app. change (zlen [36]) with 1. change (zlen crlf) with 2. unfold ds. lia. }
  do 2 eexists. split; [done|]. split; [|split; [done|cbn; lia]]. cbn [denote fst snd]. by rewrite Hbytes.
Qed.

Lemma parses_array fuel p vs :
  buf_wf p → Forall (parses p (parse_value fuel p)) vs → parses p (parse_value (S fuel) p) (VArr vs).
Proof.
  intros Hwf Hall pos e Hat He Hn. pose proof Hwf as [Hw H62].
  cbn [parse_value]. rewrite (at_pos_inside _ _ _ Hat). cbn [enc] in *. pose proof (zlen_nonneg vs) as Hs0.
  pose proof Hat as (H0 & Hend & _). rewrite !zlen_app in Hend. pose proof (zlen_nonneg (dec_u (zlen vs))).
  pose proof (concat_enc_ge vs).
  change (zlen [42]) with 1 in Hend. change (zlen crlf) with 2 in Hend. rewrite dec_u_dec_d in * by done.
  destruct (header_line p pos 42 (zlen vs) (concat (map enc vs))) as (-> & Hc & Hi & Hrest);
    [done|done|unfold INT64_MAX; lia|].
  cbn [mbind exec_bind]. rewrite Hc. cbn [mbind exec_bind negb is_prefix_byte Z.eqb Pos.eqb orb].
  rewrite Hi. cbn [mbind exec_bind]. destruct (zlen vs <? 0) eqn:E; zb; [lia|].
  destruct (parse_elems_enc p (parse_value fuel p) vs (S (Z.to_nat (w_pos p - pos)))
    (pos + 1 + zlen (dec_d (zlen vs)) + 2) [] e) as (es & e' & -> & Hd & He' & Hs'); try done.
  { unfold zlen in *. lia. }
  replace (pos + zlen ([42] ++ dec_d (zlen vs) ++ crlf ++ concat (map enc vs)))
    with (pos + 1 + zlen (dec_d (zlen vs)) + 2 + zlen (concat (map enc vs))).
  2:{ rewrite !zlen_app. change (zlen [42]) with 1. change (zlen crlf) with 2. lia. }
  do 2 eexists. split; [done|]. split; [|done]. cbn [denote app]. by rewrite Hd.
Qed.

(** An encoded value needs fuel for its depth. *)
Fixpoint rdepth (v : rval) : nat :=
  match v with VArr vs => S (foldr (λ v n, max (rdepth v) n) 0%nat vs) | _ => 1%nat end.

Lemma parses_enc fuel p v :
  buf_wf p → encodable v → (rdepth v <= fuel)%nat → parses p (parse_value fuel p) v.
Proof.
  intros Hwf. revert fuel. induction v as [s|s|z|s| |vs IH] using rval_ind'; intros fuel Hok Hd;
    destruct fuel as [|fuel]; try (cbn in Hd; lia).
  - apply (parses_line fuel p 43 s); [done|done|by left].
  - apply (parses_line fuel p 45 s); [done|done|by right].
  - by apply parses_int.
  - by apply parses_bulk.
  - by apply parses_nil.
  - apply parses_array; [done|]. apply encodable_array in Hok. cbn [rdepth] in Hd. apply le_S_n in Hd.
    induction IH as [|v vs Hv _ IHvs]; [constructor|]. apply Forall_cons in Hok as [Hok1 Hok2].
    cbn [foldr] in Hd. constructor; [apply Hv; [done|lia]|apply IHvs; [done|lia]].
Qed.

Lemma rdepth_le v : Z.of_nat (rdepth v) <= zlen (enc v).
Proof.
  induction v as [s|s|z|s| |vs IH] using rval_ind'; try (cbn [rdepth]; apply (Z.lt_pred_le _ _), enc_pos).
  cbn [rdepth enc]. rewrite !zlen_app. pose proof (zlen_nonneg (dec_u (zlen vs))).
  change (zlen [42]) with 1. change (zlen crlf) with 2.
  assert (Z.of_nat (foldr (λ v n, Nat.max (rdepth v) n) 0%nat vs) <= zlen (concat (map enc vs))); [|lia].
  induction IH as [|v vs Hv _ IHvs]; [done|]. cbn [foldr map concat]. rewrite zlen_app.
  pose proof (zlen_nonneg (dec_u (zlen vs))). pose proof (zlen_nonneg (enc v)).
  pose proof (zlen_nonneg (concat (map enc vs))). specialize (IHvs ltac:(lia)). lia.
Qed.
