(* ===== verification/RespFormat.v ===== *)
(** The formatters of src/resp_format.c: each writes a reply and its NUL into
    an array of the caller and returns the length of the reply, or -1.  They
    write exactly the encoding of their argument. *)

From S2P Require Import Prelude Arena Slab Resp RespSafe RespRound.

(** * The operations *)

(** [memcpy (dst + used, s, len); used += len], if it fits: the array and the
    new length, or nothing for -1. *)
Definition append_str (dst : list Z) (cap used : Z) (s : list Z) : exec (option (list Z * Z)) :=
  if u64 (used + zlen s) >=? cap then Ok None else
  d ← memcpy dst used s;
  Ok (Some (d, u64 (used + zlen s))).

(** The common body of resp_format_simple and resp_format_error: the result
    and the array. *)
Definition format_text (dst : list Z) (cap : Z) (mark : Z) (str : list Z) : exec (Z * list Z) :=
  x ← append_str dst cap 0 [mark];
  match x with
  | None => Ok (-1, dst)
  | Some (d1, u1) =>
      y ← append_str d1 cap u1 (cstr str);
      match y with
      | None => Ok (-1, d1)
      | Some (d2, u2) =>
          z ← append_str d2 cap u2 crlf;
          match z with
          | None => Ok (-1, d2)
          | Some (d3, u3) => d4 ← aset d3 u3 0; Ok (to_i32 u3, d4)
          end
      end
  end.
Definition resp_format_simple (dst : list Z) (cap : Z) (str : list Z) : exec (Z * list Z) :=
  format_text dst cap 43 str.
Definition resp_format_error (dst : list Z) (cap : Z) (msg : list Z) : exec (Z * list Z) :=
  format_text dst cap 45 msg.

Definition resp_format_integer (dst : list Z) (cap value : Z) : exec (Z * list Z) :=
  x ← snprintf_to dst cap ([58] ++ dec_d value ++ crlf);
  let '(n, d) := x in
  Ok (if (n >? 0) && (n <? cap) then n else -1, d).

Definition resp_format_bulk (dst : list Z) (cap : Z) (data : list Z) : exec (Z * list Z) :=
  x ← snprintf_to dst cap ([36] ++ dec_u (zlen data) ++ crlf);
  let '(n, d) := x in
  if (n <=? 0) || (n >=? cap) then Ok (-1, d) else
  if u64 (n + zlen data + 3) >? cap then Ok (-1, d) else
  d1 ← memcpy d n data;
  d2 ← memcpy d1 (n + zlen data) crlf;
  d3 ← aset d2 (n + zlen data + 2) 0;
  Ok (to_i32 (n + zlen data + 2), d3).

Definition resp_format_null (dst : list Z) (cap : Z) : exec (Z * list Z) :=
  let null_bulk := [36; 45; 49] ++ crlf in
  if zlen null_bulk >=? cap then Ok (-1, dst) else
  d ← memcpy dst 0 null_bulk;
  d1 ← aset d (zlen null_bulk) 0;
  Ok (to_i32 (zlen null_bulk), d1).

(** * What they write *)

(** The outcome of formatting [text] into an array of [cap] bytes: the text
    and a NUL at its start and its length as the result, when both fit; -1
    otherwise. *)
Definition prints (text : list Z) (cap : Z) (r : exec (Z * list Z)) : Prop :=
  ∃ n d, r = Ok (n, d) ∧ zlen d = cap ∧
    if zlen text <? cap then n = zlen text ∧ ∃ rest, d = text ++ 0 :: rest else n = -1.

Definition formats (r : exec (Z * list Z)) (cap : Z) (v : rval) : Prop := prints (enc v) cap r.

(** Writing at the end of what an array holds. *)
Lemma memcpy_at {A} (acc r s : list A) :
  zlen s <= zlen r → memcpy (acc ++ r) (zlen acc) s = Ok (acc ++ s ++ drop (length s) r).
Proof.
  intros Hs. pose proof (zlen_nonneg acc). rewrite memcpy_ok by (rewrite ?zlen_app; lia). f_equal.
  unfold zlen. rewrite Nat2Z.id, take_app_length. do 2 f_equal.
  rewrite drop_app_ge by lia. f_equal. lia.
Qed.

Lemma aset_at {A} (acc r : list A) x : 1 <= zlen r → aset (acc ++ r) (zlen acc) x = Ok (acc ++ x :: drop 1 r).
Proof.
  intros Hr. destruct r as [|y r]; [rewrite zlen_nil in Hr; lia|]. unfold aset. rewrite zlen_app.
  pose proof (zlen_nonneg acc). pose proof (zlen_nonneg r). rewrite zlen_cons.
  destruct (_ && _) eqn:E; [|lia]. f_equal. unfold zlen.
  rewrite Nat2Z.id, insert_app_r_alt by lia. by rewrite Nat.sub_diag.
Qed.

(** Too long a text, and one that is there but for its NUL. *)
Lemma prints_refused text cap d : cap <= zlen text → zlen d = cap → prints text cap (Ok (-1, d)).
Proof. intros Ht Hd. do 2 eexists. split; [done|]. split; [done|]. by destruct (_ <? _) eqn:E; zb; [lia|]. Qed.

Lemma prints_nul text cap r :
  zlen (text ++ r) = cap → 1 <= zlen r → cap < 2 ^ 31 →
  prints text cap (d ← aset (text ++ r) (zlen text) 0; Ok (to_i32 (zlen text), d)).
Proof.
  intros Hl Hr Hd. rewrite aset_at by done. cbn [mbind exec_bind]. rewrite zlen_app in Hl.
  pose proof (zlen_nonneg text). rewrite to_i32_small by (unfold INT32_MIN, INT32_MAX; lia).
  destruct r as [|y r]; [rewrite zlen_nil in Hr; lia|]. cbn [drop]. rewrite drop_0.
  do 2 eexists. split; [done|]. split; [rewrite zlen_app, zlen_cons in *; lia|].
  destruct (_ <? _) eqn:E; zb; [|lia]. split; [done|]. by eexists.
Qed.

Lemma append_at acc r cap s :
  zlen (acc ++ r) = cap → cap < 2 ^ 31 → zlen s < 2 ^ 62 →
  if zlen (acc ++ s) <? cap
  then ∃ r', append_str (acc ++ r) cap (zlen acc) s = Ok (Some ((acc ++ s) ++ r', zlen (acc ++ s))) ∧
         zlen ((acc ++ s) ++ r') = cap
  else append_str (acc ++ r) cap (zlen acc) s = Ok None.
Proof.
  intros Hc H31 Hs. unfold append_str. rewrite (zlen_app acc s). rewrite zlen_app in Hc.
  pose proof (zlen_nonneg acc). pose proof (zlen_nonneg s). pose proof (zlen_nonneg r).
  rewrite u64_small, Z.geb_leb by lia. destruct (cap <=? _) eqn:E, (_ <? cap) eqn:E2; zb; try lia; [done|].
  rewrite memcpy_at by lia. cbn [mbind exec_bind].
  exists (drop (length s) r). rewrite <-app_assoc. split; [done|]. unfold zlen in *. rewrite !length_app, length_drop. lia.
Qed.

Lemma format_text_prints dst cap mark str :
  zlen dst = cap → cap < 2 ^ 31 → zlen (cstr str) < 2 ^ 62 →
  prints ([mark] ++ cstr str ++ crlf) cap (format_text dst cap mark str).
Proof.
  intros Hc H31 Hs. unfold format_text. pose proof (zlen_nonneg (cstr str)).
  assert (zlen ([mark] ++ cstr str ++ crlf) = 1 + zlen (cstr str) + 2) as Hz by (rewrite !zlen_app; change (zlen crlf) with 2; unfold zlen; cbn; lia).
  pose proof (append_at [] dst cap [mark] Hc H31 ltac:(done)) as H1. cbn [app] in H1. change (zlen []) with 0 in H1.
  change (zlen [mark]) with 1 in H1. destruct (1 <? cap) eqn:E1; zb; [|rewrite H1; apply prints_refused; [lia|done]].
  destruct H1 as (r1 & -> & Hl1). cbn [mbind exec_bind]. change (mark :: r1) with ([mark] ++ r1) in *. change 1 with (zlen [mark]).
  pose proof (append_at [mark] r1 cap (cstr str) Hl1 H31 Hs) as H2. rewrite (zlen_app [mark]) in H2. change (zlen [mark]) with 1 in H2 at 1.
  destruct (_ <? cap) eqn:E2; zb; [|rewrite H2; apply prints_refused; [lia|done]].
  destruct H2 as (r2 & -> & Hl2). cbn [mbind exec_bind].
  rewrite app_assoc in Hz |- *. set (acc := [mark] ++ cstr str) in *. replace (zlen [mark] + zlen (cstr str)) with (zlen acc) by (unfold acc; by rewrite zlen_app).
  pose proof (append_at acc r2 cap crlf Hl2 H31 ltac:(done)) as H3. destruct (_ <? cap) eqn:E3; zb.
  - destruct H3 as (r3 & -> & Hl3). cbn [mbind exec_bind]. apply prints_nul; [done| |done]. rewrite zlen_app in Hl3. lia.
  - rewrite H3. by apply prints_refused.
Qed.

(** snprintf into the array. *)
Lemma snprintf_to_ok dst cap text :
  zlen dst = cap → ∃ d, snprintf_to dst cap text = Ok (zlen text, d) ∧ zlen d = cap ∧
    (zlen text < cap → ∃ r, d = text ++ 0 :: r).
Proof.
  intros Hc. unfold snprintf_to. pose proof (zlen_nonneg dst). pose proof (zlen_nonneg text).
  destruct (cap =? 0) eqn:E0; zb; [exists dst; split; [done|]; split; [done|lia]|].
  set (w := take (Z.to_nat (cap - 1)) text ++ [0]).
  assert (zlen w <= cap) as Hw by (unfold w, zlen in *; rewrite length_app, length_take; cbn [length]; lia).
  pose proof (memcpy_at [] dst w ltac:(lia)) as Hm. cbn [app] in Hm. change (zlen []) with 0 in Hm. rewrite Hm.
  cbn [mbind exec_bind]. eexists. split; [done|]. split.
  - unfold zlen in *. rewrite length_app, length_drop. lia.
  - intros Hlt. unfold w. rewrite take_ge by (unfold zlen in *; lia). rewrite <-app_assoc. by eexists.
Qed.

Lemma dec_u_pos n : 0 <= n → 0 < zlen (dec_u n).
Proof.
  intros Hn. destruct (dec_u_digits n Hn) as (d & ds & -> & _). rewrite zlen_cons. pose proof (zlen_nonneg ds). lia.
Qed.

Lemma dec_u_short n : 0 <= n < 2 ^ 62 → zlen (dec_u n) < 2 ^ 62.
Proof.
  intros Hn. unfold dec_u. assert (∀ f m acc, zlen (dec_aux f m acc) <= zlen acc + Z.of_nat f) as H.
  { induction f as [|f IH]; intros m acc; cbn [dec_aux]; [lia|].
    destruct (m <? 10); [rewrite zlen_cons; lia|]. pose proof (IH (m / 10) ((48 + m mod 10) :: acc)) as H.
    rewrite zlen_cons in H. lia. }
  pose proof (H (S (Z.to_nat (Z.log2 n))) n []) as H1. rewrite zlen_nil in H1.
  destruct (decide (n = 0)) as [->|]; [vm_compute; reflexivity|].
  assert (Z.log2 n < 62) by (apply Z.log2_lt_pow2; lia). pose proof (Z.log2_nonneg n). lia.
Qed.

Lemma format_integer_prints dst cap z :
  zlen dst = cap → prints ([58] ++ dec_d z ++ crlf) cap (resp_format_integer dst cap z).
Proof.
  intros Hc. unfold resp_format_integer. set (out := [58] ++ _).
  assert (0 < zlen out) by (unfold out; cbn [app]; rewrite zlen_cons; pose proof (zlen_nonneg (dec_d z ++ crlf)); lia).
  destruct (snprintf_to_ok dst cap out Hc) as (d & -> & Hl & Hw). cbn [mbind exec_bind]. rewrite Z.gtb_ltb.
  destruct (0 <? zlen out) eqn:E; zb; [|lia]. cbn [andb]. do 2 eexists. split; [done|]. split; [done|].
  destruct (_ <? cap) eqn:E2; zb; [|done]. split; [done|]. by apply Hw.
Qed.

Lemma format_bulk_prints dst cap data :
  zlen dst = cap → cap < 2 ^ 31 → zlen data < 2 ^ 62 →
  prints ([36] ++ dec_u (zlen data) ++ crlf ++ data ++ crlf) cap (resp_format_bulk dst cap data).
Proof.
  intros Hc H31 Hd. unfold resp_format_bulk. pose proof (zlen_nonneg data).
  pose proof (dec_u_pos (zlen data) ltac:(lia)). pose proof (dec_u_short (zlen data) ltac:(lia)).
  rewrite (app_assoc (dec_u _)), (app_assoc [36]). set (hdr := [36] ++ dec_u (zlen data) ++ crlf).
  assert (zlen hdr = 1 + zlen (dec_u (zlen data)) + 2) as Hh by (unfold hdr; rewrite !zlen_app; change (zlen [36]) with 1; change (zlen crlf) with 2; lia).
  assert (zlen (hdr ++ data ++ crlf) = zlen hdr + zlen data + 2) as Hz by (rewrite !zlen_app; change (zlen crlf) with 2; lia).
  destruct (snprintf_to_ok dst cap hdr Hc) as (d & -> & Hl & Hw). cbn [mbind exec_bind].
  rewrite u64_small, Z.geb_leb, Z.gtb_ltb by lia. destruct (zlen hdr <=? 0) eqn:E; zb; [lia|]. cbn [orb].
  destruct (cap <=? zlen hdr) eqn:E1; zb; [apply prints_refused; [lia|done]|].
  destruct (cap <? _) eqn:E2; zb; [apply prints_refused; [lia|done]|].
  destruct (Hw E1) as [r ->]. rewrite zlen_app, zlen_cons in Hl.
  rewrite memcpy_at by (rewrite zlen_cons; lia). cbn [mbind exec_bind].
  set (r1 := drop (length data) (0 :: r)). rewrite !(app_assoc hdr), <-zlen_app.
  assert (zlen r1 = cap - zlen hdr - zlen data) as Hr1 by (unfold r1, zlen in *; rewrite length_drop; cbn [length]; lia).
  rewrite memcpy_at by (rewrite Hr1; change (zlen crlf) with 2; lia). cbn [mbind exec_bind].
  change 2 with (zlen crlf). rewrite <-zlen_app, (app_assoc (hdr ++ data)).
  assert (zlen (drop (length crlf) r1) = zlen r1 - 2) as Hr2 by (change (length crlf) with 2%nat; unfold zlen in *; rewrite length_drop; lia).
  apply prints_nul; [rewrite !zlen_app; change (zlen crlf) with 2; lia|lia|done].
Qed.

Lemma format_null_prints dst cap : zlen dst = cap → cap < 2 ^ 31 → prints ([36; 45; 49] ++ crlf) cap (resp_format_null dst cap).
Proof.
  intros Hc H31. unfold resp_format_null. set (t := [36; 45; 49] ++ crlf). rewrite Z.geb_leb.
  destruct (cap <=? zlen t) eqn:E; zb; [by apply prints_refused|]. pose proof (memcpy_at [] dst t) as Hm.
  cbn [app] in Hm. change (zlen []) with 0 in Hm. rewrite Hm by lia. cbn [mbind exec_bind].
  apply prints_nul; [| |done]; unfold zlen in *; rewrite ?length_app, length_drop; lia.
Qed.

Lemma zlen_cstr s : zlen (cstr s) <= zlen s.
Proof.
  induction s as [|b s IH]; [done|]. cbn [cstr]. pose proof (zlen_nonneg s). destruct (b =? 0); rewrite ?zlen_cons, ?zlen_nil; lia.
Qed.

Lemma formatters_exact dst cap s z :
  zlen dst = cap → cap < 2 ^ 31 → zlen s < 2 ^ 62 →
  formats (resp_format_simple dst cap s) cap (VSimple (cstr s)) ∧
  formats (resp_format_error dst cap s) cap (VError (cstr s)) ∧
  formats (resp_format_integer dst cap z) cap (VInt z) ∧
  formats (resp_format_bulk dst cap s) cap (VBulk s) ∧
  formats (resp_format_null dst cap) cap VNil.
Proof.
  intros Hd Hc Hs. pose proof (zlen_cstr s). split_and!.
  - apply format_text_prints; [done|done|lia].
  - apply format_text_prints; [done|done|lia].
  - by apply format_integer_prints.
  - by apply format_bulk_prints.
  - by apply format_null_prints.
Qed.

(** * Theorem *)

(** C24: Into an array of [cap] bytes, at most as many as an int can count,
    each of the five formatters writes the protocol's encoding of its argument
    and a NUL, returns the length of the encoding, and writes nothing outside
    of the array; where the encoding and the NUL do not fit it returns -1 (a
    simple string or an error ends at its first NUL, a bulk string may hold any
    bytes). *)
Theorem resp_format_exact dst cap s z :
  zlen dst = cap → cap < 2 ^ 31 → zlen s < 2 ^ 62 →
  formats (resp_format_simple dst cap s) cap (VSimple (cstr s)) ∧
  formats (resp_format_error dst cap s) cap (VError (cstr s)) ∧
  formats (resp_format_integer dst cap z) cap (VInt z) ∧
  formats (resp_format_bulk dst cap s) cap (VBulk s) ∧
  formats (resp_format_null dst cap) cap VNil.
Proof. apply formatters_exact. Qed.

Lemma resp_format_exact_witness :
  formats (resp_format_bulk (replicate 10 7) 10 [1; 0; 13; 10]) 10 (VBulk [1; 0; 13; 10]) ∧
  formats (resp_format_bulk (replicate 11 7) 11 [1; 0; 13; 10]) 11 (VBulk [1; 0; 13; 10]) ∧
  resp_format_bulk (replicate 10 7) 10 [1; 0; 13; 10] = Ok (-1, [36; 52; 13; 10; 0; 7; 7; 7; 7; 7]) ∧
  resp_format_bulk (replicate 11 7) 11 [1; 0; 13; 10] = Ok (10, [36; 52; 13; 10; 1; 0; 13; 10; 13; 10; 0]).
Proof.
  destruct (resp_format_exact (replicate 10 7) 10 [1; 0; 13; 10] 0 eq_refl eq_refl eq_refl) as (_ & _ & _ & H1 & _).
  destruct (resp_format_exact (replicate 11 7) 11 [1; 0; 13; 10] 0 eq_refl eq_refl eq_refl) as (_ & _ & _ & H2 & _).
  split; [exact H1|]. split; [exact H2|]. split; vm_compute; reflexivity.
Defined.
