(* ===== verification/RespMono.v ===== *)
(** The RESP parser does not depend on what has not arrived yet: once it has
    an answer for the bytes written so far, it gives the same answer when more
    bytes follow. *)

From stdpp Require Import gmap.
From S2P Require Import Prelude Arena Slab Resp RespSafe RespRound.

Definition agree (b b' : list Z) (hi : Z) : Prop := ∀ i, 0 <= i < hi → aget b' i = aget b i.

(** [p'] is [p] with more bytes written. *)
Definition extends (p p' : resp_parser) : Prop :=
  buf_wf p ∧ buf_wf p' ∧ w_pos p <= w_pos p' ∧ agree (buf p) (buf p') (w_pos p).

Lemma agree_lookup b b' hi i :
  agree b b' hi → 0 <= i < hi → hi <= zlen b → hi <= zlen b' → b' !! Z.to_nat i = b !! Z.to_nat i.
Proof.
  intros Ha Hi Hb Hb'. pose proof (Ha i Hi) as H.
  destruct (aget_ok b i) as (x & Hx & Hlx); [lia|]. destruct (aget_ok b' i) as (y & Hy & Hly); [lia|].
  congruence.
Qed.

Lemma extends_crlf p p' j :
  extends p p' → 0 <= j → j + 1 < w_pos p → crlf_at (buf p') j ↔ crlf_at (buf p) j.
Proof.
  intros ([Hw _] & [Hw' _] & Hle & Ha) Hj Hjw. unfold crlf_at.
  rewrite !(agree_lookup (buf p) (buf p') (w_pos p)) by (done || lia). done.
Qed.

Lemma find_crlf_mono p p' from i :
  extends p p' → 0 <= from → resp__find_crlf p from = Ok (Some i) →
  resp__find_crlf p' from = Ok (Some i).
Proof.
  intros Hext Hf H. pose proof Hext as (Hwf & Hwf' & Hle & _).
  destruct (find_crlf_ok p from Hwf Hf) as (r & Hr & Hp). rewrite H in Hr. injection Hr as <-.
  destruct Hp as (Hi & Hiw & Hc & Hno).
  destruct (find_crlf_ok p' from Hwf' Hf) as (r & -> & Hp'). destruct r as [k|].
  - destruct Hp' as (Hk & Hkw & Hck & Hno'). do 2 f_equal.
    destruct (decide (k < i)).
    { destruct (Hno k); [lia|]. apply (extends_crlf p p'); [done|lia|lia|done]. }
    destruct (decide (i < k)); [|lia].
    destruct (Hno' i); [lia|]. apply (extends_crlf p p'); [done|lia|lia|done].
  - destruct (Hp' i); [lia|lia|]. apply (extends_crlf p p'); [done|lia|lia|done].
Qed.

Lemma parse_digits_agree n b b' hi i v :
  agree b b' hi → 0 <= i → i + Z.of_nat n <= hi → parse_digits n b' i v = parse_digits n b i v.
Proof.
  intros Ha. revert i v. induction n as [|n IH]; intros i v Hi Hn; [done|]. cbn [parse_digits].
  rewrite Ha by lia. destruct (aget b i) as [c|]; cbn [mbind exec_bind]; [|done].
  destruct (negb (is_digit c)); [done|]. destruct (chk_i64 (v * 10)); cbn [mbind exec_bind]; [|done].
  destruct (chk_i64 _); cbn [mbind exec_bind]; [|done]. apply IH; lia.
Qed.

Lemma parse_int_agree b b' hi from to :
  agree b b' hi → 0 <= from → to <= hi → resp__parse_int b' from to = resp__parse_int b from to.
Proof.
  intros Ha Hf Ht. unfold resp__parse_int. destruct (from >=? to) eqn:E; zb; [done|].
  rewrite (Ha from) by lia. destruct (aget b from) as [c|]; cbn [mbind exec_bind]; [|done].
  set (i := if c =? 45 then _ else _).
  assert (from <= i) by (unfold i; destruct (c =? 45); lia). clearbody i.
  destruct (i >=? to) eqn:E2; zb; [done|]. rewrite (Ha i) by lia.
  destruct (aget b i) as [d|]; cbn [mbind exec_bind]; [|done]. destruct (negb (is_digit d)); [done|].
  rewrite (parse_digits_agree _ b b' hi) by (done || lia). done.
Qed.

Lemma skip_while_agree n test b b' hi i :
  agree b b' hi → 0 <= i → i + Z.of_nat n <= hi → skip_while n test b' i = skip_while n test b i.
Proof.
  intros Ha. revert i. induction n as [|n IH]; intros i Hi Hn; [done|]. cbn [skip_while].
  rewrite Ha by lia. destruct (aget b i) as [c|]; cbn [mbind exec_bind]; [|done].
  destruct (test c); [|done]. apply IH; lia.
Qed.

Lemma inline_tokens_agree fuel b b' i le es e :
  agree b b' le → 0 <= i → le <= zlen b →
  inline_tokens fuel b' i le es e = inline_tokens fuel b i le es e.
Proof.
  intros Ha Hi Hb. revert i es e Hi. induction fuel as [|fuel IH]; intros i es e Hi; [done|].
  cbn [inline_tokens]. destruct (i >=? le) eqn:E; zb; [done|].
  rewrite (skip_while_agree _ _ b b' le) by (done || lia).
  destruct (skip_while_ok (Z.to_nat (le - i)) is_blank b i) as (tok & -> & Htok & _); [lia|lia|].
  cbn [mbind exec_bind]. destruct (tok >=? le) eqn:E2; zb; [done|].
  rewrite (skip_while_agree _ _ b b' le) by (done || lia).
  destruct (skip_while_ok (Z.to_nat (le - tok)) (λ c, negb (is_blank c)) b tok) as (i' & -> & Hi' & _); [lia|lia|].
  cbn [mbind exec_bind]. destruct (resp__node_alloc e) as [[[n|] e']|]; cbn [mbind exec_bind]; [|done|done].
  apply IH. lia.
Qed.

Lemma find_lf_mono p p' pos lf :
  extends p p' → 0 <= pos <= w_pos p →
  find_lf (Z.to_nat (w_pos p - pos)) (buf p) pos = Ok (Some lf) →
  find_lf (Z.to_nat (w_pos p' - pos)) (buf p') pos = Ok (Some lf) ∧ pos <= lf < w_pos p.
Proof.
  intros ([Hw H62] & [Hw' H62'] & Hle & Ha) Hpos H.
  destruct (find_lf_ok (Z.to_nat (w_pos p - pos)) (buf p) pos) as (r & Hr & Hp); [lia|lia|].
  rewrite H in Hr. injection Hr as <-. destruct Hp as (Hlf & Hc & Hno). rewrite Z2Nat.id in Hlf by lia.
  split; [|lia].
  destruct (find_lf_ok (Z.to_nat (w_pos p' - pos)) (buf p') pos) as (r & -> & Hp'); [lia|lia|].
  assert (∀ j, pos <= j < w_pos p → buf p' !! Z.to_nat j = buf p !! Z.to_nat j) as Hag.
  { intros j Hj. apply (agree_lookup _ _ (w_pos p)); [done|lia|lia|lia]. }
  destruct r as [k|].
  - destruct Hp' as (Hk & Hck & Hno'). do 2 f_equal.
    destruct (decide (k < lf)); [destruct (Hno k); [lia|]; by rewrite <-Hag by lia|].
    destruct (decide (lf < k)); [|lia]. destruct (Hno' lf); [lia|]. by rewrite Hag by lia.
  - destruct (Hp' lf); [lia|]. by rewrite Hag by lia.
Qed.

(** The answer on [p'] is the one on [p], unless more bytes were needed. *)
Definition settled (x x' : exec (presult * node_env)) : Prop :=
  match x with Ok (PNeedMore, _) => True | _ => x' = x end.

Lemma parse_inline_mono p p' pos e :
  extends p p' → 0 <= pos < w_pos p → settled (resp__parse_inline p pos e) (resp__parse_inline p' pos e).
Proof.
  intros Hext Hpos. pose proof Hext as ([Hw _] & _ & Hle & Ha). unfold resp__parse_inline.
  destruct (find_lf_ok (Z.to_nat (w_pos p - pos)) (buf p) pos) as (r & Hr & _); [lia|lia|].
  rewrite Hr. destruct r as [lf|]; [|done].
  destruct (find_lf_mono p p' pos lf Hext ltac:(lia) Hr) as [-> Hlf]. cbn [mbind exec_bind].
  rewrite Z.gtb_ltb. destruct (pos <? lf) eqn:E; zb.
  - rewrite (Ha (lf - 1)) by lia. destruct (aget_ok (buf p) (lf - 1)) as (c & -> & _); [lia|].
    cbn [mbind exec_bind]. set (le := if c =? CR then _ else _).
    assert (le <= lf) by (unfold le; destruct (c =? CR); lia). clearbody le.
    rewrite (inline_tokens_agree _ (buf p) (buf p')); [|intros i Hi; apply Ha; lia|lia|lia].
    destruct (inline_tokens _ _ _ _ _ _) as [[[es|] e']|]; done.
  - cbn [mbind exec_bind]. rewrite (inline_tokens_agree _ (buf p) (buf p')); [|intros i Hi; apply Ha; lia|lia|lia].
    destruct (inline_tokens _ _ _ _ _ _) as [[[es|] e']|]; done.
Qed.

Lemma parse_elems_mono fuel fuel' p p' pv pv' pos cnt es e :
  buf_wf p → w_pos p <= w_pos p' → 0 <= pos <= w_pos p →
  (Z.to_nat (w_pos p - pos) + 1 < fuel)%nat → (Z.to_nat (w_pos p' - pos) + 1 < fuel')%nat →
  (∀ q e, pos <= q <= w_pos p → env_ok e → safe (pv q e) (parse_post p q e)) →
  (∀ q e, pos <= q <= w_pos p → env_ok e → settled (pv q e) (pv' q e)) → env_ok e →
  settled (parse_elems fuel pv pos cnt es e) (parse_elems fuel' pv' pos cnt es e).
Proof.
  intros Hwf Hle. revert fuel' pos cnt es e.
  induction fuel as [|fuel IH]; intros [|fuel'] pos cnt es e Hpos Hf Hf' Hs Hm He; try lia.
  cbn [parse_elems]. destruct (cnt <=? 0); [done|].
  destruct (node_alloc_ok e He) as (r & e1 & -> & [He1 _] & _). cbn [mbind exec_bind].
  destruct r as [n|]; [|done].
  pose proof (Hs pos e1 ltac:(lia) He1) as Hsafe. pose proof (Hm pos e1 ltac:(lia) He1) as Hmono.
  destruct (pv pos e1) as [[r e2]|f] eqn:Epv; cbn [mbind exec_bind].
  2:{ unfold settled in Hmono. rewrite Hmono. done. }
  destruct Hsafe as [[He2 _] Hr]; cbn [fst snd] in *.
  destruct r as [| |v pos']; [done|unfold settled in Hmono; rewrite Hmono; done|].
  unfold settled in Hmono. rewrite Hmono. cbn [mbind exec_bind]. destruct Hr as [Hpos' _].
  apply IH; [lia|lia|lia| | |done]; intros q e' Hq; [apply Hs|apply Hm]; lia.
Qed.

Lemma parse_value_mono fuel fuel' p p' pos e :
  extends p p' → 0 <= pos <= w_pos p → (Z.to_nat (w_pos p - pos) < fuel)%nat →
  (Z.to_nat (w_pos p' - pos) < fuel')%nat → env_ok e →
  settled (parse_value fuel p pos e) (parse_value fuel' p' pos e).
Proof.
  intros Hext. pose proof Hext as (Hwf & Hwf' & Hle & Ha). pose proof Hwf as [Hw H62].
  revert fuel' pos e. induction fuel as [|fuel IH]; intros [|fuel'] pos e Hpos Hf Hf' He; try lia.
  cbn [parse_value]. rewrite !Z.geb_leb. destruct (w_pos p <=? pos) eqn:E; zb; [done|].
  destruct (w_pos p' <=? pos) eqn:E'; zb; [lia|]. rewrite (Ha pos) by lia.
  destruct (aget_ok (buf p) pos) as (c & -> & _); [lia|]. cbn [mbind exec_bind].
  destruct (negb (is_prefix_byte c)); [apply parse_inline_mono; [done|lia]|].
  destruct (find_crlf_ok p (pos + 1) Hwf) as (r & Hr & Hp); [lia|]. rewrite Hr. cbn [mbind exec_bind].
  destruct r as [crlf|]; [|done]. rewrite (find_crlf_mono p p' (pos + 1) crlf Hext) by (done || lia).
  cbn [mbind exec_bind]. destruct Hp as (Hc1 & Hc2 & _).
  destruct ((c =? 43) || (c =? 45)); [done|].
  rewrite (parse_int_agree (buf p) (buf p') (w_pos p)) by (done || lia).
  pose proof (parse_int_safe (buf p) (pos + 1) crlf ltac:(lia) ltac:(lia)) as Hsafe.
  destruct (resp__parse_int (buf p) (pos + 1) crlf) as [[value|]|f]; cbn [mbind exec_bind]; [|done|done].
  specialize (Hsafe value eq_refl). destruct (c =? 58); [done|].
  destruct (value <? 0) eqn:Ev; zb; [done|]. destruct (c =? 36).
  - rewrite !(u64_small (crlf + 2 + value)), u64_small, !Z.gtb_ltb by lia.
    destruct (w_pos p <? _) eqn:E2; zb; [done|]. destruct (w_pos p' <? _) eqn:E3; zb; [lia|].
    rewrite (Ha (crlf + 2 + value)), (Ha (crlf + 2 + value + 1)) by lia.
    destruct (aget_ok (buf p) (crlf + 2 + value)) as (x & -> & _); [lia|]. cbn [mbind exec_bind].
    destruct (aget_ok (buf p) (crlf + 2 + value + 1)) as (y & -> & _); [lia|]. cbn [mbind exec_bind].
    destruct (_ || _); done.
  - apply (parse_elems_mono _ _ p p'); [done|done|lia|lia|lia| | |done].
    + intros q e' Hq He'. apply parse_value_safe; [done|lia|lia|done].
    + intros q e' Hq He'. apply IH; [lia|lia|lia|done].
Qed.
