(* ===== verification/RespSpec.v ===== *)
(** What the RESP parser promises to its client: encoded values come back,
    incomplete ones wait, and the formatters write such encodings. *)

From stdpp Require Import gmap.
From S2P Require Import Prelude Arena Slab Resp RespSafe RespRound RespFormat RespMono.

(** The parser after the compaction that resp_parser_next may do first. *)
Lemma next_compacts p :
  parser_wf p → ∃ p1,
    (if r_pos p >? Z.quot (buf_cap p) 2 then resp__compact p else Ok p) = Ok p1 ∧
    parser_wf p1 ∧ unread p1 = unread p ∧ env p1 = env p ∧ buf_cap p1 = buf_cap p.
Proof.
  intros Hwf. destruct (_ >? _); [|by exists p].
  destruct (compact_ok p Hwf) as (p1 & ? & ? & ? & ? & ? & _). by exists p1.
Qed.

Lemma unread_at p bs rest :
  parser_wf p → unread p = bs ++ rest → at_pos p (r_pos p) bs.
Proof.
  intros (Hl & Hr & Hw & _) Hu. pose proof (f_equal zlen Hu) as Hlen. unfold unread in *.
  rewrite zlen_slice, zlen_app in Hlen by lia. pose proof (zlen_nonneg rest). pose proof (zlen_nonneg bs).
  split; [lia|]. split; [lia|]. rewrite Hlen, slice_split in Hu by lia.
  apply app_inj_1 in Hu as [Hu _]; [done|].
  assert (zlen (slice (buf p) (r_pos p) (zlen bs)) = zlen bs) as H1 by (apply zlen_slice; lia).
  by apply Nat2Z.inj.
Qed.

(** Moving the read position past a prefix leaves the rest. *)
Lemma unread_after p bs rest e :
  parser_wf p → unread p = bs ++ rest →
  unread (RespParser (buf p) (buf_cap p) (r_pos p + zlen bs) (w_pos p) e) = rest ∧
  parser_wf (RespParser (buf p) (buf_cap p) (r_pos p + zlen bs) (w_pos p) e).
Proof.
  intros Hwf Hu. destruct (unread_at p bs rest Hwf Hu) as (H0 & Hle & Hs). destruct Hwf as (Hl & Hr & Hw & H62).
  pose proof (zlen_nonneg bs). unfold unread, parser_wf in *; cbn [buf buf_cap r_pos w_pos env] in *.
  split; [|lia]. replace (w_pos p - r_pos p) with (zlen bs + (w_pos p - (r_pos p + zlen bs))) in Hu by lia.
  rewrite slice_split, Hs in Hu by lia. by apply app_inv_head in Hu.
Qed.

(** [p] with the bytes [suf] written after the ones it holds. *)
Definition more (p : resp_parser) (suf : list Z) : resp_parser :=
  RespParser (slice (buf p) 0 (w_pos p) ++ suf) (w_pos p + zlen suf) (r_pos p) (w_pos p + zlen suf) (env p).

Lemma more_extends p suf :
  parser_wf p → buf_cap p + zlen suf < 2 ^ 62 →
  extends p (more p suf) ∧ parser_wf (more p suf) ∧ unread (more p suf) = unread p ++ suf.
Proof.
  intros (Hl & Hr & Hw & H62) Hsuf. pose proof (zlen_nonneg suf).
  assert (zlen (slice (buf p) 0 (w_pos p)) = w_pos p) as Hpre by (apply zlen_slice; lia).
  unfold extends, parser_wf, buf_wf, more, unread; cbn [buf buf_cap r_pos w_pos env].
  rewrite zlen_app, Hpre. split_and!; try lia.
  - intros i Hi. unfold aget. destruct (i <? 0) eqn:E; zb; [lia|].
    rewrite lookup_app_l by (unfold zlen in *; lia). rewrite slice_take, lookup_take_lt by lia. done.
  - replace (w_pos p + zlen suf - r_pos p) with (w_pos p - r_pos p + zlen suf) by lia.
    rewrite slice_split by lia. replace (r_pos p + (w_pos p - r_pos p)) with (w_pos p) by lia. f_equal.
    + rewrite slice_app_le by lia. unfold slice. rewrite drop_0, skipn_firstn_comm, take_take. f_equal. lia.
    + unfold slice at 1. rewrite drop_app_length' by (unfold zlen in *; lia).
      unfold zlen. by rewrite Nat2Z.id, firstn_all.
Qed.

(** * Theorems *)

Lemma next_parses p v rest :
  parser_wf p → env_ok (env p) → encodable v → (nodes_of v <= supply (env p))%nat →
  unread p = enc v ++ rest →
  ∃ v' pos p', resp_parser_next p = Ok (POk v' pos, p') ∧ denote (buf p') v' = v ∧
    unread p' = rest ∧ parser_wf p' ∧ env_ok (env p') ∧ buf_cap p' = buf_cap p ∧
    (supply (env p) <= nodes_of v + supply (env p'))%nat.
Proof.
  intros Hwf He Hv Hn Hu. destruct (next_compacts p Hwf) as (p1 & Hc & Hwf1 & Hu1 & He1 & Hcap).
  unfold resp_parser_next. rewrite Hc. cbn [mbind exec_bind]. rewrite <-Hu1 in Hu. rewrite <-He1 in Hn, He.
  pose proof (unread_at p1 _ _ Hwf1 Hu) as Hat. pose proof Hwf1 as (Hl & Hr & Hw & H62).
  pose proof (rdepth_le v) as Hd. pose proof Hat as (_ & Hend & _).
  destruct (parses_enc (S (Z.to_nat (w_pos p1 - r_pos p1))) p1 v) with (pos := r_pos p1) (e := env p1)
    as (v' & e' & -> & Hden & He' & Hsup); [split; lia|done|lia|done|done|done|].
  cbn [mbind exec_bind]. destruct (unread_after p1 (enc v) rest e' Hwf1 Hu) as [Hrest Hwf'].
  do 3 eexists. split; [done|]. rewrite <-He1. done.
Qed.

(** C22: When the unread bytes begin with the encoding of a value, whatever
    follows it, resp_parser_next returns that value (bulk strings with any
    bytes in them, nested arrays, integers down to -(2^63 - 1)) and leaves
    exactly the bytes that follow; it needs one node for each array element. *)
Theorem resp_roundtrip p v rest :
  parser_wf p → env_ok (env p) → encodable v → (nodes_of v <= supply (env p))%nat →
  unread p = enc v ++ rest →
  ∃ v' pos p', resp_parser_next p = Ok (POk v' pos, p') ∧ denote (buf p') v' = v ∧
    unread p' = rest ∧ parser_wf p' ∧ env_ok (env p').
Proof.
  intros Hwf He Hv Hn Hu. destruct (next_parses p v rest Hwf He Hv Hn Hu) as (v' & pos & p' & ? & ? & ? & ? & ? & _).
  by exists v', pos, p'.
Qed.

(** SET k 1 as a client sends it. *)
Definition set_k_1 : rval := VArr (map (VBulk ∘ bytes_of_string) ["SET"%string; "k"%string; "1"%string]).

Lemma resp_roundtrip_witness :
  ∃ v' pos p', resp_parser_next (parser_of (enc set_k_1 ++ [42]) 3) = Ok (POk v' pos, p') ∧
    denote (buf p') v' = set_k_1 ∧ unread p' = [42].
Proof.
  destruct (resp_roundtrip (parser_of (enc set_k_1 ++ [42]) 3) set_k_1 [42]) as (v' & pos & p' & H1 & H2 & H3 & _);
    [vm_compute; repeat split; discriminate|exact I|vm_compute; repeat split|vm_compute; lia|reflexivity|].
  exists v', pos, p'. split; [exact H1|]. split; [exact H2|exact H3].
Defined.

Lemma next_waits p v suf :
  parser_wf p → env_ok (env p) → encodable v → (nodes_of v <= supply (env p))%nat →
  buf_cap p + zlen (enc v) < 2 ^ 62 → suf ≠ [] → unread p ++ suf = enc v →
  ∃ p', resp_parser_next p = Ok (PNeedMore, p') ∧ unread p' = unread p ∧ parser_wf p' ∧
    conserved (env p) [] (env p') ∧ buf_cap p' = buf_cap p.
Proof.
  intros Hwf He Hv Hn Hsize Hne Hu. destruct (next_compacts p Hwf) as (p1 & Hc & Hwf1 & Hu1 & He1 & Hcap).
  unfold resp_parser_next. rewrite Hc. cbn [mbind exec_bind]. rewrite <-He1 in *. rewrite <-Hu1 in *.
  pose proof (f_equal zlen Hu) as Hlen. rewrite zlen_app in Hlen. pose proof (zlen_nonneg (unread p1)).
  assert (0 < zlen suf) as Hpos by (destruct suf; [done|]; rewrite zlen_cons; pose proof (zlen_nonneg suf); lia).
  destruct (more_extends p1 suf) as (Hext & Hwf2 & Hu2); [done|lia|]. rewrite Hu in Hu2.
  pose proof Hwf1 as (Hl & Hr & Hw & H62). rewrite <-(app_nil_r (enc v)) in Hu2.
  pose proof (unread_at _ _ _ Hwf2 Hu2) as Hat. pose proof (rdepth_le v) as Hd.
  assert (zlen (unread p1) = w_pos p1 - r_pos p1) as Hul by (apply zlen_slice; lia).
  destruct (parses_enc (S (Z.to_nat (w_pos (more p1 suf) - r_pos p1))) (more p1 suf) v)
    with (pos := r_pos p1) (e := env p1) as (v' & e' & Hfull & _);
    [destruct Hext as (_ & ? & _); done|done|cbn [more w_pos]; lia|done|done|done|].
  pose proof (parse_value_mono (S (Z.to_nat (w_pos p1 - r_pos p1))) _ p1 (more p1 suf) (r_pos p1) (env p1)
    Hext ltac:(lia) ltac:(lia) (Nat.lt_succ_diag_r _) He) as Hm. rewrite Hfull in Hm.
  pose proof (parse_value_safe (S (Z.to_nat (w_pos p1 - r_pos p1))) p1 (r_pos p1) (env p1)) as Hs.
  destruct (parse_value _ p1 _ _) as [[[| |v1 pos1] e1]|f]; try done.
  - destruct Hs as [Hcons _]; [split; lia|lia|lia|done|]. eexists. split; [done|]. split; [done|].
    split; [unfold parser_wf; cbn; lia|]. done.
  - destruct Hs as [_ [Hle _]]; [split; lia|lia|lia|done|]. injection Hm as <- <- <-.
    cbn [more r_pos] in *. lia.
Qed.

(** C39: While only a strict prefix of an encoded value has arrived (a value that
    the encoding can express, so no INT64_MIN and no line break inside a simple
    string, with nodes for its elements),
    resp_parser_next answers RESP_NEED_MORE, keeps every byte and gives back
    the nodes it had taken: a fragmented message is never mistaken for a
    shorter one or for an error. *)
Theorem resp_fragment_waits p v suf :
  parser_wf p → env_ok (env p) → encodable v → (nodes_of v <= supply (env p))%nat →
  buf_cap p + zlen (enc v) < 2 ^ 62 → suf ≠ [] → unread p ++ suf = enc v →
  ∃ p', resp_parser_next p = Ok (PNeedMore, p') ∧ unread p' = unread p ∧ parser_wf p' ∧
    conserved (env p) [] (env p').
Proof.
  intros Hwf He Hv Hn Hsize Hne Hu.
  destruct (next_waits p v suf Hwf He Hv Hn Hsize Hne Hu) as (p' & ? & ? & ? & ? & _). by exists p'.
Qed.

Lemma resp_fragment_waits_witness :
  ∃ p', resp_parser_next (parser_of (take 20 (enc set_k_1)) 3) = Ok (PNeedMore, p').
Proof.
  destruct (resp_fragment_waits (parser_of (take 20 (enc set_k_1)) 3) set_k_1 (drop 20 (enc set_k_1)))
    as (p' & H & _);
    [vm_compute; repeat split; discriminate|exact I|vm_compute; repeat split|vm_compute; lia
    |vm_compute; reflexivity|vm_compute; discriminate|vm_compute; reflexivity|].
  exists p'. exact H.
Defined.

(** The smallest integer that resp_format_integer writes is one that the
    parser cannot read: resp__parse_int overflows a signed integer on it, as
    it does on any numeral above 2^63 - 1. *)
Theorem resp_int_min_overflows :
  ∃ n d, resp_format_integer (replicate 64 0) 64 INT64_MIN = Ok (n, d) ∧
    resp_parser_next (parser_of (take (Z.to_nat n) d) 0) = Stuck SignedOverflow ∧
    resp_parser_next (parser_of ([58] ++ dec_d (INT64_MAX + 1) ++ crlf) 0) = Stuck SignedOverflow.
Proof. do 2 eexists. split; [vm_compute; reflexivity|]. split; vm_compute; reflexivity. Qed.
