(* ===== verification/NulReply.v ===== *)
(** Values and members that hold a NUL byte: LRANGE (src/append_log.c) and
    ZRANGE (src/btree.c) print them with [%.*s], which stops at the NUL, behind
    the length of the whole value.  The reply is no complete message. *)

From stdpp Require Import gmap.
From S2P Require Import Prelude Arena AppendLog BTree BTreeShape BTreeInsert BTreeSpec BTreeQuery ZSet Slab.
From S2P Require Import Resp RespSafe RespRound RespMono RespSpec.

Lemma cstr_shorter v : 0 ∈ v → zlen (cstr v) < zlen v.
Proof.
  induction v as [|b v IH]; [by intros ?%elem_of_nil|]. rewrite elem_of_cons, zlen_cons. cbn [cstr].
  pose proof (zlen_nonneg v). destruct (b =? 0) eqn:E; zb; intros Hin; [unfold zlen; cbn [length]; lia|].
  destruct Hin as [<-|Hin]; [done|]. rewrite zlen_cons. specialize (IH Hin). lia.
Qed.

(** The parser waits for the rest of a bulk string that is cut at a NUL. *)
Lemma cut_bulk_waits fuel p pos e v :
  buf_wf p → at_pos p pos (fmt_bulk v) → w_pos p = pos + zlen (fmt_bulk v) → 0 ∈ v → zlen v < 2 ^ 61 →
  parse_value (S fuel) p pos e = Ok (PNeedMore, e).
Proof.
  intros Hwf Hat Hend Hv Hlen. pose proof Hwf as [Hw H62]. pose proof (cstr_shorter v Hv). pose proof (zlen_nonneg v).
  cbn [parse_value]. unfold fmt_bulk in *. rewrite dec_u_dec_d in * by done. rewrite !zlen_app in Hend.
  change (zlen [36]) with 1 in Hend. change (zlen crlf) with 2 in Hend.
  pose proof (zlen_nonneg (dec_d (zlen v))). pose proof (zlen_nonneg (cstr v)). pose proof Hat as (Hp0 & _ & _).
  destruct (pos >=? w_pos p) eqn:E; [rewrite Z.geb_leb in E; zb; lia|].
  destruct (header_line p pos 36 (zlen v) (cstr v ++ crlf)) as (-> & Hc & Hi & _); [done|done|unfold INT64_MAX; lia|].
  cbn [mbind exec_bind]. rewrite Hc. cbn [mbind exec_bind negb is_prefix_byte Z.eqb Pos.eqb orb].
  rewrite Hi. cbn [mbind exec_bind]. destruct (zlen v <? 0) eqn:E1; zb; [lia|].
  rewrite !(u64_small (pos + 1 + zlen (dec_d (zlen v)) + 2 + zlen v)), u64_small, Z.gtb_ltb by lia.
  destruct (w_pos p <? _) eqn:E2; zb; [done|lia].
Qed.

(** The reply with one value. *)
Definition cut_reply (v : list Z) : list Z := fmt_array 1 ++ fmt_bulk v.

Lemma cut_reply_waits p v :
  parser_wf p → env_ok (env p) → (0 < supply (env p))%nat → 0 ∈ v → zlen v < 2 ^ 61 → unread p = cut_reply v →
  ∃ p', resp_parser_next p = Ok (PNeedMore, p').
Proof.
  intros Hwf He Hs Hv Hlen Hu. destruct (next_compacts p Hwf) as (p1 & Hc & Hwf1 & Hu1 & He1 & _).
  unfold resp_parser_next. rewrite Hc. cbn [mbind exec_bind]. rewrite <-He1 in He, Hs. rewrite <-Hu1, <-(app_nil_r (cut_reply v)) in Hu.
  pose proof (unread_at p1 _ _ Hwf1 Hu) as Hat. pose proof Hwf1 as (Hl & Hr & Hw & H62).
  assert (zlen (unread p1) = w_pos p1 - r_pos p1) as Hul by (apply zlen_slice; lia). rewrite Hu, app_nil_r in Hul. unfold cut_reply in *.
  assert (buf_wf p1) as Hbw by (split; lia). pose proof (fmt_bulk_pos v) as Hpos. rewrite zlen_app in Hul. change (zlen (fmt_array 1)) with 4 in Hul.
  assert (∃ n, Z.to_nat (w_pos p1 - r_pos p1) = S n) as [n Hn] by (exists (pred (Z.to_nat (w_pos p1 - r_pos p1))); lia). rewrite Hn.
  pose proof (cut_bulk_waits n p1 (r_pos p1 + 1 + 1 + 2)) as Hwait. remember (S n) as f eqn:Ef. clear Ef Hn.
  destruct (header_line p1 (r_pos p1) 42 1 (fmt_bulk v)) as (Hp & Hc' & Hi & Hrest); [done|exact Hat|done|].
  change (zlen (dec_d 1)) with 1 in *. cbn [parse_value]. destruct (r_pos p1 >=? w_pos p1) eqn:E; [rewrite Z.geb_leb in E; zb; lia|].
  rewrite Hp. cbn [mbind exec_bind]. rewrite Hc'. cbn [mbind exec_bind negb is_prefix_byte Z.eqb Pos.eqb orb].
  rewrite Hi. cbn [mbind exec_bind Z.ltb Z.compare parse_elems Z.leb]. destruct (node_alloc_supply (env p1) He Hs) as (x & e' & -> & _). cbn [mbind exec_bind].
  rewrite (Hwait e' v Hbw Hrest ltac:(lia) Hv Hlen). cbn [mbind exec_bind]. by eexists.
Qed.

(** * Theorem *)

(** C21: A value or a member that holds a NUL byte makes the reply to LRANGE and
    ZRANGE incomplete: for a list or a sorted set with this one element the
    reply announces its whole length but has the bytes up to the NUL only, so
    that it is shorter than the encoding of the element, and whoever reads it,
    the program's own parser for one, waits for bytes that do not come. *)
Theorem nul_cuts_reply log meta t v score p cap :
  log_wf log → list_rep log meta [v] → bt_rep t [(v, score)] → 0 ∈ v → zlen v < 2 ^ 61 → zlen (cut_reply v) < cap →
  zedis_aol_lrange log meta 0 (-1) cap = Ok (Some (cut_reply v)) ∧
  zedis_btree_range t 0 (-1) cap = Ok (Some (cut_reply v)) ∧
  zlen (cut_reply v) < zlen (enc (VArr [VBulk v])) ∧
  (parser_wf p → env_ok (env p) → (0 < supply (env p))%nat → unread p = cut_reply v →
   ∃ p', resp_parser_next p = Ok (PNeedMore, p')).
Proof.
  intros Hwf Hrep Hbt Hv Hlen Hcap. split; [|split; [|split]].
  - rewrite (lrange_refines _ _ [v]) by done. cbv zeta.
    assert (spec_lrange [v] 0 (-1) = cut_reply v) as ->.
    { unfold spec_lrange, cut_reply. change (take LRANGE_MAX [v]) with [v]. change (spec_range (zlen [v]) 0 (-1)) with (0, 0).
      cbv iota beta. change (slice [v] 0 (0 - 0 + 1)) with [v]. cbn [Z.ltb Z.compare fmap list_fmap concat]. by rewrite app_nil_r. }
    by rewrite (proj2 (Z.ltb_lt _ _) Hcap).
  - destruct (whole_range t [(v, score)] Hbt) as (l & Hp & _ & Hr); [done|].
    apply Permutation_singleton_r in Hp as ->. cbv zeta in Hr. cbn [fmap list_fmap concat fst] in Hr. rewrite app_nil_r in Hr.
    by apply Hr.
  - unfold cut_reply, fmt_bulk. cbn [enc map concat]. rewrite app_nil_r. pose proof (cstr_shorter v Hv).
    change (fmt_array 1) with ([42] ++ dec_u (zlen [VBulk v]) ++ crlf). rewrite !zlen_app. lia.
  - intros. by eapply cut_reply_waits.
Qed.

(** A list and a sorted set with the element a NUL b. *)
Lemma nul_cuts_reply_witness :
  ∃ log meta t r, list_rep log meta [[97; 0; 98]] ∧ zedis_aol_lrange log meta 0 (-1) 4096 = Ok (Some r) ∧
    zedis_btree_range t 0 (-1) 4096 = Ok (Some r) ∧
    ∃ p', resp_parser_next (parser_of r 1) = Ok (PNeedMore, p').
Proof.
  set (log := AppendLog (replicate (Z.to_nat 4096) 0) 4096 0 (-1) 0).
  assert (log_wf log) as Hwf by (vm_compute; split_and!; congruence).
  pose proof (lpush_refines log empty_meta [107] [97; 0; 98] [] Hwf ltac:(done)) as Hp.
  destruct (lpush_fits log [107] [97; 0; 98]) eqn:E; [|vm_compute in E; discriminate E].
  destruct Hp as (log' & meta' & _ & Hwf' & Hrep & _).
  assert (bt_rep small_tree [] ∧ max_members small_tree = 4) as [Hbt _].
  { apply (btree_init_rep (Arena 4096 2097152 0 0) 4 small_tree (Arena 4096 2097152 1024 0));
      [lia|vm_compute; reflexivity]. }
  destruct (add_all_refines small_tree [] [(5, [97; 0; 98])] Hbt) as (t & _ & Hbt').
  destruct (nul_cuts_reply log' meta' t [97; 0; 98] 5 (parser_of (cut_reply [97; 0; 98]) 1) 4096 Hwf' Hrep Hbt')
    as (H1 & H2 & _ & H3).
  - right. left.
  - reflexivity.
  - reflexivity.
  - exists log', meta', t, (cut_reply [97; 0; 98]). split; [exact Hrep|]. split; [exact H1|]. split; [exact H2|].
    apply H3; [vm_compute; repeat split; discriminate|exact I|vm_compute; lia|reflexivity].
Defined.
