(* ===== verification/RespSingle.v ===== *)
(** The single-file RESP parser, src/resp.c, at the level of its pointers.

    The nodes of arrays are C structs in a store indexed by address, linked by
    their [next], [prev], [child_head] and [child_tail] fields; following a
    pointer to no node is the fault [DanglingPointer].  The free list is the
    chain of [next] fields from [free_nodes].  The formatters write to a
    destination array.  Texts are offsets into the parser's buffer.  The
    loops over bytes that resp.c shares word for word with resp_scan.c
    ([parse_digits], [find_lf], [skip_while]) are those of [Resp].

    [RespLinked] relates this parser to the one of [Resp], which returns
    trees of values. *)

From stdpp Require Import gmap.
From S2P Require Import Prelude Arena Slab Resp.

Inductive resp_type :=
  | RESP_TYPE_INCOMPLETE
  | RESP_TYPE_SIMPLE
  | RESP_TYPE_ERROR
  | RESP_TYPE_INTEGER
  | RESP_TYPE_BULK
  | RESP_TYPE_NULL
  | RESP_TYPE_ARRAY.
#[export] Instance resp_type_eq_dec : EqDecision resp_type.
Proof. solve_decision. Defined.

(** resp_node_t *)
Record rnode := RNode {
  n_next : option Z;
  n_prev : option Z;
  n_type : resp_type;
  n_integer : Z;
  n_bulk : option Z;
  n_bulk_len : Z;
  child_head : option Z;
  child_tail : option Z;
  child_count : Z;
}.

Definition zero_node : rnode := RNode None None RESP_TYPE_INCOMPLETE 0 None 0 None None 0.

(** resp_value_t *)
Record rvalue := RValue {
  v_type : resp_type;
  v_integer : Z;
  v_bulk : option Z;
  v_bulk_len : Z;
  array_head : option Z;
  array_tail : option Z;
  array_count : Z;
}.

Definition zero_value : rvalue := RValue RESP_TYPE_INCOMPLETE 0 None 0 None None 0.

(** The nodes: the parser's free list, its slab, what malloc will return, and
    the memory of all nodes. *)
Record pool := Pool {
  free_nodes : option Z;
  p_slab : option slab;
  p_malloc : list Z;
  nodes : gmap Z rnode;
}.

(** resp_parser_t *)
Record sparser := SParser {
  s_buf : list Z;
  s_cap : Z;
  s_r : Z;
  s_w : Z;
  s_pool : pool;
}.

Definition get_node (h : pool) (a : Z) : exec rnode :=
  match nodes h !! a with Some nd => Ok nd | None => Stuck DanglingPointer end.
Definition put_node (h : pool) (a : Z) (nd : rnode) : pool :=
  Pool (free_nodes h) (p_slab h) (p_malloc h) (<[a := nd]> (nodes h)).
Definition set_free (h : pool) (f : option Z) : pool := Pool f (p_slab h) (p_malloc h) (nodes h).

Definition set_next (nd : rnode) (x : option Z) : rnode :=
  RNode x (n_prev nd) (n_type nd) (n_integer nd) (n_bulk nd) (n_bulk_len nd) (child_head nd)
        (child_tail nd) (child_count nd).
Definition set_prev (nd : rnode) (x : option Z) : rnode :=
  RNode (n_next nd) x (n_type nd) (n_integer nd) (n_bulk nd) (n_bulk_len nd) (child_head nd)
        (child_tail nd) (child_count nd).
Definition set_child_head (nd : rnode) (x : option Z) : rnode :=
  RNode (n_next nd) (n_prev nd) (n_type nd) (n_integer nd) (n_bulk nd) (n_bulk_len nd) x
        (child_tail nd) (child_count nd).

(** * Nodes *)

Definition node_alloc (h : pool) : exec (option Z * pool) :=
  match free_nodes h with
  | Some a =>
      nd ← get_node h a;
      Ok (Some a, put_node (set_free h (n_next nd)) a zero_node)
  | None =>
      let from_malloc sl :=
        match p_malloc h with
        | a :: ms => Ok (Some a, Pool None sl ms (<[a := zero_node]> (nodes h)))
        | [] => Ok (None, Pool None sl [] (nodes h))
        end in
      match p_slab h with
      | None => from_malloc None
      | Some s =>
          x ← zedis_slab_alloc s SIZEOF_RESP_NODE;
          match x with
          | (Some a, s') => Ok (Some a, Pool None (Some s') (p_malloc h) (<[a := zero_node]> (nodes h)))
          | (None, s') => from_malloc (Some s')
          end
      end
  end.

Definition node_free (h : pool) (a : Z) : exec pool :=
  nd ← get_node h a;
  let h1 := put_node h a (set_prev (set_next nd (free_nodes h)) None) in
  Ok (set_free h1 (Some a)).

(** [fuel] bounds the nodes on the list and below it. *)
Fixpoint node_list_release (fuel : nat) (h : pool) (head : option Z) : exec pool :=
  match head with
  | None => Ok h
  | Some a =>
      match fuel with
      | O => Stuck OutOfFuel
      | S fuel' =>
          nd ← get_node h a;
          let next := n_next nd in
          h1 ← (match child_head nd with
                | None => Ok h
                | Some _ =>
                    h' ← node_list_release fuel' h (child_head nd);
                    nd' ← get_node h' a;
                    Ok (put_node h' a (set_child_head nd' None))
                end);
          h2 ← node_free h1 a;
          node_list_release fuel' h2 next
      end
  end.

(** Every node is on the list at most once. *)
Definition release (h : pool) (head : option Z) : exec pool :=
  node_list_release (size (nodes h)) h head.

(** The list that a parse function builds: head, tail and count. *)
Record nlist := NList { l_head : option Z; l_tail : option Z; l_count : Z }.
Definition no_nodes : nlist := NList None None 0.

Definition node_append (h : pool) (l : nlist) (a : Z) : exec (nlist * pool) :=
  nd ← get_node h a;
  let h1 := put_node h a (set_prev (set_next nd None) (l_tail l)) in
  x ← (match l_tail l with
       | Some t => tn ← get_node h1 t; Ok (l_head l, put_node h1 t (set_next tn (Some a)))
       | None => Ok (Some a, h1)
       end);
  Ok (NList x.1 (Some a) (u64 (l_count l + 1)), x.2).

(** * The parser and its buffer *)

Definition resp_parser_init_ex (mem : Z → option (list Z)) (sl : option slab) (ms : list Z)
    (ns : gmap Z rnode) (cap : Z) : option sparser :=
  let cap := if cap =? 0 then RESP_PARSER_DEFAULT_BUF else cap in
  match mem cap with
  | None => None
  | Some b => Some (SParser b cap 0 0 (Pool None sl ms ns))
  end.

Definition resp_parser_init (mem : Z → option (list Z)) (sl : option slab) (ms : list Z)
    (ns : gmap Z rnode) : option sparser := resp_parser_init_ex mem sl ms ns RESP_PARSER_DEFAULT_BUF.

(** [while (n != NULL) free (n)]: the nodes given back, and what is left. *)
Fixpoint free_chain (fuel : nat) (ns : gmap Z rnode) (p : option Z) : exec (list Z * gmap Z rnode) :=
  match p with
  | None => Ok ([], ns)
  | Some a =>
      match fuel, ns !! a with
      | O, _ => Stuck OutOfFuel
      | S _, None => Stuck DanglingPointer
      | S fuel', Some nd =>
          x ← free_chain fuel' (delete a ns) (n_next nd);
          Ok (a :: x.1, x.2)
      end
  end.

Definition resp_parser_destroy (p : sparser) : exec (list Z * gmap Z rnode) :=
  match p_slab (s_pool p) with
  | None => free_chain (size (nodes (s_pool p))) (nodes (s_pool p)) (free_nodes (s_pool p))
  | Some _ => Ok ([], nodes (s_pool p))
  end.

Definition resp_parser_reset (p : sparser) : sparser := SParser (s_buf p) (s_cap p) 0 0 (s_pool p).

Definition compact (p : sparser) : exec sparser :=
  if s_r p =? 0 then Ok p else
  let unread := u64 (s_w p - s_r p) in
  b ← (if unread >? 0 then
         bytes ← read_n (s_buf p) (s_r p) unread;
         memcpy (s_buf p) 0 bytes
       else Ok (s_buf p));
  Ok (SParser b (s_cap p) 0 unread (s_pool p)).

Definition resp_parser_space (p : sparser) : Z := u64 (s_cap p - s_w p).

(** The bytes that the caller stores at [resp_parser_write_ptr]. *)
Definition resp_parser_write (p : sparser) (data : list Z) : exec sparser :=
  b ← memcpy (s_buf p) (s_w p) data;
  Ok (SParser b (s_cap p) (s_r p) (s_w p) (s_pool p)).

Definition resp_parser_commit (p : sparser) (n : Z) : sparser :=
  SParser (s_buf p) (s_cap p) (s_r p) (u64 (s_w p + n)) (s_pool p).

Definition resp_parser_feed (p : sparser) (data : list Z) : exec (Z * sparser) :=
  let len := zlen data in
  if len =? 0 then Ok (0, p) else
  if u64 (s_w p + len) <=? s_cap p then
    p1 ← resp_parser_write p data;
    Ok (0, resp_parser_commit p1 len)
  else
    let free_total := u64 (s_cap p - u64 (s_w p - s_r p)) in
    if free_total <? len then Ok (RC_ERR, p) else
    p1 ← compact p;
    p2 ← resp_parser_write p1 data;
    Ok (0, resp_parser_commit p2 len).

(** * Scanning *)

Fixpoint find_crlf_from (n : nat) (b : list Z) (w i : Z) : exec (option Z) :=
  match n with
  | O => Ok None
  | S n' =>
      if i + 1 <? w then
        x ← aget b i;
        y ← aget b (i + 1);
        if (x =? CR) && (y =? LF) then Ok (Some i) else find_crlf_from n' b w (i + 1)
      else Ok None
  end.

Definition find_crlf (p : sparser) (search_from : Z) : exec (option Z) :=
  find_crlf_from (Z.to_nat (s_w p - search_from)) (s_buf p) (s_w p) search_from.

Definition parse_int_range (b : list Z) (from to : Z) : exec (option Z) :=
  if from >=? to then Ok None else
  c ← aget b from;
  let negative := c =? 45 in
  let i := if negative then from + 1 else from in
  if i >=? to then Ok None else
  d ← aget b i;
  if negb (is_digit d) then Ok None else
  r ← parse_digits (Z.to_nat (to - i)) b i 0;
  match r with
  | None => Ok None
  | Some value => if negative then v ← chk_i64 (- value); Ok (Some v) else Ok (Some value)
  end.

(** * Parsing *)

(** What a parse function returns: the status, [*out], [*pos] and the nodes. *)
Record parsed := Parsed {
  status : resp_parse_status;
  out : rvalue;
  pos' : Z;
  after : pool;
}.

Definition array_value (l : nlist) (o : rvalue) : rvalue :=
  RValue RESP_TYPE_ARRAY (v_integer o) (v_bulk o) (v_bulk_len o) (l_head l) (l_tail l) (l_count l).
Definition text_value (t : resp_type) (off len : Z) (o : rvalue) : rvalue :=
  RValue t (v_integer o) (Some off) len (array_head o) (array_tail o) (array_count o).
Definition int_value (n : Z) (o : rvalue) : rvalue :=
  RValue RESP_TYPE_INTEGER n (v_bulk o) (v_bulk_len o) (array_head o) (array_tail o) (array_count o).
Definition null_value (o : rvalue) : rvalue :=
  RValue RESP_TYPE_NULL (v_integer o) (v_bulk o) (v_bulk_len o) (array_head o) (array_tail o) (array_count o).

Fixpoint tokens (fuel : nat) (b : list Z) (i line_end : Z) (l : nlist) (h : pool)
    : exec (option nlist * pool) :=
  match fuel with
  | O => Stuck OutOfFuel
  | S fuel' =>
      if i >=? line_end then Ok (Some l, h) else
      tok_start ← skip_while (Z.to_nat (line_end - i)) is_blank b i;
      if tok_start >=? line_end then Ok (Some l, h) else
      i' ← skip_while (Z.to_nat (line_end - tok_start)) (λ c, negb (is_blank c)) b tok_start;
      x ← node_alloc h;
      match x with
      | (None, h1) => h2 ← release h1 (l_head l); Ok (None, h2)
      | (Some a, h1) =>
          nd ← get_node h1 a;
          let h2 := put_node h1 a (RNode (n_next nd) (n_prev nd) RESP_TYPE_BULK (n_integer nd) (Some tok_start)
                                     (i' - tok_start) (child_head nd) (child_tail nd) (child_count nd)) in
          y ← node_append h2 l a;
          tokens fuel' b i' line_end y.1 y.2
      end
  end.

Definition parse_inline (p : sparser) (pos : Z) (o : rvalue) (h : pool) : exec parsed :=
  r ← find_lf (Z.to_nat (s_w p - pos)) (s_buf p) pos;
  match r with
  | None => Ok (Parsed RESP_NEED_MORE o pos h)
  | Some lf_pos =>
      line_end ← (if lf_pos >? pos then
                    c ← aget (s_buf p) (lf_pos - 1); Ok (if c =? CR then lf_pos - 1 else lf_pos)
                  else Ok lf_pos);
      let next_pos := lf_pos + 1 in
      x ← tokens (S (Z.to_nat (line_end - pos))) (s_buf p) pos line_end no_nodes h;
      match x with
      | (None, h') => Ok (Parsed RESP_ERROR o pos h')
      | (Some l, h') => Ok (Parsed RESP_OK (array_value l o) next_pos h')
      end
  end.

(** The fields of a parsed element that are copied to its node. *)
Definition fill_child (nd : rnode) (nested : rvalue) : rnode :=
  let is_array := bool_decide (v_type nested = RESP_TYPE_ARRAY) in
  RNode (n_next nd) (n_prev nd) (v_type nested) (v_integer nested) (v_bulk nested) (v_bulk_len nested)
        (if is_array then array_head nested else child_head nd)
        (if is_array then array_tail nested else child_tail nd)
        (if is_array then array_count nested else child_count nd).

(** The loop of parse_array; [pv] is parse_value. *)
Fixpoint array_loop (fuel : nat) (pv : Z → rvalue → pool → exec parsed) (pos remaining : Z) (l : nlist)
    (o : rvalue) (h : pool) : exec parsed :=
  match fuel with
  | O => Stuck OutOfFuel
  | S fuel' =>
      if remaining <=? 0 then Ok (Parsed RESP_OK (array_value l o) pos h) else
      x ← node_alloc h;
      match x with
      | (None, h1) => h2 ← release h1 (l_head l); Ok (Parsed RESP_ERROR o pos h2)
      | (Some child, h1) =>
          y ← pv pos zero_value h1;
          match status y with
          | RESP_OK =>
              nd ← get_node (after y) child;
              z ← node_append (put_node (after y) child (fill_child nd (out y))) l child;
              array_loop fuel' pv (pos' y) (remaining - 1) z.1 o z.2
          | st =>
              h2 ← node_free (after y) child;
              h3 ← release h2 (l_head l);
              Ok (Parsed st o (pos' y) h3)
          end
      end
  end.

Definition parse_array (fuel : nat) (pv : Z → rvalue → pool → exec parsed) (pos count : Z) (o : rvalue)
    (h : pool) : exec parsed := array_loop fuel pv pos count no_nodes o h.

Fixpoint parse_value (fuel : nat) (p : sparser) (pos : Z) (o : rvalue) (h : pool) : exec parsed :=
  match fuel with
  | O => Stuck OutOfFuel
  | S fuel' =>
      if pos >=? s_w p then Ok (Parsed RESP_NEED_MORE o pos h) else
      prefix ← aget (s_buf p) pos;
      let line_start := pos + 1 in
      if negb (is_prefix_byte prefix) then parse_inline p pos o h else
      r ← find_crlf p line_start;
      match r with
      | None => Ok (Parsed RESP_NEED_MORE o pos h)
      | Some crlf_pos =>
          if prefix =? 43 then
            Ok (Parsed RESP_OK (text_value RESP_TYPE_SIMPLE line_start (crlf_pos - line_start) o) (crlf_pos + 2) h)
          else if prefix =? 45 then
            Ok (Parsed RESP_OK (text_value RESP_TYPE_ERROR line_start (crlf_pos - line_start) o) (crlf_pos + 2) h)
          else if prefix =? 58 then
            v ← parse_int_range (s_buf p) line_start crlf_pos;
            match v with
            | None => Ok (Parsed RESP_ERROR o pos h)
            | Some value => Ok (Parsed RESP_OK (int_value value o) (crlf_pos + 2) h)
            end
          else if prefix =? 36 then
            v ← parse_int_range (s_buf p) line_start crlf_pos;
            match v with
            | None => Ok (Parsed RESP_ERROR o pos h)
            | Some bulk_len =>
                if bulk_len <? 0 then Ok (Parsed RESP_OK (null_value o) (crlf_pos + 2) h) else
                let data_start := crlf_pos + 2 in
                let data_end := u64 (data_start + bulk_len) in
                if u64 (data_end + 2) >? s_w p then Ok (Parsed RESP_NEED_MORE o pos h) else
                x ← aget (s_buf p) data_end;
                y ← aget (s_buf p) (data_end + 1);
                if negb (x =? CR) || negb (y =? LF) then Ok (Parsed RESP_ERROR o pos h)
                else Ok (Parsed RESP_OK (text_value RESP_TYPE_BULK data_start bulk_len o) (data_end + 2) h)
            end
          else
            v ← parse_int_range (s_buf p) line_start crlf_pos;
            match v with
            | None => Ok (Parsed RESP_ERROR o pos h)
            | Some count =>
                if count <? 0 then Ok (Parsed RESP_OK (null_value o) (crlf_pos + 2) h) else
                st ← parse_array (S (Z.to_nat (s_w p - pos))) (parse_value fuel' p) (crlf_pos + 2) count o h;
                Ok (match status st with
                    | RESP_OK => st
                    | s => Parsed s (out st) pos (after st)
                    end)
            end
      end
  end.

Definition resp_parser_next (p : sparser) : exec (resp_parse_status * rvalue * sparser) :=
  p1 ← (if s_r p >? Z.quot (s_cap p) 2 then compact p else Ok p);
  x ← parse_value (S (Z.to_nat (s_w p1 - s_r p1))) p1 (s_r p1) zero_value (s_pool p1);
  let r := match status x with RESP_OK => pos' x | _ => s_r p1 end in
  Ok (status x, out x, SParser (s_buf p1) (s_cap p1) r (s_w p1) (after x)).

(** The value is all zeros afterwards. *)
Definition resp_value_release (p : sparser) (v : rvalue) : exec sparser :=
  match v_type v, array_head v with
  | RESP_TYPE_ARRAY, Some a =>
      h ← release (s_pool p) (Some a);
      Ok (SParser (s_buf p) (s_cap p) (s_r p) (s_w p) h)
  | _, _ => Ok p
  end.

(** * Formatting into a buffer *)

(** [memcpy (dst + used, s, len); used += len], if it fits. *)
Definition append_str (dst : list Z) (cap used : Z) (s : list Z) : exec (option (list Z * Z)) :=
  if u64 (used + zlen s) >=? cap then Ok None else
  d ← memcpy dst used s;
  Ok (Some (d, u64 (used + zlen s))).

(** The common body of resp_format_simple and resp_format_error: the result
    and the destination. *)
Definition format_line (dst : list Z) (cap : Z) (mark : Z) (str : list Z) : exec (Z * list Z) :=
  x ← append_str dst cap 0 [mark];
  match x with
  | None => Ok (-1, dst)
  | Some (d1, u1) =>
      y ← append_str d1 cap u1 (cstr str);
      match y with
      | None => Ok (-1, d1)
      | Some (d2, u2) =>
          z ← append_str d2 cap u2 crlf;
          match z with
          | None => Ok (-1, d2)
          | Some (d3, u3) => d4 ← aset d3 u3 0; Ok (to_i32 u3, d4)
          end
      end
  end.
Definition resp_format_simple (dst : list Z) (cap : Z) (str : list Z) : exec (Z * list Z) :=
  format_line dst cap 43 str.
Definition resp_format_error (dst : list Z) (cap : Z) (msg : list Z) : exec (Z * list Z) :=
  format_line dst cap 45 msg.

Definition resp_format_integer (dst : list Z) (cap value : Z) : exec (Z * list Z) :=
  x ← snprintf_to dst cap ([58] ++ dec_d value ++ crlf);
  let '(n, d) := x in
  Ok (if (n >? 0) && (n <? cap) then n else -1, d).

Definition resp_format_bulk (dst : list Z) (cap : Z) (data : list Z) : exec (Z * list Z) :=
  x ← snprintf_to dst cap ([36] ++ dec_u (zlen data) ++ crlf);
  let '(n, d) := x in
  if (n <=? 0) || (n >=? cap) then Ok (-1, d) else
  if u64 (n + zlen data + 3) >? cap then Ok (-1, d) else
  d1 ← memcpy d n data;
  d2 ← memcpy d1 (n + zlen data) crlf;
  d3 ← aset d2 (n + zlen data + 2) 0;
  Ok (to_i32 (n + zlen data + 2), d3).

Definition resp_format_null (dst : list Z) (cap : Z) : exec (Z * list Z) :=
  let null_bulk := [36; 45; 49] ++ crlf in
  if zlen null_bulk >=? cap then Ok (-1, dst) else
  d ← memcpy dst 0 null_bulk;
  d1 ← aset d (zlen null_bulk) 0;
  Ok (to_i32 (zlen null_bulk), d1).
