(* ===== verification/RespLinked.v ===== *)
(** The nodes of [RespSingle] as lists and trees.

    [dseg] is a doubly linked list of nodes with the values it holds, [free_list_of]
    the free list.  [frame] says which nodes a call leaves alone.  The lemmas
    show that node_alloc, node_free, node_append and node_list_release do on
    these lists what their counterparts in [Resp] do on values, provided that
    the slab and malloc never hand out a node that is in use. *)

From stdpp Require Import gmap.
From S2P Require Import Prelude Arena Slab Resp RespSafe RespSingle.

Abbreviation heap := (gmap Z rnode) (only parsing).

(** [node_rep ns nd v]: the node's fields, apart from its links, hold [v];
    [dseg ns prev head tail es]: the nodes from [head] to [tail], after [prev],
    hold [es]. *)
Inductive node_rep (ns : gmap Z rnode) : rnode → resp_value → Prop :=
  | nrep_simple nx pv off len :
      node_rep ns (RNode nx pv RESP_TYPE_SIMPLE 0 (Some off) len None None 0) (RSimple (off, len))
  | nrep_error nx pv off len :
      node_rep ns (RNode nx pv RESP_TYPE_ERROR 0 (Some off) len None None 0) (RError (off, len))
  | nrep_integer nx pv z :
      node_rep ns (RNode nx pv RESP_TYPE_INTEGER z None 0 None None 0) (RInteger z)
  | nrep_bulk nx pv off len :
      node_rep ns (RNode nx pv RESP_TYPE_BULK 0 (Some off) len None None 0) (RBulk (off, len))
  | nrep_null nx pv :
      node_rep ns (RNode nx pv RESP_TYPE_NULL 0 None 0 None None 0) RNull
  | nrep_array nx pv head tail es :
      dseg ns None head tail es →
      node_rep ns (RNode nx pv RESP_TYPE_ARRAY 0 None 0 head tail (u64 (zlen es))) (RArray es)
with dseg (ns : gmap Z rnode) : option Z → option Z → option Z → list (Z * resp_value) → Prop :=
  | dseg_nil prev : dseg ns prev None prev []
  | dseg_cons prev a nd v tail es :
      ns !! a = Some nd → n_prev nd = prev → node_rep ns nd v →
      dseg ns (Some a) (n_next nd) tail es → dseg ns prev (Some a) tail ((a, v) :: es).

Scheme node_rep_ind' := Minimality for node_rep Sort Prop
  with dseg_ind' := Minimality for dseg Sort Prop.
Combined Scheme rep_ind from node_rep_ind', dseg_ind'.

(** The addresses of a list's nodes, in the order of their release. *)
Abbreviation order es := (release_order (RArray es)).

Lemma order_cons a v es : order ((a, v) :: es) = (release_order v ++ [a]) ++ order es.
Proof. done. Qed.

Definition frame (keep : list Z) (ns ns' : gmap Z rnode) : Prop := ∀ a, a ∈ keep → ns' !! a = ns !! a.

Lemma frame_trans keep ns1 ns2 ns3 : frame keep ns1 ns2 → frame keep ns2 ns3 → frame keep ns1 ns3.
Proof. intros H1 H2 a Ha. by rewrite H2, H1. Qed.

Lemma frame_weaken keep keep' ns ns' : (∀ a, a ∈ keep' → a ∈ keep) → frame keep ns ns' → frame keep' ns ns'.
Proof. intros Hk Hf a Ha. auto. Qed.

Lemma frame_insert keep ns a nd : a ∉ keep → frame keep ns (<[a := nd]> ns).
Proof. intros Ha b Hb. rewrite lookup_insert_ne; [done|]. by intros ->. Qed.

(** What a list or a value is does not depend on other nodes. *)
Lemma rep_frame ns ns' :
  (∀ nd v, node_rep ns nd v → frame (release_order v) ns ns' → node_rep ns' nd v) ∧
  (∀ prev head tail es, dseg ns prev head tail es → frame (order es) ns ns' → dseg ns' prev head tail es).
Proof.
  apply (rep_ind ns (λ nd v, frame (release_order v) ns ns' → node_rep ns' nd v)
                    (λ prev head tail es, frame (order es) ns ns' → dseg ns' prev head tail es));
    try (intros; by constructor).
  - intros nx pv head tail es _ IH Hf. constructor. by apply IH.
  - intros prev a nd v tail es Hnd Hp _ IHv _ IHes Hf. rewrite order_cons in Hf.
    econstructor; [|done| |].
    + rewrite <-Hnd. apply Hf. set_solver.
    + apply IHv. eapply frame_weaken; [|exact Hf]. set_solver.
    + apply IHes. eapply frame_weaken; [|exact Hf]. set_solver.
Qed.

Lemma node_rep_frame ns ns' nd v : node_rep ns nd v → frame (release_order v) ns ns' → node_rep ns' nd v.
Proof. apply rep_frame. Qed.
Lemma dseg_frame ns ns' prev head tail es :
  dseg ns prev head tail es → frame (order es) ns ns' → dseg ns' prev head tail es.
Proof. apply rep_frame. Qed.

Lemma node_rep_links ns nd v nx pv : node_rep ns nd v → node_rep ns (set_prev (set_next nd nx) pv) v.
Proof. destruct 1; by constructor. Qed.
Lemma node_rep_next ns nd v nx : node_rep ns nd v → node_rep ns (set_next nd nx) v.
Proof. destruct 1; by constructor. Qed.

(** Every node of a list is in the store. *)
Lemma rep_dom ns :
  (∀ nd v, node_rep ns nd v → ∀ a, a ∈ release_order v → is_Some (ns !! a)) ∧
  (∀ prev head tail es, dseg ns prev head tail es → ∀ a, a ∈ order es → is_Some (ns !! a)).
Proof.
  apply (rep_ind ns (λ nd v, ∀ a, a ∈ release_order v → is_Some (ns !! a))
                    (λ prev head tail es, ∀ a, a ∈ order es → is_Some (ns !! a)));
    intros; cbn in *; set_solver.
Qed.

Lemma NoDup_size {A} (m : gmap Z A) l : NoDup l → (∀ a, a ∈ l → is_Some (m !! a)) → (length l <= size m)%nat.
Proof.
  intros Hnd Hin. rewrite <-(size_dom (D := gset Z)). rewrite <-(size_list_to_set (C := gset Z)) by done.
  apply subseteq_size. intros a. rewrite elem_of_list_to_set, elem_of_dom. apply Hin.
Qed.

(** * The pool *)

Fixpoint free_list_of (ns : gmap Z rnode) (p : option Z) (l : list Z) : Prop :=
  match l with
  | [] => p = None
  | a :: l' => p = Some a ∧ ∃ nd, ns !! a = Some nd ∧ free_list_of ns (n_next nd) l'
  end.

Lemma free_chain_frame ns ns' p l : free_list_of ns p l → frame l ns ns' → free_list_of ns' p l.
Proof.
  revert p. induction l as [|a l IH]; intros p; [done|]. intros (-> & nd & Hnd & Hc) Hf.
  split; [done|]. exists nd. split; [rewrite <-Hnd; apply Hf; by left|].
  apply IH; [done|]. eapply frame_weaken; [|exact Hf]. set_solver.
Qed.

(** Whatever is still drawn from the slab and malloc is new. *)
Definition fresh_supply (e : node_env) (used : list Z) : Prop :=
  ∀ t sl ms, draws (n_slab e) (n_malloc e) t sl ms → NoDup (used ++ t).

(** The pool holds the free nodes of [e]; the nodes of [live] are in use. *)
Definition nodes_rep (h : pool) (e : node_env) (live : list Z) : Prop :=
  free_list_of (nodes h) (free_nodes h) (n_free e) ∧ p_slab h = n_slab e ∧ p_malloc h = n_malloc e ∧
  fresh_supply e (live ++ n_free e).

Lemma fresh_supply_perm e used used' : used ≡ₚ used' → fresh_supply e used → fresh_supply e used'.
Proof. intros Hp Hf t sl ms Hd. rewrite <-Hp. by eapply Hf. Qed.

Lemma nodes_rep_perm h e live live' : live ≡ₚ live' → nodes_rep h e live → nodes_rep h e live'.
Proof.
  intros Hp (Hc & Hs & Hm & Hf). split_and!; [done..|]. eapply fresh_supply_perm; [|exact Hf]. by rewrite Hp.
Qed.

Lemma nodes_rep_NoDup h e live : nodes_rep h e live → NoDup (live ++ n_free e).
Proof.
  intros (_ & _ & _ & Hf). specialize (Hf [] _ _ (draws_nil _ _)). by rewrite app_nil_r in Hf.
Qed.

(** A change of nodes in use keeps the pool. *)
Lemma nodes_rep_nodes h e live ns' :
  nodes_rep h e live → frame (n_free e) (nodes h) ns' →
  nodes_rep (Pool (free_nodes h) (p_slab h) (p_malloc h) ns') e live.
Proof. intros (Hc & Hs & Hm & Hf) Hfr. split_and!; [|done..]. by eapply free_chain_frame. Qed.

Lemma nodes_rep_put h e live a nd : nodes_rep h e live → a ∈ live → nodes_rep (put_node h a nd) e live.
Proof.
  intros Hp Ha. pose proof (nodes_rep_NoDup _ _ _ Hp) as Hnd. apply (nodes_rep_nodes _ _ _ _ Hp).
  apply frame_insert. apply NoDup_app in Hnd as (_ & Hd & _). by apply Hd.
Qed.

(** * Operations on nodes *)

Lemma get_node_ok h a nd : nodes h !! a = Some nd → get_node h a = Ok nd.
Proof. unfold get_node. by intros ->. Qed.

Lemma slab_alloc_none s size s' : zedis_slab_alloc s size = Ok (None, s') → s' = s.
Proof.
  unfold zedis_slab_alloc. destruct (pool_for_size size); [|by intros [= <-]].
  destruct (aget s _) as [p|]; [|done]. cbn [mbind exec_bind].
  destruct (Slab.free_list p) as [b|]; [by destruct (_ !! _)|by intros [= <-]].
Qed.

(** A new node [a]: it is not in use, and [live] is left alone. *)
Lemma nodes_rep_draw h e live a sl' ms' :
  nodes_rep h e live → n_free e = [] → draws (n_slab e) (n_malloc e) [a] sl' ms' →
  nodes_rep (Pool None sl' ms' (<[a := zero_node]> (nodes h))) (NodeEnv [] sl' ms') (live ++ [a]) ∧
  frame live (nodes h) (<[a := zero_node]> (nodes h)).
Proof.
  intros (Hc & Hs & Hm & Hf) Hfree Hd. rewrite Hfree, app_nil_r in Hf. split.
  - split_and!; [done..|]. intros t sl ms Ht. cbn [n_free n_slab n_malloc] in *.
    rewrite app_nil_r, <-app_assoc. eapply Hf. by eapply draws_app.
  - apply frame_insert. intros Ha. specialize (Hf _ _ _ Hd). apply NoDup_app in Hf as (_ & Hn & _).
    by apply (Hn a Ha), list_elem_of_singleton.
Qed.

Lemma node_alloc_sim h e live :
  nodes_rep h e live →
  exec_rel (λ x y, x.1 = y.1 ∧ nodes_rep y.2 x.2 (live ++ opt_list x.1) ∧ frame live (nodes h) (nodes y.2) ∧
                   ∀ a, x.1 = Some a → nodes y.2 !! a = Some zero_node)
    (resp__node_alloc e) (node_alloc h).
Proof.
  intros Hp. pose proof Hp as (Hc & Hs & Hm & Hf). unfold resp__node_alloc, node_alloc.
  destruct (n_free e) as [|a fl] eqn:Efl.
  2:{ destruct Hc as (Hfr & nd & Hnd & Hc). rewrite Hfr. unfold get_node. rewrite Hnd. cbn.
      pose proof (nodes_rep_NoDup _ _ _ Hp) as Hdup. rewrite Efl in Hdup.
      apply NoDup_app in Hdup as (_ & Hd1 & Hd2). apply NoDup_cons in Hd2 as [Ha Hd2].
      split; [done|]. split; [|split].
      - split_and!; [|done..|].
        + apply (free_chain_frame (nodes h)); [done|]. by apply frame_insert.
        + cbn. eapply fresh_supply_perm; [|exact Hf]. cbn. by rewrite <-app_assoc.
      - apply frame_insert. intros Hin. apply (Hd1 _ Hin). by left.
      - intros ? [= <-]. apply lookup_insert_eq. }
  cbn in Hc. rewrite Hc.
  assert (∀ sl, sl = n_slab e → (∀ s, sl = Some s → zedis_slab_alloc s SIZEOF_RESP_NODE = Ok (None, s)) →
    exec_rel (λ x y, x.1 = y.1 ∧ nodes_rep y.2 x.2 (live ++ opt_list x.1) ∧ frame live (nodes h) (nodes y.2) ∧
                     ∀ a, x.1 = Some a → nodes y.2 !! a = Some zero_node)
      (match n_malloc e with n :: ms => Ok (Some n, NodeEnv [] sl ms) | [] => Ok (None, NodeEnv [] sl []) end)
      (match p_malloc h with
       | a :: ms => Ok (Some a, Pool None sl ms (<[a := zero_node]> (nodes h)))
       | [] => Ok (None, Pool None sl [] (nodes h)) end)) as Hmalloc.
  { intros sl -> Hno. rewrite Hm. destruct (n_malloc e) as [|n ms] eqn:Em; cbn.
    - split; [done|]. split; [|done]. rewrite app_nil_r. split_and!; [done..|].
      unfold fresh_supply in *. cbn. by rewrite Em in Hf.
    - split; [done|]. destruct (nodes_rep_draw h e live n (n_slab e) ms Hp Efl) as [H1 H2].
      { rewrite Em. apply draws_malloc; [done|constructor]. }
      split; [done|]. split; [done|]. intros ? [= <-]. apply lookup_insert_eq. }
  rewrite Hs. destruct (n_slab e) as [s|] eqn:Es; [|by apply Hmalloc].
  destruct (zedis_slab_alloc s SIZEOF_RESP_NODE) as [[[a|] s']|f] eqn:Ea; [| |done].
  - cbn. split; [done|]. destruct (nodes_rep_draw h e live a (Some s') (n_malloc e) Hp Efl) as [H1 H2].
    { rewrite Es. eapply draws_slab; [exact Ea|constructor]. }
    split; [by rewrite Hm|]. split; [done|]. intros ? [= <-]. apply lookup_insert_eq.
  - pose proof (slab_alloc_none _ _ _ Ea) as ->. cbn [mbind exec_bind]. apply Hmalloc; [done|]. by intros ? [= <-].
Qed.

Lemma node_free_sim h e live a :
  nodes_rep h e (live ++ [a]) → is_Some (nodes h !! a) →
  ∃ h', node_free h a = Ok h' ∧ nodes_rep h' (resp__node_free e a) live ∧ frame live (nodes h) (nodes h').
Proof.
  intros Hp [nd Hnd]. pose proof Hp as (Hc & Hs & Hm & Hf). unfold node_free, get_node. rewrite Hnd.
  cbn [mbind exec_bind]. eexists. split; [done|].
  pose proof (nodes_rep_NoDup _ _ _ Hp) as Hdup. rewrite <-app_assoc in Hdup.
  apply NoDup_app in Hdup as (_ & Hd1 & Hd2). apply NoDup_cons in Hd2 as [Ha _].
  split; [split_and!|].
  - split; [done|]. eexists. split; [apply lookup_insert_eq|].
    apply (free_chain_frame (nodes h)); [done|]. by apply frame_insert.
  - done.
  - done.
  - cbn. eapply fresh_supply_perm; [|exact Hf]. by rewrite <-app_assoc.
  - apply frame_insert. intros Hin. apply (Hd1 _ Hin). by left.
Qed.

(** A list that does not start at NULL has a node. *)
Lemma dseg_inv ns prev head tail es :
  dseg ns prev head tail es →
  match head with
  | None => es = [] ∧ tail = prev
  | Some a => ∃ nd v es', es = (a, v) :: es' ∧ ns !! a = Some nd ∧ n_prev nd = prev ∧ node_rep ns nd v ∧
      dseg ns (Some a) (n_next nd) tail es'
  end.
Proof. destruct 1; [done|]. by do 3 eexists. Qed.

(** The children of a node are a list of their own. *)
Lemma node_rep_children ns nd v :
  node_rep ns nd v → ∃ tail es, dseg ns None (child_head nd) tail es ∧ release_order v = order es.
Proof. destruct 1; cbn; try (do 2 eexists; split; [constructor|done]). by do 2 eexists. Qed.

Lemma release_fold e es : resp__node_list_release e es = foldl resp__node_free e (order es).
Proof. done. Qed.

(** The free-list effect of releasing the elements in turn. *)
(** What node_list_release does with a list of at most [fuel] nodes. *)
Definition releases (fuel : nat) : Prop := ∀ h e live prev head tail es,
  dseg (nodes h) prev head tail es → nodes_rep h e (live ++ order es) → (length (order es) <= fuel)%nat →
  ∃ h', node_list_release fuel h head = Ok h' ∧
    nodes_rep h' (foldl resp__node_free e (order es)) live ∧ frame live (nodes h) (nodes h').

(** The children of the node [a], which are released before it. *)
Lemma release_children fuel h e keep a nd ct ces :
  releases fuel → nodes h !! a = Some nd → dseg (nodes h) None (child_head nd) ct ces → (length (order ces) <= fuel)%nat →
  nodes_rep h e ((keep ++ [a]) ++ order ces) → a ∉ keep → ∃ h1,
    (match child_head nd with
     | None => Ok h
     | Some _ =>
         h' ← node_list_release fuel h (child_head nd);
         nd' ← get_node h' a;
         Ok (put_node h' a (set_child_head nd' None))
     end) = Ok h1 ∧ nodes_rep h1 (foldl resp__node_free e (order ces)) (keep ++ [a]) ∧
    frame keep (nodes h) (nodes h1) ∧ is_Some (nodes h1 !! a).
Proof.
  intros IH Hnd Hch Hlen Hp Ha. destruct (child_head nd) as [c|] eqn:Ec.
  - destruct (IH h e (keep ++ [a]) None (Some c) ct ces Hch Hp Hlen) as (h' & -> & Hp1 & Hf1).
    assert (nodes h' !! a = Some nd) as Hnd' by (rewrite <-Hnd; apply Hf1; set_solver).
    cbn [mbind exec_bind]. rewrite (get_node_ok _ _ _ Hnd'). cbn [mbind exec_bind].
    eexists. split; [done|]. split; [apply nodes_rep_put; [done|set_solver]|]. split.
    + eapply frame_trans; [eapply frame_weaken; [|exact Hf1]; set_solver|]. apply frame_insert. set_solver.
    + cbn. rewrite lookup_insert_eq. by eexists.
  - apply dseg_inv in Hch as [-> _]. cbn in Hp |- *. rewrite app_nil_r in Hp.
    exists h. split; [done|]. split; [done|]. split; [done|]. by rewrite Hnd.
Qed.

Lemma node_list_release_sim fuel : releases fuel.
Proof.
  induction fuel as [|fuel IH]; intros h e live prev head tail es Hd Hp Hlen;
    destruct head as [a|]; apply dseg_inv in Hd as Hi;
    try (destruct Hi as [-> ->]; cbn in *; rewrite app_nil_r in Hp; by exists h);
    destruct Hi as (nd & v & es' & -> & Hnd & Hpv & Hv & Hes'); rewrite order_cons in *.
  { rewrite !length_app in Hlen. cbn [length] in Hlen. lia. }
  cbn [node_list_release]. rewrite (get_node_ok _ _ _ Hnd). cbn [mbind exec_bind].
  destruct (node_rep_children _ _ _ Hv) as (ct & ces & Hch & Hov). rewrite Hov in *.
  set (rest := order es') in *. rewrite !length_app in Hlen. cbn [length] in Hlen.
  pose proof (nodes_rep_NoDup _ _ _ Hp) as Hdup.
  assert (a ∉ live ++ rest) as Ha by (rewrite !NoDup_app in Hdup; set_solver).
  destruct (release_children fuel h e (live ++ rest) a nd ct ces IH Hnd Hch) as (h1 & -> & Hp1 & Hf1 & Hs1); [lia| |done|].
  { eapply nodes_rep_perm; [|exact Hp]. rewrite (Permutation_app_comm (order ces) [a]).
    rewrite <-!app_assoc. apply Permutation_app_head. rewrite !(Permutation_app_comm rest). by rewrite <-!app_assoc. }
  cbn [mbind exec_bind].
  destruct (node_free_sim h1 _ (live ++ rest) a Hp1 Hs1) as (h2 & -> & Hp2 & Hf2). cbn [mbind exec_bind].
  pose proof (frame_trans _ _ _ _ Hf1 Hf2) as Hf.
  destruct (IH h2 (resp__node_free (foldl resp__node_free e (order ces)) a) live (Some a) (n_next nd) tail es')
    as (h3 & -> & Hp3 & Hf3).
  - eapply dseg_frame; [exact Hes'|]. eapply frame_weaken; [|exact Hf]. set_solver.
  - exact Hp2.
  - fold rest. lia.
  - exists h3. split; [done|]. split.
    + rewrite foldl_app, foldl_app. exact Hp3.
    + eapply frame_trans; [|exact Hf3]. eapply frame_weaken; [|exact Hf]. set_solver.
Qed.

Lemma release_sim h e live head tail es :
  dseg (nodes h) None head tail es → nodes_rep h e (live ++ order es) →
  ∃ h', release h head = Ok h' ∧ nodes_rep h' (resp__node_list_release e es) live ∧
    frame live (nodes h) (nodes h').
Proof.
  intros Hd Hp. eapply node_list_release_sim; [done|done|].
  apply NoDup_size; [|apply (proj2 (rep_dom _) _ _ _ _ Hd)].
  pose proof (nodes_rep_NoDup _ _ _ Hp) as Hnd. rewrite !NoDup_app in Hnd. tauto.
Qed.

(** Linking a node behind the last one. *)
Lemma dseg_snoc ns prev head t es a nd v tn :
  dseg ns prev head (Some t) es → es ≠ [] → NoDup (order es) → a ∉ order es → ns !! t = Some tn →
  node_rep ns nd v → n_prev nd = Some t → n_next nd = None → a ∉ release_order v → t ∉ release_order v →
  dseg (<[t := set_next tn (Some a)]> (<[a := nd]> ns)) prev head (Some a) (es ++ [(a, v)]) ∧ t ∈ order es.
Proof.
  intros Hd Hne Hnd Ha Ht Hv Hpv Hnx Hav Htv. revert prev head Hd Hne Hnd Ha.
  induction es as [|[b w] es IH]; intros prev head Hd Hne Hnd Ha; [done|]. clear Hne.
  inversion Hd as [|? ? nb ? ? ? Hb Hbp Hw Hes]; subst. rewrite order_cons in *.
  assert (a ≠ b) as Hab by set_solver.
  destruct es as [|[c x] es].
  - inversion Hes; subst. assert (tn = nb) as -> by congruence. cbn [app]. split; [|set_solver].
    econstructor; [apply lookup_insert_eq|done| |].
    + apply node_rep_next. eapply node_rep_frame; [exact Hw|]. rewrite !NoDup_app in Hnd.
      eapply frame_trans; apply frame_insert; set_solver.
    + cbn [set_next n_next]. econstructor; [rewrite lookup_insert_ne by done; apply lookup_insert_eq|done| |].
      * eapply node_rep_frame; [exact Hv|]. eapply frame_trans; apply frame_insert; done.
      * rewrite Hnx. constructor.
  - rewrite !NoDup_app in Hnd. destruct Hnd as ((Hw1 & Hw2 & _) & Hd1 & Hes2).
    destruct (IH (Some b) (n_next nb) Hes) as [HI Ht']; [done|done|set_solver|].
    split; [|apply elem_of_app; by right].
    change (((b, w) :: (c, x) :: es) ++ [(a, v)]) with ((b, w) :: (((c, x) :: es) ++ [(a, v)])).
    assert (∀ y, y ∈ release_order w ++ [b] → y ≠ t ∧ y ≠ a) as Hy.
    { intros y Hy. split; intros ->; [by apply (Hd1 t)|]. apply Ha, elem_of_app. by left. }
    econstructor; [|done| |exact HI].
    + destruct (Hy b) as [? ?]; [apply elem_of_app; right; by left|]. by rewrite !lookup_insert_ne.
    + eapply node_rep_frame; [exact Hw|]. eapply frame_trans; apply frame_insert; intros Hin;
        destruct (Hy _ (proj2 (elem_of_app _ _ _) (or_introl Hin))); done.
Qed.

(** The list [l] of a parse function holds [es]. *)
Definition nlist_rep (ns : gmap Z rnode) (l : nlist) (es : list (Z * resp_value)) : Prop :=
  dseg ns None (l_head l) (l_tail l) es ∧ l_count l = u64 (zlen es).

Lemma nlist_rep_frame ns ns' l es : nlist_rep ns l es → frame (order es) ns ns' → nlist_rep ns' l es.
Proof. intros [Hd Hc] Hf. split; [by eapply dseg_frame|done]. Qed.

Lemma dseg_tail ns prev head tail es : dseg ns prev head tail es → es ≠ [] → ∃ t, tail = Some t ∧ t ∈ order es.
Proof.
  intros Hd. induction Hd as [|prev a nd v tail es Hnd Hpv Hv Hes IH]; intros Hne; [done|]. rewrite order_cons.
  destruct es as [|e es]; [inversion Hes; subst; exists a; set_solver|].
  destruct IH as (t & -> & Ht); [done|]. exists t. set_solver.
Qed.

(** node_append puts a node with its value behind the list and leaves all
    other nodes alone. *)
Lemma node_append_sim h e live l es a nd v :
  nodes_rep h e (live ++ order (es ++ [(a, v)])) → nlist_rep (nodes h) l es → nodes h !! a = Some nd →
  node_rep (nodes h) nd v →
  ∃ l' h', node_append h l a = Ok (l', h') ∧ nodes_rep h' e (live ++ order (es ++ [(a, v)])) ∧
    nlist_rep (nodes h') l' (es ++ [(a, v)]) ∧ frame live (nodes h) (nodes h').
Proof.
  destruct l as [lh lt lc]. intros Hp [Hd Hc] Hnd Hv. cbn [l_head l_tail l_count] in *.
  pose proof (nodes_rep_NoDup _ _ _ Hp) as Hdup. rewrite release_order_snoc in Hdup.
  unfold node_append. rewrite (get_node_ok _ _ _ Hnd). cbn [mbind exec_bind].
  assert (u64 (lc + 1) = u64 (zlen (es ++ [(a, v)]))) as Hcnt.
  { rewrite Hc, zlen_app. unfold u64. by rewrite Zplus_mod_idemp_l. }
  rewrite !NoDup_app in Hdup. assert (a ∉ release_order v) as Hav by set_solver.
  set (nd' := set_prev (set_next nd None) lt).
  cbn [l_head l_tail l_count].
  assert (a ∈ live ++ order (es ++ [(a, v)])) as Hin by (rewrite release_order_snoc; set_solver).
  assert (node_rep (nodes h) nd' v) as Hv' by by apply node_rep_links.
  assert (frame live (nodes h) (<[a := nd']> (nodes h))) as Hfa by (apply frame_insert; set_solver).
  destruct (decide (es = [])) as [->|Hne].
  - inversion Hd; subst. cbn [mbind exec_bind fst snd]. do 2 eexists. split; [done|].
    split; [by apply nodes_rep_put|]. split; [|exact Hfa]. split; [|done]. cbn [l_head l_tail app].
    econstructor; [apply lookup_insert_eq| | |].
    + done.
    + eapply node_rep_frame; [exact Hv'|]. by apply frame_insert.
    + constructor.
  - destruct (dseg_tail _ _ _ _ _ Hd Hne) as (t & -> & Hto).
    destruct (proj2 (rep_dom _) _ _ _ _ Hd t Hto) as [tn Htn].
    assert (a ≠ t) as Hat by set_solver. cbv iota.
    rewrite (get_node_ok _ t tn) by (cbn; by rewrite lookup_insert_ne).
    cbn [mbind exec_bind fst snd]. do 2 eexists. split; [done|]. split; [|split].
    + apply nodes_rep_put; [by apply nodes_rep_put|]. rewrite release_order_snoc. set_solver.
    + split; [|done]. cbn [l_head l_tail]. eapply dseg_snoc; try done; set_solver.
    + eapply frame_trans; [exact Hfa|]. apply frame_insert. set_solver.
Qed.
