(* ===== verification/RespEquiv.v ===== *)
(** The single-file parser (src/resp.c, [RespSingle]) is equivalent to the
    split one (src/resp_*.c, [Resp]): they parse the same values from the same
    bytes, fault alike, and draw the same nodes; over any history of feeding,
    parsing, reading the value through its node links, and releasing it, a
    client cannot tell them apart.  The formatters that write to an array
    write what the ones of [Resp] return, and never outside of it. *)

From stdpp Require Import gmap.
From S2P Require Import Prelude Arena Slab Resp RespSafe RespRound RespFormat RespSingle RespLinked.

(** * Values *)

(** The fields of [*out] hold [v], and nothing else. *)
Definition value_rep (ns : gmap Z rnode) (v : resp_value) (o : rvalue) : Prop :=
  node_rep ns (RNode None None (v_type o) (v_integer o) (v_bulk o) (v_bulk_len o) (array_head o)
                     (array_tail o) (array_count o)) v.

Lemma fill_child_rep ns v o : value_rep ns v o → node_rep ns (fill_child zero_node o) v.
Proof. destruct o. unfold value_rep. cbn. inversion 1; subst; cbn; by constructor. Qed.

Lemma array_value_rep ns l es : nlist_rep ns l es → value_rep ns (RArray es) (array_value l zero_value).
Proof. intros [Hd Hc]. unfold value_rep. cbn. rewrite Hc. by constructor. Qed.

Lemma value_rep_frame ns ns' v o : value_rep ns v o → frame (release_order v) ns ns' → value_rep ns' v o.
Proof. apply node_rep_frame. Qed.

(** * Parsing *)

(** What the two parsers return on the same input, when the nodes [live] are
    in use elsewhere. *)
Definition parsed_rel (live : list Z) (h : pool) (x : presult * node_env) (y : parsed) : Prop :=
  nodes_rep (after y) x.2 (live ++ res_nodes x.1) ∧ frame live (nodes h) (nodes (after y)) ∧
  match x.1 with
  | PNeedMore => status y = RESP_NEED_MORE
  | PError => status y = RESP_ERROR
  | POk v pos => status y = RESP_OK ∧ pos' y = pos ∧ value_rep (nodes (after y)) v (out y)
  end.

Definition tokens_rel (live : list Z) (h : pool) (x : option (list (Z * resp_value)) * node_env)
    (y : option nlist * pool) : Prop :=
  frame live (nodes h) (nodes y.2) ∧
  match x.1, y.1 with
  | Some es, Some l => nlist_rep (nodes y.2) l es ∧ nodes_rep y.2 x.2 (live ++ order es)
  | None, None => nodes_rep y.2 x.2 live
  | _, _ => False
  end.

Lemma find_crlf_same p rp from : s_buf p = buf rp → s_w p = w_pos rp → find_crlf p from = resp__find_crlf rp from.
Proof.
  intros Hb Hw. unfold find_crlf, resp__find_crlf. rewrite Hb, Hw.
  generalize (Z.to_nat (w_pos rp - from)). intros n. revert from. induction n as [|n IH]; intros i; [done|].
  cbn [find_crlf_from find_crlf_loop]. destruct (i + 1 <? w_pos rp); [|done].
  destruct (aget (buf rp) i); [|done]. cbn [mbind exec_bind]. destruct (aget (buf rp) (i + 1)); [|done].
  cbn [mbind exec_bind]. destruct (_ && _); [done|]. apply IH.
Qed.

(** A new node with a value is put behind the list. *)
Lemma append_new h e live l es a nd v nd0 :
  nodes h !! a = Some nd0 → nodes_rep h e (((live ++ order es) ++ [a]) ++ release_order v) →
  nlist_rep (nodes h) l es → node_rep (nodes h) nd v →
  ∃ l' h', node_append (put_node h a nd) l a = Ok (l', h') ∧ nodes_rep h' e (live ++ order (es ++ [(a, v)])) ∧
    nlist_rep (nodes h') l' (es ++ [(a, v)]) ∧ frame live (nodes h) (nodes h').
Proof.
  intros Ha Hp Hl Hv. pose proof (nodes_rep_NoDup _ _ _ Hp) as Hnd. rewrite !NoDup_app in Hnd.
  destruct Hnd as ((Hnd1 & Hnd2 & _) & _). destruct Hnd1 as ((_ & Hnd4 & _) & Hnd5 & _).
  assert ((a ∉ live) ∧ (a ∉ order es) ∧ (a ∉ release_order v)) as (H1 & H2 & H3).
  { split_and!.
    - intros Hin. apply (Hnd5 a); [apply elem_of_app; by left|by left].
    - intros Hin. apply (Hnd5 a); [apply elem_of_app; by right|by left].
    - apply Hnd2. apply elem_of_app. right. by left. }
  assert (nodes_rep h e (live ++ order (es ++ [(a, v)]))) as Hp'.
  { eapply nodes_rep_perm; [|exact Hp]. rewrite release_order_snoc, <-!app_assoc.
    do 2 apply Permutation_app_head. apply Permutation_app_comm. }
  destruct (node_append_sim (put_node h a nd) e live l es a nd v) as (l' & h' & Ha' & Hp2 & Hl2 & Hf).
  - apply nodes_rep_put; [done|]. rewrite release_order_snoc, !elem_of_app. right. right. right. by left.
  - eapply nlist_rep_frame; [exact Hl|]. by apply frame_insert.
  - apply lookup_insert_eq.
  - eapply node_rep_frame; [exact Hv|]. by apply frame_insert.
  - exists l', h'. split; [done|]. split; [done|]. split; [done|].
    eapply frame_trans; [|exact Hf]. by apply frame_insert.
Qed.

Lemma tokens_sim fuel b i line_end es l e h live :
  nlist_rep (nodes h) l es → nodes_rep h e (live ++ order es) →
  exec_rel (tokens_rel live h) (inline_tokens fuel b i line_end es e) (tokens fuel b i line_end l h).
Proof.
  revert i es l e h. induction fuel as [|fuel IH]; intros i es l e h Hl Hp; [done|].
  cbn [inline_tokens tokens]. destruct (i >=? line_end); [by split_and!|].
  eapply exec_rel_bind; [by apply (exec_rel_same eq)|]. intros tok ? <-.
  destruct (tok >=? line_end); [by split_and!|].
  eapply exec_rel_bind; [by apply (exec_rel_same eq)|]. intros i' ? <-.
  eapply exec_rel_bind; [by apply node_alloc_sim|].
  intros [r e1] [r' h1] (Hr & Hp1 & Hf1 & Hz). cbn [fst snd] in *. subst r'. destruct r as [a|].
  - specialize (Hz a eq_refl). rewrite (get_node_ok _ _ _ Hz). cbn [mbind exec_bind].
    destruct (append_new h1 e1 live l es a
                (RNode (n_next zero_node) (n_prev zero_node) RESP_TYPE_BULK (n_integer zero_node) (Some tok) (i' - tok)
                       (child_head zero_node) (child_tail zero_node) (child_count zero_node))
                (RBulk (tok, i' - tok)) _ Hz) as (l' & h2 & Ha & Hp2 & Hl2 & Hf2).
    + by rewrite app_nil_r.
    + eapply nlist_rep_frame; [exact Hl|]. eapply frame_weaken; [|exact Hf1]. intros y Hy. apply elem_of_app. by right.
    + constructor.
    + rewrite Ha. cbn [mbind exec_bind fst snd]. eapply exec_rel_mono; [|by apply IH].
      intros x y [Hfr Hrest]. split; [|exact Hrest]. eapply frame_trans; [|exact Hfr].
      eapply frame_trans; [|exact Hf2]. eapply frame_weaken; [|exact Hf1]. intros z Hin. apply elem_of_app. by left.
  - cbn [opt_list] in Hp1. rewrite app_nil_r in Hp1.
    destruct (release_sim h1 e1 live (l_head l) (l_tail l) es) as (h2 & -> & Hp2 & Hf2).
    + eapply dseg_frame; [apply Hl|]. eapply frame_weaken; [|exact Hf1]. intros y Hy. apply elem_of_app. by right.
    + done.
    + cbn. split; [|exact Hp2]. eapply frame_trans; [|exact Hf2]. eapply frame_weaken; [|exact Hf1].
      intros y Hy. apply elem_of_app. by left.
Qed.

Lemma frame_left keep keep' ns ns' : frame (keep ++ keep') ns ns' → frame keep ns ns'.
Proof. apply frame_weaken. intros a Ha. apply elem_of_app. by left. Qed.
Lemma frame_right keep keep' ns ns' : frame (keep ++ keep') ns ns' → frame keep' ns ns'.
Proof. apply frame_weaken. intros a Ha. apply elem_of_app. by right. Qed.

Lemma parse_inline_sim p rp pos e h live :
  s_buf p = buf rp → s_w p = w_pos rp → nodes_rep h e live →
  exec_rel (parsed_rel live h) (resp__parse_inline rp pos e) (parse_inline p pos zero_value h).
Proof.
  intros Hb Hw Hp. unfold resp__parse_inline, parse_inline. rewrite Hb, Hw.
  eapply exec_rel_bind; [by apply (exec_rel_same eq)|]. intros r ? <-.
  destruct r as [lf|]; [|split_and!; [by rewrite app_nil_r|done..]].
  eapply exec_rel_bind; [by apply (exec_rel_same eq)|]. intros le ? <-.
  eapply exec_rel_bind.
  { apply (tokens_sim _ (buf rp) pos le [] no_nodes e h live); [split; [constructor|done]|by rewrite app_nil_r]. }
  intros [[es|] e'] [[l|] h'] [Hf Hrest]; cbn [fst snd] in *; try done.
  - destruct Hrest as [Hl Hp']. split; [exact Hp'|]. split; [done|]. split_and!; [done..|].
    by apply array_value_rep.
  - split; [by rewrite app_nil_r|done].
Qed.

(** The two loops over the elements of an array, when the parsers of one
    element are related. *)
Lemma array_loop_sim fuel pv1 pv2 :
  (∀ pos e h live, nodes_rep h e live → exec_rel (parsed_rel live h) (pv1 pos e) (pv2 pos zero_value h)) →
  ∀ pos remaining es l e h live, nlist_rep (nodes h) l es → nodes_rep h e (live ++ order es) →
  exec_rel (parsed_rel live h) (parse_elems fuel pv1 pos remaining es e)
    (array_loop fuel pv2 pos remaining l zero_value h).
Proof.
  intros Hpv. induction fuel as [|fuel IH]; intros pos remaining es l e h live Hl Hp; [done|].
  cbn [parse_elems array_loop]. destruct (remaining <=? 0).
  { split; [exact Hp|]. split; [done|]. split_and!; [done..|]. by apply array_value_rep. }
  eapply exec_rel_bind; [by apply node_alloc_sim|].
  intros [r e1] [r' h1] (Hr & Hp1 & Hf1 & Hz). cbn [fst snd] in *. subst r'.
  assert (nlist_rep (nodes h1) l es) as Hl1.
  { eapply nlist_rep_frame; [exact Hl|]. by apply frame_right in Hf1. }
  apply frame_left in Hf1. destruct r as [a|]; cbn [opt_list] in Hp1.
  2:{ rewrite app_nil_r in Hp1. destruct (release_sim h1 e1 live _ _ es (proj1 Hl1) Hp1) as (h2 & -> & Hp2 & Hf2).
      split; [by rewrite app_nil_r|]. split; [|done]. by eapply frame_trans. }
  specialize (Hz a eq_refl).
  eapply exec_rel_bind; [by apply (Hpv pos e1 h1 ((live ++ order es) ++ [a]))|].
  intros [r e2] y (Hp2 & Hf2 & Hy). cbn [fst snd] in *.
  assert (nlist_rep (nodes (after y)) l es) as Hl2.
  { eapply nlist_rep_frame; [exact Hl1|]. eapply frame_right, frame_left, Hf2. }
  assert (nodes (after y) !! a = Some zero_node) as Hza.
  { rewrite <-Hz. apply Hf2, elem_of_app. right. by left. }
  apply frame_left, frame_left in Hf2. pose proof (frame_trans _ _ _ _ Hf1 Hf2) as Hf.
  destruct r as [| |v pos2]; [rewrite Hy; cbn [res_nodes] in Hp2; rewrite app_nil_r in Hp2..|].
  1,2: destruct (node_free_sim (after y) e2 (live ++ order es) a Hp2 (mk_is_Some _ _ Hza)) as (h3 & -> & Hp3 & Hf3);
    cbn [mbind exec_bind];
    destruct (release_sim h3 _ live (l_head l) (l_tail l) es
      (dseg_frame _ _ _ _ _ _ (proj1 Hl2) (frame_right _ _ _ _ Hf3)) Hp3) as (h4 & -> & Hp4 & Hf4);
    cbn; split; [by rewrite app_nil_r|]; split; [|done];
    (eapply frame_trans; [|exact Hf4]); (eapply frame_trans; [exact Hf|]); by apply frame_left in Hf3.
  destruct Hy as (-> & -> & Hv). rewrite (get_node_ok _ _ _ Hza). cbn [mbind exec_bind].
  destruct (append_new (after y) e2 live l es a (fill_child zero_node (out y)) v zero_node Hza Hp2 Hl2)
    as (l' & h3 & -> & Hp3 & Hl3 & Hf3); [by apply fill_child_rep|].
  cbn [mbind exec_bind fst snd]. eapply exec_rel_mono; [|by apply IH].
  intros x z (Hpx & Hfx & Hx). split; [done|]. split; [|done].
  eapply frame_trans; [|exact Hfx]. by eapply frame_trans.
Qed.

Lemma parse_value_sim fuel p rp pos e h live :
  s_buf p = buf rp → s_w p = w_pos rp → nodes_rep h e live →
  exec_rel (parsed_rel live h) (Resp.parse_value fuel rp pos e) (parse_value fuel p pos zero_value h).
Proof.
  intros Hb Hw. revert pos e h live. induction fuel as [|fuel IH]; intros pos e h live Hp; [done|].
  assert (∀ r st, (r = PNeedMore ∧ st = RESP_NEED_MORE) ∨ (r = PError ∧ st = RESP_ERROR) →
    exec_rel (parsed_rel live h) (Ok (r, e)) (Ok (Parsed st zero_value pos h))) as Hstop.
  { intros r st [[-> ->]|[-> ->]]; (split_and!; [by rewrite app_nil_r|done..]). }
  assert (∀ v o n, release_order v = [] → node_rep (nodes h) (RNode None None (v_type o) (v_integer o) (v_bulk o)
            (v_bulk_len o) (array_head o) (array_tail o) (array_count o)) v →
    exec_rel (parsed_rel live h) (Ok (POk v n, e)) (Ok (Parsed RESP_OK o n h))) as Hdone.
  { intros v o n Hv Ho. split; [cbn; by rewrite Hv, app_nil_r|]. by split_and!. }
  cbn [Resp.parse_value parse_value]. rewrite <-Hw, <-Hb.
  destruct (pos >=? s_w p); [apply Hstop; by left|].
  eapply exec_rel_bind; [by apply (exec_rel_same eq)|]. intros c ? <-.
  destruct (is_prefix_byte c) eqn:Ec; cbn [negb]; [|by apply parse_inline_sim].
  eapply exec_rel_bind; [rewrite (find_crlf_same p rp) by done; by apply (exec_rel_same eq)|]. intros r ? <-.
  destruct r as [cr|]; [|apply Hstop; by left].
  destruct (c =? 43); cbn [orb]; [apply Hdone; [done|constructor]|].
  destruct (c =? 45); [apply Hdone; [done|constructor]|].
  destruct (c =? 58) eqn:E58.
  { eapply exec_rel_bind; [by apply (exec_rel_same eq)|]. intros [n|] ? <-; [|apply Hstop; by right].
    apply Hdone; [done|constructor]. }
  destruct (c =? 36) eqn:E36.
  - eapply exec_rel_bind; [by apply (exec_rel_same eq)|]. intros [n|] ? <-; [|apply Hstop; by right].
    destruct (n <? 0); [apply Hdone; [done|constructor]|].
    destruct (_ >? s_w p); [apply Hstop; by left|].
    eapply exec_rel_bind; [by apply (exec_rel_same eq)|]. intros x ? <-.
    eapply exec_rel_bind; [by apply (exec_rel_same eq)|]. intros y ? <-.
    destruct (_ || _); [apply Hstop; by right|]. apply Hdone; [done|constructor].
  - eapply exec_rel_bind; [by apply (exec_rel_same eq)|]. intros [n|] ? <-; [|apply Hstop; by right].
    destruct (n <? 0); [apply Hdone; [done|constructor]|].
    pose proof (array_loop_sim (S (Z.to_nat (s_w p - pos))) (Resp.parse_value fuel rp) (parse_value fuel p)
      IH (cr + 2) n [] no_nodes e h live
      (conj (dseg_nil _ _) eq_refl)) as Hl. rewrite app_nil_r in Hl. specialize (Hl Hp).
    unfold parse_array. destruct (parse_elems _ _ _ _ _ _) as [[r e']|], (array_loop _ _ _ _ _ _ _) as [y|]; try done.
    destruct Hl as (H1 & H2 & H3). cbn in *.
    destruct r as [| |v n']; [rewrite H3; by split_and!..|].
    destruct H3 as (Hs & H3 & H4). rewrite Hs. by split_and!.
Qed.

(** * Buffers *)

(** The two parsers have the same bytes and the same free nodes, and no value
    is held. *)
Definition parser_rel (rp : resp_parser) (p : sparser) : Prop :=
  s_buf p = buf rp ∧ s_cap p = buf_cap rp ∧ s_r p = r_pos rp ∧ s_w p = w_pos rp ∧
  nodes_rep (s_pool p) (env rp) [].

Lemma compact_sim p rp : parser_rel rp p → exec_rel parser_rel (resp__compact rp) (compact p).
Proof.
  intros (Hb & Hc & Hr & Hw & Hp). unfold resp__compact, compact. rewrite Hr, Hw, Hb.
  destruct (r_pos rp =? 0); [by split_and!|].
  eapply exec_rel_bind; [by apply (exec_rel_same eq)|]. intros b ? <-. by split_and!.
Qed.

Lemma write_sim p rp data :
  parser_rel rp p → exec_rel parser_rel (Resp.resp_parser_write rp data) (resp_parser_write p data).
Proof.
  intros (Hb & Hc & Hr & Hw & Hp). unfold Resp.resp_parser_write, resp_parser_write. rewrite Hw, Hb.
  eapply exec_rel_bind; [by apply (exec_rel_same eq)|]. intros b ? <-. by split_and!.
Qed.

Lemma commit_rel p rp n : parser_rel rp p → parser_rel (Resp.resp_parser_commit rp n) (resp_parser_commit p n).
Proof. intros (Hb & Hc & Hr & Hw & Hp). split_and!; try done. cbn. by rewrite Hw. Qed.

Lemma feed_sim p rp data :
  parser_rel rp p →
  exec_rel (λ x y, x.1 = y.1 ∧ parser_rel x.2 y.2) (Resp.resp_parser_feed rp data) (resp_parser_feed p data).
Proof.
  intros Hrel. pose proof Hrel as (Hb & Hc & Hr & Hw & Hp). unfold Resp.resp_parser_feed, resp_parser_feed.
  rewrite Hr, Hw, Hc. destruct (zlen data =? 0); [by split|]. destruct (_ <=? _).
  - eapply exec_rel_bind; [by apply write_sim|]. intros rp1 p1 H1. split; [done|]. by apply commit_rel.
  - destruct (_ <? _); [by split|]. eapply exec_rel_bind; [by apply compact_sim|]. intros rp1 p1 H1.
    eapply exec_rel_bind; [by apply write_sim|]. intros rp2 p2 H2. split; [done|]. by apply commit_rel.
Qed.

(** * Reading a value through its nodes *)

Definition read_text (b : list Z) (off : option Z) (len : Z) : exec (list Z) :=
  match off with Some o => Ok (slice b o len) | None => Stuck DanglingPointer end.

Definition read_scalar (b : list Z) (t : resp_type) (z : Z) (off : option Z) (len : Z) : exec rval :=
  match t with
  | RESP_TYPE_SIMPLE => s ← read_text b off len; Ok (VSimple s)
  | RESP_TYPE_ERROR => s ← read_text b off len; Ok (VError s)
  | RESP_TYPE_BULK => s ← read_text b off len; Ok (VBulk s)
  | RESP_TYPE_INTEGER => Ok (VInt z)
  | _ => Ok VNil
  end.

Fixpoint read_list (fuel : nat) (b : list Z) (ns : gmap Z rnode) (p : option Z) : exec (list rval) :=
  match p with
  | None => Ok []
  | Some a =>
      match fuel, ns !! a with
      | O, _ => Stuck OutOfFuel
      | S _, None => Stuck DanglingPointer
      | S fuel', Some nd =>
          v ← (match n_type nd with
               | RESP_TYPE_ARRAY => vs ← read_list fuel' b ns (child_head nd); Ok (VArr vs)
               | t => read_scalar b t (n_integer nd) (n_bulk nd) (n_bulk_len nd)
               end);
          vs ← read_list fuel' b ns (n_next nd);
          Ok (v :: vs)
      end
  end.

Definition read_value (b : list Z) (ns : gmap Z rnode) (o : rvalue) : exec rval :=
  match v_type o with
  | RESP_TYPE_ARRAY => vs ← read_list (size ns) b ns (array_head o); Ok (VArr vs)
  | t => read_scalar b t (v_integer o) (v_bulk o) (v_bulk_len o)
  end.

Lemma read_list_ok fuel b ns prev head tail es :
  dseg ns prev head tail es → (length (order es) <= fuel)%nat →
  read_list fuel b ns head = Ok (map (λ e, denote b e.2) es).
Proof.
  revert prev head tail es. induction fuel as [|fuel IH]; intros prev head tail es Hd Hlen;
    destruct Hd as [|prev a nd v tail es Hnd Hpv Hv Hes]; try done; rewrite order_cons, !length_app in Hlen;
    cbn [length] in Hlen; [lia|].
  cbn [read_list]. rewrite Hnd. cbn [map snd].
  assert (read_list fuel b ns (n_next nd) = Ok (map (λ e, denote b e.2) es)) as Hrest.
  { eapply IH; [exact Hes|]. lia. }
  destruct Hv as [| | | | |nx pv h t sub Hsub]; cbn in Hrest |- *; try (by rewrite Hrest).
  rewrite (IH None h t sub Hsub) by lia. cbn [mbind exec_bind]. by rewrite Hrest.
Qed.

Lemma read_value_ok h e b v o :
  nodes_rep h e (release_order v) → value_rep (nodes h) v o → read_value b (nodes h) o = Ok (denote b v).
Proof.
  intros Hp. destruct o as [t z bo bl hd tl n]. unfold value_rep, read_value. cbn. inversion 1; subst; try done.
  erewrite read_list_ok; [done|done|]. apply NoDup_size; [|by eapply (proj2 (rep_dom _))].
  apply nodes_rep_NoDup in Hp. by apply NoDup_app in Hp as [? _].
Qed.

(** array_nth of src/server.c *)
Fixpoint array_nth (ns : gmap Z rnode) (node : option Z) (n : nat) : exec (option Z) :=
  match n, node with
  | O, _ | _, None => Ok node
  | S n', Some a =>
      match ns !! a with None => Stuck DanglingPointer | Some nd => array_nth ns (n_next nd) n' end
  end.

Lemma array_nth_ok ns prev head tail es n :
  dseg ns prev head tail es → array_nth ns head n = Ok (fst <$> es !! n).
Proof.
  intros Hd. revert n. induction Hd as [|prev a nd v tail es Hnd Hpv Hv Hes IH]; intros [|n]; try done.
  cbn [array_nth]. rewrite Hnd. apply IH.
Qed.

(** * Histories of a client *)

(** What a client does with a parser: feed it, ask for the next value (which
    it reads and then releases), or reset it. *)
Inductive client_op := CFeed (data : list Z) | CNext | CReset.

Inductive client_reply :=
  | CRc (rc : Z)
  | CStatus (st : resp_parse_status) (v : option rval)
  | CNone.

Definition split_step (p : resp_parser) (o : client_op) : exec (client_reply * resp_parser) :=
  match o with
  | CFeed data => x ← Resp.resp_parser_feed p data; Ok (CRc x.1, x.2)
  | CNext =>
      x ← Resp.resp_parser_next p;
      match x.1 with
      | POk v _ => Ok (CStatus RESP_OK (Some (denote (buf x.2) v)), Resp.resp_value_release x.2 v)
      | r => Ok (CStatus (status_of r) None, x.2)
      end
  | CReset => Ok (CNone, Resp.resp_parser_reset p)
  end.

Definition single_step (p : sparser) (o : client_op) : exec (client_reply * sparser) :=
  match o with
  | CFeed data => x ← resp_parser_feed p data; Ok (CRc x.1, x.2)
  | CNext =>
      x ← resp_parser_next p;
      let '(st, o, p') := x in
      match st with
      | RESP_OK =>
          v ← read_value (s_buf p') (nodes (s_pool p')) o;
          p'' ← resp_value_release p' o;
          Ok (CStatus RESP_OK (Some v), p'')
      | _ => Ok (CStatus st None, p')
      end
  | CReset => Ok (CNone, resp_parser_reset p)
  end.

(** The replies, and the nodes that destroying the parser gives back. *)
Fixpoint split_run (p : resp_parser) (os : list client_op) : exec (list client_reply * list Z) :=
  match os with
  | [] => Ok ([], Resp.resp_parser_destroy p)
  | o :: os' => x ← split_step p o; y ← split_run x.2 os'; Ok (x.1 :: y.1, y.2)
  end.
Fixpoint single_run (p : sparser) (os : list client_op) : exec (list client_reply * list Z) :=
  match os with
  | [] => x ← resp_parser_destroy p; Ok ([], x.1)
  | o :: os' => x ← single_step p o; y ← single_run x.2 os'; Ok (x.1 :: y.1, y.2)
  end.

(** Parsing the next value: the value is held until it is released. *)
Lemma next_sim rp p :
  parser_rel rp p →
  exec_rel (λ x y, status_of x.1 = y.1.1 ∧ s_buf y.2 = buf x.2 ∧ s_cap y.2 = buf_cap x.2 ∧ s_r y.2 = r_pos x.2 ∧
      s_w y.2 = w_pos x.2 ∧ nodes_rep (s_pool y.2) (env x.2) (res_nodes x.1) ∧
      ∀ v n, x.1 = POk v n → value_rep (nodes (s_pool y.2)) v y.1.2)
    (Resp.resp_parser_next rp) (resp_parser_next p).
Proof.
  intros Hrel. pose proof Hrel as (_ & Hc & Hr & _). unfold Resp.resp_parser_next, resp_parser_next. rewrite Hr, Hc.
  eapply exec_rel_bind.
  { instantiate (1 := parser_rel). destruct (_ >? _); [by apply compact_sim|done]. }
  intros rp1 p1 (Hb1 & Hc1 & Hr1 & Hw1 & Hp1). rewrite Hr1, Hw1.
  eapply exec_rel_bind; [by apply parse_value_sim|]. intros [r e] y (Hp & _ & Hy). cbn [fst snd] in *.
  destruct r as [| |v n]; [rewrite Hy; by split_and!..|]. destruct Hy as (-> & -> & Hv). split_and!; try done.
  by intros ? ? [= -> ->].
Qed.

Lemma value_release_sim p o v e :
  nodes_rep (s_pool p) e (release_order v) → value_rep (nodes (s_pool p)) v o →
  ∃ h, resp_value_release p o = Ok (SParser (s_buf p) (s_cap p) (s_r p) (s_w p) h) ∧
    nodes_rep h (match v with RArray es => resp__node_list_release e es | _ => e end) [].
Proof.
  intros Hp Hv. destruct p as [b c r w h], o as [t z bo bl hd tl n]. unfold value_rep in Hv.
  cbn in Hp, Hv |- *. inversion Hv as [| | | | |? ? ? ? es Hd]; subst; try (by exists h).
  destruct (release_sim h e [] hd tl es Hd Hp) as (h' & Hr & Hp' & _).
  destruct hd as [a|]; [unfold resp_value_release; cbn; rewrite Hr; by exists h'|].
  inversion Hd; subst. exists h. by split.
Qed.

Lemma step_sim rp p o :
  parser_rel rp p → exec_rel (λ x y, x.1 = y.1 ∧ parser_rel x.2 y.2) (split_step rp o) (single_step p o).
Proof.
  intros Hrel. destruct o as [data| |]; cbn [split_step single_step].
  - eapply exec_rel_bind; [by apply feed_sim|]. intros x y [-> H]. by split.
  - eapply exec_rel_bind; [by apply next_sim|].
    intros [r rp'] [[st o] p'] (Hst & Hb & Hc & Hr & Hw & Hp & Hv). cbn [fst snd] in *. subst st.
    destruct r as [| |v n]; cbn [status_of]; [by split_and!..|]. specialize (Hv v n eq_refl).
    rewrite (read_value_ok _ _ (s_buf p') _ _ Hp Hv). cbn [mbind exec_bind].
    destruct (value_release_sim p' o v (env rp') Hp Hv) as (h & -> & Hh). cbn. split; [by rewrite Hb|].
    destruct v; by split_and!.
  - destruct Hrel as (Hb & Hc & Hr & Hw & Hp). by split_and!.
Qed.

Lemma free_chain_ok fuel ns q l :
  free_list_of ns q l → NoDup l → (length l <= fuel)%nat → ∃ ns', free_chain fuel ns q = Ok (l, ns').
Proof.
  revert ns q l. induction fuel as [|fuel IH]; intros ns q [|a l] Hc Hnd Hlen; cbn in Hc, Hlen;
    try (rewrite Hc; by eexists); [lia|].
  destruct Hc as (-> & nd & Ha & Hc). apply NoDup_cons in Hnd as [Hal Hnd]. cbn [free_chain]. rewrite Ha.
  destruct (IH (delete a ns) (n_next nd) l) as [ns' ->]; [|done|lia|by eexists].
  eapply free_chain_frame; [exact Hc|]. intros b Hb. rewrite lookup_delete_ne; [done|]. by intros ->.
Qed.

Lemma free_list_dom ns q l : free_list_of ns q l → ∀ a, a ∈ l → is_Some (ns !! a).
Proof.
  revert q. induction l as [|b l IH]; intros q; [by intros _ a ?%elem_of_nil|].
  intros (-> & nd & Hb & Hc) a [->|Ha]%elem_of_cons; [by eexists|by eapply IH].
Qed.

Lemma run_sim rp p os : parser_rel rp p → exec_rel eq (split_run rp os) (single_run p os).
Proof.
  revert rp p. induction os as [|o os IH]; intros rp p Hrel; cbn [split_run single_run].
  - destruct Hrel as (_ & _ & _ & _ & Hp). pose proof (nodes_rep_NoDup _ _ _ Hp) as Hnd.
    destruct Hp as (Hc & Hs & _ & _). unfold Resp.resp_parser_destroy, resp_parser_destroy. rewrite Hs.
    destruct (n_slab (env rp)); [done|]. cbn [app] in Hnd.
    destruct (free_chain_ok (size (nodes (s_pool p))) _ _ _ Hc Hnd) as [ns' ->]; [|done].
    apply NoDup_size; [done|]. by eapply free_list_dom.
  - eapply exec_rel_bind; [by apply step_sim|]. intros x y [Hxy Hr]. eapply exec_rel_bind; [by apply IH|].
    intros ? ? <-. by rewrite Hxy.
Qed.

(** The supply of nodes when there is no slab, and when there is one. *)
Lemma malloc_supply ms : NoDup ms → fresh_supply (NodeEnv [] None ms) [].
Proof.
  intros Hnd t sl ms' Hd. cbn in *. cut (t `sublist_of` ms); [intros Hs; by eapply sublist_NoDup|].
  remember None as o eqn:Ho. induction Hd as [|s n s' ms taken sl' ms' _ _ _|sl n ms taken sl' ms' _ _ IH]; [|done|].
  - apply sublist_nil_l.
  - apply sublist_skip. apply IH; [|done]. by apply NoDup_cons in Hnd as [_ ?].
Qed.

Lemma slab_alloc_blocks s size a s' i p :
  zedis_slab_alloc s size = Ok (Some a, s') → s !! i = Some p → ∃ p', s' !! i = Some p' ∧ blocks p' = blocks p.
Proof.
  intros Ha Hp. unfold zedis_slab_alloc in Ha. destruct (pool_for_size size) as [j|]; [|done].
  destruct (aget s (Z.of_nat j)) as [q|] eqn:Eq; [|done]. cbn [mbind exec_bind] in Ha.
  destruct (Slab.free_list q) as [b|]; [|done]. destruct (nexts q !! b) as [nx|]; [|done]. injection Ha as <- <-.
  apply aget_lookup in Eq as [_ Eq]. rewrite Nat2Z.id in Eq. destruct (decide (j = i)) as [->|Hne].
  - rewrite Hp in Eq. injection Eq as <-.
    eexists. split; [apply list_lookup_insert_eq; by eapply lookup_lt_Some|done].
  - rewrite list_lookup_insert_ne by done. by exists p.
Qed.

Lemma slab_supply s outs ms p :
  slab_rep s outs → s !! 1%nat = Some p → NoDup ms → (∀ a, a ∈ ms → a - BLOCK_DATA ∉ blocks p) →
  fresh_supply (NodeEnv [] (Some s) ms) [].
Proof.
  intros Hrep Hp Hnd Hout t sl ms' Hd. cbn in *.
  cut (NoDup t ∧ ∀ a, a ∈ t → a ∈ ms ∨ (a - BLOCK_DATA ∈ blocks p ∧ a - BLOCK_DATA ∉ outs_of 1 outs)); [tauto|].
  remember (Some s) as o eqn:Ho. revert s outs p Ho Hrep Hp Hout.
  induction Hd as [|s n s' ms taken sl' ms' Ha _ IH|sl n ms taken sl' ms' _ _ IH]; intros s0 outs p Ho Hrep Hp Hout.
  - split; [constructor|]. by intros a ?%elem_of_nil.
  - injection Ho as ->. pose proof (slab_alloc_ok s0 outs SIZEOF_RESP_NODE Hrep) as Hok.
    destruct Hok as (p0 & Hp0 & [[Hno _]|(b & s1 & Ha1 & Hb & Hbo & Hrep1)]); [congruence|].
    assert (p0 = p) as -> by (cbn in Hp0; congruence). rewrite Ha1 in Ha. injection Ha as <- <-.
    destruct (slab_alloc_blocks _ _ _ _ _ _ Ha1 Hp) as (p1 & Hp1 & Hbl).
    destruct (IH Hnd s1 _ p1 eq_refl Hrep1 Hp1) as [IH1 IH2]; [by rewrite Hbl|]. rewrite Hbl in IH2.
    assert (∀ x, x ∈ outs_of 1 ((b + BLOCK_DATA, SIZEOF_RESP_NODE) :: outs) ↔ x = b ∨ x ∈ outs_of 1 outs) as Ho.
    { intros x. rewrite outs_of_cons, decide_True by done. rewrite elem_of_cons.
      by replace (b + BLOCK_DATA - BLOCK_DATA) with b by lia. }
    split.
    + constructor; [|done]. intros Hin. destruct (IH2 _ Hin) as [Hm|[_ Hno]].
      * apply (Hout _ Hm). by replace (b + BLOCK_DATA - BLOCK_DATA) with b by lia.
      * apply Hno, Ho. left. lia.
    + intros a [->|Hin]%elem_of_cons.
      * right. by replace (b + BLOCK_DATA - BLOCK_DATA) with b by lia.
      * destruct (IH2 a Hin) as [?|[? Hno]]; [by left|]. right. split; [done|].
        intros Hx. apply Hno, Ho. by right.
  - apply NoDup_cons in Hnd as [Hn Hnd]. destruct (IH Hnd s0 outs p Ho Hrep Hp) as [IH1 IH2].
    { intros a Ha. apply Hout. by right. }
    split.
    + constructor; [|done]. intros Hin. destruct (IH2 _ Hin) as [?|[Hb _]]; [done|]. apply (Hout n); [by left|done].
    + intros a [->|Hin]%elem_of_cons; [left; by left|]. destruct (IH2 a Hin) as [?|?]; [left; by right|by right].
Qed.

(** C35: the single-file parser and the split one are equivalent.  Started on
    the same memory, with the same slab and the same results of malloc, they
    give the same replies to every history of feeding bytes, parsing (the
    value is then read through its node links and released) and resetting, and
    give the same nodes back when they are destroyed; in particular no run of
    the pointer version follows a dangling pointer or uses a node twice.  The
    slab and malloc are only assumed not to hand out a node that is in use. *)
Theorem parsers_equivalent mem sl ms cap os :
  fresh_supply (NodeEnv [] sl ms) [] →
  match resp_parser_init_ex mem sl ms ∅ cap, Resp.resp_parser_init_ex mem sl ms cap with
  | Some p, Some rp => single_run p os = split_run rp os
  | None, None => True
  | _, _ => False
  end.
Proof.
  intros Hf. unfold resp_parser_init_ex, Resp.resp_parser_init_ex. cbv zeta.
  destruct (mem _) as [b|]; [|done]. set (c := if cap =? 0 then RESP_PARSER_DEFAULT_BUF else cap).
  assert (parser_rel (RespParser b c 0 0 (NodeEnv [] sl ms)) (SParser b c 0 0 (Pool None sl ms ∅))) as Hr by by split_and!.
  apply (run_sim _ _ os) in Hr.
  destruct (split_run _ _), (single_run _ _); cbn in Hr; by subst.
Qed.

(** A buffer of zeros, and a message that arrives in two parts. *)
Definition zeros (n : Z) : option (list Z) := Some (replicate (Z.to_nat n) 0).
Definition two_parts : list client_op :=
  [CFeed (bytes_of_string "*2" ++ crlf ++ bytes_of_string ":7" ++ crlf ++ bytes_of_string "*1"); CNext;
   CFeed (crlf ++ bytes_of_string "+OK" ++ crlf); CNext; CNext].

Lemma parsers_equivalent_witness :
  ∃ p, resp_parser_init_ex zeros None [10; 20; 30] ∅ 64 = Some p ∧
    single_run p two_parts =
      Ok ([CRc 0; CStatus RESP_NEED_MORE None; CRc 0;
           CStatus RESP_OK (Some (VArr [VInt 7; VArr [VSimple (bytes_of_string "OK")]]));
           CStatus RESP_NEED_MORE None], [20; 30; 10]).
Proof.
  assert (NoDup [10; 20; 30]) as Hnd by (apply (bool_decide_unpack _); exact I).
  pose proof (parsers_equivalent zeros None [10; 20; 30] 64 two_parts) as H.
  specialize (H (malloc_supply _ Hnd)).
  eexists. split; [reflexivity|]. etransitivity; [exact H|]. vm_compute. reflexivity.
Defined.

(** * Formatters *)

(** The formatters of resp.c do what those of resp_format.c do. *)
Lemma single_formatters_exact dst cap s z :
  zlen dst = cap → cap < 2 ^ 31 → zlen s < 2 ^ 62 →
  formats (resp_format_simple dst cap s) cap (VSimple (cstr s)) ∧
  formats (resp_format_error dst cap s) cap (VError (cstr s)) ∧
  formats (resp_format_integer dst cap z) cap (VInt z) ∧
  formats (resp_format_bulk dst cap s) cap (VBulk s) ∧
  formats (resp_format_null dst cap) cap VNil.
Proof. apply formatters_exact. Qed.
