(* ===== verification/EventLoop.v ===== *)
(** The epoll event loop of src/event_loop.c.

    [event_loop] is the C struct; the kernel's interest list of the epoll
    instance is kept beside it as [interest], a map from the descriptors that
    are registered to their event mask, and [epoll_ctl] behaves on it as
    documented: ADD fails on a registered descriptor (or when the kernel has
    no room), MOD and DEL fail on one that is not.  What [epoll_wait] reports
    is an argument of [event_loop_run_once].  A handler with its userdata is a
    value of the type [H]. *)

From stdpp Require Import gmap.
From S2P Require Import Prelude Arena.

Definition ZEDIS_MAX_EVENTS : Z := 1024.
Definition SIZEOF_EVENT_LOOP : Z := 12312.
Definition SIZEOF_HANDLER : Z := 16.

Definition EPOLLIN : Z := 1.
Definition EPOLLOUT : Z := 4.
Definition EPOLLET : Z := 2 ^ 31.

Section event_loop.
Context {H : Type}.

Record event_loop := EventLoop {
  epfd : Z;
  stop : bool;
  max_fds : Z;
  handlers : list (option H);
  interest : gmap Z Z;
}.

(** [fd] is what epoll_create1 returns. *)
Definition event_loop_create (a : arena) (max : Z) (fd : Z) : option event_loop * arena :=
  if max <=? 0 then (None, a) else
  match zedis_arena_calloc a 1 SIZEOF_EVENT_LOOP 64 with
  | (None, a1) => (None, a1)
  | (Some _, a1) =>
      match zedis_arena_calloc a1 max SIZEOF_HANDLER 64 with
      | (None, a2) => (None, a2)
      | (Some _, a2) =>
          if fd <? 0 then (None, a2)
          else (Some (EventLoop fd false max (calloc_array max SIZEOF_HANDLER None) ∅), a2)
      end
  end.

(** The descriptor that is closed. *)
Definition event_loop_destroy (l : event_loop) : option Z :=
  if epfd l >=? 0 then Some (epfd l) else None.

Definition set_handler (l : event_loop) (fd : Z) (h : option H) (i : gmap Z Z) : exec event_loop :=
  hs ← aset (handlers l) fd h;
  Ok (EventLoop (epfd l) (stop l) (max_fds l) hs i).

(** [room]: the kernel can register one more descriptor. *)
Definition event_loop_add (l : event_loop) (room : bool) (fd events : Z) (h : H)
    : exec (Z * event_loop) :=
  if (fd <? 0) || (fd >=? max_fds l) then Ok (RC_ERR, l) else
  match interest l !! fd with
  | Some _ => Ok (RC_ERR, l)
  | None =>
      if negb room then Ok (RC_ERR, l) else
      l' ← set_handler l fd (Some h) (<[fd := events]> (interest l));
      Ok (RC_OK, l')
  end.

Definition event_loop_mod (l : event_loop) (fd events : Z) (h : H) : exec (Z * event_loop) :=
  if (fd <? 0) || (fd >=? max_fds l) then Ok (RC_ERR, l) else
  match interest l !! fd with
  | None => Ok (RC_ERR, l)
  | Some _ =>
      l' ← set_handler l fd (Some h) (<[fd := events]> (interest l));
      Ok (RC_OK, l')
  end.

Definition event_loop_del (l : event_loop) (fd : Z) : exec (Z * event_loop) :=
  match interest l !! fd with
  | None => Ok (RC_ERR, l)
  | Some _ =>
      let i := delete fd (interest l) in
      if (fd >=? 0) && (fd <? max_fds l) then
        l' ← set_handler l fd None i; Ok (RC_OK, l')
      else Ok (RC_OK, EventLoop (epfd l) (stop l) (max_fds l) (handlers l) i)
  end.

Definition event_loop_stop (l : event_loop) : event_loop :=
  EventLoop (epfd l) true (max_fds l) (handlers l) (interest l).

(** * One turn of the loop *)

(** What epoll_wait did: the events, or a failure, interrupted or not. *)
Inductive wait_result :=
  | Waited (events : list (Z * Z))
  | WaitFailed (eintr : bool).

Section run_once.
Context {S : Type} (get : S → event_loop) (put : S → event_loop → S)
  (call : H → Z → Z → S → exec S).

(** The handler is looked up when the event is reached, not before. *)
Fixpoint dispatch_events (events : list (Z * Z)) (s : S) : exec S :=
  match events with
  | [] => Ok s
  | (fd, ev) :: events' =>
      if (fd <? 0) || (fd >=? max_fds (get s)) then dispatch_events events' s else
      h ← aget (handlers (get s)) fd;
      match h with
      | None => dispatch_events events' s
      | Some h => s' ← call h fd ev s; dispatch_events events' s'
      end
  end.

(** [sig] and [sig']: a signal was received before, and by the end of, the wait. *)
Definition event_loop_run_once (s : S) (sig sig' : bool) (w : wait_result) : exec (Z * S) :=
  if stop (get s) || sig then Ok (RC_ERR, put s (event_loop_stop (get s))) else
  match w with
  | WaitFailed eintr =>
      if sig' then Ok (RC_ERR, put s (event_loop_stop (get s)))
      else Ok (if eintr then 0 else RC_ERR, s)
  | Waited events =>
      s' ← dispatch_events events s;
      Ok (zlen events, s')
  end.
End run_once.

(** * The loop as a finite map from descriptors to handlers *)

Inductive loop_op :=
  | LAdd (room : bool) (fd events : Z) (h : H)
  | LMod (fd events : Z) (h : H)
  | LDel (fd : Z).

Definition loop_step (l : event_loop) (o : loop_op) : exec (Z * event_loop) :=
  match o with
  | LAdd room fd ev h => event_loop_add l room fd ev h
  | LMod fd ev h => event_loop_mod l fd ev h
  | LDel fd => event_loop_del l fd
  end.

Fixpoint loop_run (l : event_loop) (os : list loop_op) : exec (list Z * event_loop) :=
  match os with
  | [] => Ok ([], l)
  | o :: os' =>
      x ← loop_step l o;
      y ← loop_run x.2 os';
      Ok (x.1 :: y.1, y.2)
  end.

(** The registered descriptors, each with its mask and its handler. *)
Definition reg_step (max : Z) (m : gmap Z (Z * H)) (o : loop_op) : Z * gmap Z (Z * H) :=
  match o with
  | LAdd room fd ev h =>
      if bool_decide (0 <= fd < max) && room && bool_decide (m !! fd = None)
      then (RC_OK, <[fd := (ev, h)]> m) else (RC_ERR, m)
  | LMod fd ev h =>
      if bool_decide (is_Some (m !! fd)) then (RC_OK, <[fd := (ev, h)]> m) else (RC_ERR, m)
  | LDel fd => if bool_decide (is_Some (m !! fd)) then (RC_OK, delete fd m) else (RC_ERR, m)
  end.

Fixpoint reg_run (max : Z) (m : gmap Z (Z * H)) (os : list loop_op) : list Z * gmap Z (Z * H) :=
  match os with
  | [] => ([], m)
  | o :: os' =>
      let x := reg_step max m o in
      let y := reg_run max x.2 os' in
      (x.1 :: y.1, y.2)
  end.

(** A descriptor in range has a handler exactly when the kernel watches it. *)
Definition loop_rep (l : event_loop) (m : gmap Z (Z * H)) : Prop :=
  0 <= max_fds l ∧ zlen (handlers l) = max_fds l ∧ interest l = fst <$> m ∧
  (∀ fd, is_Some (m !! fd) → 0 <= fd < max_fds l) ∧
  ∀ fd, 0 <= fd < max_fds l → handlers l !! Z.to_nat fd = Some (snd <$> m !! fd).

Lemma loop_rep_create a max fd l a' :
  max < 2 ^ 32 → event_loop_create a max fd = (Some l, a') → loop_rep l ∅ ∧ max_fds l = max.
Proof.
  intros Hmax. unfold event_loop_create. destruct (max <=? 0) eqn:E; zb; [done|].
  destruct (zedis_arena_calloc a 1 _ _) as [[?|] a1]; [|done].
  destruct (zedis_arena_calloc a1 max _ _) as [[?|] a2]; [|done].
  destruct (fd <? 0); [done|]. intros [= <- <-].
  rewrite calloc_array_eq by (unfold SIZEOF_HANDLER; lia). split; [|done].
  unfold loop_rep; cbn [max_fds handlers interest]. rewrite zlen_replicate.
  split; [lia|]. split; [lia|]. split; [by rewrite fmap_empty|]. split.
  - intros f [x Hx]. by rewrite lookup_empty in Hx.
  - intros f Hf. rewrite lookup_empty. apply lookup_replicate. split; [done|lia].
Qed.

Lemma set_handler_rep l m fd (v : option (Z * H)) :
  loop_rep l m → 0 <= fd < max_fds l → ∃ l',
    set_handler l fd (snd <$> v) (fst <$> partial_alter (λ _, v) fd m) = Ok l' ∧
    loop_rep l' (partial_alter (λ _, v) fd m) ∧ max_fds l' = max_fds l ∧
    stop l' = stop l ∧ epfd l' = epfd l.
Proof.
  intros (H0 & Hl & Hi & Hdom & Hh) Hfd. unfold set_handler. rewrite aset_ok by lia. cbn [mbind exec_bind].
  eexists. split; [done|]. split; [|done]. unfold loop_rep; cbn [max_fds handlers interest].
  rewrite zlen_insert. split; [done|]. split; [done|]. split; [done|]. split.
  - intros f. destruct (decide (f = fd)) as [->|]; [done|]. rewrite lookup_partial_alter_ne by done. apply Hdom.
  - intros f Hf. destruct (decide (f = fd)) as [->|].
    + rewrite list_lookup_insert_eq by (unfold zlen in *; lia). by rewrite lookup_partial_alter_eq.
    + rewrite list_lookup_insert_ne by lia. rewrite lookup_partial_alter_ne by done. by apply Hh.
Qed.

Lemma del_epfd l fd rc l' : event_loop_del l fd = Ok (rc, l') → epfd l' = epfd l.
Proof.
  unfold event_loop_del, set_handler. destruct (_ !! fd); [|by intros [= _ <-]].
  destruct (_ && _); [|by intros [= _ <-]]. destruct (aset _ _ _); [|done]. by intros [= _ <-].
Qed.

Lemma loop_step_rep l m o :
  loop_rep l m → ∃ l', loop_step l o = Ok ((reg_step (max_fds l) m o).1, l') ∧
    loop_rep l' (reg_step (max_fds l) m o).2 ∧ max_fds l' = max_fds l ∧ stop l' = stop l.
Proof.
  intros Hrep. pose proof Hrep as (H0 & Hl & Hi & Hdom & Hh).
  assert (∀ fd, interest l !! fd = fst <$> m !! fd) as Hint by (intros fd; by rewrite Hi, lookup_fmap).
  destruct o as [room fd ev h|fd ev h|fd]; cbn [loop_step reg_step].
  - unfold event_loop_add. rewrite Z.geb_leb. destruct (_ || _) eqn:E.
    { rewrite bool_decide_eq_false_2 by (apply orb_true_iff in E as [E|E]; zb; lia). by exists l. }
    zb. rewrite bool_decide_eq_true_2 by lia. rewrite Hint. destruct (m !! fd) as [x|] eqn:Em; cbn [fmap option_fmap option_map].
    { rewrite bool_decide_eq_false_2, andb_false_r by done. by exists l. }
    destruct room; [|by exists l]. rewrite bool_decide_eq_true_2 by done. cbn [negb andb].
    destruct (set_handler_rep l m fd (Some (ev, h)) Hrep) as (l' & Hs & Hr & ? & ? & _); [lia|].
    rewrite Hi. rewrite <-(fmap_insert fst m fd (ev, h)).
    exists l'. split; [|done]. cbn [fmap option_fmap option_map snd] in Hs. unfold insert, map_insert. by rewrite Hs.
  - unfold event_loop_mod. rewrite Hint. destruct (m !! fd) as [x|] eqn:Em; cbn [fmap option_fmap option_map].
    + pose proof (Hdom fd ltac:(by eauto)) as Hr. rewrite bool_decide_eq_true_2 by eauto.
      destruct (_ || _) eqn:E; [apply orb_true_iff in E as [E|E]; zb; lia|].
      destruct (set_handler_rep l m fd (Some (ev, h)) Hrep Hr) as (l' & Hs & Hr' & ? & ? & _).
      rewrite Hi. rewrite <-(fmap_insert fst m fd (ev, h)).
      exists l'. split; [|done]. cbn [fmap option_fmap option_map snd] in Hs. unfold insert, map_insert. by rewrite Hs.
    + rewrite bool_decide_eq_false_2 by (intros [? [=]]). exists l. by destruct (_ || _).
  - unfold event_loop_del. rewrite Hint. destruct (m !! fd) as [x|] eqn:Em; cbn [fmap option_fmap option_map].
    + pose proof (Hdom fd ltac:(by eauto)) as Hr. rewrite bool_decide_eq_true_2 by eauto.
      rewrite Z.geb_leb. destruct (_ && _) eqn:E; [|apply andb_false_iff in E as [E|E]; zb; lia].
      destruct (set_handler_rep l m fd None Hrep Hr) as (l' & Hs & Hr' & ? & ? & _).
      rewrite Hi, <-fmap_delete. exists l'. split; [|done]. cbn [fmap option_fmap option_map] in Hs. unfold delete, map_delete.
      by rewrite Hs.
    + rewrite bool_decide_eq_false_2 by (intros [? [=]]). by exists l.
Qed.
End event_loop.
Arguments event_loop : clear implicits.
Arguments loop_op : clear implicits.

Lemma loop_run_rep {H} (l : event_loop H) m (os : list (loop_op H)) :
  loop_rep l m → ∃ l', loop_run l os = Ok ((reg_run (max_fds l) m os).1, l') ∧
    loop_rep l' (reg_run (max_fds l) m os).2 ∧ max_fds l' = max_fds l.
Proof.
  revert l m. induction os as [|o os IH]; intros l m Hrep; cbn [loop_run reg_run]; [by exists l|].
  destruct (loop_step_rep l m o Hrep) as (l1 & -> & Hrep1 & Hmax & _). cbn [mbind exec_bind fst snd].
  destruct (IH l1 _ Hrep1) as (l' & -> & Hrep' & Hmax'). rewrite Hmax in *. cbn [mbind exec_bind fst snd].
  exists l'. split; [done|]. by split; [|congruence].
Qed.

(** C30: On a fresh loop, any sequence of event_loop_add, _mod and _del returns
    what a finite map of registered descriptors returns (an addition is
    refused exactly when the descriptor is out of range, registered already or
    the kernel has no room; a change or a removal exactly when it is not
    registered), and afterwards a descriptor has a handler exactly when the
    kernel watches it, the one registered last: an event that is still
    reported for a removed descriptor finds no handler. *)
Theorem loop_ops_refine {H} a max fd (l : event_loop H) a' (ops : list (loop_op H)) :
  max < 2 ^ 32 → event_loop_create a max fd = (Some l, a') →
  let '(rcs, m) := reg_run max ∅ ops in
  ∃ l', loop_run l ops = Ok (rcs, l') ∧ interest l' = fst <$> m ∧
    ∀ f, 0 <= f < max → aget (handlers l') f = Ok (snd <$> m !! f).
Proof.
  intros Hmax Hc. destruct (loop_rep_create _ _ _ _ _ Hmax Hc) as [Hrep <-].
  destruct (loop_run_rep l ∅ ops Hrep) as (l' & Hrun & (_ & _ & Hi & _ & Hh) & Hm).
  destruct (reg_run _ _ _) as [rcs m]; cbn [fst snd] in *. exists l'. split; [done|]. split; [done|].
  intros f Hf. apply aget_lookup. split; [lia|]. apply Hh. lia.
Qed.

Lemma loop_ops_refine_witness :
  ∃ l a' l', event_loop_create (Arena 4096 65536 0 0) 8 3 = (Some l, a') ∧
    loop_run l [LAdd true 5 EPOLLIN 1; LAdd true 5 EPOLLIN 2; LMod 5 EPOLLOUT 3; LAdd true 9 EPOLLIN 4;
                LDel 5; LDel 5] = Ok ([0; -1; 0; -1; 0; -1], l') ∧ aget (handlers l') 5 = Ok None.
Proof.
  destruct (event_loop_create (Arena 4096 65536 0 0) 8 3) as [[l|] a'] eqn:E; [|vm_compute in E; discriminate E].
  pose proof (loop_ops_refine (H := Z) (Arena 4096 65536 0 0) 8 3 l a'
    [LAdd true 5 EPOLLIN 1; LAdd true 5 EPOLLIN 2; LMod 5 EPOLLOUT 3; LAdd true 9 EPOLLIN 4; LDel 5; LDel 5]
    eq_refl E) as H.
  destruct H as (l' & Hrun & _ & Hh). exists l, a', l'. split; [reflexivity|]. split; [exact Hrun|].
  apply (Hh 5). split; [discriminate|reflexivity].
Defined.
