(* ===== verification/Host.v ===== *)
(** The process and its operating system: the signal handlers of
    src/event_loop.c, CPU pinning (src/affinity.c), set_nonblocking and
    create_listen_socket of src/server.c.

    What each system call returns is an argument; when it succeeds it does
    what its manual page says on the part of the process that the code
    depends on: the dispositions of the two signals, the CPU mask, and the
    table of open sockets. *)

From stdpp Require Import gmap.
From S2P Require Import Prelude.

(** * Signals *)

(** A signal's disposition: the program's handler, or one from before. *)
Inductive disposition :=
  | Shutdown
  | Previous (n : Z).
#[export] Instance disposition_eq_dec : EqDecision disposition.
Proof. solve_decision. Defined.

Definition SIGINT : Z := 2.
Definition SIGTERM : Z := 15.

(** The dispositions in force, and the static variables of event_loop.c. *)
Record signals := Signals {
  on_sigterm : disposition;
  on_sigint : disposition;
  signal_received : Z;
  previous_sigterm : disposition;
  previous_sigint : disposition;
  signal_handlers_installed : bool;
}.

Definition handle_shutdown_signal (g : signals) (signum : Z) : signals :=
  Signals (on_sigterm g) (on_sigint g) signum (previous_sigterm g) (previous_sigint g)
          (signal_handlers_installed g).

(** A signal arrives: the handler runs where it is installed. *)
Definition deliver (g : signals) (signum : Z) : signals :=
  let d := if signum =? SIGTERM then on_sigterm g else on_sigint g in
  if bool_decide (d = Shutdown) then handle_shutdown_signal g signum else g.

(** [ok1], [ok2]: the two sigaction calls succeed.  A call that puts back the
    structure that sigaction itself filled in succeeds. *)
Definition event_loop_install_signal_handlers (ok1 ok2 : bool) (g : signals) : Z * signals :=
  if negb ok1 then (RC_ERR, g) else
  let g1 := Signals Shutdown (on_sigint g) (signal_received g) (on_sigterm g) (previous_sigint g)
                    (signal_handlers_installed g) in
  if negb ok2 then
    (RC_ERR, Signals (previous_sigterm g1) (on_sigint g1) (signal_received g1) (previous_sigterm g1)
                     (previous_sigint g1) (signal_handlers_installed g1))
  else (RC_OK, Signals (on_sigterm g1) Shutdown 0 (previous_sigterm g1) (on_sigint g1) true).

Definition event_loop_restore_signal_handlers (g : signals) : signals :=
  if negb (signal_handlers_installed g) then g else
  Signals (previous_sigterm g) (previous_sigint g) (signal_received g) (previous_sigterm g)
          (previous_sigint g) false.

Definition event_loop_signal_received (g : signals) : bool := negb (signal_received g =? 0).

(** Installing, receiving any signals, and restoring puts back both
    dispositions, also when the second sigaction fails. *)
Lemma install_ok g :
  ∃ g', event_loop_install_signal_handlers true true g = (RC_OK, g') ∧
    on_sigterm g' = Shutdown ∧ on_sigint g' = Shutdown ∧ signal_received g' = 0 ∧
    previous_sigterm g' = on_sigterm g ∧ previous_sigint g' = on_sigint g ∧
    signal_handlers_installed g' = true.
Proof. eexists. split; [reflexivity|]. by repeat split. Qed.

Lemma install_fails ok1 ok2 g :
  ok1 && ok2 = false → ∃ g', event_loop_install_signal_handlers ok1 ok2 g = (RC_ERR, g') ∧
    on_sigterm g' = on_sigterm g ∧ on_sigint g' = on_sigint g ∧
    signal_handlers_installed g' = signal_handlers_installed g.
Proof. destruct ok1, ok2; intros Hok; try done; by eexists. Qed.

Lemma deliver_kept g n :
  on_sigterm (deliver g n) = on_sigterm g ∧ on_sigint (deliver g n) = on_sigint g ∧
  previous_sigterm (deliver g n) = previous_sigterm g ∧
  previous_sigint (deliver g n) = previous_sigint g ∧
  signal_handlers_installed (deliver g n) = signal_handlers_installed g.
Proof. unfold deliver. by destruct (bool_decide _). Qed.

(** * CPU pinning *)

Definition CPU_SETSIZE : Z := 1024.

(** CPU_ZERO and CPU_SET: a CPU number outside of the mask is not set. *)
Definition cpu_mask (core : Z) : list Z :=
  if u32 core <? CPU_SETSIZE then [u32 core] else [].

(** [setaffinity] is sched_setaffinity on the calling thread: whether it
    accepts the mask. *)
Definition zedis_pin_to_core (setaffinity : list Z → bool) (core : Z) : Z :=
  if core <? 0 then 0 else
  if negb (setaffinity (cpu_mask core)) then RC_ERR else 0.

(** * Sockets *)

(** What the code asks of a socket. *)
Record lsock := Lsock {
  reuse_addr : bool;
  bound_port : option Z;
  listening : bool;
  nonblocking : bool;
}.
Abbreviation fd_table := (gmap Z lsock) (only parsing).

(** The results of the system calls: socket's descriptor, and whether the
    others succeed. *)
Record listen_sys := ListenSys {
  y_socket : Z;
  y_setsockopt : bool;
  y_bind : bool;
  y_listen : bool;
  y_getfl : bool;
  y_setfl : bool;
}.

Definition set_nonblocking (y : listen_sys) (fds : gmap Z lsock) (fd : Z) : Z * gmap Z lsock :=
  if negb (y_getfl y) then (RC_ERR, fds) else
  if y_setfl y then
    (0, alter (λ o, Lsock (reuse_addr o) (bound_port o) (listening o) true) fd fds)
  else (RC_ERR, fds).

Definition create_listen_socket (y : listen_sys) (fds : gmap Z lsock) (port : Z) : Z * gmap Z lsock :=
  let fd := y_socket y in
  if fd <? 0 then (RC_ERR, fds) else
  let fds1 := <[fd := Lsock false None false false]> fds in
  if negb (y_setsockopt y) then (RC_ERR, delete fd fds1) else
  let fds2 := alter (λ o, Lsock true (bound_port o) (listening o) (nonblocking o)) fd fds1 in
  if negb (y_bind y) then (RC_ERR, delete fd fds2) else
  let fds3 := alter (λ o, Lsock (reuse_addr o) (Some port) (listening o) (nonblocking o)) fd fds2 in
  if negb (y_listen y) then (RC_ERR, delete fd fds3) else
  let fds4 := alter (λ o, Lsock (reuse_addr o) (bound_port o) true (nonblocking o)) fd fds3 in
  let '(rc, fds5) := set_nonblocking y fds4 fd in
  if negb (rc =? 0) then (RC_ERR, delete fd fds5) else (fd, fds5).

(** The socket is listening on the port and does not block, or no descriptor
    is left open. *)
Lemma listen_socket_ready y fds port :
  (0 <= y_socket y → fds !! y_socket y = None) →
  let '(rc, fds') := create_listen_socket y fds port in
  (rc = y_socket y ∧ 0 <= rc ∧ fds' = <[rc := Lsock true (Some port) true true]> fds) ∨
  (rc = RC_ERR ∧ fds' = fds).
Proof.
  intros Hfd. unfold create_listen_socket, set_nonblocking.
  destruct (y_socket y <? 0) eqn:E; zb; [by right|]. specialize (Hfd ltac:(lia)).
  assert (∀ x, delete (y_socket y) (<[y_socket y := x]> fds) = fds) as Hdel
    by (intros; by apply delete_insert_id).
  destruct (y_setsockopt y); cbn [negb]; [|by rewrite Hdel; right].
  rewrite alter_insert, decide_True by done.
  destruct (y_bind y); cbn [negb]; [|by rewrite Hdel; right].
  rewrite alter_insert, decide_True by done.
  destruct (y_listen y); cbn [negb]; [|by rewrite Hdel; right].
  rewrite alter_insert, decide_True by done.
  destruct (y_getfl y); cbn [negb]; [|by rewrite Hdel; right].
  destruct (y_setfl y); cbn [negb]; [|by rewrite Hdel; right].
  rewrite alter_insert, decide_True by done. left. by split_and!.
Qed.
