(* ===== verification/Conn.v ===== *)
(** A connection and its output side: the struct of include/conn.h and
    write_buf_append, conn_enable_write, conn_disable_write, conn_flush and
    conn_queue_write of src/conn.c.  (The rest of conn.c works on the server
    and is in the file Server.)

    The socket of a connection is the client's: [k_in] are the results that
    [read] will give, [k_write] what [write] will do, both ending in EAGAIN,
    and [k_out] are the bytes that [write] took so far.  The write buffer is
    what its slab block has room for, [WRITE_ROOM] bytes, eight less than the
    size that write_buf_append checks against.  A [write] of a
    non-empty buffer takes at least one byte and no more than it was given. *)

From stdpp Require Import gmap.
From S2P Require Import Prelude Arena Slab Resp EventLoop.

Definition ZEDIS_CONN_WRITE_SIZE : Z := 4096.

(** The bytes between the pointer that zedis_slab_alloc returns for the write
    buffer and the header of the block behind it. *)
Definition WRITE_ROOM : Z := ZEDIS_SLAB_4096 - BLOCK_DATA.

Ltac sizes := unfold ZEDIS_CONN_WRITE_SIZE, WRITE_ROOM, ZEDIS_SLAB_4096, BLOCK_DATA in *.

Definition SUBSCRIBE_CHANNEL_SIZE : Z := 64.

Inductive read_result :=
  | RData (b : Z) (bs : list Z)
  | REof
  | RFail
  | RAgain.

(** A call of write takes some bytes, fails with an errno other than EAGAIN, or
    would block.  Where the client has closed the socket, [WFail] is EPIPE in a
    process that ignores SIGPIPE; the program itself does not, and with the
    default disposition the process is killed by that call. *)
Inductive write_result :=
  | WTake (n : positive)
  | WFail
  | WAgain.

Record socket := Socket {
  k_in : list read_result;
  k_write : list write_result;
  k_out : list Z;
}.

(** A handler of the event loop with its userdata: the server for the
    listening socket, the address of the connection otherwise. *)
Inductive handler :=
  | HAccept
  | HReadable (conn : Z)
  | HWritable (conn : Z).

Record conn := Conn {
  c_fd : Z;
  parser : resp_parser;
  write_buf : list Z;
  write_len : Z;
  write_sent : Z;
  subscribe_channel : list Z;
  subscribed : bool;
  closed : bool;
  next : option Z;
  prev : option Z;
  buf_addr : Z;
  sock : socket;
}.

Abbreviation loop := (event_loop handler) (only parsing).

(** Field updates. *)
Definition set_output (c : conn) (b : list Z) (len sent : Z) (k : socket) : conn :=
  Conn (c_fd c) (parser c) b len sent (subscribe_channel c) (subscribed c) (closed c)
       (next c) (prev c) (buf_addr c) k.
Definition set_closed (c : conn) : conn :=
  Conn (c_fd c) (parser c) (write_buf c) (write_len c) (write_sent c) (subscribe_channel c)
       (subscribed c) true (next c) (prev c) (buf_addr c) (sock c).

(** [memcpy] into a block of the slab: bytes behind its end would be written
    over the header of the next block. *)
Definition block_copy (b : list Z) (off : Z) (bytes : list Z) : exec (list Z) :=
  if zlen b <? off + zlen bytes then Stuck BlockOverrun else memcpy b off bytes.

(** The first [len] bytes of the array [data]. *)
Definition write_buf_append (c : conn) (data : list Z) (len : Z) : exec (Z * conn) :=
  if closed c then Ok (RC_ERR, c) else
  if u64 (write_len c + len) >? ZEDIS_CONN_WRITE_SIZE then Ok (RC_ERR, c) else
  bytes ← read_src data len;
  b ← block_copy (write_buf c) (write_len c) bytes;
  Ok (RC_OK, set_output c b (u64 (write_len c + len)) (write_sent c) (sock c)).

Definition conn_enable_write (l : loop) (a : Z) (c : conn) : exec loop :=
  x ← event_loop_mod l (c_fd c) (Z.lor (Z.lor EPOLLIN EPOLLOUT) EPOLLET) (HWritable a);
  Ok x.2.

Definition conn_disable_write (l : loop) (a : Z) (c : conn) : exec loop :=
  x ← event_loop_mod l (c_fd c) (Z.lor EPOLLIN EPOLLET) (HReadable a);
  Ok x.2.

(** The path taken on EAGAIN: the unsent bytes move to the front. *)
Definition flush_again (l : loop) (a : Z) (c : conn) (ws : list write_result)
    : exec (Z * conn * loop) :=
  l' ← conn_enable_write l a c;
  let k := Socket (k_in (sock c)) ws (k_out (sock c)) in
  if write_sent c >? 0 then
    bytes ← read_n (write_buf c) (write_sent c) (u64 (write_len c - write_sent c));
    b ← memcpy (write_buf c) 0 bytes;
    Ok (RC_OK, set_output c b (u64 (write_len c - write_sent c)) 0 k, l')
  else Ok (RC_OK, set_output c (write_buf c) (write_len c) (write_sent c) k, l').

(** The end of conn_flush when everything was sent. *)
Definition flush_done (l : loop) (a : Z) (c : conn) (ws : list write_result)
    : exec (Z * conn * loop) :=
  let c' := set_output c (write_buf c) 0 0 (Socket (k_in (sock c)) ws (k_out (sock c))) in
  l' ← conn_disable_write l a c';
  Ok (RC_OK, c', l').

Fixpoint flush_loop (ws : list write_result) (l : loop) (a : Z) (c : conn)
    : exec (Z * conn * loop) :=
  if write_sent c <? write_len c then
    match ws with
    | [] => flush_again l a c []
    | WAgain :: ws' => flush_again l a c ws'
    | WFail :: ws' =>
        Ok (RC_ERR, set_closed (set_output c (write_buf c) (write_len c) (write_sent c)
                                  (Socket (k_in (sock c)) ws' (k_out (sock c)))), l)
    | WTake k :: ws' =>
        let n := Z.min (Zpos k) (write_len c - write_sent c) in
        bytes ← read_n (write_buf c) (write_sent c) n;
        flush_loop ws' l a
          (set_output c (write_buf c) (write_len c) (u64 (write_sent c + n))
             (Socket (k_in (sock c)) ws' (k_out (sock c) ++ bytes)))
    end
  else flush_done l a c ws.

(** [a] is the address of [c], which the handlers get. *)
Definition conn_flush (l : loop) (a : Z) (c : conn) : exec (Z * conn * loop) :=
  flush_loop (k_write (sock c)) l a c.

Definition conn_queue_write (l : loop) (a : Z) (c : conn) (data : list Z) (len : Z)
    : exec (Z * conn * loop) :=
  if closed c then Ok (RC_ERR, c, l) else
  x ← write_buf_append c data len;
  let '(rc, c1) := x in
  if negb (rc =? 0) then Ok (RC_ERR, set_closed c1, l) else
  y ← conn_flush l a c1;
  let '(rc2, c2, l2) := y in
  if negb (rc2 =? 0) then Ok (RC_ERR, set_closed c2, l2) else Ok (RC_OK, c2, l2).

(** Reads fields of updated connections. *)
Ltac conn_simpl :=
  cbn [set_output set_closed c_fd parser write_buf write_len write_sent subscribe_channel subscribed
       closed next prev buf_addr sock k_in k_write k_out].

(** * The output stream *)

(** The bytes queued and not yet taken by the socket. *)
Definition pending (c : conn) : list Z := slice (write_buf c) (write_sent c) (write_len c - write_sent c).

Definition out_wf (c : conn) : Prop :=
  zlen (write_buf c) = WRITE_ROOM ∧ 0 <= write_sent c <= write_len c ∧ write_len c <= WRITE_ROOM.

(** Between two calls nothing of the buffer is sent, unless the socket failed. *)
Definition conn_wf (c : conn) : Prop := out_wf c ∧ (closed c = false → write_sent c = 0).

(** The reply [data] passes the check of write_buf_append and still does not
    fit the block of the buffer. *)
Definition overruns (c : conn) (data : list Z) : bool :=
  negb (closed c) && (WRITE_ROOM <? zlen (pending c) + zlen data) &&
  (zlen (pending c) + zlen data <=? ZEDIS_CONN_WRITE_SIZE).

(** Everything but the output side and the closed flag. *)
Definition same_input (c c' : conn) : Prop :=
  c_fd c' = c_fd c ∧ parser c' = parser c ∧ subscribe_channel c' = subscribe_channel c ∧
  subscribed c' = subscribed c ∧ next c' = next c ∧ prev c' = prev c ∧ buf_addr c' = buf_addr c ∧
  k_in (sock c') = k_in (sock c).

#[export] Instance same_input_preorder : PreOrder same_input.
Proof.
  split; [by intros c|]. intros c1 c2 c3 H12 H23. unfold same_input in *. naive_solver congruence.
Qed.

(** What the client received and what is still to come. *)
Definition stream (c : conn) : list Z := k_out (sock c) ++ pending c.

Definition READ_MASK : Z := Z.lor EPOLLIN EPOLLET.
Definition WRITE_MASK : Z := Z.lor (Z.lor EPOLLIN EPOLLOUT) EPOLLET.

(** The registration that fits the output: with bytes pending the loop waits
    for the socket to be writable, otherwise for it to be readable. *)
Definition rearmed (m : gmap Z (Z * handler)) (a : Z) (c : conn) : gmap Z (Z * handler) :=
  if bool_decide (is_Some (m !! c_fd c))
  then <[c_fd c := if bool_decide (pending c = []) then (READ_MASK, HReadable a) else (WRITE_MASK, HWritable a)]> m
  else m.

Lemma zlen_pending c : out_wf c → zlen (pending c) = write_len c - write_sent c.
Proof. intros (Hb & Hs & Hl). unfold pending. apply zlen_slice; lia. Qed.

Lemma pending_nil c : out_wf c → pending c = [] ↔ write_sent c = write_len c.
Proof.
  intros Hwf. pose proof (zlen_pending c Hwf) as H. destruct Hwf as (_ & Hs & _). split.
  - intros Hn. rewrite Hn, zlen_nil in H. lia.
  - intros Heq. destruct (pending c) as [|x p]; [done|]. rewrite zlen_cons in H.
    pose proof (zlen_nonneg p). lia.
Qed.

Lemma mod_rep (l : loop) m fd ev h :
  loop_rep l m → ∃ rc l', event_loop_mod l fd ev h = Ok (rc, l') ∧ max_fds l' = max_fds l ∧ stop l' = stop l ∧
    loop_rep l' (if bool_decide (is_Some (m !! fd)) then <[fd := (ev, h)]> m else m).
Proof.
  intros Hrep. destruct (loop_step_rep l m (LMod fd ev h) Hrep) as (l' & Hl & Hr & Hm & Hst).
  cbn [loop_step reg_step] in *. do 2 eexists. split; [exact Hl|]. split; [done|]. split; [done|].
  by destruct (bool_decide _).
Qed.

(** The outcome of a flush. *)
Definition flush_post (l : loop) (m : gmap Z (Z * handler)) (a : Z) (c : conn)
    (x : Z * conn * loop) : Prop :=
  let '(rc, c', l') := x in
  out_wf c' ∧ stream c' = stream c ∧ same_input c c' ∧ max_fds l' = max_fds l ∧ stop l' = stop l ∧
  if rc =? 0 then rc = 0 ∧ closed c' = closed c ∧ write_sent c' = 0 ∧ loop_rep l' (rearmed m a c')
  else rc = RC_ERR ∧ closed c' = true ∧ l' = l.

Lemma flush_again_ok l m a c ws :
  out_wf c → write_sent c < write_len c → loop_rep l m → ∃ x, flush_again l a c ws = Ok x ∧ flush_post l m a c x.
Proof.
  intros Hwf Hlt Hrep. pose proof Hwf as (Hb & Hs & Hl). sizes.
  unfold flush_again, conn_enable_write.
  destruct (mod_rep l m (c_fd c) WRITE_MASK (HWritable a) Hrep) as (rc & l' & Hmod & Hmax & Hst & Hrep').
  fold WRITE_MASK. rewrite Hmod. cbn [mbind exec_bind snd]. rewrite Z.gtb_ltb. rewrite !u64_small by lia.
  assert (∀ c', out_wf c' → write_sent c' < write_len c' → c_fd c' = c_fd c →
    loop_rep l' (rearmed m a c')) as Harm.
  { intros c' Hwf' Hlt' Hfd. unfold rearmed. rewrite Hfd. rewrite (bool_decide_eq_false_2 (pending c' = [])); [done|].
    rewrite pending_nil by done. lia. }
  destruct (0 <? write_sent c) eqn:E; zb.
  - rewrite read_n_ok by lia. cbn [mbind exec_bind]. fold (pending c). pose proof (zlen_pending c Hwf) as Hp.
    rewrite memcpy0_ok by lia. cbn [mbind exec_bind]. eexists. split; [done|]. cbn [Z.eqb].
    assert (out_wf (set_output c (pending c ++ drop (length (pending c)) (write_buf c))
      (write_len c - write_sent c) 0 (Socket (k_in (sock c)) ws (k_out (sock c))))) as Hwf'.
    { unfold out_wf; sizes; conn_simpl. rewrite zlen_prefix_drop by lia. lia. }
    split; [done|]. split.
    { unfold stream. f_equal. unfold pending at 1. cbn [set_output write_buf write_len write_sent].
      rewrite Z.sub_0_r. by apply slice_prefix_len. }
    split; [done|]. split; [done|]. split; [done|]. split; [done|]. split; [done|]. split; [done|]. apply Harm; [done|cbn; lia|done].
  - eexists. split; [done|]. cbn [Z.eqb]. split; [done|]. split; [done|]. split; [done|]. split; [done|]. split; [done|].
    split; [done|]. split; [done|]. split; [cbn; lia|]. by apply Harm.
Qed.

Lemma flush_loop_ok ws l m a c :
  out_wf c → loop_rep l m → ∃ x, flush_loop ws l a c = Ok x ∧ flush_post l m a c x.
Proof.
  revert c. induction ws as [|w ws IH]; intros c Hwf Hrep; cbn [flush_loop];
    pose proof Hwf as (Hb & Hs & Hl); sizes.
  all: assert (∀ ws, write_len c <= write_sent c → ∃ x, flush_done l a c ws = Ok x ∧ flush_post l m a c x) as Hdone.
  1, 3: intros ws' Hge; unfold flush_done, conn_disable_write; cbn [set_output c_fd]; fold READ_MASK;
    destruct (mod_rep l m (c_fd c) READ_MASK (HReadable a) Hrep) as (rc & l' & -> & Hmax & Hst & Hrep');
    cbn [mbind exec_bind snd]; eexists; split; [done|]; cbn [Z.eqb]; split; [unfold out_wf; sizes; conn_simpl; lia|];
    (split; [unfold stream, pending; conn_simpl; by rewrite !slice_nonpos by lia|]);
    split; [done|]; split; [done|]; split; [done|]; split; [done|]; split; [done|]; split; [done|]; unfold rearmed; conn_simpl;
    rewrite (bool_decide_eq_true_2 (pending _ = [])); [done|]; unfold pending; conn_simpl; by rewrite slice_nonpos by lia.
  - destruct (_ <? _) eqn:E; zb; [by apply flush_again_ok|by apply Hdone].
  - destruct (_ <? _) eqn:E; zb; [|by apply Hdone]. destruct w as [k| |]; [| |by apply flush_again_ok].
    + rewrite read_n_ok by lia. cbn [mbind exec_bind]. set (n := Z.min _ _). rewrite u64_small by lia.
      edestruct (IH (set_output c (write_buf c) (write_len c) (write_sent c + n)
        (Socket (k_in (sock c)) ws (k_out (sock c) ++ slice (write_buf c) (write_sent c) n))))
        as ([[rc c'] l'] & Hx & Hwf' & Hst & Hsame & Hrest); [unfold out_wf; sizes; conn_simpl; lia|done|].
      exists (rc, c', l'). split; [exact Hx|]. split; [done|]. split; [|done].
      rewrite Hst. unfold stream, pending; conn_simpl. rewrite <-app_assoc. f_equal.
      replace (write_len c - write_sent c) with (n + (write_len c - (write_sent c + n))) by lia.
      rewrite slice_split by lia. done.
    + eexists. split; [done|]. done.
Qed.

Lemma block_copy_inv b off bs b' :
  block_copy b off bs = Ok b' → memcpy b off bs = Ok b' ∧ off + zlen bs <= zlen b.
Proof. unfold block_copy. destruct (_ <? _) eqn:E; zb; [done|]. by split. Qed.

Lemma block_copy_fits b off bs : 0 <= off → off + zlen bs <= zlen b → ∃ b', block_copy b off bs = Ok b'.
Proof.
  intros Ho Hl. unfold block_copy. destruct (_ <? _) eqn:E; zb; [lia|]. rewrite memcpy_ok by lia. by eexists.
Qed.

(** What one call of conn_queue_write does: first a reply that overruns. *)
Lemma queue_write_overrun l a c data :
  conn_wf c → zlen data < 2 ^ 62 → overruns c data = true →
  conn_queue_write l a c data (zlen data) = Stuck BlockOverrun.
Proof.
  intros [Hwf Hsent] Hd Ho. pose proof Hwf as (Hb & Hs & Hl). pose proof (zlen_nonneg data).
  unfold overruns in Ho. rewrite zlen_pending in Ho by done. zb. sizes.
  rewrite Hsent in * by done. unfold conn_queue_write, write_buf_append.
  destruct (closed c) eqn:Ecl; [done|]. rewrite u64_small, Z.gtb_ltb by lia. sizes. destruct (4096 <? _) eqn:E; zb; [lia|].
  rewrite read_src_ok by lia. cbn [mbind exec_bind]. rewrite slice_all. unfold block_copy.
  destruct (zlen (write_buf c) <? _) eqn:E2; zb; [done|lia].
Qed.

Lemma queue_write_ok l m a c data :
  conn_wf c → loop_rep l m → zlen data < 2 ^ 62 → overruns c data = false → ∃ rc c' l',
    conn_queue_write l a c data (zlen data) = Ok (rc, c', l') ∧ conn_wf c' ∧ same_input c c' ∧
    max_fds l' = max_fds l ∧ stop l' = stop l ∧
    if closed c then rc = RC_ERR ∧ c' = c ∧ l' = l
    else if WRITE_ROOM <? zlen (pending c) + zlen data
    then rc = RC_ERR ∧ c' = set_closed c ∧ l' = l
    else stream c' = stream c ++ data ∧
      ((rc = 0 ∧ closed c' = false ∧ loop_rep l' (rearmed m a c')) ∨
       (rc = RC_ERR ∧ closed c' = true ∧ l' = l)).
Proof.
  intros [Hwf Hsent] Hrep Hd Hover. pose proof Hwf as (Hb & Hs & Hl). unfold overruns in Hover.
  pose proof (zlen_nonneg data) as Hd0. unfold conn_queue_write, write_buf_append. rewrite zlen_pending in * by done.
  destruct (closed c) eqn:Ecl; [do 3 eexists; split; [done|]; split; [split; [done|congruence]|done]|].
  specialize (Hsent eq_refl). rewrite Hsent, Z.sub_0_r in *. rewrite u64_small, Z.gtb_ltb by (sizes; lia). cbn [negb andb] in Hover.
  destruct (WRITE_ROOM <? _) eqn:E; zb; cbn [andb] in Hover; zb.
  { destruct (ZEDIS_CONN_WRITE_SIZE <? _) eqn:E2; zb; [|lia]. do 3 eexists. split; [done|]. split; [by split|]. done. }
  destruct (ZEDIS_CONN_WRITE_SIZE <? _) eqn:E2; zb; [sizes; lia|]. clear E2.
  rewrite read_src_ok by lia. cbn [mbind exec_bind]. rewrite slice_all.
  destruct (block_copy_fits (write_buf c) (write_len c) data) as [b Hcopy]; [lia|lia|]. rewrite Hcopy.
  apply block_copy_inv in Hcopy as [Em _].
  cbn [mbind exec_bind negb Z.eqb]. pose proof (memcpy_zlen _ _ _ _ Em) as Hbl.
  set (c1 := set_output c b _ _ _).
  assert (out_wf c1) as Hwf1 by (unfold out_wf, c1; sizes; conn_simpl; lia).
  assert (stream c1 = stream c ++ data) as Hst1.
  { unfold stream, c1, pending; conn_simpl. rewrite <-app_assoc. f_equal. rewrite Hsent, !Z.sub_0_r, slice_split by lia.
    f_equal; [by apply (memcpy_frame _ _ _ _ _ _ Em); lia|]. by eapply memcpy_read. }
  unfold conn_flush. destruct (flush_loop_ok (k_write (sock c1)) l m a c1 Hwf1 Hrep)
    as ([[rc c'] l'] & -> & Hwf' & Hst & Hsame & Hmax & Hstop & Hrc).
  cbn [mbind exec_bind]. assert (closed c1 = false) as Hcl1 by (by cbn).
  destruct (rc =? 0) eqn:Erc; cbn [negb]; do 3 eexists; (split; [done|]).
  - destruct Hrc as (-> & Hc' & Hs' & Hr'). split; [split; [done|by intros _]|]. split; [done|]. split; [done|].
    split; [done|]. split; [by rewrite Hst, Hst1|]. left. split; [done|]. split; [congruence|done].
  - destruct Hrc as (-> & Hc' & ->). split; [split; [done|]; cbn; done|]. split; [done|]. split; [done|].
    split; [done|]. split; [rewrite <-Hst1, <-Hst; done|]. right. done.
Qed.

(** A socket that takes the next [k] writes whole, with nothing pending. *)
Definition WHOLE : write_result := WTake 4096.
Definition fast (k : nat) (c : conn) : Prop :=
  pending c = [] ∧ (k <= length (k_write (sock c)))%nat ∧ Forall (λ w, w = WHOLE) (k_write (sock c)).

Lemma flush_whole l a c ws rc c' l' :
  out_wf c → flush_loop (WHOLE :: ws) l a c = Ok (rc, c', l') →
  pending c' = [] ∧ (k_write (sock c') = ws ∨ k_write (sock c') = WHOLE :: ws).
Proof.
  intros (Hb & Hs & Hl). sizes.
  assert (∀ c0 k, write_len c0 <= write_sent c0 → flush_loop k l a c0 = flush_done l a c0 k) as Hend.
  { intros c0 k Hge. destruct k; cbn [flush_loop]; (destruct (_ <? _) eqn:E; zb; [lia|done]). }
  assert (∀ c0 k, flush_done l a c0 k = Ok (rc, c', l') → pending c' = [] ∧ k_write (sock c') = k) as Hdone.
  { intros c0 k Hf. unfold flush_done in Hf. apply exec_bind_ok in Hf as (l1 & _ & Hf). injection Hf as <- <- <-.
    split; [|done]. unfold pending; conn_simpl. by apply slice_nonpos. }
  destruct (decide (write_len c <= write_sent c)) as [Hge|Hlt].
  { rewrite Hend by done. intros Hf. apply Hdone in Hf as [? ->]. auto. }
  cbn [flush_loop]. destruct (_ <? _) eqn:E; zb; [|lia]. unfold WHOLE. replace (Z.min _ _) with (write_len c - write_sent c) by lia.
  intros Hf. apply exec_bind_ok in Hf as (bs & _ & Hf). rewrite u64_small in Hf by lia.
  rewrite Hend in Hf by (conn_simpl; lia). apply Hdone in Hf as [? ->]. auto.
Qed.

Lemma queue_write_fast l a c data len rc c' l' k :
  conn_wf c → closed c = false → 0 <= len < 2 ^ 62 → u64 (write_len c + len) <= ZEDIS_CONN_WRITE_SIZE →
  conn_queue_write l a c data len = Ok (rc, c', l') → fast (S k) c → fast k c'.
Proof.
  intros [Hwf _] Hcl Hlen Hfit Hq (Hp & Hk & Hall). unfold conn_queue_write, write_buf_append in Hq. rewrite Hcl, Z.gtb_ltb in Hq.
  destruct (_ <? _) eqn:E; zb; [lia|]. apply exec_bind_ok in Hq as ([rc1 c1] & H1 & Hq).
  apply exec_bind_ok in H1 as (bs & Hbs & H1). apply read_src_zlen in Hbs. apply exec_bind_ok in H1 as (b & Hb & H1). injection H1 as <- <-.
  cbn [Z.eqb RC_OK negb] in Hq. apply exec_bind_ok in Hq as ([[rc2 c2] l2] & H2 & Hq). unfold conn_flush in H2. cbn [set_output sock] in H2.
  destruct (k_write (sock c)) as [|w ws]; [cbn in Hk; lia|]. apply Forall_cons in Hall as [-> Hall].
  assert (fast k c2) as Hf2.
  { apply flush_whole in H2 as [Hp2 Hws].
    - split; [done|]. cbn [length] in Hk. destruct Hws as [->| ->]; (split; [cbn; lia|by try constructor]).
    - destruct Hwf as (Hbl & Hs & Hl). apply block_copy_inv in Hb as [Hb Hfits]. apply memcpy_zlen in Hb. unfold out_wf in *; sizes; conn_simpl.
      rewrite u64_small in Hfit |- * by lia. lia. }
  destruct (negb _); by injection Hq as <- <- <-.
Qed.

(** A socket that does not fail. *)
Definition no_fail (ws : list write_result) : Prop := Forall (λ w, w ≠ WFail) ws.

Lemma flush_again_alive l a c ws rc c' l' :
  flush_again l a c ws = Ok (rc, c', l') → rc = 0 ∧ k_write (sock c') = ws ∧ k_out (sock c') = k_out (sock c).
Proof.
  unfold flush_again. intros Hf. apply exec_bind_ok in Hf as (l1 & _ & Hf). destruct (_ >? _).
  - apply exec_bind_ok in Hf as (b1 & _ & Hf). apply exec_bind_ok in Hf as (b2 & _ & Hf). by injection Hf as <- <- <-.
  - by injection Hf as <- <- <-.
Qed.

Lemma flush_done_alive l a c ws rc c' l' :
  flush_done l a c ws = Ok (rc, c', l') → rc = 0 ∧ k_write (sock c') = ws ∧ k_out (sock c') = k_out (sock c).
Proof. unfold flush_done. intros Hf. apply exec_bind_ok in Hf as (l1 & _ & Hf). by injection Hf as <- <- <-. Qed.

Lemma flush_loop_alive ws l a c rc c' l' :
  no_fail ws → flush_loop ws l a c = Ok (rc, c', l') →
  rc = 0 ∧ no_fail (k_write (sock c')) ∧ zlen (k_out (sock c)) <= zlen (k_out (sock c')).
Proof.
  revert c. induction ws as [|w ws IH]; intros c Hws; cbn [flush_loop].
  - destruct (_ <? _); [intros Hf; apply flush_again_alive in Hf|intros Hf; apply flush_done_alive in Hf];
      destruct Hf as (-> & -> & ->); done.
  - pose proof Hws as Hall. apply Forall_cons in Hws as [Hw Hws]. destruct (_ <? _).
    2:{ intros Hf. by apply flush_done_alive in Hf as (-> & -> & ->). }
    destruct w as [k| |]; [|done|].
    + intros Hf. apply exec_bind_ok in Hf as (b & _ & Hf). apply IH in Hf as (-> & Hk & Hlen); [|done].
      split; [done|]. split; [done|]. cbn [set_output sock k_out] in Hlen. rewrite zlen_app in Hlen.
      pose proof (zlen_nonneg b). lia.
    + intros Hf. apply flush_again_alive in Hf as (-> & -> & ->). done.
Qed.

Lemma queue_write_alive l a c data len rc c' l' :
  conn_queue_write l a c data len = Ok (rc, c', l') → no_fail (k_write (sock c)) →
  closed c = false → u64 (write_len c + len) <= ZEDIS_CONN_WRITE_SIZE →
  rc = 0 ∧ no_fail (k_write (sock c')) ∧ zlen (k_out (sock c)) <= zlen (k_out (sock c')).
Proof.
  unfold conn_queue_write, write_buf_append. intros Hq Hk Hcl Hlen. rewrite Hcl, Z.gtb_ltb in Hq.
  destruct (_ <? _) eqn:E; zb; [lia|]. apply exec_bind_ok in Hq as ([rc1 c1] & H1 & Hq).
  apply exec_bind_ok in H1 as (bs & _ & H1). apply exec_bind_ok in H1 as (b & _ & H1). injection H1 as <- <-.
  cbn [Z.eqb RC_OK negb] in Hq. apply exec_bind_ok in Hq as ([[rc2 c2] l2] & H2 & Hq).
  apply flush_loop_alive in H2 as (-> & H2 & H3); [|done]. cbn [Z.eqb negb] in Hq. by injection Hq as <- <- <-.
Qed.

(** * A history of replies and writable events *)

Inductive conn_op := CWrite (data : list Z) | CWritable.

Definition conn_step (l : loop) (a : Z) (c : conn) (o : conn_op) : exec (Z * conn * loop) :=
  match o with
  | CWrite data => conn_queue_write l a c data (zlen data)
  | CWritable => conn_flush l a c
  end.

Fixpoint conn_run (l : loop) (a : Z) (c : conn) (os : list conn_op) : exec (list Z * conn * loop) :=
  match os with
  | [] => Ok ([], c, l)
  | o :: os' =>
      x ← conn_step l a c o;
      y ← conn_run x.2 a x.1.2 os';
      Ok (x.1.1 :: y.1.1, y.1.2, y.2)
  end.

Definition op_data (o : conn_op) : list Z := match o with CWrite data => data | CWritable => [] end.

(** No reply of the history overruns the block of the buffer. *)
Fixpoint roomy (l : loop) (a : Z) (c : conn) (os : list conn_op) : bool :=
  match os with
  | [] => true
  | o :: os' =>
      negb (match o with CWrite data => overruns c data | CWritable => false end) &&
      match conn_step l a c o with Ok x => roomy x.2 a x.1.2 os' | Stuck _ => true end
  end.

(** The loop waits for what the connection needs. *)
Definition armed (m : gmap Z (Z * handler)) (a : Z) (c : conn) : Prop :=
  m !! c_fd c = Some (if bool_decide (pending c = []) then (READ_MASK, HReadable a) else (WRITE_MASK, HWritable a)).

Lemma rearmed_armed m a c : is_Some (m !! c_fd c) → armed (rearmed m a c) a c.
Proof. intros Hm. unfold armed, rearmed. rewrite bool_decide_eq_true_2 by done. by rewrite lookup_insert_eq. Qed.

(** The state of a connection in its loop, and what a step adds to it. *)
Definition conn_inv (l : loop) (a : Z) (c : conn) : Prop :=
  conn_wf c ∧ ∃ m, loop_rep l m ∧ (closed c = false → armed m a c).

Lemma conn_step_ok l a c o :
  conn_inv l a c → zlen (op_data o) < 2 ^ 62 → (∀ data, o = CWrite data → overruns c data = false) → ∃ rc c' l',
    conn_step l a c o = Ok (rc, c', l') ∧ conn_inv l' a c' ∧ same_input c c' ∧
    (closed c = true → closed c' = true ∧ stream c' = stream c) ∧ (closed c' = false → rc = 0) ∧
    (stream c' = stream c ++ op_data o ∨ (stream c' = stream c ∧ closed c' = true)).
Proof.
  intros (Hwf & m & Hrep & Harm) Hd Hov. destruct o as [data|]; cbn [conn_step op_data] in *.
  - destruct (queue_write_ok l m a c data Hwf Hrep Hd (Hov data eq_refl)) as (rc & c' & l' & -> & Hwf' & Hsame & _ & _ & Hpost).
    exists rc, c', l'. split; [done|]. destruct (closed c) eqn:Ecl.
    + destruct Hpost as (-> & -> & ->). rewrite Ecl. split; [|naive_solver]. split; [done|]. exists m. by rewrite Ecl.
    + destruct (_ <? _).
      { destruct Hpost as (-> & -> & ->). split; [|naive_solver]. split; [done|]. by exists m. }
      destruct Hpost as (Hst & [(-> & Hcl & Hr)|(-> & Hcl & ->)]); rewrite Hcl.
      * split; [|naive_solver]. split; [done|]. exists (rearmed m a c'). split; [done|]. intros _.
        apply rearmed_armed. destruct Hsame as (-> & _). rewrite Harm by done. by eauto.
      * split; [|naive_solver]. split; [done|]. exists m. by rewrite Hcl.
  - destruct Hwf as [Hwf Hsent].
    destruct (flush_loop_ok (k_write (sock c)) l m a c Hwf Hrep) as ([[rc c'] l'] & Hf & Hwf' & Hst & Hsame & _ & _ & Hrc).
    exists rc, c', l'. split; [exact Hf|]. rewrite app_nil_r. destruct (rc =? 0).
    + destruct Hrc as (-> & Hcc & Hs' & Hr). split; [|rewrite Hcc; naive_solver]. split; [by split|].
      exists (rearmed m a c'). split; [done|]. intros Hcl. apply rearmed_armed. destruct Hsame as (-> & _).
      rewrite Harm by congruence. by eauto.
    + destruct Hrc as (-> & Hcl & ->). rewrite Hcl. split; [|naive_solver]. split; [split; [done|congruence]|].
      exists m. by rewrite Hcl.
Qed.

Lemma conn_run_ok l a c os :
  conn_inv l a c → Forall (λ o, zlen (op_data o) < 2 ^ 62) os → roomy l a c os = true → ∃ rcs c' l' n,
    conn_run l a c os = Ok (rcs, c', l') ∧ conn_inv l' a c' ∧
    stream c' = stream c ++ concat (take n (map op_data os)) ∧ (closed c = true → n = 0%nat ∧ closed c' = true) ∧
    (closed c' = false → n = length os ∧ Forall (eq 0) rcs).
Proof.
  revert l c. induction os as [|o os IH]; intros l c Hinv Hos Hroom; cbn [conn_run].
  { exists [], c, l, 0%nat. rewrite app_nil_r. split; [done|]. split; [done|]. split; [done|]. naive_solver. }
  apply Forall_cons in Hos as [Ho Hos]. cbn [roomy] in Hroom. apply andb_true_iff in Hroom as [Hov Hroom]. zb.
  destruct (conn_step_ok l a c o Hinv Ho) as (rc & c1 & l1 & Hstep & Hinv1 & _ & Hcl & Hrc & Hst); [by intros data ->|].
  rewrite Hstep in *. cbn [mbind exec_bind fst snd] in *.
  destruct (IH l1 c1 Hinv1 Hos Hroom) as (rcs & c' & l' & n & -> & Hinv' & Hst' & Hcl' & Hopen). cbn [mbind exec_bind fst snd].
  destruct (closed c1) eqn:E1.
  - destruct (Hcl' eq_refl) as [-> Hc']. rewrite take_0, app_nil_r in Hst'.
    assert (∃ k, stream c' = stream c ++ concat (take k (map op_data (o :: os))) ∧ (closed c = true → k = 0%nat)) as (k & Hk & Hk0).
    { destruct (closed c); [exists 0%nat; rewrite app_nil_r; by rewrite Hst'; destruct Hcl|].
      destruct Hst as [Hst|[Hst _]]; [exists 1%nat|exists 0%nat]; cbn [map firstn concat]; rewrite ?take_0; cbn [concat];
        rewrite ?app_nil_r; by rewrite Hst'. }
    exists (rc :: rcs), c', l', k. rewrite Hc'. split; [done|]. split; [done|]. split; [done|]. naive_solver.
  - destruct (closed c) eqn:E0; [destruct Hcl; congruence|].
    exists (rc :: rcs), c', l', (S n). split; [done|]. split; [done|]. split.
    { destruct Hst as [Hst|[_ ?]]; [|congruence]. cbn [map firstn concat]. by rewrite Hst', Hst, <-app_assoc. }
    split; [done|]. intros Hc'. destruct (Hopen Hc') as [-> ?]. split; [done|]. constructor; [symmetry; by apply Hrc|done].
Qed.

Lemma conn_run_overrun l a c os :
  conn_inv l a c → Forall (λ o, zlen (op_data o) < 2 ^ 62) os → roomy l a c os = false →
  conn_run l a c os = Stuck BlockOverrun.
Proof.
  revert l c. induction os as [|o os IH]; intros l c Hinv Hos Hroom; cbn [conn_run roomy] in *; [done|].
  apply Forall_cons in Hos as [Ho Hos].
  destruct (match o with CWrite data => overruns c data | CWritable => false end) eqn:Eov; cbn [negb andb] in Hroom.
  - destruct o as [data|]; [|done]. cbn [conn_step]. by rewrite (queue_write_overrun l a c data (proj1 Hinv) Ho Eov).
  - destruct (conn_step_ok l a c o Hinv Ho) as (rc & c1 & l1 & Hstep & Hinv1 & _); [by intros data ->|].
    rewrite Hstep in *. cbn [mbind exec_bind fst snd] in *. by rewrite (IH l1 c1 Hinv1 Hos Hroom).
Qed.

(** C31: The output of a connection is a byte stream: over any history of
    replies and writable events, whatever the socket accepts, the bytes that
    the client received followed by those still pending are what was there
    before followed by the replies in order, up to the point where the
    connection was marked closed (nothing is lost, repeated or reordered).
    While it is not closed every call succeeded, and the event loop waits for
    the socket to be writable exactly when bytes are pending.  This holds of
    every history in which no reply overruns the slab block of the buffer; the
    others write behind that block. *)
Theorem conn_stream_ordered l a c (ops : list conn_op) m :
  conn_wf c → closed c = false → loop_rep l m → armed m a c →
  Forall (λ o, zlen (op_data o) < 2 ^ 62) ops →
  if roomy l a c ops then
    ∃ rcs c' l' n, conn_run l a c ops = Ok (rcs, c', l') ∧
      k_out (sock c') ++ pending c' = k_out (sock c) ++ pending c ++ concat (take n (map op_data ops)) ∧
      (closed c' = false → n = length ops ∧ Forall (eq 0) rcs ∧
         aget (handlers l') (c_fd c') = Ok (Some (if bool_decide (pending c' = []) then HReadable a else HWritable a)))
  else conn_run l a c ops = Stuck BlockOverrun.
Proof.
  intros Hwf Hcl Hrep Harm Hops. assert (conn_inv l a c) as Hinv by (split; [done|by exists m]).
  destruct (roomy l a c ops) eqn:Er; [|by apply conn_run_overrun].
  destruct (conn_run_ok l a c ops Hinv Hops Er) as (rcs & c' & l' & n & Hrun & [_ (m' & Hrep' & Harm')] & Hst & _ & Hopen).
  exists rcs, c', l', n. split; [done|]. rewrite app_assoc. split; [done|].
  intros Hc'. destruct (Hopen Hc') as [-> Hrcs]. split; [done|]. split; [done|].
  destruct Hrep' as (_ & _ & _ & Hdom & Hh). specialize (Harm' Hc'). pose proof (Hdom (c_fd c')) as Hfd.
  rewrite Harm' in Hfd. specialize (Hfd ltac:(by eauto)). apply aget_lookup. split; [lia|].
  rewrite Hh by lia. unfold armed in Harm'. rewrite Harm'. cbn. by destruct (bool_decide _).
Qed.

(** A connection with nothing queued, on descriptor 5 of a small loop, whose
    socket behaves as [ws] says. *)
Definition fresh_conn (ws : list write_result) : conn :=
  Conn 5 (RespParser [] 0 0 0 (NodeEnv [] None [])) (replicate (Z.to_nat WRITE_ROOM) 0) 0 0 (replicate 64 0) false false
       None None 8192 (Socket [] ws []).
Definition small_loop : loop :=
  EventLoop 3 false 8 [None; None; None; None; None; Some (HReadable 4096); None; None] {[5 := READ_MASK]}.

Lemma small_loop_rep : loop_rep small_loop {[5 := (READ_MASK, HReadable 4096)]}.
Proof.
  split; [done|]. split; [done|]. split; [by rewrite map_fmap_singleton|]. split.
  - intros fd [x Hx]. apply lookup_singleton_Some in Hx as [<- _]. cbn. lia.
  - intros fd Hfd. cbn [small_loop max_fds] in Hfd.
    assert (fd = 0 ∨ fd = 1 ∨ fd = 2 ∨ fd = 3 ∨ fd = 4 ∨ fd = 5 ∨ fd = 6 ∨ fd = 7) as Hc by lia.
    destruct Hc as [-> | [-> | [-> | [-> | [-> | [-> | [-> | ->]]]]]]]; reflexivity.
Qed.

Lemma fresh_conn_wf ws : conn_wf (fresh_conn ws).
Proof. split; [split; [reflexivity|split; [split; discriminate|discriminate]]|reflexivity]. Qed.

Lemma conn_stream_ordered_witness :
  ∃ rcs c' l' n, conn_run small_loop 4096 (fresh_conn [WTake 2; WAgain; WTake 9; WTake 9])
      [CWrite [1; 2; 3]; CWrite [4; 5]; CWritable] = Ok (rcs, c', l') ∧
    k_out (sock c') ++ pending c' = concat (take n [[1; 2; 3]; [4; 5]; []]).
Proof.
  pose proof (conn_stream_ordered small_loop 4096 (fresh_conn [WTake 2; WAgain; WTake 9; WTake 9])
    [CWrite [1; 2; 3]; CWrite [4; 5]; CWritable] {[5 := (READ_MASK, HReadable 4096)]}
    (fresh_conn_wf _) eq_refl small_loop_rep eq_refl ltac:(repeat constructor)) as H.
  assert (roomy small_loop 4096 (fresh_conn [WTake 2; WAgain; WTake 9; WTake 9])
    [CWrite [1; 2; 3]; CWrite [4; 5]; CWritable] = true) as Er by (vm_compute; reflexivity).
  rewrite Er in H. destruct H as (rcs & c' & l' & n & Hrun & Hst & _).
  exists rcs, c', l', n. split; [exact Hrun|exact Hst].
Defined.

(** A reply is refused exactly when the connection is closed or the reply
    does not fit beside the bytes still pending in the 4096 bytes that the
    code takes the buffer for, and a reply that does not fit closes the
    connection without being queued, even one that alone is longer than the
    buffer.  A reply that is not refused and leaves less than eight of these
    bytes free is written over the header of the next block of the slab. *)
Theorem conn_write_refused l a c data m :
  conn_wf c → loop_rep l m → zlen data < 2 ^ 62 →
  if overruns c data then conn_queue_write l a c data (zlen data) = Stuck BlockOverrun else
  ∃ rc c' l', conn_queue_write l a c data (zlen data) = Ok (rc, c', l') ∧
    (closed c = true → rc = RC_ERR ∧ c' = c) ∧
    (closed c = false → WRITE_ROOM < zlen (pending c) + zlen data →
       rc = RC_ERR ∧ closed c' = true ∧ stream c' = stream c) ∧
    (closed c = false → zlen (pending c) + zlen data <= WRITE_ROOM →
       stream c' = stream c ++ data ∧ closed c' = negb (rc =? 0)).
Proof.
  intros Hwf Hrep Hd. destruct (overruns c data) eqn:Eo; [by apply queue_write_overrun|].
  destruct (queue_write_ok l m a c data Hwf Hrep Hd Eo) as (rc & c' & l' & Hq & _ & _ & _ & _ & Hpost).
  exists rc, c', l'. split; [done|]. destruct (closed c); [by destruct Hpost as (-> & -> & _)|].
  split; [done|]. destruct (_ <? _) eqn:E; zb; (split; intros _ ?; [|]); try lia.
  - by destruct Hpost as (-> & -> & _).
  - destruct Hpost as (Hst & [(-> & -> & _)|(-> & -> & _)]); done.
Qed.

Lemma conn_write_refused_witness :
  (∃ rc c' l', conn_queue_write small_loop 4096 (fresh_conn []) (replicate 4097 65) 4097 = Ok (rc, c', l') ∧
    rc = RC_ERR ∧ closed c' = true) ∧
  conn_queue_write small_loop 4096 (fresh_conn []) (replicate 4090 65) 4090 = Stuck BlockOverrun.
Proof.
  split.
  - pose proof (conn_write_refused small_loop 4096 (fresh_conn []) (replicate 4097 65) {[5 := (READ_MASK, HReadable 4096)]}
      (fresh_conn_wf _) small_loop_rep eq_refl) as H.
    assert (overruns (fresh_conn []) (replicate 4097 65) = false) as Eo by (vm_compute; reflexivity). rewrite Eo in H.
    destruct H as (rc & c' & l' & Hq & _ & Hbig & _).
    destruct (Hbig eq_refl eq_refl) as (H1 & H2 & _). exists rc, c', l'. split; [exact Hq|]. split; [exact H1|exact H2].
  - pose proof (conn_write_refused small_loop 4096 (fresh_conn []) (replicate 4090 65) {[5 := (READ_MASK, HReadable 4096)]}
      (fresh_conn_wf _) small_loop_rep eq_refl) as H.
    assert (overruns (fresh_conn []) (replicate 4090 65) = true) as Eo by (vm_compute; reflexivity). rewrite Eo in H. exact H.
Defined.
