(* ===== verification/Metrics.v ===== *)
(** The metrics writer of src/metrics.c: command counters and the periodic
    snapshot file for the Prometheus textfile collector.

    The file system is a map from paths to contents; which of the calls of
    write_snapshot fail is an argument ([io]), as is the clock.  What the
    snapshot reads of the server is the record [gauges]. *)

From stdpp Require Import gmap.
From S2P Require Import Prelude.

(** The file's text. *)
Definition line (s : string) : list Z := bytes_of_string s ++ [LF].

Definition ZEDIS_METRICS_FILE : list Z := bytes_of_string "zedis.prom".

Definition command_names : list (list Z) :=
  map bytes_of_string ["PING"; "ECHO"; "SET"; "GET"; "BID"; "ASK"; "BOOK"; "DEL"; "ZADD"; "ZSCORE";
                       "ZRANGE"; "LPUSH"; "LRANGE"; "LLEN"; "PUBLISH"; "SUBSCRIBE"; "QUIT"]%string.

Record metrics := Metrics {
  collector_dir : list Z;
  interval_ms : Z;
  last_write_ms : Z;
  command_counts : list Z;
}.

(** [now]: what clock_gettime stores, or nothing when it fails. *)
Definition monotonic_ms (now : option (Z * Z)) : Z :=
  match now with
  | None => 0
  | Some (sec, nsec) => u64 (sec * 1000 + nsec / 1000000)
  end.

Fixpoint command_index_from (i : Z) (names : list (list Z)) (name : list Z) : Z :=
  match names with
  | [] => -1
  | n :: names' => if bool_decide (n = name) then i else command_index_from (i + 1) names' name
  end.
Definition command_index (name : list Z) : Z := command_index_from 0 command_names name.

(** * The snapshot *)

Record gauges := Gauges {
  g_connections : Z;
  g_keys : Z;
  g_zsets : Z;
  g_lists : Z;
  g_arena_used : Z;
  g_arena_size : Z;
}.

Definition gauge_line (name : string) (v : Z) : list Z :=
  bytes_of_string "# TYPE " ++ bytes_of_string name ++ line " gauge" ++
  bytes_of_string name ++ [32] ++ dec_u v ++ [LF].

Definition counter_line (name : list Z) (v : Z) : list Z :=
  bytes_of_string "zedis_commands_total{command=" ++ [34] ++ name ++ [34] ++ bytes_of_string "} " ++
  dec_u v ++ [LF].

(** What each METRIC_LINE prints, in order. *)
Definition snapshot_lines (g : gauges) (m : metrics) : list (list Z) :=
  [ line "# HELP zedis_up Whether the Zedis metrics writer is active.";
    gauge_line "zedis_up" 1;
    line "# HELP zedis_connections Current client connections.";
    gauge_line "zedis_connections" (g_connections g);
    line "# HELP zedis_keys Current number of string keys.";
    gauge_line "zedis_keys" (g_keys g);
    line "# HELP zedis_zsets Current number of sorted sets.";
    gauge_line "zedis_zsets" (g_zsets g);
    line "# HELP zedis_lists Current number of lists.";
    gauge_line "zedis_lists" (g_lists g);
    line "# HELP zedis_arena_bytes_used Bytes used by the memory arena.";
    gauge_line "zedis_arena_bytes_used" (g_arena_used g);
    line "# HELP zedis_arena_bytes_capacity Total arena capacity in bytes.";
    gauge_line "zedis_arena_bytes_capacity" (g_arena_size g);
    line "# HELP zedis_commands_total Commands handled by command name.";
    line "# TYPE zedis_commands_total counter" ]
  ++ zip_with counter_line command_names (command_counts m).

Abbreviation fsys := (gmap (list Z) (list Z)) (only parsing).

(** The outcomes of the calls of write_snapshot.  [io_temp] is the name that
    mkstemp makes of its template; [io_prints n] tells whether the nth
    fprintf succeeds. *)
Record io := Io {
  io_malloc : bool;
  io_temp : option (list Z);
  io_fchmod : bool;
  io_fdopen : bool;
  io_prints : nat → bool;
  io_sync : bool;
  io_fclose : bool;
  io_rename : bool;
  io_unlink : bool;
}.

(** The bytes that reach the file, and whether some print failed. *)
Fixpoint print_lines (ok : nat → bool) (n : nat) (ls : list (list Z)) : list Z * bool :=
  match ls with
  | [] => ([], false)
  | l :: ls' =>
      let r := print_lines ok (S n) ls' in
      if ok n then (l ++ r.1, r.2) else (r.1, true)
  end.

Definition temp_template (m : metrics) : list Z :=
  collector_dir m ++ bytes_of_string "/.zedis.prom.XXXXXX".
Definition final_path (m : metrics) : list Z := collector_dir m ++ [47] ++ ZEDIS_METRICS_FILE.

(** [unlink (temp_path)], whose result is not looked at. *)
Definition unlink (o : io) (p : list Z) (fs : fsys) : fsys := if io_unlink o then delete p fs else fs.

Definition write_snapshot (g : gauges) (m : metrics) (o : io) (fs : fsys) : Z * fsys :=
  let dir_len := zlen (collector_dir m) in
  let temp_len := u64 (dir_len + 32) in
  let final_len := u64 (dir_len + 1 + (zlen ZEDIS_METRICS_FILE + 1)) in
  if negb (io_malloc o) then (RC_ERR, fs) else
  if (snprintf_n (temp_template m) >=? temp_len) || (snprintf_n (final_path m) >=? final_len)
  then (RC_ERR, fs) else
  match io_temp o with
  | None => (RC_ERR, fs)
  | Some temp =>
      let fs1 := <[temp := []]> fs in
      if negb (io_fchmod o) then (RC_ERR, unlink o temp fs1) else
      if negb (io_fdopen o) then (RC_ERR, unlink o temp fs1) else
      let '(text, failed0) := print_lines (io_prints o) 0 (snapshot_lines g m) in
      let fs2 := <[temp := text]> fs1 in
      let failed := failed0 || negb (io_sync o) || negb (io_fclose o) in
      let '(fs3, failed) :=
        if failed then (fs2, true)
        else if io_rename o then (<[final_path m := text]> (delete temp fs2), false)
        else (fs2, true) in
      if failed then (RC_ERR, unlink o temp fs3) else (RC_OK, fs3)
  end.

(** * The operations *)

(** [dup]: both allocations succeed. *)
Definition zedis_metrics_init (dir : option (list Z)) (interval : Z) (dup : bool) : Z * option metrics :=
  match dir with
  | None => (RC_ERR, None)
  | Some dir =>
      if zlen (cstr dir) =? 0 then (RC_ERR, None) else
      if negb dup then (RC_ERR, None) else
      (RC_OK, Some (Metrics (cstr dir) (if interval =? 0 then 1000 else interval) 0
                            (replicate (length command_names) 0)))
  end.

(** [server->metrics] afterwards: freed and NULL. *)
Definition zedis_metrics_destroy (m : option metrics) : option metrics := None.

Definition zedis_metrics_record_command (m : option metrics) (name : list Z) : exec (option metrics) :=
  match m with
  | None => Ok None
  | Some m =>
      let index := command_index name in
      if index >=? 0 then
        n ← aget (command_counts m) index;
        cs ← aset (command_counts m) index (u64 (n + 1));
        Ok (Some (Metrics (collector_dir m) (interval_ms m) (last_write_ms m) cs))
      else Ok (Some m)
  end.

Definition zedis_metrics_maybe_write (g : gauges) (now : option (Z * Z)) (o : io)
    (m : option metrics) (fs : fsys) : option metrics * fsys :=
  match m with
  | None => (None, fs)
  | Some m =>
      let now := monotonic_ms now in
      if negb (last_write_ms m =? 0) && (u64 (now - last_write_ms m) <? interval_ms m) then (Some m, fs) else
      let '(_, fs') := write_snapshot g m o fs in
      (Some (Metrics (collector_dir m) (interval_ms m) now (command_counts m)), fs')
  end.

(** * Theorems *)

Lemma print_lines_all ok n ls :
  (print_lines ok n ls).2 = false → (print_lines ok n ls).1 = concat ls.
Proof.
  revert n. induction ls as [|l ls IH]; intros n; [done|]. cbn [print_lines].
  destruct (ok n); [|done]. cbn [fst snd concat]. intros H. by rewrite (IH _ H).
Qed.

(** A failed snapshot changes no file but the temporary one, which is left
    only where unlink fails. *)
Definition untouched (o : io) (fs fs' : fsys) : Prop :=
  (io_unlink o = true → fs' = fs) ∧ ∀ p, io_temp o ≠ Some p → fs' !! p = fs !! p.

Lemma unlink_untouched (o : io) (fs : fsys) t x :
  io_temp o = Some t → fs !! t = None → untouched o fs (unlink o t (<[t := x]> fs)).
Proof.
  intros Ht Hf. unfold untouched, unlink. destruct (io_unlink o).
  - rewrite delete_insert_id by done. done.
  - split; [done|]. intros p Hp. rewrite lookup_insert_ne; [done|]. by intros ->.
Qed.

Lemma write_snapshot_ok (g : gauges) (m : metrics) (o : io) (fs fs' : fsys) rc :
  (∀ t, io_temp o = Some t → fs !! t = None ∧ t ≠ final_path m) →
  write_snapshot g m o fs = (rc, fs') →
  (rc = RC_OK ∧ fs' = <[final_path m := concat (snapshot_lines g m)]> fs) ∨ (rc = RC_ERR ∧ untouched o fs fs').
Proof.
  intros Htemp. unfold write_snapshot.
  destruct (negb (io_malloc o)); [by intros [= <- <-]; right|].
  destruct (_ || _); [by intros [= <- <-]; right|].
  destruct (io_temp o) as [t|] eqn:Et; [|by intros [= <- <-]; right]. destruct (Htemp t eq_refl) as [Ht Hne].
  pose proof (λ x, unlink_untouched o fs t x Et Ht) as Hdel.
  destruct (negb (io_fchmod o)); [intros [= <- <-]; right; by split|].
  destruct (negb (io_fdopen o)); [intros [= <- <-]; right; by split|].
  pose proof (print_lines_all (io_prints o) 0 (snapshot_lines g m)) as Htext.
  destruct (print_lines _ _ _) as [text failed0]. cbn [fst snd] in Htext.
  rewrite insert_insert_eq. destruct failed0; [intros [= <- <-]; right; by split|].
  rewrite (Htext eq_refl). destruct (false || _ || _); [intros [= <- <-]; right; by split|].
  destruct (io_rename o); intros [= <- <-]; [left|right; by split]. by rewrite delete_insert_id.
Qed.

(** Every call succeeds. *)
Definition io_ok (o : io) : Prop :=
  io_malloc o = true ∧ is_Some (io_temp o) ∧ io_fchmod o = true ∧ io_fdopen o = true ∧
  (∀ n, io_prints o n = true) ∧ io_sync o = true ∧ io_fclose o = true ∧ io_rename o = true.

Lemma print_lines_ok ok n ls : (∀ n, ok n = true) → (print_lines ok n ls).2 = false.
Proof.
  intros Hok. revert n. induction ls as [|l ls IH]; intros n; [done|]. cbn [print_lines]. rewrite Hok. apply IH.
Qed.

Lemma write_snapshot_succeeds (g : gauges) (m : metrics) (o : io) (fs : fsys) :
  io_ok o → zlen (collector_dir m) < 2 ^ 62 → (write_snapshot g m o fs).1 = RC_OK.
Proof.
  intros (Hm & [t Ht] & Hc & Hf & Hp & Hs & Hcl & Hr) Hd. unfold write_snapshot.
  rewrite Hm, Ht, Hc, Hf, Hs, Hcl, Hr. cbn [negb]. pose proof (zlen_nonneg (collector_dir m)).
  rewrite !u64_small by (change (zlen ZEDIS_METRICS_FILE) with 10; lia).
  unfold snprintf_n, temp_template, final_path. rewrite !zlen_app.
  change (zlen (bytes_of_string "/.zedis.prom.XXXXXX")) with 19. change (zlen [47]) with 1.
  change (zlen ZEDIS_METRICS_FILE) with 10. rewrite !Z.geb_leb.
  destruct (_ || _) eqn:E; [apply orb_true_iff in E as [E|E]; zb; lia|].
  pose proof (print_lines_ok (io_prints o) 0 (snapshot_lines g m) Hp) as Hpr.
  destruct (print_lines _ _ _) as [text failed]. cbn [snd] in Hpr. by rewrite Hpr.
Qed.

(** C32: write_snapshot replaces the metrics file at once or not at all:
    when it reports success the metrics file alone changed and holds the
    complete new snapshot; when it fails, whichever of its calls failed, every
    path has the contents it had before, except that the temporary file is left
    where the call of unlink that should remove it fails, too.  When every call
    succeeds, so does it. *)
Theorem metrics_snapshot_atomic (g : gauges) (m : metrics) (o : io) (fs fs' : fsys) rc :
  (∀ t, io_temp o = Some t → fs !! t = None ∧ t ≠ final_path m) → zlen (collector_dir m) < 2 ^ 62 →
  write_snapshot g m o fs = (rc, fs') →
  (if rc =? 0 then fs' !! final_path m = Some (concat (snapshot_lines g m)) ∧
                   ∀ p, p ≠ final_path m → fs' !! p = fs !! p
   else (io_unlink o = true → fs' = fs) ∧ ∀ p, io_temp o ≠ Some p → fs' !! p = fs !! p) ∧ (io_ok o → rc = 0).
Proof.
  intros Htemp Hdir Hw. split.
  - destruct (write_snapshot_ok _ _ _ _ _ _ Htemp Hw) as [[-> ->]|[-> Hfs]]; [|exact Hfs].
    cbn [Z.eqb RC_OK]. split; [by rewrite lookup_insert_eq|]. intros p Hp. by rewrite lookup_insert_ne.
  - intros Ho. pose proof (write_snapshot_succeeds g m o fs Ho Hdir) as H. by rewrite Hw in H.
Qed.

Lemma metrics_snapshot_atomic_witness :
  let m := Metrics (bytes_of_string "/m") 1000 0 (replicate 17 0) in
  let o := Io true (Some (bytes_of_string "/m/.zedis.prom.abcdef")) true true (λ _, true) true true true true in
  ∃ fs', write_snapshot (Gauges 1 2 3 4 5 6) m o ∅ = (0, fs') ∧
    fs' !! bytes_of_string "/m/zedis.prom" = Some (concat (snapshot_lines (Gauges 1 2 3 4 5 6) m)).
Proof.
  intros m o. destruct (write_snapshot (Gauges 1 2 3 4 5 6) m o ∅) as [rc fs'] eqn:E.
  destruct (metrics_snapshot_atomic (Gauges 1 2 3 4 5 6) m o ∅ fs' rc) as [Hfs Hok].
  - intros t [= <-]. split; [reflexivity|vm_compute; discriminate].
  - reflexivity.
  - exact E.
  - assert (rc = 0) as ->.
    { apply Hok. split; [reflexivity|]. split; [eexists; reflexivity|]. repeat split. }
    exists fs'. split; [reflexivity|]. destruct Hfs as [Hf _]. exact Hf.
Defined.
