(* ===== verification/ServerState.v ===== *)
(** The server's state and its connections: struct zedis_server of
    include/server.h, the connection list and the replies of src/server.c, and
    conn_create and conn_destroy of src/conn.c.

    Connections live in a store indexed by their address, and the list of
    connections is the doubly linked list that the C code threads through
    them; following a pointer to a connection that was freed is the fault
    [DanglingPointer].  All parsers share the server's slab: the slab is kept
    in the server only, and [attach] lends it to a parser for the time of a
    call.  A fresh write buffer is modelled as zeros; it is never read before
    it is written. *)

From stdpp Require Import gmap.
From S2P Require Import Prelude Arena HashTable OrderBook RingBuffer AppendLog BTree KeyRegistry Slab Resp RespFormat.
From S2P Require Import EventLoop Conn Metrics.

Record config := Config {
  port : Z;
  cpu_core : Z;
  arena_size : Z;
  max_keys : Z;
  max_connections : Z;
  ring_capacity : Z;
  cfg_max_zsets : Z;
  cfg_max_lists : Z;
  zset_members : Z;
  aol_size : Z;
  aol_path : option (list Z);
  book_price_min : Z;
  book_price_max : Z;
  busy_poll : bool;
  metrics_dir : option (list Z);
  metrics_interval_ms : Z;
}.

(** A connection that waits to be accepted: what happens while it is set up
    (set_nonblocking, the parser's malloc, the room for it in the epoll
    instance), its socket, and the descriptors that the process has open and
    that the server knows nothing of. *)
Record accepted := Accepted {
  a_nonblock : bool;
  a_mem : option (list Z);
  a_room : bool;
  a_sock : socket;
  a_busy : list Z;
}.

Record server := Server {
  cfg : config;
  s_metrics : option metrics;
  s_loop : loop;
  listen_fd : Z;
  running : bool;
  s_arena : arena;
  s_slab : slab;
  kv : hash_table;
  book : order_book;
  ring : ring_buffer;
  aol : append_log;
  zsets : zset_registry;
  lists : list_registry;
  conns : gmap Z conn;
  conns_head : option Z;
  conn_count : Z;
  k_accept : list accepted;
  k_malloc : list Z;
}.

(** * Updates *)

Definition set_conns (s : server) (l : loop) (cs : gmap Z conn) : server :=
  Server (cfg s) (s_metrics s) l (listen_fd s) (running s) (s_arena s) (s_slab s) (kv s) (book s)
         (ring s) (aol s) (zsets s) (lists s) cs (conns_head s) (conn_count s) (k_accept s) (k_malloc s).
Definition set_list (s : server) (cs : gmap Z conn) (h : option Z) (n : Z) : server :=
  Server (cfg s) (s_metrics s) (s_loop s) (listen_fd s) (running s) (s_arena s) (s_slab s) (kv s) (book s)
         (ring s) (aol s) (zsets s) (lists s) cs h n (k_accept s) (k_malloc s).
Definition set_alloc (s : server) (sl : slab) (ms : list Z) : server :=
  Server (cfg s) (s_metrics s) (s_loop s) (listen_fd s) (running s) (s_arena s) sl (kv s) (book s)
         (ring s) (aol s) (zsets s) (lists s) (conns s) (conns_head s) (conn_count s) (k_accept s) ms.
Definition set_accept (s : server) (k : list accepted) : server :=
  Server (cfg s) (s_metrics s) (s_loop s) (listen_fd s) (running s) (s_arena s) (s_slab s) (kv s) (book s)
         (ring s) (aol s) (zsets s) (lists s) (conns s) (conns_head s) (conn_count s) k (k_malloc s).
Definition set_metrics (s : server) (m : option metrics) : server :=
  Server (cfg s) m (s_loop s) (listen_fd s) (running s) (s_arena s) (s_slab s) (kv s) (book s)
         (ring s) (aol s) (zsets s) (lists s) (conns s) (conns_head s) (conn_count s) (k_accept s) (k_malloc s).
Definition set_data (s : server) (k : hash_table) (b : order_book) (r : ring_buffer) (a : append_log)
    (zs : zset_registry) (ls : list_registry) : server :=
  Server (cfg s) (s_metrics s) (s_loop s) (listen_fd s) (running s) (s_arena s) (s_slab s) k b r a zs ls
         (conns s) (conns_head s) (conn_count s) (k_accept s) (k_malloc s).
Definition set_kv (s : server) (k : hash_table) : server :=
  set_data s k (book s) (ring s) (aol s) (zsets s) (lists s).
Definition set_book (s : server) (b : order_book) : server :=
  set_data s (kv s) b (ring s) (aol s) (zsets s) (lists s).
Definition set_ring (s : server) (r : ring_buffer) : server :=
  set_data s (kv s) (book s) r (aol s) (zsets s) (lists s).
Definition set_zsets (s : server) (z : zset_registry) : server :=
  set_data s (kv s) (book s) (ring s) (aol s) z (lists s).
Definition set_lists (s : server) (l : list_registry) (a : append_log) : server :=
  set_data s (kv s) (book s) (ring s) a (zsets s) l.

Definition set_links (c : conn) (n p : option Z) : conn :=
  Conn (c_fd c) (parser c) (write_buf c) (write_len c) (write_sent c) (subscribe_channel c)
       (subscribed c) (closed c) n p (buf_addr c) (sock c).
Definition set_parser (c : conn) (p : resp_parser) : conn :=
  Conn (c_fd c) p (write_buf c) (write_len c) (write_sent c) (subscribe_channel c)
       (subscribed c) (closed c) (next c) (prev c) (buf_addr c) (sock c).
Definition set_channel (c : conn) (ch : list Z) : conn :=
  Conn (c_fd c) (parser c) (write_buf c) (write_len c) (write_sent c) ch true (closed c)
       (next c) (prev c) (buf_addr c) (sock c).
Definition set_input (c : conn) (k : list read_result) : conn :=
  Conn (c_fd c) (parser c) (write_buf c) (write_len c) (write_sent c) (subscribe_channel c)
       (subscribed c) (closed c) (next c) (prev c) (buf_addr c)
       (Socket k (k_write (sock c)) (k_out (sock c))).

(** * Connections *)

Definition get_conn (s : server) (a : Z) : exec conn :=
  match conns s !! a with Some c => Ok c | None => Stuck DanglingPointer end.
Definition put_conn (s : server) (a : Z) (c : conn) : server := set_conns s (s_loop s) (<[a := c]> (conns s)).

(** The parser of a connection with the allocators it draws from, and back. *)
Definition attach (s : server) (p : resp_parser) : resp_parser :=
  RespParser (buf p) (buf_cap p) (r_pos p) (w_pos p) (NodeEnv (n_free (env p)) (Some (s_slab s)) (k_malloc s)).
Definition detach (p : resp_parser) : resp_parser :=
  RespParser (buf p) (buf_cap p) (r_pos p) (w_pos p) (NodeEnv (n_free (env p)) None []).
Definition put_parser (s : server) (a : Z) (c : conn) (p : resp_parser) : server :=
  let s' := put_conn s a (set_parser c (detach p)) in
  set_alloc s' (default (s_slab s) (n_slab (env p))) (n_malloc (env p)).

Definition server_link_conn (s : server) (a : Z) : exec server :=
  c ← get_conn s a;
  let s1 := put_conn s a (set_links c (conns_head s) None) in
  s2 ← (match conns_head s with
        | None => Ok s1
        | Some h => hc ← get_conn s1 h; Ok (put_conn s1 h (set_links hc (next hc) (Some a)))
        end);
  Ok (set_list s2 (conns s2) (Some a) (u64 (conn_count s + 1))).

Definition server_unlink_conn (s : server) (a : Z) : exec server :=
  c ← get_conn s a;
  s1 ← (match prev c with
        | Some p => pc ← get_conn s p; Ok (put_conn s p (set_links pc (next c) (prev pc)))
        | None => Ok (set_list s (conns s) (next c) (conn_count s))
        end);
  c1 ← get_conn s1 a;
  s2 ← (match next c1 with
        | Some n => nc ← get_conn s1 n; Ok (put_conn s1 n (set_links nc (next nc) (prev c1)))
        | None => Ok s1
        end);
  Ok (if conn_count s2 >? 0 then set_list s2 (conns s2) (conns_head s2) (conn_count s2 - 1) else s2).

Definition queue_write (s : server) (a : Z) (data : list Z) (len : Z) : exec server :=
  c ← get_conn s a;
  x ← conn_queue_write (s_loop s) a c data len;
  let '(_, c', l') := x in
  Ok (set_conns s l' (<[a := c']> (conns s))).

(** The connection's address, or nothing where it returns NULL. *)
Definition conn_create (s : server) (fd : Z) (acc : accepted) : exec (option Z * server) :=
  x ← zedis_slab_alloc (s_slab s) ZEDIS_SLAB_512;
  match x with
  | (None, sl) => Ok (None, set_alloc s sl (k_malloc s))
  | (Some a, sl) =>
      match resp_parser_init (λ _, a_mem acc) (Some sl) (k_malloc s) with
      | None =>
          sl1 ← zedis_slab_free sl (Some a) ZEDIS_SLAB_512;
          Ok (None, set_alloc s sl1 (k_malloc s))
      | Some p =>
          y ← zedis_slab_alloc sl ZEDIS_CONN_WRITE_SIZE;
          match y with
          | (None, sl1) =>
              sl2 ← zedis_slab_free sl1 (Some a) ZEDIS_SLAB_512;
              Ok (None, set_alloc s sl2 (k_malloc s))
          | (Some wb, sl1) =>
              let c := Conn fd (detach p) (replicate (Z.to_nat WRITE_ROOM) 0) 0 0
                            (replicate (Z.to_nat SUBSCRIBE_CHANNEL_SIZE) 0) false false None None wb
                            (a_sock acc) in
              s' ← server_link_conn (put_conn (set_alloc s sl1 (k_malloc s)) a c) a;
              Ok (Some a, s')
          end
      end
  end.

(** The memory of the connection is gone afterwards.  The nodes of its free
    list are not: the parser has a slab, so resp_parser_destroy frees none. *)
Definition conn_destroy (s : server) (a : Z) : exec server :=
  c ← get_conn s a;
  s1 ← server_unlink_conn s a;
  x ← event_loop_del (s_loop s1) (c_fd c);
  sl1 ← zedis_slab_free (s_slab s1) (Some (buf_addr c)) ZEDIS_CONN_WRITE_SIZE;
  sl2 ← zedis_slab_free sl1 (Some a) ZEDIS_SLAB_512;
  Ok (set_alloc (set_conns s1 x.2 (delete a (conns s1))) sl2 (k_malloc s1)).

(** * Replies *)

(** An array of the C function, as it is before anything is written to it. *)
Definition char_array (cap : Z) : list Z := replicate (Z.to_nat cap) 0.

(** [n = resp_format_...(reply, ...); if (n > 0) conn_queue_write (c, reply, n)] *)
Definition reply_formatted (s : server) (a : Z) (r : exec (Z * list Z)) : exec server :=
  x ← r;
  let '(n, reply) := x in
  if n >? 0 then queue_write s a reply n else Ok s.

Definition reply_error (s : server) (a : Z) (msg : string) : exec (Z * server) :=
  s' ← reply_formatted s a (resp_format_error (char_array 512) 512 (bytes_of_string msg)); Ok (0, s').
Definition reply_simple (s : server) (a : Z) (msg : string) : exec (Z * server) :=
  s' ← reply_formatted s a (resp_format_simple (char_array 512) 512 (bytes_of_string msg)); Ok (0, s').
Definition reply_integer (s : server) (a : Z) (v : Z) : exec (Z * server) :=
  s' ← reply_formatted s a (resp_format_integer (char_array 64) 64 v); Ok (0, s').
Definition reply_bulk (s : server) (a : Z) (bs : list Z) : exec (Z * server) :=
  s' ← reply_formatted s a (resp_format_bulk (char_array 4096) 4096 bs); Ok (0, s').
Definition reply_null (s : server) (a : Z) : exec (Z * server) :=
  s' ← reply_formatted s a (resp_format_null (char_array 64) 64); Ok (0, s').

(** * Publishing to the subscribers *)

Definition lower (b : Z) : Z := if (65 <=? b) && (b <=? 90) then b - 65 + 97 else b.

Fixpoint case_equal (a b : list Z) : bool :=
  match a, b with
  | [], _ => true
  | x :: a', y :: b' => if lower x =? lower y then case_equal a' b' else false
  | _ :: _, [] => false
  end.
Definition str_case_equal (a b : list Z) : bool :=
  if zlen (cstr b) =? zlen a then case_equal a (cstr b) else false.

(** Whether the connection is subscribed to the channel. *)
Definition on_channel (c : conn) (channel : list Z) : bool :=
  subscribed c && str_case_equal (cstr (subscribe_channel c)) channel.

(** [for (c = head; c != NULL; c = c->next) body(c)] over the connections. *)
Fixpoint for_conns {A} (fuel : nat) (body : A → server → Z → conn → exec (A * server))
    (x : A) (s : server) (p : option Z) : exec (A * server) :=
  match p with
  | None => Ok (x, s)
  | Some a =>
      match fuel with
      | O => Stuck OutOfFuel
      | S fuel' =>
          c ← get_conn s a;
          y ← body x s a c;
          c' ← get_conn y.2 a;
          for_conns fuel' body y.1 y.2 (next c')
      end
  end.
Definition each_conn {A} (body : A → server → Z → conn → exec (A * server)) (x : A) (s : server)
    : exec (A * server) := for_conns (S (size (conns s))) body x s (conns_head s).

Definition MSG_SIZE : Z := ZEDIS_RING_MSG_MAX + 256.

Definition message_header (ch : list Z) (payload_len : Z) : list Z :=
  bytes_of_string "*3" ++ crlf ++ bytes_of_string "$7" ++ crlf ++ bytes_of_string "message" ++ crlf ++
  [36] ++ dec_u (zlen ch) ++ crlf ++ ch ++ crlf ++ [36] ++ dec_u payload_len ++ crlf.

(** The message that goes to the subscribers, unless it is too long. *)
Definition channel_message (channel payload : list Z) : option (list Z) :=
  let hdr := message_header (cstr channel) (zlen payload) in
  if zlen hdr >=? MSG_SIZE then None else
  if u64 (zlen hdr + zlen payload + 2) >=? MSG_SIZE then None else
  Some (hdr ++ payload ++ crlf).

Definition server_broadcast_channel (s : server) (channel payload : list Z) : exec server :=
  match channel_message channel payload with
  | None => Ok s
  | Some msg =>
      x ← each_conn (λ _ s a c,
            if on_channel c channel then s' ← queue_write s a msg (zlen msg); Ok (tt, s') else Ok (tt, s))
            tt s;
      Ok x.2
  end.
