(* ===== verification/Commands.v ===== *)
(** The command handlers of src/server.c: argument extraction, the seventeen
    commands, the command table and server_handle_command.

    A command is the array of nodes that the parser returned.  Its strings
    point into the buffer of the connection's parser, which no handler changes:
    [load_args] reads them when the command is dispatched, and the handlers
    work on the result, where [None] is an element that is no bulk string.  A
    handler returns its C result (1 when it destroyed the connection) and the
    new server. *)

From stdpp Require Import gmap.
From S2P Require Import Prelude Arena HashTable HashTableSpec OrderBook RingBuffer AppendLog BTree KeyRegistry.
From S2P Require Import Slab Resp EventLoop Conn Metrics ServerState.

Abbreviation cmd_array := (list (option (list Z))) (only parsing).

(** * Numbers *)

Fixpoint digits_i64 (s : list Z) (value : Z) : exec (option Z) :=
  match s with
  | [] => Ok (Some value)
  | c :: s' =>
      if (c <? 48) || (c >? 57) then Ok None else
      v10 ← chk_i64 (value * 10);
      v ← chk_i64 (v10 + (c - 48));
      digits_i64 s' v
  end.

Definition parse_i64 (s : list Z) : exec (option Z) :=
  match s with
  | [] => Ok None
  | c :: s' =>
      let negative := c =? 45 in
      let ds := if negative then s' else s in
      match ds with
      | [] => Ok None
      | _ =>
          r ← digits_i64 ds 0;
          match r with
          | None => Ok None
          | Some v => if negative then v' ← chk_i64 (- v); Ok (Some v') else Ok (Some v)
          end
      end
  end.

Definition parse_int (s : list Z) : exec (option Z) :=
  r ← parse_i64 s;
  Ok (option_map to_i32 r).

(** Rounds [n >= 0] to a multiple of [m], ties to even. *)
Definition round_even (n m : Z) : Z :=
  let q := n / m in
  let r := n mod m in
  if (2 * r >? m) || ((2 * r =? m) && Z.odd q) then q + 1 else q.

(** [(double) z] for a 64-bit integer: 53 significant bits. *)
Definition to_double (z : Z) : Z :=
  let n := Z.abs z in
  let e := Z.log2 n - 52 in
  if e <=? 0 then z else Z.sgn z * (round_even n (2 ^ e) * 2 ^ e).

Fixpoint strip_zeros (ds : list Z) : list Z :=
  match ds with
  | [] => []
  | d :: ds' => match strip_zeros ds' with [] => if d =? 48 then [] else [d] | r => d :: r end
  end.

(** [printf ("%.17g")] of an integral double. *)
Definition fmt_g17 (d : Z) : list Z :=
  let n := Z.abs d in
  let sign := if d <? 0 then [45] else [] in
  if n <? 10 ^ 17 then sign ++ dec_u n else
  let len := zlen (dec_u n) in
  let q := round_even n (10 ^ (len - 17)) in
  let '(q, x) := if q =? 10 ^ 17 then (10 ^ 16, len) else (q, len - 1) in
  match dec_u q with
  | [] => sign
  | d1 :: ds =>
      let frac := strip_zeros ds in
      sign ++ [d1] ++ (match frac with [] => [] | _ => [46] ++ frac end) ++ [101; 43] ++ dec_u x
  end.

(** * Arguments *)

(** The strings of the elements of a command. *)
Fixpoint load_args (b : list Z) (es : list (Z * resp_value)) : exec cmd_array :=
  match es with
  | [] => Ok []
  | (_, RBulk t) :: es' => d ← read_n b t.1 t.2; r ← load_args b es'; Ok (Some d :: r)
  | _ :: es' => r ← load_args b es'; Ok (None :: r)
  end.

Definition cmd_bulk (cmd : cmd_array) (i : nat) : option (list Z) := default None (cmd !! i).

(** Several arguments, when all of them are bulk strings. *)
Definition cmd_bulk2 (cmd : cmd_array) : option (list Z * list Z) :=
  x ← cmd_bulk cmd 1; y ← cmd_bulk cmd 2; Some (x, y).
Definition cmd_bulk3 (cmd : cmd_array) : option (list Z * list Z * list Z) :=
  x ← cmd_bulk cmd 1; y ← cmd_bulk cmd 2; z ← cmd_bulk cmd 3; Some (x, y, z).

(** * Handlers *)

Definition ping_command (s : server) (a : Z) (cmd : cmd_array) : exec (Z * server) :=
  if zlen cmd =? 1 then reply_simple s a "PONG" else
  match cmd_bulk cmd 1 with Some msg => reply_bulk s a msg | None => Ok (0, s) end.

Definition echo_command (s : server) (a : Z) (cmd : cmd_array) : exec (Z * server) :=
  match cmd_bulk cmd 1 with
  | Some msg => reply_bulk s a msg
  | None => reply_error s a "ERR wrong number of arguments for 'echo' command"
  end.

Definition set_command (s : server) (a : Z) (cmd : cmd_array) : exec (Z * server) :=
  match cmd_bulk2 cmd with
  | Some (key, val) =>
      y ← zedis_ht_set (kv s) key val;
      let s1 := set_kv s y.2 in
      if negb (y.1 =? 0) then reply_error s1 a "ERR hash table full or value too large"
      else reply_simple s1 a "OK"
  | None => reply_error s a "ERR wrong number of arguments for 'set' command"
  end.

(** [char value[ZEDIS_HT_MAX_VALUE]] after zedis_ht_get stored [bs] in it. *)
Definition value_array (bs : list Z) : list Z :=
  bs ++ replicate (Z.to_nat (ZEDIS_HT_MAX_VALUE - zlen bs)) 0.

Definition get_command (s : server) (a : Z) (cmd : cmd_array) : exec (Z * server) :=
  match cmd_bulk cmd 1 with
  | None => reply_error s a "ERR wrong number of arguments for 'get' command"
  | Some key =>
      y ← zedis_ht_get (kv s) key ZEDIS_HT_MAX_VALUE;
      match y with
      | None => reply_null s a
      | Some (bs, value_len) =>
          value ← read_n (value_array bs) 0 value_len;
          reply_bulk s a value
      end
  end.

Definition bid_command (s : server) (a : Z) (cmd : cmd_array) : exec (Z * server) :=
  match cmd_bulk2 cmd with
  | Some (price_str, qty_str) =>
      p ← parse_int price_str;
      match p with
      | None => reply_error s a "ERR invalid bid arguments"
      | Some price =>
          q ← parse_i64 qty_str;
          match q with
          | None => reply_error s a "ERR invalid bid arguments"
          | Some qty =>
              y ← zedis_book_bid (book s) price qty;
              let s1 := set_book s y.2 in
              if negb (y.1 =? 0) then reply_error s1 a "ERR price out of range"
              else reply_integer s1 a qty
          end
      end
  | None => reply_error s a "ERR wrong number of arguments for 'bid' command"
  end.

Definition ask_command (s : server) (a : Z) (cmd : cmd_array) : exec (Z * server) :=
  match cmd_bulk2 cmd with
  | Some (price_str, qty_str) =>
      p ← parse_int price_str;
      match p with
      | None => reply_error s a "ERR invalid ask arguments"
      | Some price =>
          q ← parse_i64 qty_str;
          match q with
          | None => reply_error s a "ERR invalid ask arguments"
          | Some qty =>
              y ← zedis_book_ask (book s) price qty;
              let s1 := set_book s y.2 in
              if negb (y.1 =? 0) then reply_error s1 a "ERR price out of range"
              else reply_integer s1 a qty
          end
      end
  | None => reply_error s a "ERR wrong number of arguments for 'ask' command"
  end.

(** A reply that snprintf writes to an array of [cap] bytes: the array, and
    the number of bytes that are queued, which is the length of the text. *)
Definition reply_printed (s : server) (a : Z) (cap : Z) (out : list Z) : exec (Z * server) :=
  let array := snprintf_buf cap out ++ replicate (Z.to_nat cap - length (snprintf_buf cap out)) 0 in
  if snprintf_n out >? 0 then s' ← queue_write s a array (snprintf_n out); Ok (0, s') else Ok (0, s).

Definition book_command (s : server) (a : Z) (cmd : cmd_array) : exec (Z * server) :=
  match cmd_bulk cmd 1 with
  | None => reply_error s a "ERR wrong number of arguments for 'book' command"
  | Some price_str =>
      p ← parse_int price_str;
      match p with
      | None => reply_error s a "ERR invalid price"
      | Some price =>
          y ← zedis_book_level (book s) price;
          match y with
          | None => reply_error s a "ERR price out of range"
          | Some (bid, ask) =>
              reply_printed s a 128
                (bytes_of_string "*2" ++ crlf ++ [58] ++ dec_d bid ++ crlf ++ [58] ++ dec_d ask ++ crlf)
          end
      end
  end.

Definition del_command (s : server) (a : Z) (cmd : cmd_array) : exec (Z * server) :=
  match cmd_bulk cmd 1 with
  | None => reply_error s a "ERR wrong number of arguments for 'del' command"
  | Some key =>
      y ← zedis_ht_del (kv s) key;
      reply_integer (set_kv s y.2) a (if y.1 =? 0 then 1 else 0)
  end.

Definition zadd_command (s : server) (a : Z) (cmd : cmd_array) : exec (Z * server) :=
  match cmd_bulk3 cmd with
  | Some (key, score_str, member) =>
      r ← parse_i64 score_str;
      match r with
      | None => reply_error s a "ERR value is not a valid float"
      | Some score =>
          prev ← zedis_zset_reg_score (zsets s) key member;
          y ← zedis_zset_reg_add (zsets s) key score member;
          let s1 := set_zsets s y.2 in
          if negb (y.1 =? 0) then reply_error s1 a "ERR zset full or member too large"
          else reply_integer s1 a (match prev with Some _ => 0 | None => 1 end)
      end
  | None => reply_error s a "ERR wrong number of arguments for 'zadd' command"
  end.

Definition zscore_command (s : server) (a : Z) (cmd : cmd_array) : exec (Z * server) :=
  match cmd_bulk2 cmd with
  | Some (key, member) =>
      r ← zedis_zset_reg_score (zsets s) key member;
      match r with
      | None => reply_null s a
      | Some score =>
          let out := fmt_g17 (to_double score) in
          if snprintf_n out >? 0 then
            bs ← read_n (snprintf_buf 64 out ++ replicate (64 - length (snprintf_buf 64 out)) 0) 0 (snprintf_n out);
            reply_bulk s a bs
          else Ok (0, s)
      end
  | None => reply_error s a "ERR wrong number of arguments for 'zscore' command"
  end.

Definition zrange_command (s : server) (a : Z) (cmd : cmd_array) : exec (Z * server) :=
  match cmd_bulk3 cmd with
  | Some (key, start_str, stop_str) =>
      st ← parse_i64 start_str;
      match st with
      | None => reply_error s a "ERR value is not an integer or out of range"
      | Some start =>
          sp ← parse_i64 stop_str;
          match sp with
          | None => reply_error s a "ERR value is not an integer or out of range"
          | Some stop =>
              r ← zedis_zset_reg_range (zsets s) key start stop 8192;
              match r with
              | None => reply_error s a "ERR zrange failed"
              | Some out => s' ← queue_write s a out (zlen out); Ok (0, s')
              end
          end
      end
  | None => reply_error s a "ERR wrong number of arguments for 'zrange' command"
  end.

Definition lpush_command (s : server) (a : Z) (cmd : cmd_array) : exec (Z * server) :=
  match cmd_bulk2 cmd with
  | Some (key, val) =>
      y ← zedis_list_reg_lpush (lists s) (aol s) key val;
      let '(rc, ls, log) := y in
      let s1 := set_lists s ls log in
      if negb (rc =? 0) then reply_error s1 a "ERR list full or append log full" else
      len ← zedis_list_reg_llen (lists s1) key;
      reply_integer s1 a len
  | None => reply_error s a "ERR wrong number of arguments for 'lpush' command"
  end.

Definition lrange_command (s : server) (a : Z) (cmd : cmd_array) : exec (Z * server) :=
  match cmd_bulk3 cmd with
  | Some (key, start_str, stop_str) =>
      st ← parse_i64 start_str;
      match st with
      | None => reply_error s a "ERR value is not an integer or out of range"
      | Some start =>
          sp ← parse_i64 stop_str;
          match sp with
          | None => reply_error s a "ERR value is not an integer or out of range"
          | Some stop =>
              r ← zedis_list_reg_lrange (lists s) (aol s) key start stop 8192;
              match r with
              | None => reply_error s a "ERR lrange failed"
              | Some out => s' ← queue_write s a out (zlen out); Ok (0, s')
              end
          end
      end
  | None => reply_error s a "ERR wrong number of arguments for 'lrange' command"
  end.

Definition llen_command (s : server) (a : Z) (cmd : cmd_array) : exec (Z * server) :=
  match cmd_bulk cmd 1 with
  | None => reply_error s a "ERR wrong number of arguments for 'llen' command"
  | Some key => len ← zedis_list_reg_llen (lists s) key; reply_integer s a len
  end.

(** The first 63 bytes, which is what a channel name is cut to. *)
Definition channel_prefix (channel : list Z) : list Z :=
  let ch_len := if zlen channel <? SUBSCRIBE_CHANNEL_SIZE - 1 then zlen channel else SUBSCRIBE_CHANNEL_SIZE - 1 in
  take (Z.to_nat ch_len) channel.

Definition count_receivers (s : server) (ch : list Z) : exec Z :=
  x ← each_conn (λ n s a c, Ok (if on_channel c ch then u64 (n + 1) else n, s)) 0 s;
  Ok x.1.

Definition publish_command (s : server) (a : Z) (cmd : cmd_array) : exec (Z * server) :=
  match cmd_bulk2 cmd with
  | Some (channel, message) =>
      let ch := channel_prefix channel ++ [0] in
      y ← zedis_ring_publish (ring s) ch message;
      let s1 := set_ring s y.2 in
      if negb (y.1 =? 0) then reply_error s1 a "ERR ring buffer full" else
      receivers ← count_receivers s1 ch;
      s2 ← server_broadcast_channel s1 ch message;
      reply_integer s2 a receivers
  | None => reply_error s a "ERR wrong number of arguments for 'publish' command"
  end.

Definition subscribe_command (s : server) (a : Z) (cmd : cmd_array) : exec (Z * server) :=
  match cmd_bulk cmd 1 with
  | None => reply_error s a "ERR wrong number of arguments for 'subscribe' command"
  | Some channel =>
      let ch := channel_prefix channel in
      c ← get_conn s a;
      b ← memcpy (subscribe_channel c) 0 ch;
      b' ← aset b (zlen ch) 0;
      let s1 := put_conn s a (set_channel c b') in
      reply_printed s1 a 512
        (bytes_of_string "*3" ++ crlf ++ bytes_of_string "$9" ++ crlf ++ bytes_of_string "subscribe" ++ crlf ++
         [36] ++ dec_u (zlen ch) ++ crlf ++ cstr ch ++ crlf ++ bytes_of_string ":1" ++ crlf)
  end.

Definition quit_command (s : server) (a : Z) (cmd : cmd_array) : exec (Z * server) :=
  s' ← conn_destroy s a; Ok (1, s').

(** * The dispatcher *)

Definition command_table : list (string * (server → Z → cmd_array → exec (Z * server))) :=
  [ ("PING"%string, ping_command); ("ECHO"%string, echo_command); ("SET"%string, set_command);
    ("GET"%string, get_command); ("BID"%string, bid_command); ("ASK"%string, ask_command);
    ("BOOK"%string, book_command); ("DEL"%string, del_command); ("ZADD"%string, zadd_command);
    ("ZSCORE"%string, zscore_command); ("ZRANGE"%string, zrange_command); ("LPUSH"%string, lpush_command);
    ("LRANGE"%string, lrange_command); ("LLEN"%string, llen_command); ("PUBLISH"%string, publish_command);
    ("SUBSCRIBE"%string, subscribe_command); ("QUIT"%string, quit_command) ].

Definition find_command (name : list Z) : option (string * (server → Z → cmd_array → exec (Z * server))) :=
  find (λ e, str_case_equal name (bytes_of_string e.1)) command_table.

Definition unknown_reply (name : list Z) : list Z :=
  bytes_of_string "-ERR unknown command '" ++ cstr name ++ [39] ++ crlf.

(** The command named by the first string. *)
Definition run_command (s : server) (a : Z) (cmd : cmd_array) : exec (Z * server) :=
  match cmd_bulk cmd 0 with
  | None => reply_error s a "ERR invalid command format"
  | Some name =>
      match find_command name with
      | None => reply_printed s a 512 (unknown_reply name)
      | Some (n, fn) =>
          m ← zedis_metrics_record_command (s_metrics s) (bytes_of_string n);
          fn (set_metrics s m) a cmd
      end
  end.

Definition server_handle_command (s : server) (a : Z) (v : resp_value) : exec (Z * server) :=
  match v with
  | RArray [] => Ok (0, s)
  | RArray es =>
      c ← get_conn s a;
      cmd ← load_args (buf (parser c)) es;
      run_command s a cmd
  | _ => reply_error s a "ERR invalid command format"
  end.
