(* ===== verification/CommandSpec.v ===== *)
(** The data commands against an abstract store: a map of strings, the levels
    of a book, a map of sorted sets and a map of lists, and what the client is
    answered.  The components are used through their refinement lemmas only. *)

From stdpp Require Import gmap sorting.
From S2P Require Import Prelude Arena HashTable HashTableSpec OrderBook RingBuffer AppendLog BTree BTreeShape.
From S2P Require Import ZSet KeyRegistry RegistrySpec Slab Resp RespSafe RespRound RespFormat RespSpec EventLoop Conn.
From S2P Require Import Metrics ServerState Commands.

(** * Replies *)

Definition metrics_ok (m : option metrics) : Prop :=
  match m with Some m => length (command_counts m) = length command_names | None => True end.

Lemma get_conn_ok s a c : conns s !! a = Some c → get_conn s a = Ok c.
Proof. intros H. unfold get_conn. by rewrite H. Qed.

(** [a] is the address of an open connection. *)
Definition serving (s : server) (a : Z) : Prop :=
  ∃ c m, conns s !! a = Some c ∧ conn_wf c ∧ closed c = false ∧ loop_rep (s_loop s) m ∧ metrics_ok (s_metrics s).

(** Everything outside the data, the connections, the loop and the metrics. *)
Definition same_frame (s s' : server) : Prop :=
  cfg s' = cfg s ∧ listen_fd s' = listen_fd s ∧ running s' = running s ∧ s_arena s' = s_arena s ∧
  s_slab s' = s_slab s ∧ conns_head s' = conns_head s ∧ conn_count s' = conn_count s ∧
  k_accept s' = k_accept s ∧ k_malloc s' = k_malloc s.

Definition same_data (s s' : server) : Prop :=
  kv s' = kv s ∧ book s' = book s ∧ ring s' = ring s ∧ aol s' = aol s ∧ zsets s' = zsets s ∧ lists s' = lists s.

(** The connection [a] was answered [out]: it is appended to the stream when
    it fits the buffer, and the connection stays open unless its socket fails;
    otherwise the connection is closed.  No other connection changes. *)
Definition replied (s s' : server) (a : Z) (out : list Z) : Prop :=
  ∃ c c', conns s !! a = Some c ∧ conns s' = <[a := c']> (conns s) ∧ conn_wf c' ∧ same_input c c' ∧
    (∃ m, loop_rep (s_loop s') m) ∧ stop (s_loop s') = stop (s_loop s) ∧ metrics_ok (s_metrics s') ∧ same_frame s s' ∧
    if zlen (pending c) + zlen out <=? WRITE_ROOM
    then stream c' = stream c ++ out ∧
         (no_fail (k_write (sock c)) →
          closed c' = false ∧ no_fail (k_write (sock c')) ∧ zlen (k_out (sock c)) <= zlen (k_out (sock c'))) ∧
         (∀ k, fast (S k) c → fast k c')
    else closed c' = true ∧ stream c' = stream c.

(** The reply [out] to [a] overruns the block of its buffer. *)
Definition overrun (s : server) (a : Z) (out : list Z) : bool :=
  match conns s !! a with Some c => overruns c out | None => false end.

(** Outcome of queueing [out]. *)
Definition queued (s : server) (a : Z) (out : list Z) (r : exec server) : Prop :=
  if overrun s a out then r = Stuck BlockOverrun else ∃ s', r = Ok s' ∧ replied s s' a out ∧ same_data s s'.

Lemma queue_write_replied s a data :
  serving s a → zlen data < 2 ^ 62 → queued s a data (queue_write s a data (zlen data)).
Proof.
  intros (c & m & Hc & Hwf & Hopen & Hrep & Hmet) Hd. unfold queued, overrun, queue_write, get_conn. rewrite Hc. cbn [mbind exec_bind].
  destruct (overruns c data) eqn:Eo; [by rewrite (queue_write_overrun _ _ _ _ Hwf Hd Eo)|].
  destruct (queue_write_ok (s_loop s) m a c data Hwf Hrep Hd Eo) as (rc & c' & l' & Hq & Hwf' & Hsame & _ & Hstop & Hpost).
  rewrite Hq. cbn [mbind exec_bind]. eexists. split; [done|]. split; [|done]. rewrite Hopen in Hpost.
  exists c, c'. split; [done|]. split; [done|]. split; [done|]. split; [done|].
  rewrite Z.ltb_antisym in Hpost. pose proof (zlen_pending c (proj1 Hwf)) as Hp. destruct (_ <=? _) eqn:E; zb; cbn [negb] in Hpost.
  - destruct Hpost as (Hst & Hcl). split; [destruct Hcl as [(_ & _ & ?)|(_ & _ & ->)]; by eauto|].
    split; [done|]. split; [done|]. split; [done|]. split; [done|].
    pose proof Hwf as [(Hb & Hs & Hl) Hs0]. specialize (Hs0 Hopen). pose proof (zlen_nonneg data).
    assert (u64 (write_len c + zlen data) <= ZEDIS_CONN_WRITE_SIZE) as Hfit by (sizes; rewrite u64_small; lia).
    split; [|intros k; by eapply queue_write_fast].
    intros Hk. apply queue_write_alive in Hq as (-> & Hk' & Ho); [|done|done|done].
    split; [|done]. by destruct Hcl as [(_ & ? & _)|(? & _)].
  - destruct Hpost as (-> & -> & ->). split; [by exists m|]. done.
Qed.

Lemma server_eta s a c : conns s !! a = Some c → set_conns s (s_loop s) (<[a := c]> (conns s)) = s.
Proof. intros Hc. rewrite insert_id by done. by destruct s. Qed.

Lemma replied_nothing s a : serving s a → replied s s a [].
Proof.
  intros (c & m & Hc & Hwf & Hopen & Hrep & Hmet). exists c, c. split; [done|]. split; [by rewrite insert_id|].
  split; [done|]. split; [done|]. split; [by exists m|]. split; [done|]. split; [done|]. split; [done|]. rewrite zlen_nil, app_nil_r.
  pose proof (zlen_pending c (proj1 Hwf)) as Hp. destruct Hwf as [(_ & Hs & Hl) _].
  destruct (_ <=? _) eqn:E; zb; [|lia]. split; [done|]. split; [done|]. intros k (Hn & Hk & Hall). split; [done|]. split; [lia|done].
Qed.

Lemma room_no_overrun s a c out :
  conns s !! a = Some c → zlen (pending c) + zlen out <= WRITE_ROOM → overrun s a out = false.
Proof.
  intros Hc Hroom. unfold overrun, overruns. rewrite Hc. destruct (WRITE_ROOM <? _) eqn:E; zb; [lia|]. by rewrite andb_false_r.
Qed.

Lemma nothing_fits s a : serving s a → overrun s a [] = false.
Proof.
  intros (c & m & Hc & [Hwf _] & _). eapply room_no_overrun; [done|]. rewrite zlen_nil, zlen_pending by done.
  destruct Hwf as (_ & Hs & Hl). lia.
Qed.

(** What a reply through a buffer of [cap] bytes sends. *)
Definition fits (cap : Z) (v : rval) : list Z := if zlen (enc v) <? cap then enc v else [].

Lemma fits_short cap v : zlen (enc v) < cap → fits cap v = enc v.
Proof. intros H. unfold fits. destruct (_ <? _) eqn:E; zb; [done|lia]. Qed.

(** The formatters on the arrays of the reply functions. *)
Lemma array_formats cap s z :
  0 <= cap < 2 ^ 31 → zlen s < 2 ^ 62 → let dst := char_array cap in
  formats (resp_format_simple dst cap s) cap (VSimple (cstr s)) ∧
  formats (resp_format_error dst cap s) cap (VError (cstr s)) ∧
  formats (resp_format_integer dst cap z) cap (VInt z) ∧
  formats (resp_format_bulk dst cap s) cap (VBulk s) ∧
  formats (resp_format_null dst cap) cap VNil.
Proof.
  intros Hc Hs dst. apply formatters_exact; [|lia|done]. unfold dst, char_array. rewrite zlen_replicate. lia.
Qed.

(** Only the queued part of an array matters. *)
Lemma queue_write_prefix l a c out rest :
  conn_queue_write l a c (out ++ rest) (zlen out) = conn_queue_write l a c out (zlen out).
Proof.
  unfold conn_queue_write, write_buf_append. destruct (closed c); [done|]. destruct (_ >? _); [done|].
  pose proof (zlen_nonneg out). pose proof (zlen_nonneg rest).
  rewrite (read_src_ok (out ++ rest)), (read_src_ok out) by (rewrite ?zlen_app; lia).
  by rewrite slice_prefix, slice_all.
Qed.

Lemma queue_array s a out rest : queue_write s a (out ++ rest) (zlen out) = queue_write s a out (zlen out).
Proof. unfold queue_write. destruct (get_conn s a) as [c|]; cbn [mbind exec_bind]; [|done]. by rewrite queue_write_prefix. Qed.

(** What a formatter printed is queued. *)
Lemma reply_formats s a r cap v :
  formats r cap v → reply_formatted s a r = if zlen (enc v) <? cap then queue_write s a (enc v) (zlen (enc v)) else Ok s.
Proof.
  intros (n & d & -> & _ & Hd). unfold reply_formatted. cbn [mbind exec_bind]. destruct (_ <? cap); [|by subst n].
  destruct Hd as (-> & rest & ->). pose proof (enc_pos v). rewrite Z.gtb_ltb. destruct (0 <? _) eqn:E; zb; [|lia]. apply queue_array.
Qed.

Lemma reply_formatted_ok s a r cap v :
  serving s a → formats r cap v → cap < 2 ^ 62 → queued s a (fits cap v) (reply_formatted s a r).
Proof.
  intros Hs Hf Hcap. rewrite (reply_formats _ _ _ _ _ Hf). unfold fits. destruct (_ <? _) eqn:E; zb.
  - apply queue_write_replied; [done|lia].
  - unfold queued. rewrite nothing_fits by done. exists s. split; [done|]. split; [by apply replied_nothing|done].
Qed.

(** The outcome of a command: it leaves the data as [D] says and answers. *)
Definition answered (s : server) (a : Z) (D : server → Prop) (out : list Z) (r : exec (Z * server)) : Prop :=
  if overrun s a out then r = Stuck BlockOverrun else ∃ s', r = Ok (0, s') ∧ D s' ∧ replied s s' a out.

Lemma answered_bind s a out (r : exec server) :
  queued s a out r → answered s a (same_data s) out (s' ← r; Ok (0, s')).
Proof. unfold queued, answered. destruct (overrun s a out); [by intros ->|]. intros (s' & -> & Hr & Hd). by exists s'. Qed.

Lemma dec_d_length v : int64 v → zlen (dec_d v) <= 20.
Proof.
  intros Hv. unfold int64, INT64_MIN, INT64_MAX in Hv. unfold dec_d. destruct (v <? 0) eqn:E; zb.
  - rewrite zlen_cons. pose proof (dec_u_length (- v) 19 ltac:(lia) ltac:(lia)). lia.
  - pose proof (dec_u_length v 19 ltac:(lia) ltac:(lia)). lia.
Qed.

Lemma snprintf_whole cap out : zlen out < cap → snprintf_buf cap out = out.
Proof. intros H. unfold snprintf_buf. apply take_ge. unfold zlen in H. lia. Qed.

Section replies.
Context (s : server) (a : Z) (Hs : serving s a).

Lemma reply_error_ok msg :
  cstr (bytes_of_string msg) = bytes_of_string msg → zlen (enc (VError (bytes_of_string msg))) < 512 →
  answered s a (same_data s) (enc (VError (bytes_of_string msg))) (reply_error s a msg).
Proof.
  intros Hc Hl. apply answered_bind.
  destruct (array_formats 512 (bytes_of_string msg) 0 ltac:(lia)) as (_ & Hf & _).
  { rewrite <-Hc. cbn [enc] in Hl. rewrite !zlen_app in Hl. rewrite Hc. change (zlen [45]) with 1 in Hl. change (zlen crlf) with 2 in Hl. lia. }
  rewrite Hc in Hf. pose proof (reply_formatted_ok s a _ _ _ Hs Hf) as H. rewrite fits_short in H by done. by apply H.
Qed.

Lemma reply_simple_ok msg :
  cstr (bytes_of_string msg) = bytes_of_string msg → zlen (enc (VSimple (bytes_of_string msg))) < 512 →
  answered s a (same_data s) (enc (VSimple (bytes_of_string msg))) (reply_simple s a msg).
Proof.
  intros Hc Hl. apply answered_bind.
  destruct (array_formats 512 (bytes_of_string msg) 0 ltac:(lia)) as (Hf & _).
  { cbn [enc] in Hl. rewrite !zlen_app in Hl. change (zlen [43]) with 1 in Hl. change (zlen crlf) with 2 in Hl. lia. }
  rewrite Hc in Hf. pose proof (reply_formatted_ok s a _ _ _ Hs Hf) as H. rewrite fits_short in H by done. by apply H.
Qed.

Lemma reply_integer_ok v :
  int64 v → answered s a (same_data s) (enc (VInt v)) (reply_integer s a v).
Proof.
  intros Hv. apply answered_bind. destruct (array_formats 64 [] v ltac:(lia)) as (_ & _ & Hf & _); [done|].
  pose proof (reply_formatted_ok s a _ _ _ Hs Hf) as H. rewrite fits_short in H; [by apply H|].
  cbn [enc]. rewrite !zlen_app. change (zlen [58]) with 1. change (zlen crlf) with 2. pose proof (dec_d_length v Hv). lia.
Qed.

Lemma reply_null_ok : answered s a (same_data s) (enc VNil) (reply_null s a).
Proof.
  apply answered_bind. destruct (array_formats 64 [] 0 ltac:(lia)) as (_ & _ & _ & _ & Hf); [done|].
  by apply (reply_formatted_ok s a _ _ _ Hs Hf).
Qed.

Lemma reply_bulk_ok bs :
  zlen bs < 2 ^ 62 → answered s a (same_data s) (fits 4096 (VBulk bs)) (reply_bulk s a bs).
Proof.
  intros Hb. apply answered_bind. destruct (array_formats 4096 bs 0 ltac:(lia)) as (_ & _ & _ & Hf & _); [done|].
  by apply (reply_formatted_ok s a _ _ _ Hs Hf).
Qed.

(** A text that fits its array with the NUL is queued whole. *)
Lemma reply_printed_ok cap out :
  0 < zlen out < cap → cap < 2 ^ 62 → answered s a (same_data s) out (reply_printed s a cap out).
Proof.
  intros Ho Hcap. unfold reply_printed, snprintf_n. rewrite Z.gtb_ltb. destruct (0 <? zlen out) eqn:E; zb; [|lia].
  apply answered_bind. rewrite snprintf_whole by lia.
  rewrite queue_array. apply queue_write_replied; [done|lia].
Qed.
End replies.

(** * Names and numbers *)

Lemma case_equal_spec x y : length x = length y → case_equal x y = bool_decide (map lower x = map lower y).
Proof.
  revert y. induction x as [|b x IH]; intros [|b' y] Hl; try done. cbn [case_equal map]. injection Hl as Hl.
  destruct (lower b =? lower b') eqn:E; zb.
  - rewrite (IH y Hl), E. apply bool_decide_ext. split; [by intros ->|by intros [=]].
  - rewrite bool_decide_eq_false_2; [done|]. by intros [= ?].
Qed.

Lemma str_case_equal_spec x y : str_case_equal x y = bool_decide (map lower x = map lower (cstr y)).
Proof.
  unfold str_case_equal. destruct (_ =? _) eqn:E; zb.
  - apply case_equal_spec. unfold zlen in E. lia.
  - rewrite bool_decide_eq_false_2; [done|]. intros Heq. apply E. unfold zlen. f_equal.
    by rewrite <-(length_map lower (cstr y)), <-Heq, length_map.
Qed.

(** The command word [name] stands for the command [cmd], in any case. *)
Definition named (cmd : string) (name : list Z) : Prop := map lower name = map lower (bytes_of_string cmd).

Lemma find_command_named cmd name : named cmd name → find_command name = find_command (bytes_of_string cmd).
Proof.
  intros Hn. unfold find_command. induction command_table as [|e es IH]; [done|]. cbn [find].
  rewrite !str_case_equal_spec, Hn. by rewrite IH.
Qed.

Lemma digits_i64_ok ds v :
  all_digits ds → 0 <= v → dval_from v ds <= INT64_MAX → digits_i64 ds v = Ok (Some (dval_from v ds)).
Proof.
  intros Hds. revert v. induction Hds as [|d ds Hd Hds IH]; intros v Hv Hmax; [done|]. cbn [digits_i64].
  rewrite dval_from_cons in *. apply is_digit_spec in Hd.
  destruct (dval_from_mono (v * 10 + (d - 48)) (v * 10 + (d - 48)) ds Hds) as [Hle _]; [lia|].
  rewrite Z.gtb_ltb. destruct (_ || _) eqn:E; [apply orb_true_iff in E as [E|E]; zb; lia|].
  unfold INT64_MAX in *. rewrite chk_i64_ok by (unfold INT64_MIN, INT64_MAX; lia). cbn [mbind exec_bind].
  rewrite chk_i64_ok by (unfold INT64_MIN, INT64_MAX; lia). cbn [mbind exec_bind]. apply IH; lia.
Qed.

Lemma parse_i64_dec_d z : - INT64_MAX <= z <= INT64_MAX → parse_i64 (dec_d z) = Ok (Some z).
Proof.
  intros Hz. unfold dec_d. destruct (z <? 0) eqn:E; zb.
  - destruct (dec_u_digits (- z)) as (d & ds & -> & Hall & Hv); [lia|]. cbn [parse_i64 Z.eqb Pos.eqb].
    rewrite digits_i64_ok by (try done; unfold dval in Hv; lia). cbn [mbind exec_bind]. unfold dval in Hv.
    rewrite Hv, Z.opp_involutive, chk_i64_ok by (unfold INT64_MIN, INT64_MAX in *; lia). done.
  - destruct (dec_u_digits z) as (d & ds & -> & Hall & Hv); [lia|]. cbn [parse_i64].
    pose proof (Forall_cons_1 _ _ _ Hall) as [Hd _]. apply is_digit_spec in Hd.
    destruct (d =? 45) eqn:E2; zb; [lia|].
    rewrite digits_i64_ok by (try done; unfold dval in Hv; lia). cbn [mbind exec_bind]. unfold dval in Hv. by rewrite Hv.
Qed.

Lemma parse_int_dec_d32 z : INT32_MIN <= z <= INT32_MAX → parse_int (dec_d z) = Ok (Some z).
Proof.
  intros Hz. unfold parse_int. rewrite parse_i64_dec_d by (unfold INT32_MIN, INT32_MAX, INT64_MAX in *; lia).
  cbn [mbind exec_bind option_map]. by rewrite to_i32_small.
Qed.

(** * Numerals *)

(** What a text says as a number: [TooBig] when the digits up to the first
    byte that is none denote more than an int64_t holds. *)
Inductive numeral := Malformed | Number (z : Z) | TooBig.

Fixpoint leading_digits (s : list Z) : list Z :=
  match s with
  | [] => []
  | d :: s' => if is_digit d then d :: leading_digits s' else []
  end.

Definition natural (ds : list Z) : numeral :=
  if INT64_MAX <? dval (leading_digits ds) then TooBig
  else match ds with [] => Malformed | _ => if forallb is_digit ds then Number (dval ds) else Malformed end.

(** An optional minus sign and digits. *)
Definition numeral_of (s : list Z) : numeral :=
  match s with
  | 45 :: ds => match natural ds with Number z => Number (- z) | n => n end
  | _ => natural s
  end.

Lemma chk_i64_big z : INT64_MAX < z → chk_i64 z = Stuck SignedOverflow.
Proof. intros H. unfold chk_i64. destruct (_ && _) eqn:E; zb; [lia|done]. Qed.

Lemma leading_digits_all s : Forall (λ d, is_digit d = true) (leading_digits s).
Proof. induction s as [|d s IH]; cbn [leading_digits]; [constructor|]. destruct (is_digit d) eqn:E; by constructor. Qed.

Lemma digits_i64_spec ds v :
  0 <= v <= INT64_MAX →
  digits_i64 ds v = if INT64_MAX <? dval_from v (leading_digits ds) then Stuck SignedOverflow
                    else Ok (if forallb is_digit ds then Some (dval_from v ds) else None).
Proof.
  revert v. induction ds as [|d ds IH]; intros v Hv; cbn [digits_i64 leading_digits forallb].
  { change (dval_from v []) with v. destruct (_ <? v) eqn:E; zb; [lia|done]. }
  assert ((d <? 48) || (d >? 57) = negb (is_digit d)) as ->.
  { unfold is_digit. rewrite negb_andb, Z.gtb_ltb, !Z.leb_antisym, !negb_involutive. done. }
  destruct (is_digit d) eqn:Ed; cbn [negb andb].
  2:{ change (dval_from v []) with v. destruct (_ <? v) eqn:E; zb; [lia|done]. }
  apply is_digit_spec in Ed. rewrite !dval_from_cons.
  destruct (decide (v * 10 + (d - 48) <= INT64_MAX)) as [Hle|Hgt].
  - rewrite chk_i64_ok by (unfold INT64_MIN; lia). cbn [mbind exec_bind].
    rewrite chk_i64_ok by (unfold INT64_MIN; lia). cbn [mbind exec_bind]. apply IH. lia.
  - pose proof (dval_from_mono (v * 10 + (d - 48)) (v * 10 + (d - 48)) _ (leading_digits_all ds) ltac:(lia)) as [Hm _].
    destruct (_ <? dval_from _ _) eqn:E; zb; [|lia].
    destruct (decide (v * 10 <= INT64_MAX)); [|by rewrite chk_i64_big by lia].
    rewrite chk_i64_ok by (unfold INT64_MIN; lia). cbn [mbind exec_bind]. by rewrite chk_i64_big by lia.
Qed.

Lemma leading_digits_whole ds : forallb is_digit ds = true → leading_digits ds = ds.
Proof.
  induction ds as [|d ds IH]; [done|]. cbn [forallb leading_digits]. intros [-> H]%andb_true_iff. by rewrite IH.
Qed.

(** What a numeral that denotes a number denotes. *)
Lemma natural_bounds ds z : natural ds = Number z → 0 <= z <= INT64_MAX.
Proof.
  unfold natural. destruct (_ <? _) eqn:E; [done|]. zb. destruct ds as [|d ds]; [done|].
  destruct (forallb is_digit (d :: ds)) eqn:Ea; [|done]. intros [= <-]. rewrite (leading_digits_whole _ Ea) in E.
  pose proof (dval_from_mono 0 0 _ (leading_digits_all (d :: ds)) ltac:(lia)) as [Hm _].
  rewrite (leading_digits_whole _ Ea) in Hm. unfold dval in *. lia.
Qed.

Lemma numeral_bounds s z : numeral_of s = Number z → - INT64_MAX <= z <= INT64_MAX.
Proof.
  intros H. assert (∃ y, natural (if decide (head s = Some 45) then tail s else s) = Number y ∧ (z = y ∨ z = - y)) as (y & Hy & Hz).
  { destruct s as [|c s]; cbn in *; [by eexists; eauto|]. case_decide as Hd.
    - injection Hd as ->. cbn in H. destruct (natural s); try done. injection H as <-. eauto.
    - assert (natural (c :: s) = Number z) as H'; [|by eauto]. revert H. destruct c as [|c|c]; try done.
      do 6 (destruct c as [c|c|]; try done). }
  apply natural_bounds in Hy. lia.
Qed.

Lemma natural_run ds :
  ds ≠ [] → digits_i64 ds 0 = match natural ds with Malformed => Ok None | Number z => Ok (Some z) | TooBig => Stuck SignedOverflow end.
Proof.
  intros Hne. rewrite digits_i64_spec by (unfold INT64_MAX; lia). unfold natural. fold (dval (leading_digits ds)) (dval ds).
  destruct (_ <? _); [done|]. destruct ds; [done|]. by destruct (forallb _ _).
Qed.

(** parse_i64 reads numerals; one that is too big overflows. *)
Lemma parse_i64_spec s :
  parse_i64 s = match numeral_of s with Malformed => Ok None | Number z => Ok (Some z) | TooBig => Stuck SignedOverflow end.
Proof.
  destruct s as [|c s]; [done|]. destruct (decide (c = 45)) as [->|Hne].
  - cbn [parse_i64 numeral_of Z.eqb Pos.eqb]. destruct s as [|d s]; [done|]. rewrite natural_run by done.
    destruct (natural (d :: s)) as [|z|] eqn:En; cbn [mbind exec_bind]; [done| |done]. apply natural_bounds in En.
    by rewrite chk_i64_ok by (unfold INT64_MIN, INT64_MAX in *; lia).
  - assert (numeral_of (c :: s) = natural (c :: s)) as ->.
    { destruct c as [|c|c]; try done. do 6 (destruct c as [c|c|]; try done). }
    cbn [parse_i64]. destruct (c =? 45) eqn:E; zb; [done|]. rewrite natural_run by done. by destruct (natural _).
Qed.

(** * Scores *)

Definition scores_ok (M : zmap) : Prop := ∀ key zs member z, M !! key = Some zs → (member, z) ∈ zs → int64 z.

Lemma zset_add_scores max zs score member m z :
  int64 score → (∀ m z, (m, z) ∈ zs → int64 z) → (m, z) ∈ (zset_add max zs score member).2 → int64 z.
Proof.
  intros Hs Hzs. unfold zset_add. destruct (_ || _); cbn; [apply Hzs|]. destruct (zset_index zs member) as [i|]; cbn.
  - intros [j Hj]%list_elem_of_lookup. apply list_lookup_insert_Some in Hj as [(_ & [= <- <-] & _)|[_ Hj]]; [done|].
    eapply Hzs. by eapply list_elem_of_lookup_2.
  - destruct (_ >=? _); cbn; [apply Hzs|]. rewrite elem_of_app. intros [Hin|Hin]; [by eapply Hzs|].
    apply list_elem_of_singleton in Hin as [= -> ->]. done.
Qed.

Lemma zmap_add_scores max M room key score member :
  int64 score → scores_ok M → scores_ok (zmap_add max M room key score member).2.1.
Proof.
  intros Hs HM k zs m z. unfold zmap_add. destruct (M !! key) as [zs0|] eqn:E.
  - cbn. rewrite lookup_insert_Some. intros [[<- <-]|[_ Hk]]; [|by eapply HM].
    apply zset_add_scores; [done|]. intros m' z' Hin. by eapply HM.
  - destruct (_ <=? 0); [by apply HM|]. destruct (_ <=? _); [|by apply HM]. cbn.
    rewrite lookup_insert_Some. intros [[<- <-]|[_ Hk]]; [|by eapply HM].
    apply zset_add_scores; [done|]. intros m' z' Hin. by apply elem_of_nil in Hin.
Qed.

Lemma scores_ok_score M key member z :
  scores_ok M → (M !! key ≫= λ zs, zset_score zs member) = Some z → int64 z.
Proof.
  intros HM Hz. destruct (M !! key) as [zs|] eqn:Ek; [|done]. cbn in Hz. unfold zset_score in Hz.
  destruct (zset_index zs member) as [i|]; [|done]. cbn in Hz. destruct (zs !! i) as [[m z']|] eqn:Ei; [|done].
  injection Hz as <-. eapply HM; [done|]. by eapply list_elem_of_lookup_2.
Qed.

(** The numeral of a score takes less than the 64 bytes it is printed to. *)
Lemma round_even_le n m : 0 <= n → 0 <= m → 0 <= round_even n m <= n / m + 1 ∧ n / m <= n.
Proof.
  intros Hn Hm. unfold round_even. assert (0 <= n / m <= n) as Hd.
  { destruct (decide (m = 0)) as [->|]; [rewrite Z.div_0_r; lia|].
    split; [apply Z.div_pos; lia|]. apply Z.div_le_upper_bound; nia. }
  destruct (_ || _); lia.
Qed.

Lemma to_double_bound z : int64 z → Z.abs (to_double z) <= 2 ^ 64.
Proof.
  unfold int64, INT64_MIN, INT64_MAX, to_double. intros Hz. set (n := Z.abs z). set (e := Z.log2 n - 52).
  destruct (e <=? 0) eqn:E; zb; [lia|]. assert (0 < 2 ^ e) as Hm by (apply Z.pow_pos_nonneg; lia).
  destruct (round_even_le n (2 ^ e)) as [[H0 H1] _]; [lia|lia|].
  assert (0 < n) as Hn by (destruct (decide (n = 0)) as [Hn0|]; [unfold e in E; rewrite Hn0 in E; cbn in E; lia|lia]).
  assert (2 ^ e <= n) as He.
  { pose proof (Z.log2_spec n Hn) as [Hlog _]. etransitivity; [|exact Hlog]. apply Z.pow_le_mono_r; unfold e; lia. }
  pose proof (Z.mul_div_le n (2 ^ e) Hm). rewrite Z.abs_mul. assert (Z.abs (Z.sgn z) <= 1) by lia.
  rewrite (Z.abs_eq (_ * _)) by nia. nia.
Qed.

Lemma strip_zeros_length ds : zlen (strip_zeros ds) <= zlen ds.
Proof.
  induction ds as [|d ds IH]; cbn [strip_zeros]; [done|]. rewrite zlen_cons. pose proof (zlen_nonneg ds).
  destruct (strip_zeros ds) as [|x r]; [destruct (_ =? _); rewrite ?zlen_cons, zlen_nil; lia|]. rewrite !zlen_cons in *. lia.
Qed.

Lemma fmt_g17_length z : Z.abs z <= 2 ^ 64 → zlen (fmt_g17 z) < 64.
Proof.
  intros Hz. unfold fmt_g17. set (n := Z.abs z) in *. set (sign := if z <? 0 then [45] else []).
  assert (zlen sign <= 1) as Hsign by (unfold sign; by destruct (z <? 0)).
  destruct (n <? 10 ^ 17) eqn:E; zb.
  { rewrite zlen_app. pose proof (dec_u_length n 17 ltac:(lia) ltac:(lia)). lia. }
  pose proof (dec_u_length n 20 ltac:(lia) ltac:(lia)) as Hlen. set (len := zlen (dec_u n)) in *.
  set (q0 := round_even n (10 ^ (len - 17))).
  assert (∀ q x, 0 <= q < 10 ^ 20 → 0 <= x < 100 → zlen (match dec_u q with [] => sign | d1 :: ds =>
    sign ++ [d1] ++ (match strip_zeros ds with [] => [] | _ => [46] ++ strip_zeros ds end) ++ [101; 43] ++ dec_u x end) < 64) as H.
  { intros q x Hq Hx. pose proof (dec_u_length q 20 ltac:(lia) ltac:(lia)) as Hlq.
    pose proof (dec_u_length x 2 ltac:(lia) ltac:(lia)) as Hlx. destruct (dec_u q) as [|d1 ds]; [lia|].
    pose proof (strip_zeros_length ds). rewrite zlen_cons in Hlq. pose proof (zlen_nonneg (strip_zeros ds)).
    rewrite !zlen_app. change (zlen [d1]) with 1. change (zlen [101; 43]) with 2.
    destruct (strip_zeros ds) as [|y r]; [change (zlen (@nil Z)) with 0; lia|]. rewrite zlen_app. change (zlen [46]) with 1. lia. }
  assert (0 <= q0 < 10 ^ 20) as Hq0.
  { destruct (round_even_le n (10 ^ (len - 17))) as [H0 H1]; [lia|apply Z.pow_nonneg; lia|]. unfold q0. lia. }
  destruct (q0 =? 10 ^ 17); apply H; lia.
Qed.

Lemma fmt_g17_pos z : 0 < zlen (fmt_g17 z).
Proof.
  unfold fmt_g17. set (sign := if z <? 0 then [45] else []). pose proof (zlen_nonneg sign).
  destruct (_ <? 10 ^ 17) eqn:E; zb; [rewrite zlen_app; pose proof (dec_u_pos (Z.abs z) ltac:(lia)); lia|].
  set (q0 := round_even _ _). assert (0 <= q0) as Hq0.
  { apply round_even_le; [lia|]. apply Z.pow_nonneg. lia. }
  assert (∀ q x, 0 <= q → 0 < zlen (match dec_u q with [] => sign | d1 :: ds =>
    sign ++ [d1] ++ (match strip_zeros ds with [] => [] | _ => [46] ++ strip_zeros ds end) ++ [101; 43] ++ dec_u x end)) as H'.
  { intros q x Hq. pose proof (dec_u_pos q Hq) as Hp. destruct (dec_u q) as [|d1 ds]; [done|].
    rewrite !zlen_app. change (zlen [d1]) with 1. change (zlen [101; 43]) with 2.
    pose proof (zlen_nonneg (dec_u x)). pose proof (zlen_nonneg (match strip_zeros ds with [] => [] | _ => [46] ++ strip_zeros ds end)). lia. }
  destruct (q0 =? 10 ^ 17); apply H'; lia.
Qed.

Lemma to_double_small z : Z.abs z < 2 ^ 53 → to_double z = z.
Proof.
  intros Hz. unfold to_double. destruct (_ <=? 0) eqn:E; zb; [done|]. exfalso.
  destruct (decide (Z.abs z = 0)) as [H0|]; [rewrite H0 in E; cbn in E; lia|].
  assert (Z.log2 (Z.abs z) < 53) by (apply Z.log2_lt_pow2; lia). lia.
Qed.

Lemma fmt_g17_small z : Z.abs z < 2 ^ 53 → fmt_g17 z = dec_d z.
Proof.
  intros Hz. unfold fmt_g17, dec_d. destruct (_ <? 10 ^ 17) eqn:E; zb; [|lia].
  destruct (z <? 0) eqn:E2; zb; cbn [app]; do 2 f_equal; lia.
Qed.

Lemma record_command_ok m name :
  metrics_ok m → ∃ m', zedis_metrics_record_command m name = Ok m' ∧ metrics_ok m'.
Proof.
  intros Hm. destruct m as [m|]; cbn [zedis_metrics_record_command]; [|by exists None].
  assert (-1 <= command_index name < zlen command_names) as Hi.
  { unfold command_index. assert (∀ names i, 0 <= i → -1 <= command_index_from i names name < i + zlen names) as H.
    { induction names as [|n names IH]; intros i Hi; cbn [command_index_from]; [unfold zlen; cbn [length]; lia|].
      rewrite zlen_cons. pose proof (zlen_nonneg names). destruct (bool_decide _); [lia|].
      specialize (IH (i + 1) ltac:(lia)). lia. }
    pose proof (H command_names 0 ltac:(lia)). lia. }
  rewrite Z.geb_leb. destruct (0 <=? _) eqn:E; zb; [|by exists (Some m)]. cbn [metrics_ok] in Hm.
  destruct (aget_ok (command_counts m) (command_index name)) as (n & -> & _); [unfold zlen in *; lia|].
  cbn [mbind exec_bind]. rewrite aset_ok by (unfold zlen in *; lia). cbn [mbind exec_bind].
  eexists. split; [done|]. cbn. by rewrite length_insert.
Qed.
