(* ===== verification/StoreSpec.v ===== *)
(** What the data commands do, stated on an abstract store, and that the
    handlers do it. *)

From stdpp Require Import gmap sorting.
From S2P Require Import Prelude Arena HashTable HashTableSpec OrderBook RingBuffer AppendLog BTree BTreeShape.
From S2P Require Import ZSet KeyRegistry RegistrySpec Slab Resp RespSafe RespRound RespFormat RespSpec EventLoop Conn.
From S2P Require Import Metrics ServerState Commands CommandSpec.

(** * The abstract store *)

Record limits := Limits {
  lim_keys : Z;
  lim_pmin : Z;
  lim_pmax : Z;
  lim_members : Z;
  lim_log : Z;
}.

(** The keys and values: a map as long as nothing was deleted; afterwards the
    table has lost track of some keys (see HashTableSpec), and all that is
    known is that it holds nothing but pairs of the list. *)
Inductive keyspace :=
  | Exactly (m : gmap (list Z) (list Z))
  | Within (H : list (list Z * list Z)).

Record world := World {
  w_kv : keyspace;
  w_level : Z → price_level;
  w_zsets : gmap (list Z) zset;
  w_zroom : Z;
  w_lists : gmap (list Z) (list (list Z));
  w_lroom : Z;
  w_lused : Z;
}.

Definition with_kv (W : world) (m : keyspace) : world :=
  World m (w_level W) (w_zsets W) (w_zroom W) (w_lists W) (w_lroom W) (w_lused W).
Definition with_price (W : world) (p : Z) (l : price_level) : world :=
  World (w_kv W) (λ q, if q =? p then l else w_level W q) (w_zsets W) (w_zroom W) (w_lists W) (w_lroom W) (w_lused W).
Definition with_zsets (W : world) (x : gmap (list Z) zset * Z) : world :=
  World (w_kv W) (w_level W) x.1 x.2 (w_lists W) (w_lroom W) (w_lused W).
Definition with_lists (W : world) (x : gmap (list Z) (list (list Z)) * Z * Z) : world :=
  World (w_kv W) (w_level W) (w_zsets W) (w_zroom W) x.1.1 x.1.2 x.2.

Definition kv_rep (ht : hash_table) (ks : keyspace) : Prop :=
  match ks with Exactly m => ht_refines ht m | Within H => ht_within ht H end.

(** The data of the server represents the store. *)
Definition holds (L : limits) (s : server) (W : world) : Prop :=
  (kv_rep (kv s) (w_kv W) ∧ ht_capacity (kv s) = lim_keys L) ∧
  (book_wf (book s) ∧ price_min (book s) = lim_pmin L ∧ price_max (book s) = lim_pmax L ∧
   ∀ p, lim_pmin L <= p <= lim_pmax L → level_at (book s) p = Some (w_level W p)) ∧
  (zreg_rep (zsets s) (lim_members L) (w_zsets W) (w_zroom W) ∧ scores_ok (w_zsets W)) ∧
  lreg_rep (lists s) (aol s) (lim_log L) (w_lists W, w_lroom W, w_lused W).

Lemma holds_same L s s' W : same_data s s' → holds L s W → holds L s' W.
Proof. intros (E1 & E2 & _ & E4 & E5 & E6). unfold holds. by rewrite E1, E2, E4, E5, E6. Qed.

(** * Commands and their answers *)

Definition err (msg : string) : list Z := enc (VError (bytes_of_string msg)).
Definition ok_reply : list Z := enc (VSimple (bytes_of_string "OK")).
Definition set_refused : list Z := err "ERR hash table full or value too large".

(** What a command comes to: a new store and a reply that satisfies a
    predicate; undefined behaviour; a reply that is longer than the array it
    is printed to; or an effect on connections, which the store does not
    describe. *)
Inductive outcome :=
  | Answer (W : world) (R : list Z → Prop)
  | Fault (f : fault)
  | Overlong (text : list Z)
  | Elsewhere.

(** SET, GET and DEL.  After a deletion a key can be found with any value it
    was stored with, or not at all, and the load limit can refuse a pair. *)
Definition kv_set (cap : Z) (ks : keyspace) (k v : list Z) : keyspace * (list Z → Prop) :=
  match ks with
  | Exactly m => (Exactly (spec_set cap m k v).2, eq (if (spec_set cap m k v).1 =? 0 then ok_reply else set_refused))
  | Within H => (Within ((k, v) :: H),
      λ out, out = ok_reply ∧ zlen k <= ZEDIS_HT_MAX_KEY ∧ zlen v <= ZEDIS_HT_MAX_VALUE ∨ out = set_refused)
  end.

Definition kv_get (ks : keyspace) (k : list Z) : list Z → Prop :=
  match ks with
  | Exactly m => eq (match m !! k with Some v => fits 4096 (VBulk v) | None => enc VNil end)
  | Within H => λ out, out = enc VNil ∨ ∃ v, (k, v) ∈ H ∧ out = fits 4096 (VBulk v)
  end.

Definition kv_del (ks : keyspace) (k : list Z) : keyspace * (list Z → Prop) :=
  match ks with
  | Exactly m =>
      match m !! k with
      | None => (ks, eq (enc (VInt 0)))
      | Some _ => (Within (map_to_list (delete k m)), eq (enc (VInt 1)))
      end
  | Within H => (ks, λ out, out = enc (VInt 0) ∨ out = enc (VInt 1) ∧ ∃ v, (k, v) ∈ H)
  end.

(** A command is its arguments, [None] for one that is no bulk string. *)
Abbreviation arguments := (list (option (list Z))) (only parsing).

Section respond.
Context (L : limits) (W : world).

Definition says (out : list Z) : outcome := Answer W (eq out).

Definition wrong_args (cmd : string) : outcome :=
  says (err ("ERR wrong number of arguments for '" ++ cmd ++ "' command")).

(** A number among the arguments. *)
Definition on_number (text : list Z) (bad : string) (k : Z → outcome) : outcome :=
  match numeral_of text with
  | Malformed => says (err bad)
  | Number z => k z
  | TooBig => Fault SignedOverflow
  end.

Definition spec_ping (args : arguments) : outcome :=
  match args with
  | [] => says (enc (VSimple (bytes_of_string "PONG")))
  | Some msg :: _ => says (fits 4096 (VBulk msg))
  | None :: _ => says []
  end.

Definition spec_echo (args : arguments) : outcome :=
  match args with Some msg :: _ => says (fits 4096 (VBulk msg)) | _ => wrong_args "echo" end.

Definition spec_SET (args : arguments) : outcome :=
  match args with
  | Some k :: Some v :: _ => let r := kv_set (lim_keys L) (w_kv W) k v in Answer (with_kv W r.1) r.2
  | _ => wrong_args "set"
  end.

Definition spec_GET (args : arguments) : outcome :=
  match args with Some k :: _ => Answer W (kv_get (w_kv W) k) | _ => wrong_args "get" end.

Definition spec_DEL (args : arguments) : outcome :=
  match args with
  | Some k :: _ => let r := kv_del (w_kv W) k in Answer (with_kv W r.1) r.2
  | _ => wrong_args "del"
  end.

(** BID and ASK: a price is cut to an int before it is compared. *)
Definition spec_order (sd : side) (word : string) (args : arguments) : outcome :=
  match args with
  | Some price :: Some qty :: _ =>
      on_number price ("ERR invalid " ++ word ++ " arguments") (λ p,
      on_number qty ("ERR invalid " ++ word ++ " arguments") (λ q,
      let p := to_i32 p in
      if bool_decide (lim_pmin L <= p <= lim_pmax L) then
        if side_qty sd (w_level W p) + q <=? INT64_MAX
        then Answer (with_price W p (spec_place (Order sd p q) (w_level W p))) (eq (enc (VInt q)))
        else Fault SignedOverflow
      else says (err "ERR price out of range")))
  | _ => wrong_args word
  end.

Definition spec_book (args : arguments) : outcome :=
  match args with
  | Some price :: _ =>
      on_number price "ERR invalid price" (λ p,
      let p := to_i32 p in
      if bool_decide (lim_pmin L <= p <= lim_pmax L)
      then says (enc (VArr [VInt (bid_qty (w_level W p)); VInt (ask_qty (w_level W p))]))
      else says (err "ERR price out of range"))
  | _ => wrong_args "book"
  end.

Definition score_of (key member : list Z) : option Z := w_zsets W !! key ≫= λ zs, zset_score zs member.

Definition spec_zadd (args : arguments) : outcome :=
  match args with
  | Some key :: Some score :: Some member :: _ =>
      on_number score "ERR value is not a valid float" (λ z,
      let r := zmap_add (lim_members L) (w_zsets W) (w_zroom W) key z member in
      Answer (with_zsets W r.2)
        (eq (if r.1 =? 0 then enc (VInt (match score_of key member with Some _ => 0 | None => 1 end))
             else err "ERR zset full or member too large")))
  | _ => wrong_args "zadd"
  end.

(** The score is answered as the double nearest to it. *)
Definition spec_zscore (args : arguments) : outcome :=
  match args with
  | Some key :: Some member :: _ =>
      says (match score_of key member with Some z => enc (VBulk (fmt_g17 (to_double z))) | None => enc VNil end)
  | _ => wrong_args "zscore"
  end.

Definition spec_zrange (args : arguments) : outcome :=
  match args with
  | Some key :: Some start :: Some stop :: _ =>
      on_number start "ERR value is not an integer or out of range" (λ i,
      on_number stop "ERR value is not an integer or out of range" (λ j,
      Answer W (λ out, ∃ l, l ≡ₚ default [] (w_zsets W !! key) ∧ sorted l.*2 ∧
        out = default (err "ERR zrange failed") (zset_range l.*1 i j 8192))))
  | _ => wrong_args "zrange"
  end.

Definition spec_lpush (args : arguments) : outcome :=
  match args with
  | Some key :: Some val :: _ =>
      let r := lmap_push (lim_log L) (w_lists W, w_lroom W, w_lused W) key val in
      Answer (with_lists W r.2)
        (eq (if r.1 =? 0 then enc (VInt (zlen (default [] (r.2.1.1 !! key)))) else err "ERR list full or append log full"))
  | _ => wrong_args "lpush"
  end.

Definition spec_LRANGE (args : arguments) : outcome :=
  match args with
  | Some key :: Some start :: Some stop :: _ =>
      on_number start "ERR value is not an integer or out of range" (λ i,
      on_number stop "ERR value is not an integer or out of range" (λ j,
      says (let r := spec_lrange (default [] (w_lists W !! key)) i j in
            if zlen r <? 8192 then r else err "ERR lrange failed")))
  | _ => wrong_args "lrange"
  end.

Definition spec_llen (args : arguments) : outcome :=
  match args with
  | Some key :: _ => says (enc (VInt (zlen (default [] (w_lists W !! key)))))
  | _ => wrong_args "llen"
  end.

Definition spec_publish (args : arguments) : outcome :=
  match args with Some _ :: Some _ :: _ => Elsewhere | _ => wrong_args "publish" end.
Definition spec_subscribe (args : arguments) : outcome :=
  match args with Some _ :: _ => Elsewhere | _ => wrong_args "subscribe" end.
Definition spec_quit (args : arguments) : outcome := Elsewhere.

Definition responses : list (string * (arguments → outcome)) :=
  [ ("PING"%string, spec_ping); ("ECHO"%string, spec_echo); ("SET"%string, spec_SET);
    ("GET"%string, spec_GET); ("BID"%string, spec_order Bid "bid"); ("ASK"%string, spec_order Ask "ask");
    ("BOOK"%string, spec_book); ("DEL"%string, spec_DEL); ("ZADD"%string, spec_zadd);
    ("ZSCORE"%string, spec_zscore); ("ZRANGE"%string, spec_zrange); ("LPUSH"%string, spec_lpush);
    ("LRANGE"%string, spec_LRANGE); ("LLEN"%string, spec_llen); ("PUBLISH"%string, spec_publish);
    ("SUBSCRIBE"%string, spec_subscribe); ("QUIT"%string, spec_quit) ].

(** The reply to an unknown word is printed to an array of 512 bytes. *)
Definition spec_unknown (name : list Z) : outcome :=
  let text := unknown_reply name in
  if zlen text <? 512 then says text
  else if zlen text =? 512 then says (take 511 text ++ [0])
  else Overlong text.

#[export] Instance named_dec cmd name : Decision (named cmd name).
Proof. unfold named. apply _. Defined.

(** What the command [args] comes to in the store. *)
Definition respond (args : arguments) : outcome :=
  match args with
  | Some name :: rest =>
      match find (λ e, bool_decide (named e.1 name)) responses with
      | Some e => e.2 rest
      | None => spec_unknown name
      end
  | _ => says (err "ERR invalid command format")
  end.
End respond.

(** A command of bulk strings that is answered. *)
Definition answers (L : limits) (W : world) (args : list (list Z)) (W' : world) (R : list Z → Prop) : Prop :=
  args ≠ [] ∧ respond L W (map Some args) = Answer W' R.

(** * The handlers give these answers *)

(** The result of running a command on an open connection. *)
Definition gives (L : limits) (s : server) (a : Z) (W' : world) (R : list Z → Prop) (r : exec (Z * server)) : Prop :=
  ∃ out, R out ∧
    if overrun s a out then r = Stuck BlockOverrun
    else ∃ s', r = Ok (0, s') ∧ holds L s' W' ∧ replied s s' a out.

Lemma answered_gives L s a s1 W' (R : list Z → Prop) out r :
  answered s1 a (same_data s1) out r → holds L s1 W' → R out →
  (conns s1 = conns s ∧ ∀ s', replied s1 s' a out → replied s s' a out) → gives L s a W' R r.
Proof.
  intros Ha Hh HR [Hcs Hpre]. exists out. split; [done|]. unfold answered, overrun in *. rewrite Hcs in Ha.
  destruct (match _ with Some c => _ | None => _ end); [done|]. destruct Ha as (s' & -> & Hd & Hr). exists s'. split; [done|].
  split; [by eapply holds_same|]. by apply Hpre.
Qed.

Lemma lreg_count reg log cap L room used key :
  lreg_rep reg log cap (L, room, used) → int64 (zlen (default [] (L !! key))).
Proof.
  intros Hrep. destruct (lreg_lookup _ _ _ _ _ _ key Hrep) as [(_ & H32 & Hw) Hk].
  assert (zlen (default [] (L !! key)) <= 2 ^ 32) as Hle.
  { destruct (L !! key) as [vals|]; cbn [default from_option id]; [|done].
    destruct Hk as (i & m & _ & _ & [Hc _]). apply chain_count in Hc; [|lia]. unfold UINT32_MAX in *. lia. }
  pose proof (zlen_nonneg (default [] (L !! key))). unfold int64, INT64_MIN, INT64_MAX. lia.
Qed.

Lemma array_header_short cap n h : array_header cap n = Some h → zlen h < cap.
Proof. unfold array_header. destruct (_ || _) eqn:E; zb; [done|]. by intros [= <-]. Qed.

Lemma append_fits_short cap h xs : zlen h < cap → zlen (foldl (append_if_fits cap) h xs) < cap.
Proof.
  revert h. induction xs as [|x xs IH]; intros h Hh; cbn [foldl]; [done|]. apply IH. unfold append_if_fits.
  destruct (_ && _) eqn:E; zb; [|done]. rewrite zlen_app. lia.
Qed.

Lemma zset_range_short names start stop cap out : zset_range names start stop cap = Some out → zlen out < cap.
Proof.
  unfold zset_range. destruct (_ <? Z.max 0 start); [apply array_header_short|].
  destruct (array_header _ _) as [h|] eqn:Eh; [|done]. intros [= <-]. apply append_fits_short. by eapply array_header_short.
Qed.

Lemma stored_value_short ht m k v : ht_refines ht m → m !! k = Some v → zlen v <= ZEDIS_HT_MAX_VALUE.
Proof.
  intros Href Hk. destruct (refines_found _ _ _ _ Href Hk) as (j & e & (_ & He & _) & <-).
  destruct Href as ((_ & [_ Hs] & _) & _). destruct (Hs _ _ He) as (Hb & _). rewrite zlen_evalue by done.
  destruct Hb as (_ & _ & _ & ?). lia.
Qed.

(** A bulk string of 4096 bytes never fits the 4096-byte reply buffer. *)
Lemma fits_bulk_full v : 4096 <= zlen v → fits 4096 (VBulk v) = [].
Proof.
  intros Hv. unfold fits. cbn [enc]. rewrite !zlen_app. pose proof (zlen_nonneg (dec_u (zlen v))).
  change (zlen [36]) with 1. change (zlen crlf) with 2. destruct (_ <? _) eqn:E; zb; [lia|done].
Qed.

Section handlers.
Context (L : limits) (s : server) (a : Z) (W : world) (Hs : serving s a) (Hh : holds L s W).

Lemma gives_error R msg :
  cstr (bytes_of_string msg) = bytes_of_string msg → zlen (err msg) < 512 → R (err msg) →
  gives L s a W R (reply_error s a msg).
Proof. intros. by eapply answered_gives; [apply reply_error_ok| | |]. Qed.

Lemma gives_integer (R : list Z → Prop) v : int64 v → R (enc (VInt v)) → gives L s a W R (reply_integer s a v).
Proof. intros. by eapply answered_gives; [apply reply_integer_ok| | |]. Qed.

Lemma gives_null (R : list Z → Prop) : R (enc VNil) → gives L s a W R (reply_null s a).
Proof. intros. by eapply answered_gives; [apply reply_null_ok| | |]. Qed.

Lemma gives_nothing (R : list Z → Prop) : R [] → gives L s a W R (Ok (0, s)).
Proof. intros HR. exists []. split; [done|]. rewrite nothing_fits by done. exists s. split; [done|]. split; [done|by apply replied_nothing]. Qed.

Lemma gives_bulk (R : list Z → Prop) bs :
  zlen bs < 2 ^ 62 → R (fits 4096 (VBulk bs)) → gives L s a W R (reply_bulk s a bs).
Proof. intros. by eapply answered_gives; [apply reply_bulk_ok| | |]. Qed.

Lemma gives_raw (R : list Z → Prop) out :
  zlen out < 2 ^ 62 → R out → gives L s a W R (s' ← queue_write s a out (zlen out); Ok (0, s')).
Proof.
  intros Ho HR. eapply answered_gives; [apply answered_bind, queue_write_replied| | |]; done.
Qed.
End handlers.

(** The error replies are constants: their side conditions compute. *)
Ltac error_reply := apply gives_error; [done|done|reflexivity|reflexivity|].

(** Whether [text] fits what the connection's output may still take. *)
Definition fits_output (s : server) (a : Z) (text : list Z) : bool :=
  match conns s !! a with Some c => zlen (pending c) + zlen text <=? ZEDIS_CONN_WRITE_SIZE | None => false end.

(** A run of a command comes to the outcome [o]; an overlong reply is read
    past its array, or closes the connection where it would not fit anyway. *)
Definition comes_to (L : limits) (s : server) (a : Z) (W : world) (o : outcome) (r : exec (Z * server)) : Prop :=
  match o with
  | Answer W' R => gives L s a W' R r
  | Fault f => r = Stuck f
  | Overlong text => if fits_output s a text then r = Stuck OverRead else gives L s a W (eq text) r
  | Elsewhere => True
  end.

(** Arguments of a size that fits the address space. *)
Definition sized (args : arguments) : Prop := ∀ bs, Some bs ∈ args → zlen bs < 2 ^ 61.

Lemma sized_head bs rest : sized (Some bs :: rest) → zlen bs < 2 ^ 62.
Proof. intros H. specialize (H bs ltac:(by left)). lia. Qed.

Section commands.
Context (L : limits) (s : server) (a : Z) (W : world) (Hs : serving s a) (Hh : holds L s W) (name : list Z).

Abbreviation runs_to fn spec := (∀ rest, sized rest → comes_to L s a W (spec rest) (fn s a (Some name :: rest))).

(** A number is parsed, and the rest of the handler runs with it. *)
Lemma number_comes_to text bad k (f : option Z → exec (Z * server)) :
  cstr (bytes_of_string bad) = bytes_of_string bad → zlen (err bad) < 512 → f None = reply_error s a bad →
  (∀ z, - INT64_MAX <= z <= INT64_MAX → comes_to L s a W (k z) (f (Some z))) →
  comes_to L s a W (on_number W text bad k) (r ← parse_i64 text; f r).
Proof.
  intros Hc Hl Hbad Hk. rewrite parse_i64_spec. unfold on_number. destruct (numeral_of text) as [|z|] eqn:E; cbn [mbind exec_bind].
  - rewrite Hbad. by apply gives_error.
  - apply Hk. by eapply numeral_bounds.
  - done.
Qed.

Lemma price_comes_to text bad k (f : option Z → exec (Z * server)) :
  cstr (bytes_of_string bad) = bytes_of_string bad → zlen (err bad) < 512 → f None = reply_error s a bad →
  (∀ z, - INT64_MAX <= z <= INT64_MAX → comes_to L s a W (k z) (f (Some (to_i32 z)))) →
  comes_to L s a W (on_number W text bad k) (r ← parse_int text; f r).
Proof.
  intros Hc Hl Hbad Hk. pose proof (number_comes_to text bad k (λ r, f (option_map to_i32 r)) Hc Hl Hbad Hk) as H.
  unfold parse_int. by destruct (parse_i64 text).
Qed.

Lemma ping_comes_to : runs_to ping_command (spec_ping W).
Proof.
  intros [|[msg|] rest] Hsz; unfold ping_command.
  - by eapply answered_gives; [apply reply_simple_ok; [exact Hs|done..]|exact Hh|done|done].
  - destruct (zlen _ =? 1) eqn:E; zb; [rewrite !zlen_cons in E; pose proof (zlen_nonneg rest); lia|].
    apply gives_bulk; [done|done|by eapply sized_head|done].
  - destruct (zlen _ =? 1) eqn:E; zb; [rewrite !zlen_cons in E; pose proof (zlen_nonneg rest); lia|].
    by apply gives_nothing.
Qed.

Lemma echo_comes_to : runs_to echo_command (spec_echo W).
Proof.
  intros [|[msg|] rest] Hsz; [by error_reply| |by error_reply].
  apply gives_bulk; [done|done|by eapply sized_head|done].
Qed.

(** The table is replaced by one that represents [ks]. *)
Lemma holds_kv ht' ks : kv_rep ht' ks → ht_capacity ht' = lim_keys L → holds L (set_kv s ht') (with_kv W ks).
Proof. intros Hr Hc. pose proof Hh as (_ & Hrest). split; [by split|exact Hrest]. Qed.

Lemma set_comes_to : runs_to set_command (spec_SET L W).
Proof.
  intros [|[k|] [|[v|] rest] ] Hsz; try (by error_reply). unfold set_command. change (cmd_bulk2 _) with (Some (k, v)). cbv iota beta.
  cbn [spec_SET comes_to]. pose proof Hh as ([Hkv Hcap] & _). unfold kv_rep, kv_set in *. destruct (w_kv W) as [m|H].
  - destruct (ht_set_refines (kv s) m k v Hkv) as (ht' & -> & Href & Hcap'). rewrite Hcap in *.
    cbn [mbind exec_bind fst snd]. pose proof (holds_kv ht' (Exactly _) Href Hcap') as Hh'.
    destruct (_ =? 0); cbn [negb].
    + eapply (answered_gives L s a (set_kv s ht')); [by apply reply_simple_ok|done|done|done].
    + eapply (answered_gives L s a (set_kv s ht')); [by apply reply_error_ok|done|done|done].
  - destruct (ht_set_within (kv s) H k v Hkv) as (rc & ht' & -> & Hw & Hcap' & Hrc). rewrite Hcap in Hcap'.
    cbn [mbind exec_bind fst snd]. pose proof (holds_kv ht' (Within _) Hw Hcap') as Hh'.
    destruct Hrc as [(-> & Hk & Hv)| ->]; cbn [RC_OK RC_ERR Z.eqb negb].
    + eapply (answered_gives L s a (set_kv s ht')); [by apply reply_simple_ok|done|by left|done].
    + eapply (answered_gives L s a (set_kv s ht')); [by apply reply_error_ok|done|by right|done].
Qed.

Lemma value_array_read v :
  zlen v <= ZEDIS_HT_MAX_VALUE → ∃ v', zlen v' = zlen v ∧
    (value ← read_n (value_array (get_result ZEDIS_HT_MAX_VALUE v).1) 0 (get_result ZEDIS_HT_MAX_VALUE v).2;
     reply_bulk s a value) = reply_bulk s a v' ∧ (zlen v < ZEDIS_HT_MAX_VALUE → v' = v).
Proof.
  intros Hv. pose proof (zlen_nonneg v) as Hv0. unfold get_result, ZEDIS_HT_MAX_VALUE in *. cbn [Z.gtb Z.compare].
  change (4096 >? 0) with true. cbv iota. cbn [fst snd].
  destruct (zlen v <? 4096) eqn:E; zb.
  - exists v. split; [done|]. split; [|done].
    assert (take (Z.to_nat (zlen v)) v = v) as -> by (apply take_ge; unfold zlen; lia).
    unfold value_array. rewrite read_n_ok by (rewrite ?zlen_app, ?zlen_replicate; pose proof (zlen_nonneg (replicate (Z.to_nat (ZEDIS_HT_MAX_VALUE - zlen (v ++ [0]))) 0)); unfold zlen; cbn [length]; lia).
    cbn [mbind exec_bind]. by rewrite <-app_assoc, slice_prefix.
  - set (b := take _ v ++ [0]). assert (zlen b = 4096) as Hb.
    { unfold b. rewrite zlen_app. unfold zlen in *. rewrite length_take. cbn [length]. lia. }
    unfold value_array. rewrite Hb. unfold ZEDIS_HT_MAX_VALUE. cbn [Z.sub Z.add Z.opp Z.pos_sub Z.to_nat replicate]. rewrite app_nil_r.
    rewrite read_n_ok by lia. cbn [mbind exec_bind]. eexists. split; [|split; [done|lia]]. rewrite zlen_slice; lia.
Qed.

(** The value that GET found is answered. *)
Lemma value_gives (R : list Z → Prop) v bs n :
  zlen v <= ZEDIS_HT_MAX_VALUE → get_result ZEDIS_HT_MAX_VALUE v = (bs, n) → R (fits 4096 (VBulk v)) →
  gives L s a W R (value ← read_n (value_array bs) 0 n; reply_bulk s a value).
Proof.
  intros Hv Eg HR. destruct (value_array_read v Hv) as (v' & Hl & Hr & Heq). rewrite Eg in Hr. cbn [fst snd] in Hr. rewrite Hr.
  apply gives_bulk; [done|done|unfold ZEDIS_HT_MAX_VALUE in *; lia|]. unfold ZEDIS_HT_MAX_VALUE in *.
  destruct (decide (zlen v < 4096)) as [Hlt|Hge]; [by rewrite (Heq Hlt)|].
  rewrite fits_bulk_full by lia. by rewrite fits_bulk_full in HR by lia.
Qed.

Lemma get_comes_to : runs_to get_command (spec_GET W).
Proof.
  intros [|[k|] rest] Hsz; [by error_reply| |by error_reply]. unfold get_command. change (cmd_bulk _ 1) with (Some k). cbv iota beta.
  cbn [spec_GET comes_to]. pose proof Hh as ([Hkv _] & _). unfold kv_rep, kv_get in *. destruct (w_kv W) as [m|H].
  - rewrite (ht_get_refines _ _ k _ Hkv). destruct (m !! k) as [v|] eqn:Ev; cbn [fmap option_fmap option_map mbind exec_bind].
    + destruct (get_result ZEDIS_HT_MAX_VALUE v) as [bs n] eqn:Eg. eapply value_gives; [by eapply stored_value_short|done|done].
    + by apply gives_null.
  - destruct (ht_get_within _ _ k ZEDIS_HT_MAX_VALUE Hkv) as [->|(v & Hin & Hv & ->)]; cbn [mbind exec_bind].
    + apply gives_null; [done|done|by left].
    + destruct (get_result ZEDIS_HT_MAX_VALUE v) as [bs n] eqn:Eg. eapply value_gives; [done|done|]. right. by exists v.
Qed.

Lemma del_comes_to : runs_to del_command (spec_DEL W).
Proof.
  intros [|[k|] rest] Hsz; [by error_reply| |by error_reply]. unfold del_command. change (cmd_bulk _ 1) with (Some k). cbv iota beta.
  cbn [spec_DEL comes_to]. pose proof Hh as ([Hkv Hcap] & _).
  assert (∀ ks ht' rc (R : list Z → Prop), kv_rep ht' ks → ht_capacity ht' = lim_keys L → R (enc (VInt (if rc =? 0 then 1 else 0))) →
    gives L s a (with_kv W ks) R (reply_integer (set_kv s ht') a (if rc =? 0 then 1 else 0))) as Hgo.
  { intros ks ht' rc R Hr Hc HR. pose proof (holds_kv ht' ks Hr Hc) as Hh'.
    eapply (answered_gives L s a (set_kv s ht')); [apply reply_integer_ok; [exact Hs|by destruct (_ =? _)]|done|done|done]. }
  unfold kv_rep, kv_del in *. destruct (w_kv W) as [m|H].
  - pose proof (ht_del_map _ _ k Hkv) as Hd. destruct (m !! k) as [v|].
    + destruct Hd as (ht' & -> & Hw & Hcap'). cbn [mbind exec_bind fst snd].
      apply (Hgo (Within _) ht' RC_OK); [done|congruence|done].
    + rewrite Hd. cbn [mbind exec_bind fst snd]. by apply (Hgo (Exactly m) (kv s) RC_ERR).
  - destruct (ht_del_within _ _ k Hkv) as [->|(v & ht' & Hin & -> & Hw & Hcap')]; cbn [mbind exec_bind fst snd].
    + apply (Hgo (Within H) (kv s) RC_ERR); [done|done|by left].
    + apply (Hgo (Within H) ht' RC_OK); [done|congruence|]. right. split; [done|by exists v].
Qed.

(** An order at a price that was read. *)
Lemma order_run sd p q :
  - INT64_MAX <= q <= INT64_MAX →
  comes_to L s a W
    (if bool_decide (lim_pmin L <= p <= lim_pmax L) then
       if side_qty sd (w_level W p) + q <=? INT64_MAX
       then Answer (with_price W p (spec_place (Order sd p q) (w_level W p))) (eq (enc (VInt q)))
       else Fault SignedOverflow
     else says W (err "ERR price out of range"))
    (y ← place (book s) (Order sd p q);
     let s1 := set_book s y.2 in
     if negb (y.1 =? 0) then reply_error s1 a "ERR price out of range" else reply_integer s1 a q).
Proof.
  intros Hq. pose proof Hh as (Hkv & (Hwf & Hmin & Hmax & Hlv) & Hrest).
  assert (int64 q) as Hq64 by (unfold int64, INT64_MIN, INT64_MAX in *; lia). case_bool_decide as Hin.
  - pose proof (place_level (book s) (Order sd p q) (w_level W p) Hwf ltac:(unfold in_range; cbn; lia) Hq64 (Hlv p Hin)) as Hp.
    cbn [o_side o_qty o_price] in Hp. destruct (_ <=? _); [|by rewrite Hp]. destruct Hp as [-> Hok].
    cbn [mbind exec_bind fst snd Z.eqb RC_OK negb]. cbv zeta.
    eapply answered_gives; [apply reply_integer_ok; [exact Hs|exact Hq64]| |done|done].
    split; [exact Hkv|]. split; [|exact Hrest]. split; [by apply with_level_wf|]. split; [done|]. split; [done|].
    intros r Hr. cbn [set_book set_data book w_level with_price].
    rewrite with_level_at; [|done|unfold in_range; cbn; lia|unfold in_range; lia].
    rewrite (Z.eqb_sym p r). destruct (r =? p); [done|]. by apply Hlv.
  - rewrite place_out by (unfold in_range; cbn; lia). cbn [mbind exec_bind fst snd Z.eqb RC_ERR negb]. cbv zeta.
    eapply answered_gives; [by apply reply_error_ok|exact Hh|done|done].
Qed.

Lemma bid_comes_to : runs_to bid_command (spec_order L W Bid "bid").
Proof.
  intros [|[p|] [|[q|] rest] ] Hsz; try (by error_reply). unfold bid_command. change (cmd_bulk2 _) with (Some (p, q)). cbv iota beta.
  apply price_comes_to; [done|done|done|]. intros zp _. cbv iota beta.
  apply number_comes_to; [done|done|done|]. intros zq Hq. exact (order_run Bid (to_i32 zp) zq Hq).
Qed.

Lemma ask_comes_to : runs_to ask_command (spec_order L W Ask "ask").
Proof.
  intros [|[p|] [|[q|] rest] ] Hsz; try (by error_reply). unfold ask_command. change (cmd_bulk2 _) with (Some (p, q)). cbv iota beta.
  apply price_comes_to; [done|done|done|]. intros zp _. cbv iota beta.
  apply number_comes_to; [done|done|done|]. intros zq Hq. exact (order_run Ask (to_i32 zp) zq Hq).
Qed.

Lemma book_comes_to : runs_to book_command (spec_book L W).
Proof.
  intros [|[pt|] rest] Hsz; [by error_reply| |by error_reply]. pose proof Hh as (_ & (Hwf & Hmin & Hmax & Hlv) & _). unfold book_command.
  change (cmd_bulk _ 1) with (Some pt). cbv iota beta. apply price_comes_to; [done|done|done|]. intros z _. cbv iota beta zeta.
  set (p := to_i32 z). unfold zedis_book_level. case_bool_decide as Hin.
  - destruct (level_at_in (book s) p Hwf) as (l & Hl & [Hb Ha] & Hg); [unfold in_range; lia|].
    rewrite Hlv in Hl by done. injection Hl as <-. rewrite price_to_index_in by (try done; unfold in_range; lia). cbn [mbind exec_bind].
    destruct (_ <? 0) eqn:E; zb; [lia|]. rewrite Hg. cbn [mbind exec_bind].
    set (b := bid_qty (w_level W p)) in *. set (k := ask_qty (w_level W p)) in *.
    assert (int64 b ∧ int64 k) as [Hb64 Hk64] by (unfold int64, INT64_MIN, INT64_MAX in *; lia).
    pose proof (dec_d_length b Hb64). pose proof (dec_d_length k Hk64).
    pose proof (zlen_nonneg (dec_d b)). pose proof (zlen_nonneg (dec_d k)).
    change (enc (VArr [VInt b; VInt k])) with
      (bytes_of_string "*2" ++ crlf ++ ([58] ++ dec_d b ++ crlf) ++ ([58] ++ dec_d k ++ crlf) ++ []).
    rewrite app_nil_r, <-!app_assoc.
    eapply answered_gives; [apply reply_printed_ok; [exact Hs| |done]|exact Hh|done|done].
    rewrite !zlen_app. change (zlen (bytes_of_string "*2")) with 2. change (zlen crlf) with 2. change (zlen [58]) with 1. lia.
  - rewrite price_to_index_out by (unfold in_range; lia). cbn [mbind exec_bind Z.ltb Z.compare]. by error_reply.
Qed.

Lemma zadd_comes_to : runs_to zadd_command (spec_zadd L W).
Proof.
  intros [|[key|] [|[sc|] [|[member|] rest] ] ] Hsz; try (by error_reply).
  unfold zadd_command. change (cmd_bulk3 _) with (Some (key, sc, member)). cbv iota beta.
  apply number_comes_to; [done|done|done|]. intros z Hz64. cbv iota beta. pose proof Hh as (Hkv & Hbk & [Hz HM] & Hl).
  rewrite (zreg_score_refines _ _ _ _ key member Hz). fold (score_of W key member). cbn [mbind exec_bind].
  destruct (zreg_add_refines _ _ _ _ key z member Hz) as (reg' & -> & Hz'). cbn [mbind exec_bind fst snd].
  pose proof (zmap_add_scores (lim_members L) _ (w_zroom W) key z member ltac:(unfold int64, INT64_MIN, INT64_MAX in *; lia) HM) as HM'.
  set (r := zmap_add _ _ _ _ _ _) in *.
  assert (holds L (set_zsets s reg') (with_zsets W r.2)) as Hh' by (split; [exact Hkv|]; split; [exact Hbk|]; by split).
  cbv zeta. destruct (r.1 =? 0); cbn [negb].
  - eapply (answered_gives L s a (set_zsets s reg')); [apply reply_integer_ok; [exact Hs|by destruct (score_of _ _ _)]|done|done|done].
  - eapply (answered_gives L s a (set_zsets s reg')); [by apply reply_error_ok|done|done|done].
Qed.

Lemma zscore_comes_to : runs_to zscore_command (spec_zscore W).
Proof.
  intros [|[key|] [|[member|] rest] ] Hsz; try (by error_reply).
  unfold zscore_command. change (cmd_bulk2 _) with (Some (key, member)). cbv iota beta.
  pose proof Hh as (_ & _ & [Hz HM] & _). rewrite (zreg_score_refines _ _ _ _ key member Hz). cbn [mbind exec_bind spec_zscore].
  pose proof (λ z, scores_ok_score _ key member z HM) as Hsc. fold (score_of W key member) in *.
  destruct (score_of W key member) as [z|]; [|by apply gives_null].
  pose proof (fmt_g17_length _ (to_double_bound _ (Hsc z eq_refl))) as Hlen. pose proof (fmt_g17_pos (to_double z)) as Hpos.
  set (out := fmt_g17 _) in *. unfold snprintf_n. rewrite Z.gtb_ltb, snprintf_whole by lia. destruct (0 <? _) eqn:E; zb; [|lia].
  rewrite read_n_ok by (rewrite ?zlen_app, ?zlen_replicate; unfold zlen in *; lia). rewrite slice_prefix.
  cbn [mbind exec_bind]. apply gives_bulk; [done|done|lia|]. apply eq_sym, fits_short. cbn [enc]. rewrite !zlen_app.
  pose proof (dec_u_length (zlen out) 2 ltac:(lia) ltac:(lia)). change (zlen [36]) with 1. change (zlen crlf) with 2. lia.
Qed.

Lemma zrange_comes_to : runs_to zrange_command (spec_zrange W).
Proof.
  intros [|[key|] [|[st|] [|[sp|] rest] ] ] Hsz; try (by error_reply).
  unfold zrange_command. change (cmd_bulk3 _) with (Some (key, st, sp)). cbv iota beta.
  apply number_comes_to; [done|done|done|]. intros i _. cbv iota beta. apply number_comes_to; [done|done|done|]. intros j _. cbv iota beta.
  pose proof Hh as (_ & _ & [Hz _] & _).
  destruct (zreg_range_refines _ _ _ _ key Hz) as (l & Hp & Hsort & Hr). rewrite Hr. cbn [mbind exec_bind].
  destruct (zset_range l.*1 i j 8192) as [out|] eqn:Eo.
  - apply gives_raw; [done|done|apply zset_range_short in Eo; lia|]. exists l. by rewrite Eo.
  - error_reply. exists l. by rewrite Eo.
Qed.

Lemma lpush_comes_to : runs_to lpush_command (spec_lpush L W).
Proof.
  intros [|[key|] [|[val|] rest] ] Hsz; try (by error_reply).
  unfold lpush_command. change (cmd_bulk2 _) with (Some (key, val)). cbv iota beta. cbn [spec_lpush comes_to].
  pose proof Hh as (Hkv & Hbk & Hz & Hl). destruct (lreg_push_refines _ _ _ _ key val Hl) as (reg' & log' & -> & Hl').
  set (r := lmap_push _ _ _ _) in *. cbn [mbind exec_bind]. destruct r as [rc [[LL room] used]]; cbn [fst snd] in *.
  assert (holds L (set_lists s reg' log') (with_lists W (LL, room, used))) as Hh'
    by (split; [exact Hkv|]; split; [exact Hbk|]; by split).
  destruct (rc =? 0); cbn [negb].
  - change (lists (set_lists s reg' log')) with reg'. rewrite (lreg_llen_refines _ _ _ _ _ _ key Hl'). cbn [mbind exec_bind].
    eapply (answered_gives L s a (set_lists s reg' log')); [apply reply_integer_ok; [exact Hs|by eapply lreg_count]|done|done|done].
  - eapply (answered_gives L s a (set_lists s reg' log')); [by apply reply_error_ok|done|done|done].
Qed.

Lemma lrange_comes_to : runs_to lrange_command (spec_LRANGE W).
Proof.
  intros [|[key|] [|[st|] [|[sp|] rest] ] ] Hsz; try (by error_reply).
  unfold lrange_command. change (cmd_bulk3 _) with (Some (key, st, sp)). cbv iota beta.
  apply number_comes_to; [done|done|done|]. intros i _. cbv iota beta. apply number_comes_to; [done|done|done|]. intros j _. cbv iota beta.
  pose proof Hh as (_ & _ & _ & Hl). rewrite (lreg_lrange_refines _ _ _ _ _ _ key i j 8192 Hl). cbn [mbind exec_bind]. cbv zeta.
  destruct (_ <? 8192) eqn:E; zb; [|by error_reply]. apply gives_raw; [done|done|lia|done].
Qed.

Lemma llen_comes_to : runs_to llen_command (spec_llen W).
Proof.
  intros [|[key|] rest] Hsz; [by error_reply| |by error_reply]. unfold llen_command. change (cmd_bulk _ 1) with (Some key). cbv iota beta.
  pose proof Hh as (_ & _ & _ & Hl). rewrite (lreg_llen_refines _ _ _ _ _ _ key Hl). cbn [mbind exec_bind].
  apply gives_integer; [done|done|by eapply lreg_count|done].
Qed.

Lemma publish_comes_to : runs_to publish_command (spec_publish W).
Proof. intros [|[ch|] [|[msg|] rest]] Hsz; try done; by error_reply. Qed.

Lemma subscribe_comes_to : runs_to subscribe_command (spec_subscribe W).
Proof. intros [|[ch|] rest] Hsz; try done; by error_reply. Qed.

Lemma quit_comes_to : runs_to quit_command spec_quit.
Proof. done. Qed.

(** Each command of the table does what the store says. *)
Lemma table_comes_to :
  Forall2 (λ (e : string * (arguments → outcome)) f, e.1 = f.1 ∧ runs_to f.2 e.2) (responses L W) command_table.
Proof.
  unfold responses, command_table. repeat constructor.
  - exact ping_comes_to.
  - exact echo_comes_to.
  - exact set_comes_to.
  - exact get_comes_to.
  - exact bid_comes_to.
  - exact ask_comes_to.
  - exact book_comes_to.
  - exact del_comes_to.
  - exact zadd_comes_to.
  - exact zscore_comes_to.
  - exact zrange_comes_to.
  - exact lpush_comes_to.
  - exact lrange_comes_to.
  - exact llen_comes_to.
  - exact publish_comes_to.
  - exact subscribe_comes_to.
Qed.
End commands.

(** * The dispatcher *)

(** The word is looked up in both tables alike. *)
Lemma find_responses L W name :
  match find (λ e, bool_decide (named e.1 name)) (responses L W), find_command name with
  | Some e, Some (n, fn) => e.1 = n ∧ (e, (n, fn)) ∈ zip (responses L W) command_table
  | None, None => True
  | _, _ => False
  end.
Proof.
  unfold find_command, named.
  assert (∀ es (fs : list (string * (server → Z → arguments → exec (Z * server)))), fst <$> es = fst <$> fs → Forall (λ (e : string * (arguments → outcome)), cstr (bytes_of_string e.1) = bytes_of_string e.1) es →
    match find (λ e, bool_decide (map lower name = map lower (bytes_of_string e.1))) es,
          find (λ e, str_case_equal name (bytes_of_string e.1)) fs with
    | Some e, Some (n, fn) => e.1 = n ∧ (e, (n, fn)) ∈ zip es fs
    | None, None => True | _, _ => False end) as H.
  { induction es as [|e es IH]; intros [|[n fn] fs] Hf Hall; try done. cbn in Hf. injection Hf as He Hf.
    apply Forall_cons in Hall as [Hc Hall]. specialize (IH fs Hf Hall). cbn [find zip zip_with fst]. rewrite str_case_equal_spec, <-He, Hc.
    destruct (decide (map lower name = map lower (bytes_of_string e.1))) as [Hn|Hn].
    { rewrite !bool_decide_eq_true_2 by done. split; [done|by left]. }
    rewrite !bool_decide_eq_false_2 by done. destruct (find _ es), (find _ fs) as [[? ?]|]; try done.
    destruct IH as [? ?]. split; [done|by right]. }
  apply H; [reflexivity|]. repeat constructor.
Qed.

Lemma unknown_comes_to L s a W name :
  serving s a → holds L s W → zlen name < 2 ^ 61 →
  comes_to L s a W (spec_unknown W name) (reply_printed s a 512 (unknown_reply name)).
Proof.
  intros Hs Hh Hn. unfold spec_unknown. assert (22 < zlen (unknown_reply name) < 2 ^ 62) as Ht.
  { unfold unknown_reply. rewrite !zlen_app. pose proof (zlen_cstr name). pose proof (zlen_nonneg (cstr name)).
    change (zlen (bytes_of_string _)) with 22. change (zlen [39]) with 1. change (zlen crlf) with 2. lia. }
  set (t := unknown_reply name) in *. cbv zeta. destruct (zlen t <? 512) eqn:E; zb.
  { eapply answered_gives; [apply reply_printed_ok; [exact Hs|lia|done]|exact Hh|done|done]. }
  unfold reply_printed, snprintf_n. rewrite Z.gtb_ltb. destruct (0 <? zlen t) eqn:E1; zb; [|lia].
  set (arr := snprintf_buf 512 t ++ _).
  assert (arr = take 511 t ++ [0]) as Harr.
  { unfold arr, snprintf_buf. rewrite length_take. unfold zlen in *.
    change (Z.to_nat (512 - 1)) with 511%nat. replace (511 `min` length t)%nat with 511%nat by lia. done. }
  assert (zlen arr = 512) as Hlen by (rewrite Harr, zlen_app; unfold zlen in *; rewrite length_take; cbn [length]; lia).
  destruct (zlen t =? 512) eqn:E2; zb.
  - rewrite E2, <-Hlen. rewrite <-Harr. apply gives_raw; [done|done|lia|done].
  - pose proof Hs as (c & m & Hc & Hwf & Hopen & _). unfold comes_to, fits_output. rewrite Hc.
    pose proof (zlen_pending c (proj1 Hwf)) as Hp. pose proof Hwf as [(_ & Hs1 & Hl1) Hs0]. specialize (Hs0 Hopen).
    destruct (_ <=? ZEDIS_CONN_WRITE_SIZE) eqn:E3; zb.
    + unfold queue_write. rewrite (get_conn_ok s a c Hc). cbn [mbind exec_bind]. unfold conn_queue_write, write_buf_append.
      sizes. rewrite Hopen, u64_small, Z.gtb_ltb by lia. destruct (4096 <? _) eqn:E4; zb; [lia|].
      unfold read_src. rewrite Hlen. destruct (_ && _) eqn:E5; zb; [lia|done].
    + assert (queue_write s a arr (zlen t) = queue_write s a t (zlen t)) as ->.
      { unfold queue_write. rewrite (get_conn_ok s a c Hc). cbn [mbind exec_bind]. unfold conn_queue_write, write_buf_append.
        sizes. rewrite Hopen, u64_small, Z.gtb_ltb by lia. destruct (4096 <? _) eqn:E4; zb; [done|lia]. }
      apply gives_raw; [done|done|lia|done].
Qed.

Lemma command_comes_to L s a W args :
  serving s a → holds L s W → sized args → comes_to L s a W (respond L W args) (run_command s a args).
Proof.
  intros Hs Hh Hsz. unfold run_command, respond. destruct args as [|[name|] rest]; [by error_reply| |by error_reply].
  change (cmd_bulk _ 0) with (Some name). cbv iota beta. pose proof (find_responses L W name) as Hf.
  destruct (find _ (responses L W)) as [e|], (find_command name) as [[n fn]|]; [|destruct Hf|destruct Hf|].
  2:{ apply unknown_comes_to; [done|done|]. apply Hsz. by left. }
  destruct Hf as [<- Hin].
  destruct Hs as (c & m & Hc & Hwf & Hopen & Hrep & Hmet).
  destruct (record_command_ok (s_metrics s) (bytes_of_string e.1) Hmet) as (m' & -> & Hmet'). cbn [mbind exec_bind].
  assert (serving (set_metrics s m') a) as Hs1 by (exists c, m; by split_and!).
  pose proof (table_comes_to L (set_metrics s m') a W Hs1 Hh name) as Htab.
  apply elem_of_lookup_zip_with in Hin as (i & x & y & Hxy & Hx & Hy). injection Hxy as <- <-.
  destruct (Forall2_lookup_lr _ _ _ _ _ _ Htab Hx Hy) as [_ Hrun]. apply (Hrun rest).
  intros bs Hb. apply Hsz. by right.
Qed.

(** The commands that are answered. *)
Lemma command_gives L s a W args W' R :
  serving s a → holds L s W → sized (map Some args) → answers L W args W' R → gives L s a W' R (run_command s a (map Some args)).
Proof. intros Hs Hh Hsz [_ Ha]. pose proof (command_comes_to L s a W _ Hs Hh Hsz) as H. by rewrite Ha in H. Qed.

(** C5: On an open connection every command, whatever its arguments, does what
    it does on an abstract store of keys, book levels, sorted sets and lists
    ([respond]; PUBLISH and SUBSCRIBE with their arguments and QUIT, whose
    effect is on connections, are left to other theorems).  PING, ECHO, SET,
    GET, DEL, BID, ASK, BOOK, ZADD, ZSCORE, ZRANGE, LPUSH, LRANGE and LLEN, in
    any case of letters, with too few arguments, arguments that are no bulk
    strings or malformed numbers, and unknown words: the server afterwards
    represents the new store, the reply is the one of the store, and it is
    appended to the output of that connection and of no other one, or closes
    the connection when it does not fit (or, where it takes the last eight of
    the 4096 bytes, is written behind the block of the buffer).  [respond] also
    says what goes wrong: a bulk reply of 4096 bytes or more is not sent;
    prices are cut to 32 bits and scores rounded to a double; a numeral or a
    quantity beyond int64_t overflows; after a DEL that found its key, GET
    answers nil or some value the key was once stored with; the text for an
    unknown word, where it has more than 512 bytes, is read past its array (or
    closes the connection, if it would not fit its output). *)
Theorem command_refines L s a W args :
  serving s a → holds L s W → (∀ bs, Some bs ∈ args → zlen bs < 2 ^ 61) →
  match respond L W args with
  | Answer W' R => ∃ out, R out ∧
      if overrun s a out then run_command s a args = Stuck BlockOverrun
      else ∃ s', run_command s a args = Ok (0, s') ∧ holds L s' W' ∧ replied s s' a out
  | Fault f => run_command s a args = Stuck f
  | Overlong text =>
      if fits_output s a text then run_command s a args = Stuck OverRead
      else ∃ s', run_command s a args = Ok (0, s') ∧ holds L s' W ∧ replied s s' a text
  | Elsewhere => True
  end.
Proof.
  intros Hs Hh Hsz. pose proof (command_comes_to L s a W args Hs Hh Hsz) as H. unfold comes_to in H.
  destruct (respond L W args) as [W' R|f|text|]; [exact H|exact H| |exact H].
  destruct (fits_output s a text) eqn:E; [exact H|]. destruct H as (out & <- & H).
  assert (overrun s a text = false) as Eo; [|by rewrite Eo in H].
  unfold overrun, overruns, fits_output in *. destruct (conns s !! a) as [c|]; [|done]. by rewrite E, andb_false_r.
Qed.

(** A small server with one open connection [c] at address 4096, and the empty
    store. *)
Definition tiny_book : order_book := OrderBook (replicate 11 (PriceLevel 0 0)) 100 110 11.
Definition tiny_log : append_log := AppendLog (replicate (Z.to_nat 4096) 0) 4096 0 (-1) 0.
Definition tiny_config : config := Config 6379 (-1) 2097152 8 1 2 2 2 2 4096 None 100 110 true None 1000.
Definition tiny_server (sl : slab) (c : conn) : server :=
  Server tiny_config None small_loop 4 true (Arena 4096 2097152 0 0) sl small_table tiny_book
    (RingBuffer (replicate 2 zero_slot) 2 0 0) tiny_log two_sets two_lists {[4096 := c]} (Some 4096) 1 [] [].
Definition tiny_limits : limits := Limits 8 100 110 2 4096.
Definition empty_world : world := World (Exactly ∅) (λ _, PriceLevel 0 0) ∅ 2 ∅ 2 0.

Lemma tiny_holds sl c : holds tiny_limits (tiny_server sl c) empty_world.
Proof.
  split; [split; [exact small_table_refines|done]|]. split; [|split].
  - destruct (book_init_wf (Arena 4096 2097152 0 0) 100 110 tiny_book (Arena 4096 2097152 176 0)) as (H1 & H2 & H3 & H4);
      [done|done|vm_compute; reflexivity|]. split; [exact H1|]. split; [done|]. split; [done|]. intros p Hp. by apply H4.
  - split; [|by intros ?]. apply (zreg_init_rep (Arena 4096 2097152 0 0) 2 2 two_sets (Arena 4096 2097152 18944 0));
      [lia|lia|vm_compute; reflexivity].
  - apply (lreg_init_rep (Arena 4096 2097152 0 0) 2 two_lists (Arena 4096 2097152 17600 0) tiny_log);
      [lia|vm_compute; reflexivity|by vm_compute; split_and!].
Qed.

Lemma tiny_serving sl c : c_fd c = 5 → conn_wf c → closed c = false → serving (tiny_server sl c) 4096.
Proof.
  intros Hfd Hwf Hc. exists c, {[5 := (READ_MASK, HReadable 4096)]}. split; [done|]. split; [done|]. split; [done|].
  split; [exact small_loop_rep|done].
Qed.

(** SET of a key, a BID with a price above the range of an int, and a ZADD
    whose score is no number. *)
Lemma command_refines_witness :
  let s := tiny_server [] (fresh_conn []) in
  (∃ s', run_command s 4096 [Some (bytes_of_string "set"); Some [107]; Some [118]] = Ok (0, s') ∧
     holds tiny_limits s' (with_kv empty_world (Exactly {[ [107] := [118] ]}))) ∧
  (∃ s', run_command s 4096 [Some (bytes_of_string "BID"); Some (dec_d 4294967401); Some (dec_d 7)] = Ok (0, s') ∧
     holds tiny_limits s' (with_price empty_world 105 (PriceLevel 7 0))) ∧
  (∃ s', run_command s 4096 [Some (bytes_of_string "ZADD"); Some [107]; Some (bytes_of_string "1x"); Some [109]] = Ok (0, s') ∧
     replied s s' 4096 (err "ERR value is not a valid float")).
Proof.
  intros s. pose proof (tiny_serving [] (fresh_conn []) eq_refl (fresh_conn_wf []) eq_refl) as Hs. pose proof (tiny_holds [] (fresh_conn [])) as Hh.
  assert (∀ (W' : world) out r, (∃ out', out = out' ∧ if overrun s 4096 out' then r = Stuck BlockOverrun else
    ∃ s', r = Ok (0, s') ∧ holds tiny_limits s' W' ∧ replied s s' 4096 out') → overrun s 4096 out = false →
    ∃ s', r = Ok (0, s') ∧ holds tiny_limits s' W' ∧ replied s s' 4096 out) as Hout by (intros W' out r (? & <- & H) E; by rewrite E in H).
  split_and!.
  - pose proof (command_refines tiny_limits s 4096 empty_world [Some (bytes_of_string "set"); Some [107]; Some [118]] Hs Hh) as H.
    destruct (Hout (with_kv empty_world (Exactly {[ [107] := [118] ]})) ok_reply _ (H ltac:(intros bs Hb; repeat (apply elem_of_cons in Hb as [[= ->]|Hb]; [reflexivity|]); by apply elem_of_nil in Hb)) eq_refl)
      as (s' & Hr & Hh' & _). exists s'. split; [exact Hr|exact Hh'].
  - pose proof (command_refines tiny_limits s 4096 empty_world [Some (bytes_of_string "BID"); Some (dec_d 4294967401); Some (dec_d 7)] Hs Hh) as H.
    destruct (Hout (with_price empty_world 105 (PriceLevel 7 0)) (enc (VInt 7)) _ (H ltac:(intros bs Hb; repeat (apply elem_of_cons in Hb as [[= ->]|Hb]; [reflexivity|]); by apply elem_of_nil in Hb)) eq_refl)
      as (s' & Hr & Hh' & _). exists s'. split; [exact Hr|exact Hh'].
  - pose proof (command_refines tiny_limits s 4096 empty_world
      [Some (bytes_of_string "ZADD"); Some [107]; Some (bytes_of_string "1x"); Some [109]] Hs Hh) as H.
    destruct (Hout empty_world (err "ERR value is not a valid float") _ (H ltac:(intros bs Hb; repeat (apply elem_of_cons in Hb as [[= ->]|Hb]; [reflexivity|]); by apply elem_of_nil in Hb)) eq_refl)
      as (s' & Hr & _ & Hrep). exists s'. split; [exact Hr|exact Hrep].
Defined.

(** C33: The check of write_buf_append allows for 4096 bytes, the block that
    zedis_slab_alloc returns for them ends after 4088: a client that has
    nothing pending and asks for the ECHO of a message whose encoding has
    between 4089 and 4095 bytes makes the server write over the header of the
    next block, the link of the slab's free list. *)
Theorem echo_overruns_block s a c name msg rest :
  serving s a → conns s !! a = Some c → pending c = [] → named "ECHO" name →
  ZEDIS_SLAB_4096 - BLOCK_DATA < zlen (enc (VBulk msg)) < ZEDIS_CONN_WRITE_SIZE →
  run_command s a (Some name :: Some msg :: rest) = Stuck BlockOverrun.
Proof.
  intros Hs Hc Hp Hn Hlen. pose proof Hs as (c' & m & Hc' & Hwf & Hopen & Hrep & Hmet). unfold run_command.
  change (cmd_bulk _ 0) with (Some name). cbv iota beta. rewrite (find_command_named "ECHO" name Hn).
  change (find_command (bytes_of_string "ECHO")) with (Some ("ECHO"%string, echo_command)). cbv iota beta.
  destruct (record_command_ok (s_metrics s) (bytes_of_string "ECHO") Hmet) as (m' & -> & Hmet'). cbn [mbind exec_bind].
  assert (serving (set_metrics s m') a) as Hs' by (exists c', m; by split_and!).
  pose proof (reply_bulk_ok (set_metrics s m') a Hs' msg) as H. unfold echo_command. change (cmd_bulk _ 1) with (Some msg). cbv iota beta.
  cbn [enc] in Hlen. pose proof Hlen as Hz. rewrite !zlen_app in Hz. pose proof (zlen_nonneg (dec_u (zlen msg))).
  change (zlen [36]) with 1 in Hz. change (zlen crlf) with 2 in Hz. sizes. specialize (H ltac:(lia)).
  rewrite fits_short in H by (cbn [enc]; lia). unfold answered in H.
  assert (overrun (set_metrics s m') a (enc (VBulk msg)) = true) as Eo; [|by rewrite Eo in H].
  unfold overrun. change (conns (set_metrics s m')) with (conns s). rewrite Hc. assert (c' = c) as -> by congruence.
  unfold overruns. rewrite Hopen, Hp, zlen_nil. sizes. cbn [enc]. lia.
Qed.

Lemma echo_overruns_block_witness :
  run_command (tiny_server [] (fresh_conn [])) 4096 [Some (bytes_of_string "echo"); Some (replicate 4082 65)]
  = Stuck BlockOverrun.
Proof.
  apply (echo_overruns_block (tiny_server [] (fresh_conn [])) 4096 (fresh_conn [])).
  - apply tiny_serving; [done|apply fresh_conn_wf|done].
  - reflexivity.
  - reflexivity.
  - reflexivity.
  - vm_compute. split; reflexivity.
Defined.
