(* ===== verification/Server.v ===== *)
(** The server: the command loop and the accept loop of src/server.c, the
    event handlers of src/conn.c, and the life of a server (zedis_create,
    zedis_run, zedis_destroy).

    The operating system's part of zedis_create, with the blocks that malloc
    will give the parsers later on, is the record [host]; what
    happens during one turn of zedis_run (signals, the events that epoll_wait
    reports, the clock, the outcome of the snapshot's file operations, and
    the bytes and connections that arrived before it) is the record [turn]. *)

From stdpp Require Import gmap.
From S2P Require Import Prelude Arena HashTable OrderBook RingBuffer AppendLog BTree KeyRegistry Slab Resp RespFormat.
From S2P Require Import EventLoop Host Conn Metrics ServerState Commands.

(** * server_dispatch_commands *)

Fixpoint dispatch_loop (fuel : nat) (s : server) (a : Z) : exec (Z * server) :=
  match fuel with
  | O => Stuck OutOfFuel
  | S fuel' =>
      c ← get_conn s a;
      x ← resp_parser_next (attach s (parser c));
      let s1 := put_parser s a c x.2 in
      match x.1 with
      | PNeedMore => Ok (0, s1)
      | PError =>
          s2 ← reply_formatted s1 a (resp_format_error (char_array 64) 64 (bytes_of_string "ERR protocol error"));
          s3 ← conn_destroy s2 a;
          Ok (1, s3)
      | POk cmd _ =>
          y ← server_handle_command s1 a cmd;
          let '(gone, s2) := y in
          if negb (gone =? 0) then Ok (1, s2) else
          c2 ← get_conn s2 a;
          let s3 := put_parser s2 a c2 (resp_value_release (attach s2 (parser c2)) cmd) in
          if closed c2 then s4 ← conn_destroy s3 a; Ok (1, s4)
          else dispatch_loop fuel' s3 a
      end
  end.

(** Every command takes at least one of the unread bytes. *)
Definition server_dispatch_commands (s : server) (a : Z) : exec (Z * server) :=
  c ← get_conn s a;
  dispatch_loop (S (Z.to_nat (w_pos (parser c) - r_pos (parser c)))) s a.

(** * Event handlers *)

(** [read]: the result, and what the socket holds afterwards. *)
Definition kernel_read (k : list read_result) (space : Z) : read_result * list read_result :=
  match k with
  | [] => (RAgain, [])
  | RData b bs :: k' =>
      let all := b :: bs in
      match take (Z.to_nat space) all, drop (Z.to_nat space) all with
      | d :: ds, [] => (RData d ds, k')
      | d :: ds, r :: rs => (RData d ds, RData r rs :: k')
      | [], _ => (RAgain, k)
      end
  | r :: k' => (r, k')
  end.

Fixpoint readable_loop (fuel : nat) (s : server) (a : Z) : exec server :=
  match fuel with
  | O => Stuck OutOfFuel
  | S fuel' =>
      c ← get_conn s a;
      let space := resp_parser_space (parser c) in
      if space =? 0 then conn_destroy s a else
      let '(r, k') := kernel_read (k_in (sock c)) space in
      match r with
      | RAgain => Ok (put_conn s a (set_input c k'))
      | RFail | REof => conn_destroy (put_conn s a (set_input c k')) a
      | RData d ds =>
          p1 ← resp_parser_write (parser c) (d :: ds);
          let p2 := resp_parser_commit p1 (zlen (d :: ds)) in
          let s1 := put_conn s a (set_parser (set_input c k') p2) in
          x ← server_dispatch_commands s1 a;
          if x.1 =? 1 then Ok x.2 else readable_loop fuel' x.2 a
      end
  end.

(** Every read takes a byte or a result from the socket. *)
Definition input_size (k : list read_result) : nat :=
  foldr (λ r n, (match r with RData _ bs => S (S (length bs)) | _ => 1 end + n)%nat) 0%nat k.

Definition conn_on_readable (s : server) (a : Z) : exec server :=
  c ← get_conn s a;
  readable_loop (S (S (input_size (k_in (sock c))))) s a.

Definition conn_on_writable (s : server) (a : Z) : exec server :=
  c ← get_conn s a;
  x ← conn_flush (s_loop s) a c;
  let '(rc, c', l') := x in
  let s1 := set_conns s l' (<[a := c']> (conns s)) in
  if negb (rc =? 0) then conn_destroy s1 a else Ok s1.

(** The descriptors that the server has open, and the one that accept returns:
    the lowest one that is not in use. *)
Definition open_fds (s : server) : list Z :=
  [0; 1; 2; epfd (s_loop s); listen_fd s; l_fd (aol s)] ++ map (c_fd ∘ snd) (map_to_list (conns s)).
Definition lowest_fd (used : list Z) : Z :=
  default (zlen used) (find (λ n, negb (bool_decide (n ∈ used))) (seqZ 0 (zlen used))).

Fixpoint accept_loop (k : list accepted) (s : server) : exec server :=
  match k with
  | [] => Ok (set_accept s [])
  | acc :: k' =>
      if negb (a_nonblock acc) then accept_loop k' s else
      let fd := lowest_fd (open_fds s ++ a_busy acc) in
      x ← conn_create s fd acc;
      let '(r, s1) := x in
      match r with
      | None => accept_loop k' s1
      | Some a =>
          y ← event_loop_add (s_loop s1) (a_room acc) fd (Z.lor EPOLLIN EPOLLET) (HReadable a);
          let s2 := set_conns s1 y.2 (conns s1) in
          if negb (y.1 =? 0) then s3 ← conn_destroy s2 a; accept_loop k' s3
          else accept_loop k' s2
      end
  end.

Definition server_on_accept (s : server) : exec server :=
  if conn_count s >=? max_connections (cfg s) then Ok s else accept_loop (k_accept s) s.

Definition call_handler (h : handler) (fd ev : Z) (s : server) : exec server :=
  match h with
  | HAccept => server_on_accept s
  | HReadable a => conn_on_readable s a
  | HWritable a => conn_on_writable s a
  end.

(** * The life of a server *)

Definition ZEDIS_MAX_FDS : Z := 4096.

Definition server_defaults : config :=
  Config 6379 (-1) ZEDIS_DEFAULT_ARENA_SIZE 8192 1024 4096 256 256 2048 (16 * 1024 * 1024) None 0 99999 true
         (Some (bytes_of_string "/var/lib/node_exporter/textfile_collector")) 1000.

Record host := Host {
  h_calloc : bool;
  h_mmap : bool → Z → option Z;
  h_aol : aol_sys;
  h_epfd : Z;
  h_fds : gmap Z lsock;
  h_listen : listen_sys;
  h_room : bool;
  h_metrics : bool;
  h_malloc : list Z;
}.

(** The server's memory: the arena and all that is allocated from it, and the
    log, in the order of zedis_create. *)
Definition create_data (h : host) (c : config) :
    exec (option (arena * slab * hash_table * order_book * ring_buffer * append_log *
                  zset_registry * list_registry)) :=
  let '(rc0, a0) := zedis_arena_init (h_mmap h) (arena_size c) in
  if negb (rc0 =? 0) then Ok None else
  let n := max_connections c in
  x0 ← zedis_slab_init a0 (u64 (n * 32)) (u64 (n * 8)) (u64 (n * 2)) (u64 (n * 2 + 64));
  match x0 with
  | (_, None, _) => Ok None
  | (_, Some sl, a1) =>
  match zedis_ht_init a1 (max_keys c) with
  | (_, None, _) => Ok None
  | (_, Some k, a2) =>
  x ← zedis_book_init a2 (book_price_min c) (book_price_max c);
  match x with
  | (_, None, _) => Ok None
  | (_, Some b, a3) =>
  match zedis_ring_init a3 (ring_capacity c) with
  | (_, None, _) => Ok None
  | (_, Some r, a4) =>
  match zedis_aol_init (h_aol h) (aol_size c) (aol_path c) with
  | (_, None) => Ok None
  | (_, Some log) =>
  match zedis_zset_reg_init a4 (u32 (cfg_max_zsets c)) (u32 (zset_members c)) with
  | (_, None, _) => Ok None
  | (_, Some zs, a5) =>
  match zedis_list_reg_init a5 (u32 (cfg_max_lists c)) with
  | (_, None, _) => Ok None
  | (_, Some ls, a6) => Ok (Some (a6, sl, k, b, r, log, zs, ls))
  end end end end end end end.

(** The configuration after its defaults. *)
Definition effective_config (c : option config) : config :=
  let c := default server_defaults c in
  Config (port c) (cpu_core c) (arena_size c) (max_keys c) (max_connections c) (ring_capacity c)
         (cfg_max_zsets c) (cfg_max_lists c) (zset_members c) (aol_size c) (aol_path c)
         (book_price_min c) (book_price_max c) (busy_poll c)
         (Some (default (bytes_of_string "/var/lib/node_exporter/textfile_collector") (metrics_dir c)))
         (if metrics_interval_ms c =? 0 then 1000 else metrics_interval_ms c).

Definition zedis_create (h : host) (config : option config) : exec (option server) :=
  let c := effective_config config in
  if negb (h_calloc h) then Ok None else
  d ← create_data h c;
  match d with
  | None => Ok None
  | Some (a, sl, k, b, r, log, zs, ls) =>
      match event_loop_create a ZEDIS_MAX_FDS (h_epfd h) with
      | (None, _) => Ok None
      | (Some lp, a') =>
          let '(lfd, _) := create_listen_socket (h_listen h) (h_fds h) (port c) in
          if lfd <? 0 then Ok None else
          x ← event_loop_add lp (h_room h) lfd (Z.lor EPOLLIN EPOLLET) HAccept;
          if negb (x.1 =? 0) then Ok None else
          let '(_, m) := zedis_metrics_init (metrics_dir c) (metrics_interval_ms c) (h_metrics h) in
          Ok (Some (Server c m x.2 lfd true a' sl k b r log zs ls ∅ None 0 [] (h_malloc h)))
      end
  end.

(** [while (conns_head != NULL) conn_destroy (conns_head)] *)
Fixpoint destroy_conns (fuel : nat) (s : server) : exec server :=
  match conns_head s with
  | None => Ok s
  | Some a =>
      match fuel with
      | O => Stuck OutOfFuel
      | S fuel' => s' ← conn_destroy s a; destroy_conns fuel' s'
      end
  end.

(** The server as it is when it is freed, and the descriptors that are closed
    besides those of the connections: the listening socket, the epoll instance
    and the file of the log. *)
Definition zedis_destroy (s : server) : exec (server * list Z) :=
  let s0 := set_metrics s (zedis_metrics_destroy (s_metrics s)) in
  s1 ← destroy_conns (size (conns s0)) s0;
  x ← (if listen_fd s1 >=? 0
       then y ← event_loop_del (s_loop s1) (listen_fd s1); Ok (set_conns s1 y.2 (conns s1), [listen_fd s1])
       else Ok (s1, []));
  let '(s2, fds) := x in
  Ok (Server (cfg s2) (s_metrics s2) (s_loop s2) (listen_fd s2) (running s2) (zedis_arena_destroy (s_arena s2))
        (zedis_slab_destroy (s_slab s2)) (zedis_ht_destroy (kv s2)) (zedis_book_destroy (book s2))
        (zedis_ring_destroy (ring s2)) (zedis_aol_destroy (aol s2)) (zedis_zset_reg_destroy (zsets s2))
        (zedis_list_reg_destroy (lists s2)) (conns s2) (conns_head s2) (conn_count s2) (k_accept s2) (k_malloc s2),
      fds ++ (match event_loop_destroy (s_loop s2) with Some fd => [fd] | None => [] end) ++
      (if l_fd (aol s2) >=? 0 then [l_fd (aol s2)] else [])).

Record turn := Turn {
  t_input : list (Z * (list read_result * list write_result));
  t_accept : list accepted;
  t_now : option (Z * Z);
  t_io : io;
  t_sig : bool;
  t_sig' : bool;
  t_wait : wait_result;
}.

(** What arrives at the sockets: results for the connections, by address. *)
Definition arrive_one (cs : gmap Z conn) (x : Z * (list read_result * list write_result)) : gmap Z conn :=
  alter (λ c, set_output (set_input c (k_in (sock c) ++ x.2.1)) (write_buf c) (write_len c) (write_sent c)
                (Socket (k_in (sock c) ++ x.2.1) (k_write (sock c) ++ x.2.2) (k_out (sock c)))) x.1 cs.
Definition arrive (s : server) (t : turn) : server :=
  set_accept (set_conns s (s_loop s) (foldl arrive_one (conns s) (t_input t))) (k_accept s ++ t_accept t).

Definition gauges_of (s : server) : gauges :=
  Gauges (conn_count s) (ht_count (kv s)) (zr_used (zsets s)) (lr_used (lists s))
         (offset (s_arena s)) (asize (s_arena s)).

Definition maybe_write (s : server) (t : turn) (fs : fsys) : server * fsys :=
  let '(m, fs') := zedis_metrics_maybe_write (gauges_of s) (t_now t) (t_io t) (s_metrics s) fs in
  (set_metrics s m, fs').

(** The body of the loop of zedis_run: the result of event_loop_run_once. *)
Definition run_turn (s : server) (t : turn) (fs : fsys) : exec (Z * server * fsys) :=
  let '(s1, fs1) := maybe_write (arrive s t) t fs in
  x ← event_loop_run_once s_loop (λ s l, set_conns s l (conns s)) call_handler s1 (t_sig t) (t_sig' t) (t_wait t);
  Ok (x.1, x.2, fs1).

(** zedis_run over the given turns: its return value, if it has returned. *)
Fixpoint run_turns (s : server) (ts : list turn) (fs : fsys) : exec (option Z * server * fsys) :=
  match ts with
  | [] => Ok (None, s, fs)
  | t :: ts' =>
      if negb (running s) then Ok (Some 0, s, fs) else
      x ← run_turn s t fs;
      let '(n, s1, fs1) := x in
      if n <? 0 then Ok (Some RC_ERR, s1, fs1) else run_turns s1 ts' fs1
  end.

(** [pin] is sched_setaffinity; the first result is whether it is reported that
    pinning failed. *)
Definition zedis_run (pin : list Z → bool) (s : server) (t0 : turn) (ts : list turn) (fs : fsys)
    : exec (bool * (option Z * server * fsys)) :=
  let warn := (cpu_core (cfg s) >=? 0) && negb (zedis_pin_to_core pin (cpu_core (cfg s)) =? 0) in
  let '(s0, fs0) := maybe_write s t0 fs in
  x ← run_turns s0 ts fs0;
  Ok (warn, x).
