(* ===== verification/ServerSpec.v ===== *)
(** From the bytes a client sends to the bytes it receives: pipelined data
    commands, whole or cut off, against the abstract store. *)

From stdpp Require Import gmap sorting.
From S2P Require Import Prelude Arena HashTable HashTableSpec OrderBook RingBuffer AppendLog BTree BTreeShape.
From S2P Require Import ZSet KeyRegistry RegistrySpec Slab Resp RespSafe RespRound RespFormat RespMono RespSpec EventLoop.
From S2P Require Import Conn Metrics ServerState Commands CommandSpec StoreSpec Server.

(** A command as a client sends it. *)
Definition enc_cmd (args : list (list Z)) : list Z := enc (VArr (map VBulk args)).

Lemma cmd_encodable args : encodable (VArr (map VBulk args)).
Proof. apply encodable_array. by induction args; constructor. Qed.

Lemma cmd_nodes args : nodes_of (VArr (map VBulk args)) = length args.
Proof. cbn. induction args as [|x args IH]; cbn; [done|]. by rewrite IH. Qed.

(** The strings of a parsed command. *)
Lemma load_args_ok b hi es (args : list (list Z)) :
  hi <= zlen b → value_in 0 hi (RArray es) → map (λ e, denote b e.2) es = map VBulk args →
  load_args b es = Ok (map Some args) ∧ length (release_order (RArray es)) = length args.
Proof.
  intros Hhi Hin. apply value_in_array in Hin. revert args.
  induction Hin as [|[n v] es Hv _ IH]; intros [|x args] Heq; try done. cbn [map snd] in Heq, Hv.
  injection Heq as Hx Hes. destruct (IH args Hes) as [Hl Hr]. cbn [load_args].
  destruct v as [t|t|z|t| |es']; try done. cbn [denote] in Hx. injection Hx as <-. destruct Hv as (H1 & H2 & H3).
  rewrite read_n_ok by lia. cbn [mbind exec_bind]. rewrite Hl. cbn [mbind exec_bind]. split; [done|].
  cbn [release_order map concat] in *. rewrite length_app. cbn. by rewrite Hr.
Qed.

(** * A connection that is served *)

Record ready (s : server) (a : Z) (c : conn) (n : nat) : Prop := Ready {
  rd_conn : conns s !! a = Some c;
  rd_wf : conn_wf c;
  rd_open : closed c = false;
  rd_loop : ∃ m, loop_rep (s_loop s) m;
  rd_metrics : metrics_ok (s_metrics s);
  rd_parser : parser_wf (parser c);
  rd_cap : buf_cap (parser c) < 2 ^ 61;
  rd_slab : ∃ outs, slab_rep (s_slab s) outs;
  rd_socket : no_fail (k_write (sock c));
  rd_supply : (n <= length (n_free (env (parser c))) + length (k_malloc s))%nat;
}.

Lemma ready_serving s a c n : ready s a c n → serving s a.
Proof. intros [Hc Hwf Ho [m Hm] Hmet _ _ _ _ _]. by exists c, m. Qed.

Lemma ready_env s a c n : ready s a c n → env_ok (env (attach s (parser c))).
Proof. intros Hr. exact (rd_slab _ _ _ _ Hr). Qed.

(** Storing a parser that the connection's was turned into. *)
Lemma put_parser_ready s a c k n p :
  ready s a c k → parser_wf p → buf_cap p < 2 ^ 61 → env_ok (env p) → (n <= supply (env p))%nat →
  ready (put_parser s a c p) a (set_parser c (detach p)) n.
Proof.
  intros [Hc Hwf Ho Hl Hmet _ _ [outs Hsl] Hk _] Hp Hcap He Hn. split; try done.
  - cbn. by rewrite lookup_insert_eq.
  - unfold put_parser; cbn. unfold env_ok in He. destruct (n_slab (env p)) as [sl|]; cbn; [done|by exists outs].
Qed.

Lemma unread_len p : parser_wf p → zlen (unread p) = w_pos p - r_pos p.
Proof. intros (Hl & Hr & Hw & _). apply zlen_slice; lia. Qed.

(** What the parser still waits for: nothing, or the rest of a message. *)
Definition waits (n : nat) (tail : list Z) : Prop :=
  tail = [] ∨ ∃ v suf, encodable v ∧ (nodes_of v <= n)%nat ∧ zlen (enc v) < 2 ^ 61 ∧ suf ≠ [] ∧ tail ++ suf = enc v.

(** No node is lost, so the supply does not shrink. *)
Lemma draws_supply sl ms taken sl' ms' : draws sl ms taken sl' ms' → (length ms <= length taken + length ms')%nat.
Proof. induction 1; cbn [length]; lia. Qed.

Lemma conserved_supply e e' : conserved e [] e' → (supply e <= supply e')%nat.
Proof.
  intros [_ (taken & Hd & Hp)]. apply draws_supply in Hd. apply Permutation_length in Hp.
  rewrite !length_app in Hp. unfold supply. cbn [length] in Hp. lia.
Qed.

(** A parser that waits has used at most half of its buffer. *)
Lemma next_low p p' : parser_wf p → resp_parser_next p = Ok (PNeedMore, p') → r_pos p' <= Z.quot (buf_cap p') 2.
Proof.
  intros Hp Hn. unfold resp_parser_next in Hn. apply exec_bind_ok in Hn as (p1 & Hp1 & Hn).
  assert (r_pos p1 <= Z.quot (buf_cap p1) 2) as Hlow.
  { rewrite Z.gtb_ltb in Hp1. destruct (_ <? _) eqn:E; zb; [|by injection Hp1 as <-].
    destruct (compact_ok p Hp) as (p2 & Hc & _ & _ & _ & Hcap & Hr & _). rewrite Hp1 in Hc. injection Hc as <-.
    destruct Hp as (_ & ? & ? & _). rewrite Hr, Hcap. apply Z.quot_pos; lia. }
  apply exec_bind_ok in Hn as ([r e] & _ & Hn). injection Hn as -> <-. exact Hlow.
Qed.

Lemma next_waiting p n :
  parser_wf p → buf_cap p < 2 ^ 61 → env_ok (env p) → (n <= supply (env p))%nat → waits n (unread p) →
  ∃ p', resp_parser_next p = Ok (PNeedMore, p') ∧ unread p' = unread p ∧ parser_wf p' ∧ env_ok (env p') ∧
    buf_cap p' = buf_cap p ∧ (n <= supply (env p'))%nat ∧ (length (n_free (env p)) <= length (n_free (env p')))%nat ∧
    r_pos p' <= Z.quot (buf_cap p') 2.
Proof.
  intros Hwf Hcap He Hn Hw.
  assert (∃ p', resp_parser_next p = Ok (PNeedMore, p') ∧ unread p' = unread p ∧ parser_wf p' ∧
    conserved (env p) [] (env p') ∧ buf_cap p' = buf_cap p) as (p' & Hp & Hu' & Hwf' & Hcons & Hc').
  { destruct Hw as [Hnil|(v & suf & Hv & Hnv & Hlen & Hne & Hu)]; [|apply (next_waits p v suf); done || lia].
    destruct (next_compacts p Hwf) as (p1 & Hc & Hwf1 & Hu1 & He1 & Hcap1).
    unfold resp_parser_next. rewrite Hc. cbn [mbind exec_bind parse_value].
    pose proof (unread_len p1 Hwf1) as Hl. rewrite Hu1, Hnil, zlen_nil in Hl. rewrite Z.geb_leb.
    destruct (_ <=? _) eqn:E; zb; [|lia]. cbn [mbind exec_bind]. eexists. split; [done|].
    destruct p1. cbn in *. rewrite He1. do 2 (split; [done|]). split; [by apply conserved_refl|done]. }
  pose proof (conserved_supply _ _ Hcons). destruct Hcons as [He' (taken & _ & Hperm)]. apply Permutation_length in Hperm.
  rewrite !length_app in Hperm. cbn [length] in Hperm. exists p'. do 4 (split; [done|]). split; [done|]. split; [lia|]. split; [lia|]. exact (next_low p p' Hwf Hp).
Qed.

Lemma nodes_release e es : supply (resp__node_list_release e es) = (length (release_order (RArray es)) + supply e)%nat.
Proof.
  unfold resp__node_list_release. generalize (release_order (RArray es)) as ns. intros ns. revert e.
  induction ns as [|n ns IH]; intros e; [done|]. cbn [foldl]. rewrite IH. unfold supply, resp__node_free; cbn. lia.
Qed.

Lemma release_malloc e es : n_malloc (resp__node_list_release e es) = n_malloc e.
Proof.
  unfold resp__node_list_release. generalize (release_order (RArray es)) as ns. intros ns. revert e.
  induction ns as [|n ns IH]; intros e; [done|]. cbn [foldl]. by rewrite IH.
Qed.

Lemma node_list_release_env e es : env_ok e → env_ok (resp__node_list_release e es).
Proof.
  unfold resp__node_list_release. generalize (release_order (RArray es)) as ns. intros ns. revert e.
  induction ns as [|n ns IH]; intros e He; [done|]. cbn [foldl]. by apply IH.
Qed.

(** What the parser makes of a command. *)
Lemma parse_command s a c n args rest :
  ready s a c n → (length args <= n)%nat → unread (parser c) = enc_cmd args ++ rest →
  ∃ es pos p', resp_parser_next (attach s (parser c)) = Ok (POk (RArray es) pos, p') ∧
    load_args (buf p') es = Ok (map Some args) ∧ length (release_order (RArray es)) = length args ∧
    unread p' = rest ∧ parser_wf p' ∧ env_ok (env p') ∧ buf_cap p' = buf_cap (parser c) ∧
    (n <= length args + supply (env p'))%nat ∧
    (length (n_free (env (parser c))) <= length (n_free (env p')) + length args)%nat.
Proof.
  intros Hr Hn Hu. pose proof Hr as [Hc Hwf Ho Hlp Hmet Hp Hcap Hsl Hk Hsup].
  destruct (next_parses (attach s (parser c)) (VArr (map VBulk args)) rest)
    as (v' & pos & p' & Hnext & Hden & Hu' & Hwf' & He' & Hcap' & Hsup');
    [done|by eapply ready_env|apply cmd_encodable|rewrite cmd_nodes; unfold supply; cbn; lia|exact Hu|].
  pose proof (next_safe (attach s (parser c)) Hp (ready_env _ _ _ _ Hr)) as Hsafe. rewrite Hnext in Hsafe.
  destruct Hsafe as (_ & [_ (taken & _ & Hperm)] & Hin & _).
  destruct v' as [| | | | |es]; try done. cbn [denote] in Hden. injection Hden as Hden. pose proof Hwf' as (Hbl & Hrw & Hwb & _).
  destruct (load_args_ok (buf p') (r_pos p') es args) as [Hargs Hrel]; [lia|done|done|].
  apply Permutation_length in Hperm. rewrite !length_app in Hperm. cbn [res_nodes attach env n_free] in Hperm.
  rewrite cmd_nodes in Hsup'. unfold supply at 1 in Hsup'; cbn [attach env n_free n_malloc] in Hsup'.
  exists es, pos, p'. do 7 (split; [done|]). split; [lia|]. lia.
Qed.

(** What serving a connection leaves alone, with [k] replies. *)
Record served (s s' : server) (a : Z) (c c' : conn) (k : nat) : Prop := Served {
  sv_others : ∀ b, b ≠ a → conns s' !! b = conns s !! b;
  sv_shell : listen_fd s' = listen_fd s ∧ running s' = running s ∧ k_accept s' = k_accept s ∧ stop (s_loop s') = stop (s_loop s);
  sv_nodes : (length (n_free (env (parser c))) <= length (n_free (env (parser c'))))%nat;
  sv_out : c_fd c' = c_fd c ∧ zlen (k_out (sock c)) <= zlen (k_out (sock c'));
  sv_fast : ∀ j, fast (k + j) c → fast j c';
}.

Lemma served_trans s s1 s' a c c1 c' k1 k2 :
  served s s1 a c c1 k1 → served s1 s' a c1 c' k2 → served s s' a c c' (k1 + k2).
Proof.
  intros [Ho1 (Ha1 & Hb1 & Hc1 & Hd1) Hn1 [Hf1 Hk1] Hw1] [Ho2 (Ha2 & Hb2 & Hc2 & Hd2) Hn2 [Hf2 Hk2] Hw2]. split.
  - intros b Hb. by rewrite Ho2, Ho1.
  - split; [congruence|]. split; [congruence|]. split; congruence.
  - lia.
  - split; [congruence|lia].
  - intros j Hj. apply Hw2, Hw1. by rewrite Nat.add_assoc.
Qed.

(** Only the parser changes, and it keeps its nodes. *)
Lemma served_parser s a c p :
  conns s !! a = Some c → (length (n_free (env (parser c))) <= length (n_free (env p)))%nat →
  served s (put_parser s a c p) a c (set_parser c (detach p)) 0.
Proof. intros Hc Hn. split; try done. intros b Hb. cbn. by rewrite lookup_insert_ne. Qed.

(** The handler of a command has answered, and the value is released. *)
Lemma release_served s1 s2 a c c2 p' es (args : list (list Z)) out n :
  ready s1 a (set_parser c (detach p')) 0 → conns s1 !! a = Some (set_parser c (detach p')) →
  k_malloc s1 = n_malloc (env p') → replied s1 s2 a out → zlen (pending c) + zlen out <= WRITE_ROOM →
  conns s2 !! a = Some c2 → length (release_order (RArray es)) = length args → (n <= length args + supply (env p'))%nat →
  (length (n_free (env (parser c))) <= length (n_free (env p')) + length args)%nat →
  let p3 := resp_value_release (attach s2 (parser c2)) (RArray es) in
  let c3 := set_parser c2 (detach p3) in
  closed c2 = false ∧ ready (put_parser s2 a c2 p3) a c3 n ∧ stream c3 = stream c ++ out ∧ unread (parser c3) = unread p' ∧
  served s1 (put_parser s2 a c2 p3) a c c3 1.
Proof.
  intros Hr1 Hc1 Hm1 (c1' & c2' & Hc1' & Hcs & Hwf2 & Hsame & Hlp2 & Hst2 & Hmet2 & Hframe & Hout) Hfit Hc2 Hrel Hn Hfree p3 c3.
  assert (c1' = set_parser c (detach p')) as -> by congruence. rewrite Hcs, lookup_insert_eq in Hc2. injection Hc2 as ->.
  change (pending (set_parser c (detach p'))) with (pending c) in Hout. destruct (_ <=? _) eqn:E; zb; [|lia].
  pose proof Hr1 as [_ _ _ _ _ Hp1 Hcap1 [outs Hsl1] Hk _]. destruct Hout as (Hst & Halive & Hfast).
  destruct (Halive Hk) as (Hopen2 & Hk2 & Hmono). clear Halive E. destruct Hsame as (Hfd & Hpar & _). cbn [set_parser parser] in Hpar.
  destruct Hframe as (_ & Hlfd & Hrun & _ & Hslab & _ & _ & Hacc & Hmal).
  assert (ready s2 a c2 0) as Hr2.
  { split; try done; [by rewrite Hcs, lookup_insert_eq|by rewrite Hpar|by rewrite Hpar|rewrite Hslab; by exists outs|lia]. }
  assert (supply (env p3) = (length args + (length (n_free (env p')) + length (k_malloc s2)))%nat) as Hsup3.
  { unfold p3; cbn [resp_value_release env]. rewrite nodes_release, Hrel, Hpar. done. }
  split; [done|]. split; [|split; [exact Hst|split; [unfold c3, p3; by rewrite Hpar|]]].
  - eapply put_parser_ready; [exact Hr2| | | |].
    + unfold p3; rewrite Hpar. exact Hp1.
    + unfold p3; cbn [resp_value_release]. rewrite Hpar. exact Hcap1.
    + apply node_list_release_env. exact (rd_slab _ _ _ _ Hr2).
    + rewrite Hsup3, Hmal, Hm1. unfold supply in Hn. lia.
  - split.
    + intros b Hb. cbn. by rewrite lookup_insert_ne, Hcs, lookup_insert_ne.
    + done.
    + change (n_free (env (parser c3))) with (n_free (env p3)). pose proof Hsup3 as H3. unfold supply in H3.
      assert (length (n_malloc (env p3)) = length (k_malloc s2)) as Hmm; [|lia].
      unfold p3; cbn [resp_value_release env]. by rewrite release_malloc.
    + done.
    + intros j Hj. exact (Hfast j Hj).
Qed.

(** An argument is shorter than the message it is part of. *)
Lemma sized_message args rest : zlen (enc_cmd args ++ rest) < 2 ^ 61 → sized (map Some args).
Proof.
  intros Hlen bs Hin. assert (bs ∈ args) as Hin' by (apply list_elem_of_fmap in Hin as (x & [= ->] & Hx); done).
  assert (zlen bs <= zlen (concat (map enc (map VBulk args)))) as Hle.
  { clear Hin Hlen. induction args as [|x args IH]; [by apply elem_of_nil in Hin'|]. cbn [map concat enc].
    rewrite !zlen_app. pose proof (zlen_nonneg (concat (map enc (map VBulk args)))). pose proof (zlen_nonneg (dec_u (zlen x))).
    pose proof (zlen_nonneg x). change (zlen [36]) with 1. change (zlen crlf) with 2.
    apply elem_of_cons in Hin' as [->|Hin']; [lia|]. specialize (IH Hin'). lia. }
  unfold enc_cmd in Hlen. rewrite zlen_app in Hlen. cbn [enc] in Hlen. rewrite !zlen_app in Hlen.
  pose proof (zlen_nonneg rest). pose proof (zlen_nonneg (dec_u (zlen (map VBulk args)))).
  change (zlen [42]) with 1 in Hlen. change (zlen crlf) with 2 in Hlen. lia.
Qed.

(** One command of the pipeline. *)
Lemma dispatch_command fuel L s a c n W args W' R rest :
  ready s a c n → holds L s W → answers L W args W' R → (length args <= n)%nat →
  unread (parser c) = enc_cmd args ++ rest →
  (∀ out, R out → zlen (pending c) + zlen out <= WRITE_ROOM) →
  ∃ s' c' out, dispatch_loop (S fuel) s a = dispatch_loop fuel s' a ∧ ready s' a c' n ∧ holds L s' W' ∧ R out ∧
    stream c' = stream c ++ out ∧ unread (parser c') = rest ∧ served s s' a c c' 1.
Proof.
  intros Hr Hh Ha Hn Hu Hroom. pose proof (rd_conn _ _ _ _ Hr) as Hc.
  destruct (parse_command s a c n args rest Hr Hn Hu) as (es & pos & p' & Hnext & Hargs & Hrel & Hu' & Hwf' & He' & Hcap' & Hsup' & Hfree).
  cbn [dispatch_loop]. rewrite (get_conn_ok s a c Hc). cbn [mbind exec_bind]. rewrite Hnext. cbn [mbind exec_bind fst snd].
  set (s1 := put_parser s a c p').
  assert (ready s1 a (set_parser c (detach p')) 0) as Hr1.
  { eapply put_parser_ready; [exact Hr|done|rewrite Hcap'; exact (rd_cap _ _ _ _ Hr)|done|lia]. }
  assert (sized (map Some args)) as Hsz.
  { apply (sized_message args rest). rewrite <-Hu, unread_len by exact (rd_parser _ _ _ _ Hr).
    destruct (rd_parser _ _ _ _ Hr) as (_ & Hr0 & Hw0 & _). pose proof (rd_cap _ _ _ _ Hr). lia. }
  destruct (command_gives L s1 a W args W' R (ready_serving _ _ _ _ Hr1) Hh Hsz Ha) as (out & HR & Hrun).
  rewrite (room_no_overrun _ _ _ _ (rd_conn _ _ _ _ Hr1) (Hroom out HR)) in Hrun. destruct Hrun as (s2 & Hrun & Hh2 & Hrep).
  assert (es ≠ []) as Hne by (intros ->; destruct args; [by destruct Ha|done]).
  assert (server_handle_command s1 a (RArray es) = Ok (0, s2)) as ->.
  { unfold server_handle_command. destruct es as [|e es]; [done|].
    rewrite (get_conn_ok _ _ _ (rd_conn _ _ _ _ Hr1)). cbn [mbind exec_bind set_parser parser detach buf]. rewrite Hargs. exact Hrun. }
  cbn [mbind exec_bind Z.eqb negb]. pose proof Hrep as (_ & c2 & _ & Hcs & _).
  assert (conns s2 !! a = Some c2) as Hc2 by (by rewrite Hcs, lookup_insert_eq). rewrite (get_conn_ok s2 a c2 Hc2). cbn [mbind exec_bind].
  destruct (release_served s1 s2 a c c2 p' es args out n Hr1 (rd_conn _ _ _ _ Hr1) eq_refl Hrep (Hroom out HR) Hc2 Hrel Hsup' Hfree)
    as (Hopen & Hr3 & Hst & Hu3 & Hsv). rewrite Hopen. do 3 eexists. split; [done|]. split; [exact Hr3|]. split; [exact Hh2|].
  split; [done|]. split; [exact Hst|]. split; [by rewrite Hu3|]. destruct Hsv as [Hoth Hsh Hno Hou Hfa].
  split; try done. intros b Hb. rewrite Hoth by done. cbn. by rewrite lookup_insert_ne.
Qed.

(** * Pipelines *)

(** The commands one after the other. *)
Inductive answers_all (L : limits) : world → list (list (list Z)) → world → list (list Z → Prop) → Prop :=
  | all_nil W : answers_all L W [] W []
  | all_cons W args W1 R cmds W2 Rs :
      answers L W args W1 R → answers_all L W1 cmds W2 Rs → answers_all L W (args :: cmds) W2 (R :: Rs).

(** A reply that satisfies [R] has at most [k] bytes. *)
Definition at_most (R : list Z → Prop) (k : Z) : Prop := 0 <= k ∧ ∀ out, R out → zlen out <= k.

Definition total (ks : list Z) : Z := foldr Z.add 0 ks.

Lemma total_nonneg Rs ks : Forall2 at_most Rs ks → 0 <= total ks.
Proof. unfold total. induction 1 as [|R k Rs ks [Hk _] _ IH]; cbn [foldr]; lia. Qed.

Lemma stream_len c : out_wf c → zlen (stream c) = zlen (k_out (sock c)) + zlen (pending c).
Proof. intros _. unfold stream. by rewrite zlen_app. Qed.

Lemma pipeline_ok fuel L s a c n W cmds W' Rs ks tail :
  ready s a c n → holds L s W → answers_all L W cmds W' Rs →
  Forall (λ args, (length args <= n)%nat) cmds → Forall2 at_most Rs ks →
  zlen (pending c) + total ks <= WRITE_ROOM →
  unread (parser c) = concat (map enc_cmd cmds) ++ tail → waits n tail →
  (Z.to_nat (zlen (unread (parser c))) < fuel)%nat →
  ∃ s' c' outs, dispatch_loop fuel s a = Ok (0, s') ∧ ready s' a c' n ∧ holds L s' W' ∧
    Forall2 (λ R out, R out) Rs outs ∧ stream c' = stream c ++ concat outs ∧ unread (parser c') = tail ∧
    served s s' a c c' (length cmds) ∧ r_pos (parser c') <= Z.quot (buf_cap (parser c')) 2.
Proof.
  intros Hr Hh Hall. revert fuel s c ks Hr Hh.
  induction Hall as [W|W args W1 R cmds W2 Rs Ha _ IH]; intros fuel s c ks Hr Hh Hn Hks Hroom Hu Hw Hf;
    (destruct fuel as [|fuel]; [lia|]).
  - pose proof Hr as [Hc Hwf Ho Hlp Hmet Hp Hcap Hsl Hk Hsup]. cbn [dispatch_loop]. rewrite (get_conn_ok s a c Hc).
    cbn [mbind exec_bind]. cbn [map concat app] in Hu.
    destruct (next_waiting (attach s (parser c)) n) as (p' & -> & Hu' & Hwf' & He' & Hcap' & Hn' & Hfree & Hlow);
      [done|done|by eapply ready_env|done|by rewrite <-Hu in Hw|]. cbn [mbind exec_bind fst snd].
    exists (put_parser s a c p'), (set_parser c (detach p')), []. split; [done|]. split.
    { eapply put_parser_ready; [exact Hr|done|rewrite Hcap'; exact Hcap|done|done]. }
    split; [exact Hh|]. split; [constructor|]. split; [by rewrite app_nil_r|].
    change (unread (parser (set_parser c (detach p')))) with (unread p'). rewrite Hu'. split; [exact Hu|]. split; [by apply served_parser|exact Hlow].
  - apply Forall_cons in Hn as [Hna Hn]. apply Forall2_cons_inv_l in Hks as (k & ks' & [Hk0 Hk] & Hks' & ->). cbn [total foldr] in Hroom.
    pose proof (total_nonneg _ _ Hks') as Htot. unfold total in Htot. cbn [map concat] in Hu. rewrite <-app_assoc in Hu.
    destruct (dispatch_command fuel L s a c n W args W1 R _ Hr Hh Ha Hna Hu)
      as (s1 & c1 & out & Hd & Hr1 & Hh1 & HR & Hst & Hu1 & Hsv).
    { intros out HR. specialize (Hk out HR). lia. }
    pose proof (enc_pos (VArr (map VBulk args))) as Hpos. fold (enc_cmd args) in Hpos.
    destruct (IH fuel s1 c1 ks' Hr1 Hh1) as (s' & c' & outs & Hd' & Hr' & Hh' & HRs & Hst' & Hu' & Hsv' & Hlow); [done|done| |done|done| |].
    + destruct Hsv as [_ _ _ [_ Hmono] _]. specialize (Hk out HR). pose proof (f_equal zlen Hst) as Hlen. rewrite zlen_app, !stream_len in Hlen
        by (by apply (rd_wf _ _ _ _ Hr) || by apply (rd_wf _ _ _ _ Hr1)). unfold total. lia.
    + rewrite Hu1. rewrite Hu, zlen_app in Hf. pose proof (zlen_nonneg (concat (map enc_cmd cmds) ++ tail)). lia.
    + exists s', c', (out :: outs). rewrite Hd. split; [done|]. split; [done|]. split; [done|]. split; [by constructor|].
      split; [cbn [concat]; by rewrite Hst', Hst, <-app_assoc|]. split; [done|]. split; [|done].
      exact (served_trans _ _ _ _ _ _ _ 1 _ Hsv Hsv').
Qed.

(** * Theorems *)

(** A client that sends any number of commands in one go, followed by
    nothing or by a part of a further message, is answered every command in
    order: server_dispatch_commands runs them one after the other on the
    store, appends exactly their replies to the connection's output and keeps
    the partial message for later, provided that the replies fit the output
    buffer and the socket does not fail. *)
Theorem pipeline_refines L s a c n W cmds W' Rs ks tail :
  ready s a c n → holds L s W → answers_all L W cmds W' Rs →
  Forall (λ args, (length args <= n)%nat) cmds → Forall2 at_most Rs ks →
  zlen (pending c) + total ks <= WRITE_ROOM →
  unread (parser c) = concat (map enc_cmd cmds) ++ tail → waits n tail →
  ∃ s' c' outs, server_dispatch_commands s a = Ok (0, s') ∧ conns s' !! a = Some c' ∧ holds L s' W' ∧
    Forall2 (λ R out, R out) Rs outs ∧ stream c' = stream c ++ concat outs ∧ unread (parser c') = tail ∧
    closed c' = false.
Proof.
  intros Hr Hh Hall Hn Hks Hroom Hu Hw. unfold server_dispatch_commands.
  rewrite (get_conn_ok s a c (rd_conn _ _ _ _ Hr)). cbn [mbind exec_bind].
  destruct (pipeline_ok (S (Z.to_nat (w_pos (parser c) - r_pos (parser c)))) L s a c n W cmds W' Rs ks tail)
    as (s' & c' & outs & Hd & Hr' & Hh' & HRs & Hst & Hu' & _); try done.
  { rewrite unread_len by exact (rd_parser _ _ _ _ Hr). lia. }
  exists s', c', outs. split; [exact Hd|]. split; [exact (rd_conn _ _ _ _ Hr')|]. split; [done|]. split; [done|].
  split; [done|]. split; [done|exact (rd_open _ _ _ _ Hr')].
Qed.

(** A connection whose parser holds the bytes [bs], with [n] nodes. *)
Definition conn_with (bs : list Z) (n : nat) : conn :=
  set_parser (fresh_conn []) (RespParser bs (zlen bs) 0 (zlen bs) (NodeEnv (seqZ 1 (Z.of_nat n)) None [])).

Lemma tiny_ready bs n :
  zlen bs < 2 ^ 61 → ready (tiny_server (slab_of 1 1 1 1) (conn_with bs n)) 4096 (conn_with bs n) n.
Proof.
  intros Hb. pose proof (zlen_nonneg bs). split; try done.
  - exists {[5 := (READ_MASK, HReadable 4096)]}. exact small_loop_rep.
  - unfold parser_wf. cbn. lia.
  - exists []. apply (slab_init_rep (Arena 4096 2097152 0 0) 1 1 1 1 RC_OK (slab_of 1 1 1 1) (Arena 4096 2097152 4928 0));
      [lia..|vm_compute; reflexivity].
  - constructor.
  - cbn. rewrite length_seqZ. lia.
Qed.

Lemma pipeline_refines_witness :
  let cmds := [[bytes_of_string "set"; [107]; [118]]; [bytes_of_string "GET"; [107]]] in
  let tail := take 5 (enc_cmd [bytes_of_string "PING"]) in
  ∃ s' c' outs,
    server_dispatch_commands (tiny_server (slab_of 1 1 1 1) (conn_with (concat (map enc_cmd cmds) ++ tail) 3)) 4096
      = Ok (0, s') ∧ conns s' !! 4096 = Some c' ∧
    Forall2 (λ R out, R out) [eq ok_reply; eq (enc (VBulk [118]))] outs ∧ stream c' = concat outs.
Proof.
  intros cmds tail.
  set (bs := concat (map enc_cmd cmds) ++ tail).
  destruct (pipeline_refines tiny_limits (tiny_server (slab_of 1 1 1 1) (conn_with bs 3)) 4096 (conn_with bs 3) 3
    empty_world cmds (with_kv empty_world (Exactly {[ [107] := [118] ]})) [eq ok_reply; eq (enc (VBulk [118]))] [5; 7] tail)
    as (s' & c' & outs & Hrun & Hc & _ & HRs & Hst & _).
  - apply tiny_ready. reflexivity.
  - apply tiny_holds.
  - eapply all_cons; [split; [done|reflexivity]|].
    eapply all_cons; [split; [done|reflexivity]|].
    apply all_nil.
  - repeat constructor.
  - repeat constructor; try discriminate; intros out <-; discriminate.
  - discriminate.
  - vm_compute. reflexivity.
  - right. exists (VArr (map VBulk [bytes_of_string "PING"])), (drop 5 (enc_cmd [bytes_of_string "PING"])).
    split; [vm_compute; auto|]. split; [vm_compute; lia|]. split; [reflexivity|]. split; [vm_compute; discriminate|].
    vm_compute. reflexivity.
  - exists s', c', outs. split; [exact Hrun|]. split; [exact Hc|]. split; [exact HRs|exact Hst].
Defined.

(** C34: The reply to an unknown command is cut to the 512-byte array it is
    printed to, but as many bytes as the whole text has are queued: with a
    command word so long that the text exceeds the array and still fits the
    output buffer, bytes beyond the array are read. *)
Theorem unknown_command_overreads s a c name rest :
  conns s !! a = Some c → closed c = false → conn_wf c → find_command name = None →
  512 < zlen (unknown_reply name) → write_len c + zlen (unknown_reply name) <= ZEDIS_CONN_WRITE_SIZE →
  run_command s a (Some name :: rest) = Stuck OverRead.
Proof.
  intros Hc Ho [(_ & Hs & _) _] Hf Hlong Hfit. unfold run_command. change (cmd_bulk _ 0) with (Some name). cbv iota beta.
  rewrite Hf. unfold reply_printed, snprintf_n. rewrite Z.gtb_ltb. destruct (0 <? _) eqn:E; zb; [|lia].
  unfold queue_write. rewrite (get_conn_ok s a c Hc). cbn [mbind exec_bind]. unfold conn_queue_write, write_buf_append.
  unfold ZEDIS_CONN_WRITE_SIZE in *. rewrite Ho, u64_small, Z.gtb_ltb by lia. destruct (4096 <? _) eqn:E2; zb; [lia|].
  unfold read_src. destruct (_ && _) eqn:E3; [|done]. exfalso. apply andb_true_iff in E3 as [_ E3]. zb.
  revert E3. unfold snprintf_buf, zlen in *. rewrite length_app, length_replicate, length_take. lia.
Qed.

Lemma unknown_command_overreads_witness :
  run_command (tiny_server [] (fresh_conn [])) 4096 [Some (replicate 500 120)] = Stuck OverRead.
Proof.
  apply (unknown_command_overreads (tiny_server [] (fresh_conn [])) 4096 (fresh_conn [])).
  - reflexivity.
  - reflexivity.
  - split; [split; [reflexivity|split; [split; discriminate|discriminate]]|reflexivity].
  - vm_compute. reflexivity.
  - vm_compute. reflexivity.
  - vm_compute. discriminate.
Defined.

(** A price is read as a 64-bit number and cut to 32 bits before it is
    compared with the limits of the book: BID, ASK and BOOK on a price outside
    the range of an int do exactly what they do on the price 2^32 below. *)
Theorem price_wraps s a name p rest :
  - INT64_MAX <= p → p + 2 ^ 32 <= INT64_MAX →
  bid_command s a (map Some (name :: dec_d (p + 2 ^ 32) :: rest)) = bid_command s a (map Some (name :: dec_d p :: rest)) ∧
  ask_command s a (map Some (name :: dec_d (p + 2 ^ 32) :: rest)) = ask_command s a (map Some (name :: dec_d p :: rest)) ∧
  book_command s a (map Some (name :: dec_d (p + 2 ^ 32) :: rest)) = book_command s a (map Some (name :: dec_d p :: rest)).
Proof.
  intros Hlo Hhi.
  assert (parse_int (dec_d (p + 2 ^ 32)) = parse_int (dec_d p)) as Heq.
  { unfold parse_int. rewrite !parse_i64_dec_d by lia. cbn [mbind exec_bind option_map]. unfold to_i32.
    by replace (p + 2 ^ 32 + 2 ^ 31) with (p + 2 ^ 31 + 1 * 2 ^ 32) by lia; rewrite Z.mod_add. }
  unfold bid_command, ask_command, book_command. destruct rest as [|q rest]; cbn [map cmd_bulk cmd_bulk2 lookup list_lookup default from_option mbind option_bind id].
  - rewrite Heq. done.
  - rewrite Heq. done.
Qed.

Lemma price_wraps_witness :
  let s := tiny_server [] (fresh_conn []) in
  bid_command s 4096 (map Some (bytes_of_string "BID" :: dec_d 4294967401 :: [dec_d 7]))
  = bid_command s 4096 (map Some (bytes_of_string "BID" :: dec_d 105 :: [dec_d 7])) ∧
  ∃ s', bid_command s 4096 (map Some (bytes_of_string "BID" :: dec_d 105 :: [dec_d 7])) = Ok (0, s').
Proof.
  intros s. split; [apply (price_wraps s 4096 (bytes_of_string "BID") 105 [dec_d 7]); discriminate|].
  eexists. vm_compute. reflexivity.
Defined.
