(* ===== verification/ServerInv.v ===== *)
(** The invariant of a running server, and that the operations on its
    connections keep it.

    The invariant ties together the parts that the components cannot know
    about each other: the doubly linked list goes through exactly the
    connections that exist; every handler in the loop's table belongs to an
    existing connection with that descriptor; the blocks of every connection
    are outstanding in the slab, each once; every connection, the metrics and
    the data structures are well formed.  [skel] is the part of a connection
    that the first three depend on: most operations leave it alone. *)

From stdpp Require Import gmap.
From S2P Require Import Prelude Arena HashTable HashTableSpec OrderBook RingBuffer AppendLog BTree BTreeShape.
From S2P Require Import ZSet KeyRegistry RegistrySpec Types Slab Resp RespSafe RespRound RespFormat RespSpec EventLoop Conn.
From S2P Require Import Metrics ServerState Commands CommandSpec.

(** * Runs without memory errors *)

(** The run ends in [Q], or overflows a signed integer, or reads past the end
    of a reply's text, or queues a reply that overruns the block of a write
    buffer. *)
Definition defined {A} (m : exec A) (Q : A → Prop) : Prop :=
  match m with Ok a => Q a | Stuck f => f ∈ [SignedOverflow; OverRead; BlockOverrun] end.

Lemma defined_bind {A B} (m : exec A) (k : A → exec B) (Q : A → Prop) (R : B → Prop) :
  defined m Q → (∀ a, Q a → defined (k a) R) → defined (m ≫= k) R.
Proof. destruct m as [a|f]; cbn; [intros HQ Hk; by apply Hk|done]. Qed.

Lemma defined_weaken {A} (m : exec A) (Q R : A → Prop) :
  defined m Q → (∀ a, Q a → R a) → defined m R.
Proof. destruct m as [a|f]; cbn; auto. Qed.

Lemma safe_defined {A} (m : exec A) (Q : A → Prop) : safe m Q → defined m Q.
Proof. destruct m as [a|f]; cbn; [auto|]. intros ->. set_solver. Qed.

(** * The list of connections *)

Record skel := Skel { k_fd : Z; k_next : option Z; k_prev : option Z; k_buf : Z }.

Definition skel_of (c : conn) : skel := Skel (c_fd c) (next c) (prev c) (buf_addr c).
Definition skels (cs : gmap Z conn) : gmap Z skel := skel_of <$> cs.

Lemma skels_lookup cs a : skels cs !! a = skel_of <$> cs !! a.
Proof. apply lookup_fmap. Qed.

Lemma skels_same cs a c c' : cs !! a = Some c → skel_of c' = skel_of c → skels (<[a := c']> cs) = skels cs.
Proof.
  intros Hc He. unfold skels. rewrite fmap_insert, insert_id; [done|]. by rewrite lookup_fmap, Hc, He.
Qed.

Lemma same_input_skel c c' : same_input c c' → skel_of c' = skel_of c.
Proof. intros (H1 & _ & _ & _ & H2 & H3 & H4 & _). unfold skel_of. congruence. Qed.

(** The element before the [i]-th. *)
Definition pred_at (cl : list Z) (i : nat) : option Z := match i with O => None | S j => cl !! j end.

(** The list from [head] goes through [cl], forwards and backwards. *)
Record conn_list (sk : gmap Z skel) (head : option Z) (cl : list Z) : Prop := ConnList {
  cl_NoDup : NoDup cl;
  cl_dom : ∀ a, a ∈ cl ↔ is_Some (sk !! a);
  cl_head : head = cl !! 0%nat;
  cl_links : ∀ i a k, cl !! i = Some a → sk !! a = Some k → k_next k = cl !! S i ∧ k_prev k = pred_at cl i;
}.

Lemma conn_list_size sk h cl : conn_list sk h cl → length cl = size sk.
Proof.
  intros [Hnd Hdom _ _]. assert (dom sk = list_to_set cl) as Hd.
  { apply set_eq. intros a. by rewrite elem_of_dom, elem_of_list_to_set, Hdom. }
  rewrite <-size_dom, Hd. by rewrite size_list_to_set.
Qed.

Definition set_knext (k : skel) (x : option Z) : skel := Skel (k_fd k) x (k_prev k) (k_buf k).
Definition set_kprev (k : skel) (x : option Z) : skel := Skel (k_fd k) (k_next k) x (k_buf k).

(** Linking a new element in front. *)
Lemma conn_list_cons sk head cl a k :
  conn_list sk head cl → sk !! a = None → k_next k = head → k_prev k = None →
  conn_list (<[a := k]> (match head with Some h => alter (λ x, set_kprev x (Some a)) h sk | None => sk end))
            (Some a) (a :: cl).
Proof.
  intros [Hnd Hdom Hhead Hlinks] Ha Hn Hp.
  assert (∀ b, b ∈ cl → b ≠ a) as Hne by (intros b Hb ->; apply Hdom in Hb as [? ?]; congruence).
  split.
  - apply NoDup_cons. split; [|done]. intros Hin. by apply (Hne a).
  - intros b. rewrite elem_of_cons, lookup_insert_is_Some, Hdom.
    assert (is_Some (sk !! b) ↔ is_Some (match head with Some h => alter (λ x, set_kprev x (Some a)) h sk | None => sk end !! b)) as <-
      by (destruct head; [by rewrite lookup_alter_is_Some|done]).
    destruct (decide (a = b)); naive_solver.
  - done.
  - intros [|i] b kb Hb Hk; rewrite lookup_cons in Hb; cbv iota in Hb.
    + injection Hb as <-. rewrite lookup_insert_eq in Hk. injection Hk as <-. cbn. split; [by rewrite Hn|done].
    + assert (b ≠ a) by (apply Hne; by eapply list_elem_of_lookup_2). rewrite lookup_insert_ne in Hk by done.
      destruct head as [h|]; [|by destruct cl].
      destruct i as [|i].
      * assert (b = h) as -> by congruence. rewrite lookup_alter_eq in Hk.
        destruct (sk !! h) as [k0|] eqn:Ek; [|done]. injection Hk as <-.
        destruct (Hlinks 0%nat h k0 Hb Ek) as [Hx _]. done.
      * assert (b ≠ h). { intros ->. symmetry in Hhead. pose proof (NoDup_lookup _ _ _ _ Hnd Hb Hhead). lia. }
        rewrite lookup_alter_ne in Hk by done. destruct (Hlinks (S i) b kb Hb Hk) as [Hx Hy]. done.
Qed.

(** Unlinking the element at position [n]: its neighbours are joined. *)
Definition unlinked (sk : gmap Z skel) (k : skel) : gmap Z skel :=
  let sk1 := match k_prev k with Some p => alter (λ x, set_knext x (k_next k)) p sk | None => sk end in
  match k_next k with Some n => alter (λ x, set_kprev x (k_prev k)) n sk1 | None => sk1 end.

Lemma unlinked_lookup sk k b :
  unlinked sk k !! b =
  (λ x, Skel (k_fd x) (if bool_decide (k_prev k = Some b) then k_next k else k_next x)
             (if bool_decide (k_next k = Some b) then k_prev k else k_prev x) (k_buf x)) <$> sk !! b.
Proof.
  unfold unlinked. assert (∀ x, Skel (k_fd x) (k_next x) (k_prev x) (k_buf x) = x) as Heta by by intros [].
  assert (∀ (m : gmap Z skel) n (f : skel → skel), alter f n m !! b = (λ x, if bool_decide (Some n = Some b) then f x else x) <$> m !! b) as Halt.
  { intros m n f. destruct (decide (n = b)) as [->|Hne].
    - rewrite lookup_alter_eq. by rewrite bool_decide_eq_true_2.
    - rewrite lookup_alter_ne by done. rewrite bool_decide_eq_false_2 by congruence. by destruct (m !! b). }
  destruct (k_next k) as [n|], (k_prev k) as [p|]; rewrite ?Halt; destruct (sk !! b) as [x|]; cbn; try done;
    repeat (case_bool_decide; cbn); try done; by rewrite ?Heta.
Qed.

Lemma conn_list_delete sk head cl n a k :
  conn_list sk head cl → cl !! n = Some a → sk !! a = Some k →
  conn_list (delete a (unlinked sk k)) (match k_prev k with Some _ => head | None => k_next k end) (delete n cl).
Proof.
  intros [Hnd Hdom Hhead Hlinks] Hn Hk. destruct (Hlinks n a k Hn Hk) as [Hnext Hprev].
  pose proof (lookup_lt_Some _ _ _ Hn) as Hlt.
  assert (∀ i b, delete n cl !! i = Some b → b ≠ a) as Hne.
  { intros i b Hb ->. rewrite list_lookup_delete in Hb. destruct (decide (i < n)%nat);
      pose proof (NoDup_lookup _ _ _ _ Hnd Hb Hn); lia. }
  assert (∀ b, is_Some (unlinked sk k !! b) ↔ is_Some (sk !! b)) as Hdu.
  { intros b. rewrite unlinked_lookup. by rewrite fmap_is_Some. }
  split.
  - eapply sublist_NoDup; [done|apply sublist_delete].
  - intros b. rewrite lookup_delete_is_Some, Hdu, <-Hdom. split.
    + intros [i Hi]%list_elem_of_lookup. split; [symmetry; by eapply Hne|].
      rewrite list_lookup_delete in Hi. by case_decide; eapply list_elem_of_lookup_2.
    + intros [Hab Hin]. apply list_elem_of_lookup in Hin as [i Hi]. apply list_elem_of_lookup.
      destruct (decide (i < n)%nat) as [|Hge]; [exists i; by rewrite list_lookup_delete_lt|].
      destruct (decide (i = n)) as [->|]; [congruence|]. exists (Nat.pred i).
      rewrite list_lookup_delete_ge by lia. by replace (S (Nat.pred i)) with i by lia.
  - rewrite list_lookup_delete. rewrite Hprev, Hnext. destruct n as [|n]; cbn [pred_at].
    + by rewrite decide_False by lia.
    + rewrite decide_True by lia. destruct (cl !! n) eqn:E; [done|]. apply lookup_ge_None in E. lia.
  - intros i b kb Hb Hkb. pose proof (Hne i b Hb) as Hba. rewrite lookup_delete_ne in Hkb by done.
    rewrite unlinked_lookup in Hkb. destruct (sk !! b) as [x|] eqn:Ex; [|done]. injection Hkb as <-. cbn.
    rewrite !list_lookup_delete in *. rewrite Hprev, Hnext. destruct (decide (i < n)%nat) as [Hi|Hi].
    + destruct (Hlinks i b x Hb Ex) as [H1 H2].
      rewrite (bool_decide_eq_false_2 (cl !! S n = Some b)).
      2:{ intros Hs. pose proof (NoDup_lookup _ _ _ _ Hnd Hs Hb). lia. }
      split; [|rewrite H2; destruct i as [|i]; [done|]; cbn; by rewrite list_lookup_delete_lt by lia].
      destruct n as [|n]; [lia|]. cbn [pred_at]. destruct (decide (i = n)) as [->|].
      * rewrite bool_decide_eq_true_2 by done. by rewrite decide_False by lia.
      * rewrite bool_decide_eq_false_2, decide_True by (try (intros Hs; pose proof (NoDup_lookup _ _ _ _ Hnd Hs Hb)); lia). done.
    + destruct (Hlinks (S i) b x Hb Ex) as [H1 H2]. rewrite decide_False by lia.
      rewrite (bool_decide_eq_false_2 (pred_at cl n = Some b)).
      2:{ destruct n as [|n]; [done|]. cbn. intros Hs. pose proof (NoDup_lookup _ _ _ _ Hnd Hs Hb). lia. }
      split; [done|]. destruct (decide (i = n)) as [->|].
      * rewrite bool_decide_eq_true_2 by done. destruct n as [|n]; [done|]. cbn. by rewrite list_lookup_delete_lt by lia.
      * rewrite bool_decide_eq_false_2 by (intros Hs; pose proof (NoDup_lookup _ _ _ _ Hnd Hs Hb); lia).
        rewrite H2. destruct i as [|i]; [lia|]. cbn. by rewrite list_lookup_delete_ge by lia.
Qed.

(** * Blocks and handlers *)

Lemma slab_rep_perm s outs outs' : outs ≡ₚ outs' → slab_rep s outs → slab_rep s outs'.
Proof.
  intros Hp [H4 Hr]. split; [done|]. intros i p Hi. destruct (Hr i p Hi) as (? & ? & fl & ? & Hpl).
  split; [done|]. split; [done|]. exists fl. split; [done|]. by rewrite <-Hp.
Qed.

(** The blocks of the connections, by address of the write buffer. *)
Definition blocks_of (x : Z * Z) : list (Z * Z) := [(x.1, ZEDIS_SLAB_512); (x.2, ZEDIS_CONN_WRITE_SIZE)].
Definition owned (bufs : gmap Z Z) : list (Z * Z) := map_to_list bufs ≫= blocks_of.

Lemma owned_insert bufs a b :
  bufs !! a = None →
  owned (<[a := b]> bufs) ≡ₚ (a, ZEDIS_SLAB_512) :: (b, ZEDIS_CONN_WRITE_SIZE) :: owned bufs.
Proof. intros Ha. unfold owned. by rewrite (map_to_list_insert bufs a b Ha). Qed.

Lemma owned_delete bufs a b :
  bufs !! a = Some b →
  owned bufs ≡ₚ (a, ZEDIS_SLAB_512) :: (b, ZEDIS_CONN_WRITE_SIZE) :: owned (delete a bufs).
Proof. intros Ha. rewrite <-(insert_delete_id bufs a b Ha) at 1. apply owned_insert. apply lookup_delete_eq. Qed.

(** The connections are 512-byte blocks that are outstanding. *)
Lemma owned_outs bufs rest a : is_Some (bufs !! a) → a - BLOCK_DATA ∈ outs_of 2 (owned bufs ++ rest).
Proof.
  intros [b Hb]. rewrite (owned_delete _ _ _ Hb). cbn [app]. rewrite outs_of_cons, decide_True by done. by left.
Qed.

Lemma owned_size bufs rest : (size bufs <= length (outs_of 2 (owned bufs ++ rest)))%nat.
Proof.
  revert rest. induction bufs as [|a b bufs Ha IH] using map_ind; intros rest; [rewrite map_size_empty; lia|].
  rewrite map_size_insert_None by done. rewrite (owned_insert _ _ _ Ha). cbn [app].
  rewrite outs_of_cons, decide_True, outs_of_cons, decide_False by done. cbn [length]. specialize (IH rest). lia.
Qed.

(** The number of blocks of the pools is bounded. *)
Definition slab_small (s : slab) : Prop := Forall (λ p, block_count p < 2 ^ 62) s.

Lemma slab_room s bufs rest p :
  slab_rep s (owned bufs ++ rest) → s !! 2%nat = Some p → slab_small s → Z.of_nat (size bufs) < 2 ^ 62.
Proof.
  intros [_ Hr] Hp Hs. destruct (Hr 2%nat p Hp) as (_ & Hc & fl & _ & Hpl).
  pose proof (Forall_lookup_1 _ _ _ _ Hs Hp) as Hb. cbv beta in Hb. pose proof (owned_size bufs rest) as Ho.
  apply Permutation_length in Hpl. rewrite length_app in Hpl. unfold blocks in Hpl. rewrite length_fmap, length_seqZ in Hpl. lia.
Qed.

Lemma slab_alloc_small s size r s' : zedis_slab_alloc s size = Ok (r, s') → slab_small s → slab_small s'.
Proof.
  unfold zedis_slab_alloc. intros Ha Hs. destruct (pool_for_size size) as [i|]; [|by injection Ha as <- <-].
  destruct (aget s _) as [p|] eqn:Ep; [|done]. cbn [mbind exec_bind] in Ha. apply aget_lookup in Ep as [_ Ep].
  destruct (free_list p) as [b|]; [|by injection Ha as <- <-]. destruct (nexts p !! b); [|done]. injection Ha as <- <-.
  apply Forall_insert; [done|]. apply (Forall_lookup_1 _ _ _ _ Hs Ep).
Qed.

Lemma slab_free_small s p size s' : zedis_slab_free s p size = Ok s' → slab_small s → slab_small s'.
Proof.
  unfold zedis_slab_free. intros Ha Hs. destruct p as [p|]; [|by injection Ha as <-].
  destruct (pool_for_size size) as [i|]; [|by injection Ha as <-].
  destruct (aget s _) as [q|] eqn:Eq; [|done]. cbn [mbind exec_bind] in Ha. injection Ha as <-.
  apply aget_lookup in Eq as [_ Eq]. apply Forall_insert; [done|]. apply (Forall_lookup_1 _ _ _ _ Hs Eq).
Qed.

(** Every handler belongs to the connection with its descriptor. *)
Definition handlers_ok (fds : gmap Z Z) (m : gmap Z (Z * handler)) : Prop :=
  ∀ fd ev h, m !! fd = Some (ev, h) →
  match h with HAccept => True | HReadable a | HWritable a => fds !! a = Some fd end.

Lemma handlers_ok_rearmed fds m a c : handlers_ok fds m → fds !! a = Some (c_fd c) → handlers_ok fds (rearmed m a c).
Proof.
  intros Hm Ha fd ev h. unfold rearmed. case_bool_decide; [|apply Hm].
  destruct (decide (fd = c_fd c)) as [->|Hne]; [|rewrite lookup_insert_ne by done; apply Hm].
  rewrite lookup_insert_eq. case_bool_decide; intros [= <- <-]; done.
Qed.

Lemma handlers_ok_delete fds m a fd : handlers_ok fds m → fds !! a = Some fd → handlers_ok (delete a fds) (delete fd m).
Proof.
  intros Hm Ha f ev h Hf. apply lookup_delete_Some in Hf as [Hne Hf]. specialize (Hm f ev h Hf).
  destruct h as [|b|b]; [done|..]; rewrite lookup_delete_ne; try done; intros ->; congruence.
Qed.

Lemma handlers_ok_unregistered fds m a fd : handlers_ok fds m → fds !! a = Some fd → m !! fd = None → handlers_ok (delete a fds) m.
Proof. intros Hm Ha Hn. rewrite <-(delete_id m fd) by done. by eapply handlers_ok_delete. Qed.

Lemma handlers_ok_insert_conn fds m a fd : handlers_ok fds m → fds !! a = None → handlers_ok (<[a := fd]> fds) m.
Proof.
  intros Hm Ha f ev h Hf. specialize (Hm f ev h Hf). destruct h as [|b|b]; [done|..];
    rewrite lookup_insert_ne; try done; intros ->; congruence.
Qed.

(** * Watching *)

(** The registration that a connection needs: to be told when the socket can
    take what is pending, or else when there is something to read. *)
Definition registration (a : Z) (c : conn) : Z * handler :=
  if bool_decide (pending c = []) then (READ_MASK, HReadable a) else (WRITE_MASK, HWritable a).

(** The listening socket is watched, and so is every open connection except
    [new], which was created just now; no two of them share a descriptor. *)
Record watch_ok (new : option Z) (lfd : Z) (cs : gmap Z conn) (m : gmap Z (Z * handler)) : Prop := WatchOk {
  wo_listen : m !! lfd = Some (READ_MASK, HAccept);
  wo_other : ∀ a c, cs !! a = Some c → c_fd c ≠ lfd;
  wo_inj : ∀ a b ca cb, cs !! a = Some ca → cs !! b = Some cb → c_fd ca = c_fd cb → a = b;
  wo_conn : ∀ a c, cs !! a = Some c → closed c = false → new ≠ Some a → m !! c_fd c = Some (registration a c);
}.

(** One connection changes, and the loop at most at its descriptor. *)
Lemma watch_update new lfd cs m m' a c c' :
  watch_ok new lfd cs m → cs !! a = Some c → c_fd c' = c_fd c → (∀ fd, fd ≠ c_fd c → m' !! fd = m !! fd) →
  (closed c' = false → new ≠ Some a → m' !! c_fd c = Some (registration a c')) → watch_ok new lfd (<[a := c']> cs) m'.
Proof.
  intros [Hl Ho Hinj Hw] Hc Hfd Hm Hreg.
  assert (∀ b cb, <[a := c']> cs !! b = Some cb → ∃ cb0, cs !! b = Some cb0 ∧ c_fd cb = c_fd cb0) as Hback.
  { intros b cb. rewrite lookup_insert_Some. intros [[<- <-]|[_ Hb]]; [by exists c|by exists cb]. }
  split.
  - rewrite Hm; [done|]. apply not_eq_sym. by eapply Ho.
  - intros b cb Hb. destruct (Hback b cb Hb) as (cb0 & Hb0 & ->). by eapply Ho.
  - intros b d cb cd Hb Hd. destruct (Hback b cb Hb) as (cb0 & Hb0 & ->). destruct (Hback d cd Hd) as (cd0 & Hd0 & ->).
    by eapply Hinj.
  - intros b cb. rewrite lookup_insert_Some. intros [[<- <-]|[Hne Hb]] Hcl Hnew; [rewrite Hfd; by apply Hreg|].
    rewrite Hm by (intros Heq; apply Hne; by eapply Hinj). by apply Hw.
Qed.

Lemma rearmed_ne m a c fd : fd ≠ c_fd c → rearmed m a c !! fd = m !! fd.
Proof. intros Hne. unfold rearmed. case_bool_decide; [|done]. by rewrite lookup_insert_ne. Qed.

Lemma rearmed_eq m a c x : m !! c_fd c = Some x → rearmed m a c !! c_fd c = Some (registration a c).
Proof. intros Hm. unfold rearmed. rewrite Hm, bool_decide_eq_true_2 by by eexists. apply lookup_insert_eq. Qed.

(** After a flush that did not fail. *)
Lemma watch_rearmed lfd cs m a c c' :
  watch_ok None lfd cs m → cs !! a = Some c → (closed c' = false → closed c = false) → c_fd c' = c_fd c →
  watch_ok None lfd (<[a := c']> cs) (rearmed m a c').
Proof.
  intros Hwo Hc Hcl Hfd. eapply watch_update; [done|exact Hc|done|by rewrite <-Hfd; apply rearmed_ne|].
  intros Hopen _. rewrite <-Hfd. eapply rearmed_eq. rewrite Hfd. apply (wo_conn _ _ _ _ Hwo a c); auto.
Qed.

(** * The invariant *)

(** The data structures; the ring is published to and never polled. *)
Record data_ok (k : hash_table) (b : order_book) (r : ring_buffer) (lg : append_log) (zs : zset_registry)
    (ls : list_registry) : Prop := DataOk {
  do_kv : ht_wf k;
  do_book : book_wf b;
  do_ring : (∃ q, ring_refines r q) ∧ read_seq r = 0;
  do_zsets : ∃ maxm M room, zreg_rep zs maxm M room ∧ scores_ok M;
  do_lists : ∃ cap st, lreg_rep ls lg cap st;
  do_typed : data_typed k b r lg zs ls;
}.

Definition conn_ok (c : conn) : Prop :=
  conn_wf c ∧ parser_wf (parser c) ∧ zlen (subscribe_channel c) = SUBSCRIBE_CHANNEL_SIZE ∧ 0 ∈ subscribe_channel c.

(** malloc gave the parser as many bytes as it asked for. *)
Definition accepted_ok (x : accepted) : Prop := ∀ b, a_mem x = Some b → zlen b = RESP_PARSER_DEFAULT_BUF.

Record server_inv_but (new : option Z) (s : server) : Prop := ServerInv {
  inv_list : ∃ cl, conn_list (skels (conns s)) (conns_head s) cl ∧ conn_count s = zlen cl;
  inv_loop : ∃ m, loop_rep (s_loop s) m ∧ handlers_ok (c_fd <$> conns s) m ∧ watch_ok new (listen_fd s) (conns s) m;
  inv_slab : ∃ rest, slab_rep (s_slab s) (owned (buf_addr <$> conns s) ++ rest) ∧ slab_small (s_slab s);
  inv_conns : ∀ a c, conns s !! a = Some c → conn_ok c;
  inv_metrics : metrics_ok (s_metrics s);
  inv_data : data_ok (kv s) (book s) (ring s) (aol s) (zsets s) (lists s);
  inv_accept : Forall accepted_ok (k_accept s);
}.
Arguments inv_list {_} _ _.
Arguments inv_loop {_} _ _.
Arguments inv_slab {_} _ _.
Arguments inv_conns {_} _ _.
Arguments inv_metrics {_} _ _.
Arguments inv_data {_} _ _.
Arguments inv_accept {_} _ _.

Abbreviation server_inv := (server_inv_but None).

(** * Changes that keep the skeleton *)

(** What no command changes of a connection that it keeps. *)
Definition same_core (c c' : conn) : Prop :=
  parser c' = parser c ∧ k_in (sock c') = k_in (sock c) ∧ skel_of c' = skel_of c.

(** Every connection is still there, with its parser, its input and its links. *)
Definition kept (s s' : server) : Prop :=
  ∀ a c, conns s !! a = Some c → ∃ c', conns s' !! a = Some c' ∧ same_core c c'.

#[export] Instance kept_preorder : PreOrder kept.
Proof.
  split.
  - intros s a c Hc. by exists c.
  - intros s1 s2 s3 H12 H23 a c Hc. destruct (H12 a c Hc) as (c' & Hc' & H1 & H2 & H3).
    destruct (H23 a c' Hc') as (c'' & Hc'' & H4 & H5 & H6). exists c''. split; [done|]. unfold same_core. by rewrite H4, H5, H6.
Qed.

Lemma kept_same s s' : conns s' = conns s → kept s s'.
Proof. intros Hc a c Ha. exists c. by rewrite Hc. Qed.

Lemma fds_same (cs : gmap Z conn) a c c' : cs !! a = Some c → skel_of c' = skel_of c → c_fd <$> (<[a := c']> cs) = c_fd <$> cs.
Proof.
  intros Hc He. rewrite fmap_insert, insert_id; [done|]. rewrite lookup_fmap, Hc. cbn. injection He. congruence.
Qed.
Lemma bufs_same (cs : gmap Z conn) a c c' : cs !! a = Some c → skel_of c' = skel_of c → buf_addr <$> (<[a := c']> cs) = buf_addr <$> cs.
Proof.
  intros Hc He. rewrite fmap_insert, insert_id; [done|]. rewrite lookup_fmap, Hc. cbn. injection He. congruence.
Qed.

(** Reads fields of updated servers. *)
Ltac srv_simpl :=
  cbn [set_conns set_list set_alloc set_accept set_metrics set_data put_conn cfg s_metrics s_loop listen_fd running
       s_arena s_slab kv book ring aol zsets lists conns conns_head conn_count k_accept k_malloc].

Lemma inv_update s a c c' l m :
  server_inv s → conns s !! a = Some c → skel_of c' = skel_of c → conn_ok c' →
  loop_rep l m → handlers_ok (c_fd <$> conns s) m → watch_ok None (listen_fd s) (<[a := c']> (conns s)) m →
  server_inv (set_conns s l (<[a := c']> (conns s))).
Proof.
  intros [Hl Hlp Hsl Hcs Hm Hd Ha] Hc Hsk Hok Hlr Hho Hwo. split; srv_simpl; try done.
  - by rewrite (skels_same _ _ _ _ Hc Hsk).
  - exists m. by rewrite (fds_same _ _ _ _ Hc Hsk).
  - by rewrite (bufs_same _ _ _ _ Hc Hsk).
  - intros b cb. rewrite lookup_insert_Some. intros [[<- <-]|[_ Hb]]; [done|by eapply Hcs].
Qed.

Lemma inv_update_same s a c c' :
  server_inv s → conns s !! a = Some c → skel_of c' = skel_of c → conn_ok c' →
  (closed c' = false → closed c = false ∧ pending c' = pending c) → server_inv (put_conn s a c').
Proof.
  intros Hi Hc Hsk Hok Hout. pose proof (inv_loop s Hi) as (m & Hm & Hho & Hwo). eapply inv_update; try done.
  eapply watch_update; [done|exact Hc|by injection Hsk|done|]. intros Hcl Hn. destruct (Hout Hcl) as [Hc0 Hp].
  rewrite (wo_conn _ _ _ _ Hwo a c Hc Hc0 Hn). unfold registration. by rewrite Hp.
Qed.

Lemma inv_set_data s k b r lg zs ls :
  server_inv s → data_ok k b r lg zs ls → server_inv (set_data s k b r lg zs ls).
Proof. intros [Hl Hlp Hsl Hcs Hm Hd Ha] Hok. by split. Qed.

Lemma inv_set_metrics s m : server_inv s → metrics_ok m → server_inv (set_metrics s m).
Proof. intros [Hl Hlp Hsl Hcs Hm Hd Ha] Hok. by split. Qed.

Lemma inv_set_accept s k : server_inv s → Forall accepted_ok k → server_inv (set_accept s k).
Proof. intros [Hl Hlp Hsl Hcs Hm Hd Ha] Hok. by split. Qed.

Lemma inv_set_alloc s sl ms rest :
  server_inv s → slab_rep sl (owned (buf_addr <$> conns s) ++ rest) → slab_small sl → server_inv (set_alloc s sl ms).
Proof. intros [Hl Hlp Hsl Hcs Hm Hd Ha] Hr Hs. split; try done. by exists rest. Qed.

Lemma same_input_ok c c' : same_input c c' → conn_wf c' → conn_ok c → conn_ok c'.
Proof. intros (_ & H1 & H2 & _) Hwf (_ & H3 & H4 & H5). unfold conn_ok. by rewrite H1, H2. Qed.

Lemma same_input_core c c' : same_input c c' → same_core c c'.
Proof. intros Hs. pose proof (same_input_skel _ _ Hs). destruct Hs as (_ & H1 & _ & _ & _ & _ & _ & H2). done. Qed.

(** * Replies *)

(** A reply is queued, or refused and the connection marked as closed. *)
Lemma queue_write_inv s a c data :
  server_inv s → conns s !! a = Some c → zlen data < 2 ^ 62 → overruns c data = false →
  ∃ s', queue_write s a data (zlen data) = Ok s' ∧ server_inv s' ∧ kept s s'.
Proof.
  intros Hi Hc Hd Hov. pose proof (inv_loop s Hi) as (m & Hm & Hho & Hwo). pose proof (inv_conns s Hi a c Hc) as Hok.
  unfold queue_write, get_conn. rewrite Hc. cbn [mbind exec_bind].
  destruct (queue_write_ok (s_loop s) m a c data (proj1 Hok) Hm Hd Hov) as (rc & c' & l' & -> & Hwf & Hsame & _ & _ & Hpost).
  cbn [mbind exec_bind]. eexists. split; [done|]. split.
  - assert (∃ m', loop_rep l' m' ∧ handlers_ok (c_fd <$> conns s) m' ∧ watch_ok None (listen_fd s) (<[a := c']> (conns s)) m')
      as (m' & Hm' & Hho' & Hwo').
    { pose proof (proj1 Hsame) as Hfd'. assert ((c_fd <$> conns s) !! a = Some (c_fd c')) as Hfd.
      { rewrite lookup_fmap, Hc. cbn. by rewrite Hfd'. }
      assert (closed c' = true → watch_ok None (listen_fd s) (<[a := c']> (conns s)) m) as Hgone.
      { intros Hcl. eapply watch_update; [done|exact Hc|done|done|congruence]. }
      destruct (closed c) eqn:Ecl; [destruct Hpost as (_ & -> & ->); exists m; auto|].
      destruct (_ <? _); [destruct Hpost as (_ & -> & ->); exists m; auto|].
      destruct Hpost as (_ & [(_ & _ & Hr)|(_ & Hcl & ->)]); [|exists m; auto].
      exists (rearmed m a c'). split; [done|]. split; [by apply handlers_ok_rearmed|]. by eapply watch_rearmed. }
    eapply inv_update; [done|exact Hc|by apply same_input_skel|by eapply same_input_ok|done|done|done].
  - intros b cb Hb. cbn. destruct (decide (a = b)) as [<-|Hne].
    + rewrite lookup_insert_eq. assert (cb = c) as -> by congruence. exists c'. split; [done|]. by apply same_input_core.
    + rewrite lookup_insert_ne by done. by exists cb.
Qed.

Lemma queue_write_block s a c data :
  server_inv s → conns s !! a = Some c → zlen data < 2 ^ 62 → overruns c data = true →
  queue_write s a data (zlen data) = Stuck BlockOverrun.
Proof.
  intros Hi Hc Hd Hov. unfold queue_write, get_conn. rewrite Hc. cbn [mbind exec_bind].
  by rewrite (queue_write_overrun _ _ _ _ (proj1 (inv_conns s Hi a c Hc)) Hd Hov).
Qed.

Lemma queue_write_safe s a c data :
  server_inv s → conns s !! a = Some c → zlen data < 2 ^ 62 →
  defined (queue_write s a data (zlen data)) (λ s', server_inv s' ∧ kept s s').
Proof.
  intros Hi Hc Hd. destruct (overruns c data) eqn:Eo.
  - rewrite (queue_write_block s a c) by done. cbn. set_solver.
  - destruct (queue_write_inv s a c data Hi Hc Hd Eo) as (s' & -> & H). exact H.
Qed.

(** The text may be longer than the array it was printed to. *)
Lemma queue_write_long s a c data len :
  server_inv s → conns s !! a = Some c → 0 <= len → zlen data < 2 ^ 62 →
  defined (queue_write s a data len) (λ s', server_inv s' ∧ kept s s').
Proof.
  intros Hi Hc Hlen Hd. destruct (decide (len <= zlen data)) as [Hle|Hgt].
  - pose proof (queue_write_safe s a c (slice data 0 len) Hi Hc) as Hq. rewrite zlen_slice in Hq by lia. specialize (Hq ltac:(lia)).
    replace (queue_write s a data len) with (queue_write s a (slice data 0 len) len); [done|].
    unfold queue_write. destruct (get_conn s a) as [c0|]; [|done]. cbn [mbind exec_bind].
    pose proof (queue_write_prefix (s_loop s) a c0 (slice data 0 len) (drop (Z.to_nat len) data)) as Hp.
    rewrite slice_take, take_drop, <-slice_take, zlen_slice in Hp by lia. by rewrite Hp.
  - unfold queue_write, get_conn. rewrite Hc. cbn [mbind exec_bind]. unfold conn_queue_write, write_buf_append.
    pose proof (inv_conns s Hi a c Hc) as Hok.
    assert (∀ c', skel_of c' = skel_of c → conn_ok c' → same_core c c' → closed c' = true →
      server_inv (set_conns s (s_loop s) (<[a := c']> (conns s))) ∧ kept s (set_conns s (s_loop s) (<[a := c']> (conns s)))) as Hset.
    { intros c' Hsk Hok' Hco Hcl. split; [eapply inv_update_same; [done|done|done|done|congruence]|]. intros b cb Hb. cbn. destruct (decide (a = b)) as [<-|Hne].
      - rewrite lookup_insert_eq. assert (cb = c) as -> by congruence. by exists c'.
      - rewrite lookup_insert_ne by done. by exists cb. }
    destruct (closed c) eqn:Ecl; cbn; [by apply Hset|].
    destruct (u64 _ >? _) eqn:E; cbn.
    + apply Hset; [done| |done|done]. destruct Hok as ([Hwf _] & H2 & H3). by split.
    + unfold read_src. destruct (_ && _) eqn:E2; [zb; lia|]. cbn. by right; left.
Qed.
