(* ===== verification/ConnSafe.v ===== *)
(** The life of a connection under the invariant of the server: conn_create
    links a new one in front of the list, conn_destroy takes one out of the
    list, out of the event loop and gives its blocks back. *)

From stdpp Require Import gmap.
From S2P Require Import Prelude Arena HashTable OrderBook RingBuffer AppendLog BTree ZSet KeyRegistry Slab Resp.
From S2P Require Import RespSafe EventLoop Conn Metrics ServerState Commands CommandSpec ServerInv.

(** * Links *)

Lemma skels_links (cs : gmap Z conn) a c n p :
  cs !! a = Some c → skels (<[a := set_links c n p]> cs) = <[a := Skel (c_fd c) n p (buf_addr c)]> (skels cs).
Proof. intros Hc. unfold skels. by rewrite fmap_insert. Qed.

Lemma alter_insert_Some (sk : gmap Z skel) a k f : sk !! a = Some k → alter f a sk = <[a := f k]> sk.
Proof.
  intros Hk. apply map_eq. intros b. destruct (decide (a = b)) as [<-|Hne].
  - by rewrite lookup_alter_eq, lookup_insert_eq, Hk.
  - by rewrite lookup_alter_ne, lookup_insert_ne.
Qed.

(** The connections of [cs'] are those of [cs] up to their links. *)
Definition relinked (cs cs' : gmap Z conn) : Prop :=
  ∀ a c', cs' !! a = Some c' → ∃ c n p, cs !! a = Some c ∧ c' = set_links c n p.

Lemma relinked_refl cs : relinked cs cs.
Proof. intros a c Hc. exists c, (next c), (prev c). split; [done|]. by destruct c. Qed.

Lemma relinked_insert cs cs' a c n p :
  relinked cs cs' → cs' !! a = Some c → relinked cs (<[a := set_links c n p]> cs').
Proof.
  intros Hr Hc b cb. rewrite lookup_insert_Some. intros [[<- <-]|[_ Hb]]; [|by apply Hr].
  destruct (Hr a c Hc) as (c0 & n0 & p0 & Hc0 & ->). by exists c0, n, p.
Qed.

Lemma relinked_ok cs cs' :
  relinked cs cs' → (∀ a c, cs !! a = Some c → conn_ok c) → ∀ a c, cs' !! a = Some c → conn_ok c.
Proof. intros Hr Hok a c Hc. destruct (Hr a c Hc) as (c0 & n & p & Hc0 & ->). exact (Hok a c0 Hc0). Qed.

Lemma fds_skels cs : c_fd <$> cs = k_fd <$> skels cs.
Proof. unfold skels. rewrite <-map_fmap_compose. by apply map_fmap_ext. Qed.
Lemma bufs_skels cs : buf_addr <$> cs = k_buf <$> skels cs.
Proof. unfold skels. rewrite <-map_fmap_compose. by apply map_fmap_ext. Qed.

Lemma unlinked_fds sk k : k_fd <$> unlinked sk k = k_fd <$> sk.
Proof. apply map_eq. intros b. rewrite !lookup_fmap, unlinked_lookup. by destruct (sk !! b). Qed.
Lemma unlinked_bufs sk k : k_buf <$> unlinked sk k = k_buf <$> sk.
Proof. apply map_eq. intros b. rewrite !lookup_fmap, unlinked_lookup. by destruct (sk !! b). Qed.

Lemma conn_list_index cs h cl a c :
  conn_list (skels cs) h cl → cs !! a = Some c → ∃ i, cl !! i = Some a.
Proof.
  intros [_ Hdom _ _] Hc. apply list_elem_of_lookup, Hdom. rewrite skels_lookup, Hc. by eexists.
Qed.

(** Both neighbours of a connection exist. *)
Lemma neighbours cs h cl a c :
  conn_list (skels cs) h cl → cs !! a = Some c →
  (∀ b, next c = Some b → is_Some (cs !! b)) ∧ (∀ b, prev c = Some b → is_Some (cs !! b)).
Proof.
  intros Hcl Hc. destruct (conn_list_index _ _ _ _ _ Hcl Hc) as [i Hi]. destruct Hcl as [_ Hdom _ Hlinks].
  assert (skels cs !! a = Some (skel_of c)) as Hk by (by rewrite skels_lookup, Hc).
  destruct (Hlinks i a _ Hi Hk) as [Hn Hp]. cbn in Hn, Hp.
  assert (∀ j b, cl !! j = Some b → is_Some (cs !! b)) as H.
  { intros j b Hb. destruct (proj1 (Hdom b)) as [k' Hk']; [by eapply list_elem_of_lookup_2|].
    rewrite skels_lookup in Hk'. by destruct (cs !! b). }
  split; intros b Hb; [rewrite Hn in Hb; by eapply H|]. rewrite Hp in Hb. destruct i; [done|]. by eapply H.
Qed.

Lemma unlink_ok s cl a c :
  conn_list (skels (conns s)) (conns_head s) cl → conn_count s = zlen cl → conns s !! a = Some c → ∃ cs,
    server_unlink_conn s a
      = Ok (set_list s cs (match prev c with Some _ => conns_head s | None => next c end) (conn_count s - 1)) ∧
    skels cs = unlinked (skels (conns s)) (skel_of c) ∧ relinked (conns s) cs.
Proof.
  intros Hcl Hcount Hc. destruct (neighbours _ _ _ _ _ Hcl Hc) as [Hnx Hpv].
  assert (0 < zlen cl) as Hpos.
  { destruct (conn_list_index _ _ _ _ _ Hcl Hc) as [i Hi].
    apply lookup_lt_Some in Hi. unfold zlen. lia. }
  unfold server_unlink_conn. rewrite (get_conn_ok _ _ _ Hc). cbn [mbind exec_bind].
  set (h := match prev c with Some _ => conns_head s | None => next c end).
  assert (∃ cs1, match prev c with
      | Some p => pc ← get_conn s p; Ok (put_conn s p (set_links pc (next c) (prev pc)))
      | None => Ok (set_list s (conns s) (next c) (conn_count s)) end = Ok (set_list s cs1 h (conn_count s)) ∧
    skels cs1 = (match prev c with Some p => alter (λ x, set_knext x (next c)) p (skels (conns s)) | None => skels (conns s) end) ∧
    relinked (conns s) cs1 ∧ cs1 !! a = Some c) as (cs1 & -> & Hsk1 & Hrl1 & Hc1).
  { unfold h. destruct (prev c) as [p|]; [|by exists (conns s); eauto using relinked_refl].
    destruct (Hpv p eq_refl) as [pc Hpc]. rewrite (get_conn_ok _ _ _ Hpc). cbn [mbind exec_bind]. eexists. split; [done|].
    split; [|split; [by apply relinked_insert; [apply relinked_refl|]|]].
    - rewrite skels_links, (alter_insert_Some _ _ (skel_of pc)) by (by rewrite ?skels_lookup, ?Hpc). done.
    - rewrite lookup_insert_Some. destruct (decide (p = a)) as [->|]; [left|by right]. split; [done|].
      assert (pc = c) as -> by congruence. by destruct c. }
  cbn [mbind exec_bind]. assert (get_conn (set_list s cs1 h (conn_count s)) a = Ok c) as -> by (by apply get_conn_ok).
  cbn [mbind exec_bind]. unfold unlinked. cbn [skel_of k_prev k_next]. rewrite <-Hsk1.
  assert (∀ cs, (let s2 := set_list s cs h (conn_count s) in
    if conn_count s2 >? 0 then set_list s2 (conns s2) (conns_head s2) (conn_count s2 - 1) else s2)
    = set_list s cs h (conn_count s - 1)) as Hfin.
  { intros cs. cbn. rewrite Z.gtb_ltb. destruct (0 <? conn_count s) eqn:E; zb; [done|lia]. }
  destruct (next c) as [n|]; [|exists cs1; split; [by rewrite <-(Hfin cs1)|done]].
  assert (is_Some (cs1 !! n)) as [nc Hn].
  { assert (is_Some (skels cs1 !! n)) as [k Hk].
    { rewrite Hsk1. destruct (Hnx n eq_refl) as [x Hx]. destruct (prev c); rewrite ?lookup_alter_is_Some, skels_lookup, Hx; by eexists. }
    rewrite skels_lookup in Hk. by destruct (cs1 !! n). }
  rewrite (get_conn_ok (set_list s cs1 h (conn_count s)) n nc Hn). cbn [mbind exec_bind].
  exists (<[n := set_links nc (next nc) (prev c)]> cs1). split; [by rewrite <-Hfin|].
  split; [|by apply relinked_insert]. rewrite skels_links, (alter_insert_Some _ _ (skel_of nc)) by (by rewrite ?skels_lookup, ?Hn). done.
Qed.

(** * Destroying a connection *)

Lemma del_handler (l : loop) m fds a fd :
  loop_rep l m → handlers_ok fds m → fds !! a = Some fd → ∃ rc l',
    event_loop_del l fd = Ok (rc, l') ∧ loop_rep l' (delete fd m) ∧ handlers_ok (delete a fds) (delete fd m).
Proof.
  intros Hrep Hho Hfd. destruct (loop_step_rep l m (LDel fd) Hrep) as (l' & Hl & Hr & _). cbn [loop_step reg_step] in *.
  do 2 eexists. split; [exact Hl|]. split; [|by apply handlers_ok_delete]. case_bool_decide as Hs; cbn [snd] in Hr; [done|].
  rewrite delete_id; [done|]. by apply eq_None_not_Some.
Qed.

(** The others are still watched. *)
Lemma watch_delete new lfd cs cs' m a c :
  watch_ok new lfd cs m → cs !! a = Some c → relinked cs cs' → new = None ∨ new = Some a →
  watch_ok None lfd (delete a cs') (delete (c_fd c) m).
Proof.
  intros [Hl Ho Hinj Hw] Hc Hrl Hnew.
  assert (∀ b cb, delete a cs' !! b = Some cb → b ≠ a ∧ ∃ cb0 n p, cs !! b = Some cb0 ∧ cb = set_links cb0 n p) as Hback.
  { intros b cb [Hne Hb]%lookup_delete_Some. by split; [|apply Hrl]. }
  split.
  - rewrite lookup_delete_ne; [done|]. by eapply Ho.
  - intros b cb Hb. destruct (Hback b cb Hb) as (_ & cb0 & n & p & Hb0 & ->). exact (Ho b cb0 Hb0).
  - intros b d cb cd Hb Hd. destruct (Hback b cb Hb) as (_ & cb0 & n & p & Hb0 & ->).
    destruct (Hback d cd Hd) as (_ & cd0 & n' & p' & Hd0 & ->). exact (Hinj b d cb0 cd0 Hb0 Hd0).
  - intros b cb Hb Hcl _. destruct (Hback b cb Hb) as (Hne & cb0 & n & p & Hb0 & ->).
    change (c_fd (set_links cb0 n p)) with (c_fd cb0). rewrite lookup_delete_ne.
    + rewrite (Hw b cb0 Hb0 Hcl); [done|]. destruct Hnew as [->| ->]; congruence.
    + intros Heq. apply Hne. symmetry. by eapply Hinj.
Qed.

Lemma free_blocks sl (bufs : gmap Z Z) rest a b :
  slab_rep sl (owned bufs ++ rest) → slab_small sl → bufs !! a = Some b → ∃ sl1 sl2,
    zedis_slab_free sl (Some b) ZEDIS_CONN_WRITE_SIZE = Ok sl1 ∧ zedis_slab_free sl1 (Some a) ZEDIS_SLAB_512 = Ok sl2 ∧
    slab_rep sl2 (owned (delete a bufs) ++ rest) ∧ slab_small sl2.
Proof.
  intros Hrep Hs Hb. pose proof (owned_delete bufs a b Hb) as Hp.
  apply (slab_rep_perm _ _ ((a, ZEDIS_SLAB_512) :: (b, ZEDIS_CONN_WRITE_SIZE) :: owned (delete a bufs) ++ rest)) in Hrep; [|by rewrite Hp].
  destruct (slab_free_ok sl _ 1 b ZEDIS_CONN_WRITE_SIZE Hrep eq_refl) as (sl1 & H1 & Hrep1); [by eexists|]. cbn in Hrep1.
  destruct (slab_free_ok sl1 _ 0 a ZEDIS_SLAB_512 Hrep1 eq_refl) as (sl2 & H2 & Hrep2); [by eexists|]. cbn in Hrep2.
  exists sl1, sl2. split; [done|]. split; [done|]. split; [done|]. by do 2 (eapply slab_free_small; [done|]).
Qed.

(** Only connections were taken down: the blocks that belonged to none of them
    are outstanding as before, and no others than those of the connections that
    are left. *)
Record taken_down (s s' : server) : Prop := TakenDown {
  td_listen : listen_fd s' = listen_fd s;
  td_epfd : epfd (s_loop s') = epfd (s_loop s);
  td_log : aol s' = aol s;
  td_metrics : s_metrics s' = s_metrics s;
  td_blocks : ∀ rest, slab_rep (s_slab s) (owned (buf_addr <$> conns s) ++ rest) →
                      slab_rep (s_slab s') (owned (buf_addr <$> conns s') ++ rest);
}.

#[export] Instance taken_down_preorder : PreOrder taken_down.
Proof.
  split; [done|]. intros s1 s2 s3 [H1 H2 H3 Hm H4] [H5 H6 H7 Hm' H8]. split; [congruence..|]. intros rest Hr. by apply H8, H4.
Qed.

(** The connection is gone, and its blocks are free again. *)
Lemma conn_destroy_new new s a c :
  server_inv_but new s → new = None ∨ new = Some a → conns s !! a = Some c → ∃ s',
    conn_destroy s a = Ok s' ∧ server_inv s' ∧ dom (conns s') = dom (conns s) ∖ {[a]} ∧ taken_down s s'.
Proof.
  intros [(cl & Hcl & Hcount) (m & Hm & Hho & Hwo) (rest & Hsl & Hsm) Hcs Hmet Hd Hac] Hnew Hc.
  unfold conn_destroy. rewrite (get_conn_ok _ _ _ Hc). cbn [mbind exec_bind].
  destruct (unlink_ok s cl a c Hcl Hcount Hc) as (cs & -> & Hsk & Hrl). cbn [mbind exec_bind set_list s_loop s_slab].
  destruct (del_handler (s_loop s) m (c_fd <$> conns s) a (c_fd c) Hm Hho) as (rc & l' & Hdel & Hm' & Hho').
  { by rewrite lookup_fmap, Hc. }
  rewrite Hdel. cbn [mbind exec_bind snd]. destruct (free_blocks (s_slab s) (buf_addr <$> conns s) rest a (buf_addr c) Hsl Hsm)
    as (sl1 & sl2 & Hf1 & Hf & Hsl2 & Hsm2); [by rewrite lookup_fmap, Hc|]. rewrite Hf1. cbn [mbind exec_bind]. rewrite Hf.
  cbn [mbind exec_bind]. eexists. split; [done|]. set (k := skel_of c) in *.
  assert (c_fd <$> delete a cs = delete a (c_fd <$> conns s)) as Hfds by (by rewrite fmap_delete, !fds_skels, Hsk, unlinked_fds).
  assert (buf_addr <$> delete a cs = delete a (buf_addr <$> conns s)) as Hbufs by (by rewrite fmap_delete, !bufs_skels, Hsk, unlinked_bufs).
  destruct (conn_list_index _ _ _ _ _ Hcl Hc) as [n Hn]. split; [|split].
  - split; srv_simpl; try done.
    + exists (delete n cl). split.
      * unfold skels. rewrite fmap_delete. fold (skels cs). rewrite Hsk.
        apply (conn_list_delete _ _ _ _ _ k Hcl Hn). by rewrite skels_lookup, Hc.
      * pose proof (lookup_lt_Some _ _ _ Hn). rewrite Hcount. unfold zlen. rewrite length_delete by by eexists. lia.
    + eexists. split; [exact Hm'|]. rewrite Hfds. split; [done|]. by eapply watch_delete.
    + exists rest. by rewrite Hbufs.
    + intros b cb [_ Hb]%lookup_delete_Some. by eapply relinked_ok.
  - srv_simpl. rewrite dom_delete_L. f_equal. rewrite <-!(dom_fmap_L skel_of). change (skel_of <$> ?x) with (skels x).
    rewrite Hsk. apply set_eq. intros b. rewrite !elem_of_dom, unlinked_lookup. by rewrite fmap_is_Some.
  - split; [done|exact (del_epfd _ _ _ _ Hdel)|done|done|]. intros rest' Hrest. srv_simpl. rewrite Hbufs.
    destruct (free_blocks (s_slab s) (buf_addr <$> conns s) rest' a (buf_addr c) Hrest Hsm) as (x1 & x2 & Hx1 & Hx2 & Hx & _);
      [by rewrite lookup_fmap, Hc|]. congruence.
Qed.

Lemma conn_destroy_inv s a c :
  server_inv s → conns s !! a = Some c → ∃ s',
    conn_destroy s a = Ok s' ∧ server_inv s' ∧ dom (conns s') = dom (conns s) ∖ {[a]} ∧ taken_down s s'.
Proof. intros Hi Hc. eapply conn_destroy_new; [done|by left|done]. Qed.

(** * Creating a connection *)

(** The descriptor is not in use. *)
Definition fd_free (s : server) (fd : Z) : Prop := fd ≠ listen_fd s ∧ ∀ a c, conns s !! a = Some c → c_fd c ≠ fd.

(** The new connection is not watched yet. *)
Lemma watch_new lfd cs cs' m a c :
  watch_ok None lfd cs m → cs !! a = None → relinked (<[a := c]> cs) cs' → c_fd c ≠ lfd →
  (∀ b cb, cs !! b = Some cb → c_fd cb ≠ c_fd c) → watch_ok (Some a) lfd cs' m.
Proof.
  intros [Hl Ho Hinj Hw] Ha Hrl Hlfd Hfree.
  assert (∀ b cb, cs' !! b = Some cb → ∃ cb0 n p, cb = set_links cb0 n p ∧ (b = a ∧ cb0 = c ∨ b ≠ a ∧ cs !! b = Some cb0)) as Hback.
  { intros b cb Hb. destruct (Hrl b cb Hb) as (cb0 & n & p & Hb0 & ->). exists cb0, n, p. split; [done|].
    apply lookup_insert_Some in Hb0 as [[<- <-]|[Hne Hb0]]; [by left|right]. by split. }
  split; [done|..].
  - intros b cb Hb. destruct (Hback b cb Hb) as (cb0 & n & p & -> & [[-> ->]|[_ Hb0]]); [done|]. exact (Ho b cb0 Hb0).
  - intros b d cb cd Hb Hd. destruct (Hback b cb Hb) as (cb0 & n & p & -> & Hb0). destruct (Hback d cd Hd) as (cd0 & n' & p' & -> & Hd0).
    change (c_fd (set_links cb0 n p)) with (c_fd cb0). change (c_fd (set_links cd0 n' p')) with (c_fd cd0). intros Heq.
    destruct Hb0 as [[-> ->]|[_ Hb0]], Hd0 as [[-> ->]|[_ Hd0]]; [done|..|by eapply Hinj].
    + by destruct (Hfree d cd0 Hd0).
    + by destruct (Hfree b cb0 Hb0).
  - intros b cb Hb Hcl Hne. destruct (Hback b cb Hb) as (cb0 & n & p & -> & [[-> _]|[_ Hb0]]); [done|]. exact (Hw b cb0 Hb0 Hcl ltac:(done)).
Qed.

(** Linking the connection at [a], which was stored just now. *)
Lemma link_ok s cl a c :
  conn_list (skels (conns s)) (conns_head s) cl → conns s !! a = None → ∃ cs,
    server_link_conn (put_conn s a c) a = Ok (set_list s cs (Some a) (u64 (conn_count s + 1))) ∧
    skels cs = <[a := Skel (c_fd c) (conns_head s) None (buf_addr c)]>
      (match conns_head s with Some h => alter (λ x, set_kprev x (Some a)) h (skels (conns s)) | None => skels (conns s) end) ∧
    relinked (<[a := c]> (conns s)) cs ∧ cs !! a = Some (set_links c (conns_head s) None).
Proof.
  intros Hcl Ha. unfold server_link_conn. rewrite (get_conn_ok (put_conn s a c) a c) by (cbn; by rewrite lookup_insert_eq).
  cbn [mbind exec_bind]. set (c' := set_links c _ _). change (conns_head (put_conn s a c)) with (conns_head s).
  change (put_conn (put_conn s a c) a c') with (set_conns s (s_loop s) (<[a := c']> (<[a := c]> (conns s)))).
  rewrite insert_insert_eq. assert (relinked (<[a := c]> (conns s)) (<[a := c']> (conns s))) as Hrl.
  { rewrite <-(insert_insert_eq (conns s) a c' c). apply relinked_insert; [apply relinked_refl|by rewrite lookup_insert_eq]. }
  destruct (conns_head s) as [h|] eqn:Eh.
  - assert (is_Some (conns s !! h)) as [hc Hh].
    { destruct (proj1 (cl_dom _ _ _ Hcl h)) as [k Hk]; [eapply list_elem_of_lookup_2; symmetry; exact (cl_head _ _ _ Hcl)|].
      rewrite skels_lookup in Hk. by destruct (conns s !! h). }
    assert (h ≠ a) as Hne by congruence.
    rewrite (get_conn_ok _ h hc) by (cbn; by rewrite lookup_insert_ne). cbn [mbind exec_bind].
    exists (<[h := set_links hc (next hc) (Some a)]> (<[a := c']> (conns s))). split; [done|]. split; [|split].
    + rewrite skels_links by (by rewrite lookup_insert_ne). rewrite (alter_insert_Some _ _ (skel_of hc)) by (by rewrite skels_lookup, Hh).
      unfold skels. rewrite fmap_insert, insert_insert_ne by done. unfold c', skel_of; cbn. by rewrite Eh.
    + apply relinked_insert; [done|by rewrite lookup_insert_ne].
    + rewrite lookup_insert_ne, lookup_insert_eq by done. unfold c'; cbn. by rewrite Eh.
  - exists (<[a := c']> (conns s)). split; [done|]. unfold skels, c'. cbn. rewrite Eh. split; [by rewrite fmap_insert|].
    split; [|by rewrite lookup_insert_eq]. unfold c' in Hrl. cbn in Hrl. by rewrite Eh in Hrl.
Qed.

(** A block that was allocated can be given back at once. *)
Lemma free_first sl outs a size :
  slab_rep sl ((a, size) :: outs) → slab_small sl → (∃ i, pool_for_size size = Some i) → ∃ sl',
    zedis_slab_free sl (Some a) size = Ok sl' ∧ slab_rep sl' outs ∧ slab_small sl'.
Proof.
  intros Hrep Hs Hi. destruct (slab_free_ok sl _ 0 a size Hrep eq_refl Hi) as (sl' & Hf & Hr).
  exists sl'. split; [done|]. split; [exact Hr|]. by eapply slab_free_small.
Qed.

(** The invariant with the new connection in front of the list. *)
Lemma conn_link_inv s sl a b c rest :
  server_inv s → conns s !! a = None → Z.of_nat (size (conns s)) < 2 ^ 62 → conn_ok c → buf_addr c = b →
  fd_free s (c_fd c) → slab_rep sl ((b, ZEDIS_CONN_WRITE_SIZE) :: (a, ZEDIS_SLAB_512) :: owned (buf_addr <$> conns s) ++ rest) → slab_small sl →
  ∃ s', server_link_conn (put_conn (set_alloc s sl (k_malloc s)) a c) a = Ok s' ∧ server_inv_but (Some a) s' ∧
    k_accept s' = k_accept s ∧ ∃ n p, conns s' !! a = Some (set_links c n p).
Proof.
  intros [(cl & Hcl & Hcount) (m & Hm & Hho & Hwo) _ Hcs Hmet Hd Hac] Ha Hroom Hok Hb [Hfl Hff] Hsl Hsm.
  destruct (link_ok (set_alloc s sl (k_malloc s)) cl a c Hcl Ha) as (cs & -> & Hsk & Hrl & Hca). srv_simpl.
  eexists. split; [done|]. srv_simpl. set (k := Skel _ _ _ _) in *.
  assert (∀ A (f : skel → A), (∀ x, f (set_kprev x (Some a)) = f x) → f <$> skels cs = <[a := f k]> (f <$> skels (conns s))) as Hf.
  { intros A f Hf. rewrite Hsk, fmap_insert. srv_simpl. f_equal. destruct (conns_head s) as [h|]; [|done].
    apply map_eq. intros x. rewrite !lookup_fmap. destruct (decide (h = x)) as [<-|Hne].
    - rewrite lookup_alter_eq. destruct (skels (conns s) !! h); cbn; by rewrite ?Hf.
    - by rewrite lookup_alter_ne. }
  split; [|split; [done|by do 2 eexists]]. split; srv_simpl; try done.
  - exists (a :: cl). split; [rewrite Hsk; srv_simpl; apply conn_list_cons; [done|by rewrite skels_lookup, Ha|done|done]|].
    assert (length cl = size (conns s)) as Hlen.
    { rewrite (conn_list_size _ _ _ Hcl). unfold skels. by rewrite map_size_fmap. }
    rewrite Hcount, zlen_cons. unfold zlen. rewrite u64_small by lia. lia.
  - exists m. split; [done|]. split; [|by eapply watch_new]. rewrite fds_skels, (Hf _ k_fd), <-fds_skels by done.
    apply handlers_ok_insert_conn; [done|by rewrite lookup_fmap, Ha].
  - exists rest. split; [|done]. rewrite bufs_skels, (Hf _ k_buf), <-bufs_skels by done. cbn [k_buf k]. rewrite Hb.
    eapply slab_rep_perm; [|exact Hsl]. rewrite owned_insert by (by rewrite lookup_fmap, Ha). cbn [app].
    apply perm_swap.
  - eapply relinked_ok; [exact Hrl|]. srv_simpl. intros x cx. rewrite lookup_insert_Some. intros [[<- <-]|[_ Hx]]; [done|by eapply Hcs].
Qed.

(** A new parser. *)
Lemma parser_init_wf acc sl ms p :
  accepted_ok acc → resp_parser_init (λ _, a_mem acc) sl ms = Some p → parser_wf (detach p).
Proof.
  intros Hacc. unfold resp_parser_init, resp_parser_init_ex. destruct (a_mem acc) as [b|] eqn:E; [|done].
  intros [= <-]. pose proof (Hacc b E) as Hb. unfold parser_wf, RESP_PARSER_DEFAULT_BUF in *. cbn. lia.
Qed.

(** A connection is created, or the server is as before. *)
Lemma conn_create_inv s fd acc :
  server_inv s → accepted_ok acc → fd_free s fd → ∃ r s',
    conn_create s fd acc = Ok (r, s') ∧ server_inv_but r s' ∧ k_accept s' = k_accept s ∧
    ∀ a, r = Some a → ∃ c, conns s' !! a = Some c ∧ c_fd c = fd ∧ pending c = [].
Proof.
  intros Hi Hacc Hfree. pose proof (inv_slab s Hi) as (rest & Hsl & Hsm). unfold conn_create.
  assert (∀ sl, slab_rep sl (owned (buf_addr <$> conns s) ++ rest) → slab_small sl → ∃ r s',
    Ok (None, set_alloc s sl (k_malloc s)) = Ok (r, s') ∧ server_inv_but r s' ∧ k_accept s' = k_accept s ∧
    ∀ a : Z, r = Some a → ∃ c, conns s' !! a = Some c ∧ c_fd c = fd ∧ pending c = []) as Hfail.
  { intros sl Hr Hs. do 2 eexists. split; [done|]. split; [by eapply inv_set_alloc|done]. }
  destruct (slab_alloc_ok _ _ ZEDIS_SLAB_512 Hsl) as (q & Hq & [[-> _]|(b & sl & Hal & _ & Hb & Hsl1)]).
  { cbn [mbind exec_bind]. by apply Hfail. }
  rewrite Hal. cbn [mbind exec_bind]. pose proof (slab_alloc_small _ _ _ _ Hal Hsm) as Hsm1. set (a := b + BLOCK_DATA) in *.
  destruct (resp_parser_init _ _ _) as [p|] eqn:Ep.
  2:{ destruct (free_first _ _ _ _ Hsl1 Hsm1) as (sl' & -> & Hr & Hs); [by eexists|]. by apply Hfail. }
  destruct (slab_alloc_ok _ _ ZEDIS_CONN_WRITE_SIZE Hsl1) as (q' & _ & [[-> _]|(wb & sl2 & Hal2 & _ & _ & Hsl2)]).
  { cbn [mbind exec_bind]. destruct (free_first _ _ _ _ Hsl1 Hsm1) as (sl' & -> & Hr & Hs); [by eexists|]. by apply Hfail. }
  rewrite Hal2. cbn [mbind exec_bind]. set (c := Conn _ _ _ _ _ _ _ _ _ _ _ _).
  assert (conns s !! a = None) as Ha.
  { destruct (conns s !! a) as [c0|] eqn:E; [|done]. destruct Hb.
    replace b with (a - BLOCK_DATA) by (unfold a; lia). apply owned_outs. rewrite lookup_fmap, E. by eexists. }
  destruct (conn_link_inv s sl2 a (wb + BLOCK_DATA) c rest) as (s' & -> & Hi' & Hk & n & pv & Hca); try done.
  - pose proof (slab_room _ _ _ _ Hsl Hq Hsm) as Hr. by rewrite map_size_fmap in Hr.
  - split; [split; [|done]; split; [reflexivity|]; split; [split|]; done|]. split; [by eapply parser_init_wf|].
    split; [reflexivity|]. by left.
  - by eapply slab_alloc_small.
  - cbn [mbind exec_bind]. do 2 eexists. split; [done|]. split; [done|]. split; [done|]. intros ? [= <-].
    eexists. split; [exact Hca|]. split; [done|]. unfold pending. by apply slice_nonpos.
Qed.
