(* ===== verification/CommandSafe.v ===== *)
(** Every command handler keeps the invariant of the server: it ends, or
    overflows a signed integer, or reads past the text of a reply, and never
    anything else. *)

From stdpp Require Import gmap sorting.
From S2P Require Import Prelude Arena HashTable HashTableSpec OrderBook RingBuffer AppendLog BTree BTreeShape.
From S2P Require Import ZSet KeyRegistry RegistrySpec Types Slab Resp RespSafe RespRound RespFormat RespSpec EventLoop Conn.
From S2P Require Import Metrics ServerState Commands CommandSpec StoreSpec ServerInv.

(** * The data structures *)

Lemma safe_yields {A} (m : exec A) (Q R : A → Prop) : safe m Q → yields m R → safe m (λ x, Q x ∧ R x).
Proof. destruct m as [x|f]; [by split|done]. Qed.

Lemma digits_i64_safe ds v :
  int64 v → safe (digits_i64 ds v) (λ r, ∀ z, r = Some z → int64 z).
Proof.
  revert v. induction ds as [|d ds IH]; intros v Hv; cbn [digits_i64]; [intros z [= <-]; done|].
  destruct (_ || _); [done|]. destruct (chk_i64 _) as [v10|f] eqn:E1; cbn [mbind exec_bind].
  - destruct (chk_i64 (v10 + _)) as [v'|f] eqn:E2; cbn [mbind exec_bind].
    + apply chk_i64_inv in E2 as [-> E2]. by apply IH.
    + revert E2. unfold chk_i64. destruct (_ && _); by intros [= <-].
  - revert E1. unfold chk_i64. destruct (_ && _); by intros [= <-].
Qed.

Lemma parse_i64_safe s : safe (parse_i64 s) (λ r, ∀ z, r = Some z → int64 z).
Proof.
  destruct s as [|c s]; cbn [parse_i64]; [done|]. destruct (if c =? 45 then s else c :: s) as [|d ds]; [done|].
  eapply safe_bind; [apply digits_i64_safe; unfold int64, INT64_MIN, INT64_MAX; lia|].
  intros [v|] Hv; [|done]. specialize (Hv v eq_refl). destruct (c =? 45); [|by intros z [= <-]].
  destruct (chk_i64 (- v)) as [v'|f] eqn:E; cbn [mbind exec_bind].
  - apply chk_i64_inv in E as [-> E]. by intros z [= <-].
  - revert E. unfold chk_i64. destruct (_ && _); by intros [= <-].
Qed.

Lemma parse_price_safe s : safe (parse_int s) (λ _, True).
Proof. unfold parse_int. eapply safe_bind; [apply parse_i64_safe|]. done. Qed.

(** A value that is found has the length of a value. *)
Lemma ht_get_value ht k c :
  ht_wf ht → zedis_ht_get ht k c = Ok None ∨
  ∃ v, zlen v <= ZEDIS_HT_MAX_VALUE ∧ zedis_ht_get ht k c = Ok (Some (get_result c v)).
Proof.
  intros Hwf. pose proof Hwf as (_ & [_ Hs] & _). destruct (ht_del_cases ht k Hwf) as (r & Hr & H).
  apply (get_of_probe _ _ c _ Hwf) in Hr. destruct r as [[i e]|]; [right|by left].
  destruct H as (j & _ & He & _). destruct (Hs _ _ He) as [Hb _]. exists (evalue e). split; [|by apply Hr].
  rewrite zlen_evalue by done. destruct Hb as (_ & _ & _ & ?). lia.
Qed.

(** An order ends in a well-formed book, or overflows. *)
Lemma place_safe b o : book_wf b → int64 (o_qty o) → safe (place b o) (λ x, book_wf x.2).
Proof.
  intros Hwf Hq. destruct (decide (price_min b <= o_price o <= price_max b)) as [Hin|Hout].
  2:{ by rewrite place_out. }
  destruct (level_at_in b (o_price o) Hwf Hin) as (l & Hl & [Hb Ha] & Hget). pose proof Hwf as (_ & _ & H3 & H4 & _).
  unfold int64, INT64_MIN in *. unfold place, zedis_book_bid, zedis_book_ask.
  destruct (o_side o); rewrite price_to_index_in by done; cbn [mbind exec_bind];
    (destruct (_ <? 0) eqn:E; zb; [lia|]); rewrite Hget; cbn [mbind exec_bind];
    (destruct (chk_i64 _) as [z|f] eqn:Ez;
     [|revert Ez; unfold chk_i64; destruct (_ && _); by intros [= <-]]);
    apply chk_i64_inv in Ez as [-> Ez]; cbn [mbind exec_bind]; rewrite aset_ok, max0_if by lia;
    apply (with_level_wf b (o_price o)); try done; split; cbn; unfold INT64_MIN, INT64_MAX in *; lia.
Qed.

Lemma book_level_ok b p : book_wf b → ∃ r, zedis_book_level b p = Ok r.
Proof.
  intros Hwf. unfold zedis_book_level. destruct (decide (price_min b <= p <= price_max b)) as [Hin|Hout].
  - destruct (level_at_in b p Hwf Hin) as (l & Hl & _ & Hget). rewrite price_to_index_in by done.
    cbn [mbind exec_bind]. destruct (_ <? 0); [by eexists|]. rewrite Hget. by eexists.
  - rewrite price_to_index_out by done. by eexists.
Qed.

(** * Replies *)

(** The run ends in a server that satisfies the invariant and has kept every
    connection of [s]. *)
Definition keeps (s : server) (m : exec server) : Prop := defined m (λ s', server_inv s' ∧ kept s s').

(** The same for a handler, which returns 0. *)
Definition serves (s : server) (m : exec (Z * server)) : Prop :=
  defined m (λ x, x.1 = 0 ∧ server_inv x.2 ∧ kept s x.2).

Lemma keeps_refl s : server_inv s → keeps s (Ok s).
Proof. done. Qed.

Lemma serves_refl s : server_inv s → serves s (Ok (0, s)).
Proof. done. Qed.

Lemma keeps_serves s m : keeps s m → serves s (s' ← m; Ok (0, s')).
Proof. intros Hm. eapply defined_bind; [exact Hm|]. by intros s' [? ?]. Qed.

Lemma serves_after s s1 m : kept s s1 → serves s1 m → serves s m.
Proof. intros Hk Hm. eapply defined_weaken; [exact Hm|]. intros x (? & ? & ?). split; [done|]. split; [done|]. by etrans. Qed.

(** A run that gives a value first. *)
Lemma serves_bind {A} s (m : exec A) (Q : A → Prop) k :
  safe m Q → (∀ x, Q x → serves s (k x)) → serves s (m ≫= k).
Proof. intros Hm Hk. eapply defined_bind; [by apply safe_defined|done]. Qed.

Section replies.
Context (s : server) (a : Z) (c : conn) (Hi : server_inv s) (Hc : conns s !! a = Some c).

Lemma queue_keeps data : zlen data < 2 ^ 62 → keeps s (queue_write s a data (zlen data)).
Proof. by apply queue_write_safe with c. Qed.

Lemma reply_formatted_keeps r cap v : formats r cap v → cap < 2 ^ 62 → keeps s (reply_formatted s a r).
Proof.
  intros Hf Hcap. rewrite (reply_formats _ _ _ _ _ Hf). destruct (_ <? cap) eqn:E; zb; [|by apply keeps_refl].
  apply queue_keeps. lia.
Qed.

Lemma reply_error_serves msg : zlen (bytes_of_string msg) < 2 ^ 62 → serves s (reply_error s a msg).
Proof.
  intros Hm. destruct (array_formats 512 (bytes_of_string msg) 0 ltac:(lia) Hm) as (_ & Hf & _).
  apply keeps_serves. by eapply reply_formatted_keeps.
Qed.

Lemma reply_simple_serves msg : zlen (bytes_of_string msg) < 2 ^ 62 → serves s (reply_simple s a msg).
Proof.
  intros Hm. destruct (array_formats 512 (bytes_of_string msg) 0 ltac:(lia) Hm) as (Hf & _).
  apply keeps_serves. by eapply reply_formatted_keeps.
Qed.

Lemma reply_integer_serves v : serves s (reply_integer s a v).
Proof.
  destruct (array_formats 64 [] v ltac:(lia)) as (_ & _ & Hf & _); [done|].
  apply keeps_serves. by eapply reply_formatted_keeps.
Qed.

Lemma reply_bulk_serves bs : zlen bs < 2 ^ 62 → serves s (reply_bulk s a bs).
Proof.
  intros Hb. destruct (array_formats 4096 bs 0 ltac:(lia) Hb) as (_ & _ & _ & Hf & _).
  apply keeps_serves. by eapply reply_formatted_keeps.
Qed.

Lemma reply_null_serves : serves s (reply_null s a).
Proof.
  destruct (array_formats 64 [] 0 ltac:(lia)) as (_ & _ & _ & _ & Hf); [done|].
  apply keeps_serves. by eapply reply_formatted_keeps.
Qed.

Lemma reply_raw_serves out : zlen out < 2 ^ 62 → serves s (s' ← queue_write s a out (zlen out); Ok (0, s')).
Proof. intros Ho. by apply keeps_serves, queue_keeps. Qed.

Lemma reply_printed_serves cap out : cap < 2 ^ 62 → serves s (reply_printed s a cap out).
Proof.
  intros Ho. unfold reply_printed, snprintf_n. pose proof (zlen_nonneg out).
  destruct (_ >? 0); [|by apply serves_refl]. apply keeps_serves. eapply queue_write_long; [done|done|lia|].
  unfold snprintf_buf, zlen. rewrite length_app, length_replicate, length_take. lia.
Qed.
End replies.

(** A reply whose text has a known length. *)
Ltac reply :=
  lazymatch goal with
  | |- serves _ (Ok _) => apply serves_refl; eassumption
  | |- serves _ (reply_error _ _ _) => eapply reply_error_serves; solve [eassumption | reflexivity]
  | |- serves _ (reply_simple _ _ _) => eapply reply_simple_serves; solve [eassumption | reflexivity]
  | |- serves _ (reply_integer _ _ _) => eapply reply_integer_serves; eassumption
  | |- serves _ (reply_null _ _) => eapply reply_null_serves; eassumption
  end.

(** * The handlers *)

(** The arguments come out of the parser's buffer. *)
Definition args_ok (cmd : list (option (list Z))) : Prop := ∀ i bs, cmd_bulk cmd i = Some bs → zlen bs < 2 ^ 62.

Lemma cmd_bulk2_inv cmd x y : cmd_bulk2 cmd = Some (x, y) → cmd_bulk cmd 1 = Some x ∧ cmd_bulk cmd 2 = Some y.
Proof.
  unfold cmd_bulk2. destruct (cmd_bulk cmd 1); [|done]. cbn. destruct (cmd_bulk cmd 2); [|done]. by intros [= -> ->].
Qed.

(** A server with other data: the connections are the same. *)
Lemma serves_data s k b r lg zs ls m :
  serves (set_data s k b r lg zs ls) m → serves s m.
Proof. apply serves_after. by apply kept_same. Qed.

Section handlers.
Context (s : server) (a : Z) (c : conn) (Hi : server_inv s) (Hc : conns s !! a = Some c).
Context (cmd : list (option (list Z))) (Hargs : args_ok cmd).

Lemma ping_serves : serves s (ping_command s a cmd).
Proof.
  unfold ping_command. destruct (_ =? 1); [reply|]. destruct (cmd_bulk cmd 1) eqn:E; [|reply].
  eapply reply_bulk_serves; eauto.
Qed.

Lemma echo_serves : serves s (echo_command s a cmd).
Proof. unfold echo_command. destruct (cmd_bulk cmd 1) eqn:E; [|reply]. eapply reply_bulk_serves; eauto. Qed.

Lemma set_serves : serves s (set_command s a cmd).
Proof.
  unfold set_command. destruct (cmd_bulk2 cmd) as [[k v]|]; [|reply]. pose proof (inv_data s Hi) as [Hk Hb Hr Hz Hl Ht].
  destruct (ht_set_total (kv s) k v Hk) as (rc & ht' & Heq & Hk' & _). pose proof (yields_ok _ _ _ (ht_set_typed _ k v (dt_kv Ht)) Heq) as Htk.
  rewrite Heq. cbn [mbind exec_bind fst snd] in *.
  assert (server_inv (set_kv s ht')) by (by apply inv_set_data; [|split; [..|destruct Ht]]).
  apply (serves_data s ht' (book s) (ring s) (aol s) (zsets s) (lists s)). destruct (negb _); reply.
Qed.

Lemma get_serves : serves s (get_command s a cmd).
Proof.
  unfold get_command. destruct (cmd_bulk cmd 1) as [key|]; [|reply]. pose proof (inv_data s Hi) as [Hk _ _ _ _].
  destruct (ht_get_value (kv s) key ZEDIS_HT_MAX_VALUE Hk) as [->|(v & Hv & ->)]; cbn [mbind exec_bind]; [reply|].
  destruct (value_array_read s a v Hv) as (v' & Hl & Hr & _). destruct (get_result _ v) as [bs n]. cbn [fst snd] in Hr.
  rewrite Hr. eapply reply_bulk_serves; [done|done|]. unfold ZEDIS_HT_MAX_VALUE in Hv. lia.
Qed.

Lemma del_serves : serves s (del_command s a cmd).
Proof.
  unfold del_command. destruct (cmd_bulk cmd 1) as [key|]; [|reply]. pose proof (inv_data s Hi) as [Hk Hb Hr Hz Hl Ht].
  destruct (ht_del_total (kv s) key Hk) as (rc & ht' & Heq & Hk' & _). pose proof (yields_ok _ _ _ (ht_del_typed _ key (dt_kv Ht)) Heq) as Htk.
  rewrite Heq. cbn [mbind exec_bind fst snd] in *.
  assert (server_inv (set_kv s ht')) by (by apply inv_set_data; [|split; [..|destruct Ht]]).
  apply (serves_data s ht' (book s) (ring s) (aol s) (zsets s) (lists s)). reply.
Qed.

(** BID and ASK. *)
Lemma order_serves sd price_str qty_str (bad out : string) :
  zlen (bytes_of_string bad) < 2 ^ 62 → zlen (bytes_of_string out) < 2 ^ 62 →
  serves s
    (p ← parse_int price_str;
     match p with
     | None => reply_error s a bad
     | Some price =>
         q ← parse_i64 qty_str;
         match q with
         | None => reply_error s a bad
         | Some qty =>
             y ← place (book s) (Order sd price qty);
             let s1 := set_book s y.2 in
             if negb (y.1 =? 0) then reply_error s1 a out else reply_integer s1 a qty
         end
     end).
Proof.
  intros Hbad Hout. pose proof (inv_data s Hi) as [Hk Hb Hr Hz Hl Ht].
  eapply serves_bind; [apply parse_price_safe|]. intros [p|] _; [|reply].
  eapply serves_bind; [apply parse_i64_safe|]. intros [q|] Hq; [|reply].
  eapply serves_bind; [apply safe_yields; [apply place_safe; [done|by apply Hq]|apply place_typed, (dt_book Ht)]|].
  intros [rc b'] [Hb' Htb]. cbn [fst snd] in Hb', Htb |- *.
  assert (server_inv (set_book s b')) by (by apply inv_set_data; [|split; [..|destruct Ht]]).
  apply (serves_data s (kv s) b' (ring s) (aol s) (zsets s) (lists s)). destruct (negb _); reply.
Qed.

Lemma bid_serves : serves s (bid_command s a cmd).
Proof. unfold bid_command. destruct (cmd_bulk2 cmd) as [[p q]|]; [|reply]. by apply (order_serves Bid). Qed.

Lemma ask_serves : serves s (ask_command s a cmd).
Proof. unfold ask_command. destruct (cmd_bulk2 cmd) as [[p q]|]; [|reply]. by apply (order_serves Ask). Qed.

Lemma book_serves : serves s (book_command s a cmd).
Proof.
  unfold book_command. destruct (cmd_bulk cmd 1) as [p|]; [|reply]. pose proof (inv_data s Hi) as [_ Hb _ _ _].
  eapply serves_bind; [apply parse_price_safe|]. intros [price|] _; [|reply].
  destruct (book_level_ok (book s) price Hb) as [r ->]. cbn [mbind exec_bind].
  destruct r as [[bid ask]|]; [|reply].
  by eapply reply_printed_serves.
Qed.

Lemma zadd_serves : serves s (zadd_command s a cmd).
Proof.
  unfold zadd_command. destruct (cmd_bulk3 cmd) as [[[key sc] member]|]; [|reply].
  pose proof (inv_data s Hi) as [Hk Hb Hr (maxm & M & room & Hz & HM) Hl Ht].
  eapply serves_bind; [apply parse_i64_safe|]. intros [score|] Hsc; [|reply]. specialize (Hsc score eq_refl).
  rewrite (zreg_score_refines _ _ _ _ key member Hz). cbn [mbind exec_bind].
  destruct (zreg_add_refines _ _ _ _ key score member Hz) as (reg' & Heq & Hz').
  pose proof (yields_ok _ _ _ (zreg_add_typed _ key score member (dt_zsets Ht) Hsc) Heq) as Htz.
  rewrite Heq. cbn [mbind exec_bind fst snd] in *.
  assert (server_inv (set_zsets s reg')).
  { apply inv_set_data; [done|]. split; try done; [|by destruct Ht]. do 3 eexists. split; [exact Hz'|]. by apply zmap_add_scores. }
  apply (serves_data s (kv s) (book s) (ring s) (aol s) reg' (lists s)). destruct (negb _); reply.
Qed.

Lemma zscore_serves : serves s (zscore_command s a cmd).
Proof.
  unfold zscore_command. destruct (cmd_bulk2 cmd) as [[key member]|]; [|reply].
  pose proof (inv_data s Hi) as [_ _ _ (maxm & M & room & Hz & HM) _].
  rewrite (zreg_score_refines _ _ _ _ key member Hz). cbn [mbind exec_bind].
  destruct (_ ≫= _) as [score|] eqn:E; [|reply].
  pose proof (fmt_g17_length _ (to_double_bound _ (scores_ok_score _ _ _ _ HM E))) as Hlen.
  set (out := fmt_g17 _) in *. unfold snprintf_n. rewrite snprintf_whole by lia. destruct (_ >? 0); [|reply].
  rewrite read_n_ok by (rewrite ?zlen_app; auto using zlen_nonneg; pose proof (zlen_nonneg (replicate (64 - length out) 0)); lia).
  cbn [mbind exec_bind]. rewrite slice_prefix. eapply reply_bulk_serves; [done|done|lia].
Qed.

Lemma zrange_serves : serves s (zrange_command s a cmd).
Proof.
  unfold zrange_command. destruct (cmd_bulk3 cmd) as [[[key st] sp]|]; [|reply].
  pose proof (inv_data s Hi) as [_ _ _ (maxm & M & room & Hz & HM) _].
  eapply serves_bind; [apply parse_i64_safe|]. intros [start|] _; [|reply].
  eapply serves_bind; [apply parse_i64_safe|]. intros [stop|] _; [|reply].
  destruct (zreg_range_refines _ _ _ _ key Hz) as (l & _ & _ & Hr). rewrite Hr. cbn [mbind exec_bind].
  destruct (zset_range _ _ _ _) as [out|] eqn:E; [|reply]. apply zset_range_short in E.
  eapply reply_raw_serves; [done|done|lia].
Qed.

Lemma lpush_serves : serves s (lpush_command s a cmd).
Proof.
  unfold lpush_command. destruct (cmd_bulk2 cmd) as [[key val]|]; [|reply].
  pose proof (inv_data s Hi) as [Hk Hb Hr Hz (cap & st & Hl) Ht].
  destruct (lreg_push_refines _ _ _ _ key val Hl) as (reg' & log' & Heq & Hl').
  pose proof (yields_ok _ _ _ (lreg_lpush_typed _ _ key val (dt_lists Ht) (dt_log Ht)) Heq) as [Htl Htg].
  rewrite Heq. cbn [mbind exec_bind fst snd] in *.
  assert (server_inv (set_lists s reg' log')).
  { apply inv_set_data; [done|]. split; try done; [by do 2 eexists|by destruct Ht]. }
  apply (serves_data s (kv s) (book s) (ring s) log' (zsets s) reg'). destruct (negb _); [reply|].
  destruct (lmap_push cap st key val).2 as [[L room] used]. srv_simpl. cbn [set_lists lists set_data].
  rewrite (lreg_llen_refines _ _ _ _ _ _ key Hl'). cbn [mbind exec_bind]. reply.
Qed.

Lemma llen_serves : serves s (llen_command s a cmd).
Proof.
  unfold llen_command. destruct (cmd_bulk cmd 1) as [key|]; [|reply].
  pose proof (inv_data s Hi) as [_ _ _ _ (cap & [[L room] used] & Hl)].
  rewrite (lreg_llen_refines _ _ _ _ _ _ key Hl). cbn [mbind exec_bind]. reply.
Qed.

Lemma lrange_serves : serves s (lrange_command s a cmd).
Proof.
  unfold lrange_command. destruct (cmd_bulk3 cmd) as [[[key st] sp]|]; [|reply].
  pose proof (inv_data s Hi) as [_ _ _ _ (cap & [[L room] used] & Hl)].
  eapply serves_bind; [apply parse_i64_safe|]. intros [start|] _; [|reply].
  eapply serves_bind; [apply parse_i64_safe|]. intros [stop|] _; [|reply].
  rewrite (lreg_lrange_refines _ _ _ _ _ _ key start stop 8192 Hl). cbn [mbind exec_bind]. cbv zeta.
  destruct (_ <? 8192) eqn:E; zb; [|reply]. eapply reply_raw_serves; [done|done|lia].
Qed.
End handlers.

(** * Walking through the connections *)

Fixpoint walk (s : server) (p : option Z) (cl : list Z) : Prop :=
  match cl with
  | [] => p = None
  | a :: cl' => p = Some a ∧ ∃ c, conns s !! a = Some c ∧ walk s (next c) cl'
  end.

Lemma kept_walk s s' p cl : kept s s' → walk s p cl → walk s' p cl.
Proof.
  intros Hk. revert p. induction cl as [|a cl IH]; intros p; cbn [walk]; [done|]. intros (-> & c & Hc & Hw).
  split; [done|]. destruct (Hk a c Hc) as (c' & Hc' & _ & _ & Hsk). exists c'. split; [done|].
  injection Hsk as _ -> _ _. by apply IH.
Qed.

Lemma conn_list_walk s h cl : conn_list (skels (conns s)) h cl → walk s h cl.
Proof.
  intros [_ Hdom -> Hlinks]. assert (∀ n i, (length cl - i = n)%nat → walk s (cl !! i) (drop i cl)) as H.
  { induction n as [|n IH]; intros i Hn.
    - rewrite drop_ge, lookup_ge_None_2 by lia. done.
    - destruct (lookup_lt_is_Some_2 cl i) as [a Ha]; [lia|]. rewrite (drop_S cl a i Ha), Ha. split; [done|].
      destruct (proj1 (Hdom a)) as [k Hk]; [by eapply list_elem_of_lookup_2|].
      destruct (Hlinks i a k Ha Hk) as [Hn' _]. rewrite skels_lookup in Hk.
      destruct (conns s !! a) as [c|] eqn:Ec; [|done]. injection Hk as <-. exists c. split; [done|].
      cbn in Hn'. rewrite Hn'. apply IH. lia. }
  apply (H (length cl) 0%nat). lia.
Qed.

(** A body that keeps the invariant and the connections. *)
Lemma for_conns_keeps {A} (body : A → server → Z → conn → exec (A * server)) fuel cl x s p :
  (∀ x s a c, server_inv s → conns s !! a = Some c → defined (body x s a c) (λ y, server_inv y.2 ∧ kept s y.2)) →
  server_inv s → walk s p cl → (length cl <= fuel)%nat →
  defined (for_conns fuel body x s p) (λ y, server_inv y.2 ∧ kept s y.2).
Proof.
  intros Hbody. revert x s p fuel. induction cl as [|a cl IH]; intros x s p fuel Hi; cbn [walk length].
  { intros -> _. by destruct fuel. }
  intros (-> & c & Hc & Hw) Hf. destruct fuel as [|fuel]; [lia|]. cbn [for_conns]. rewrite (get_conn_ok _ _ _ Hc).
  cbn [mbind exec_bind]. eapply defined_bind; [by apply Hbody|]. intros [x' s'] [Hi' Hk']. cbn [fst snd] in *.
  destruct (Hk' a c Hc) as (c' & Hc' & _ & _ & Hsk). rewrite (get_conn_ok _ _ _ Hc'). cbn [mbind exec_bind].
  injection Hsk as _ Hn _ _. eapply defined_weaken; [apply IH; [done| |lia]|].
  - rewrite Hn. by eapply kept_walk.
  - intros y [? ?]. split; [done|]. by etrans.
Qed.

Lemma each_conn_keeps {A} (body : A → server → Z → conn → exec (A * server)) x s :
  (∀ x s a c, server_inv s → conns s !! a = Some c → defined (body x s a c) (λ y, server_inv y.2 ∧ kept s y.2)) →
  server_inv s → defined (each_conn body x s) (λ y, server_inv y.2 ∧ kept s y.2).
Proof.
  intros Hbody Hi. pose proof (inv_list s Hi) as (cl & Hcl & _). eapply for_conns_keeps; [done|done|by apply conn_list_walk|].
  rewrite (conn_list_size _ _ _ Hcl). unfold skels. rewrite map_size_fmap. lia.
Qed.

Lemma channel_message_short ch payload msg :
  zlen payload < 2 ^ 62 → channel_message ch payload = Some msg → zlen msg < 2 ^ 62.
Proof.
  intros Hp. unfold channel_message. set (hdr := message_header _ _). destruct (_ >=? MSG_SIZE) eqn:E1; zb; [done|].
  pose proof (zlen_nonneg hdr). pose proof (zlen_nonneg payload). unfold MSG_SIZE, ZEDIS_RING_MSG_MAX in *.
  rewrite u64_small by lia. destruct (_ >=? _) eqn:E2; zb; [done|]. intros Heq.
  assert (msg = hdr ++ payload ++ crlf) as -> by congruence. rewrite !zlen_app. change (zlen crlf) with 2. lia.
Qed.

Lemma broadcast_keeps s ch payload :
  server_inv s → zlen payload < 2 ^ 62 → keeps s (server_broadcast_channel s ch payload).
Proof.
  intros Hi Hp. unfold server_broadcast_channel. destruct (channel_message ch payload) as [msg|] eqn:E; [|by apply keeps_refl].
  apply channel_message_short in E; [|done]. eapply defined_bind; [apply each_conn_keeps; [|done]|].
  - intros _ s1 a c Hi1 Hc. cbv beta. destruct (on_channel _ _); [|done].
    eapply defined_bind; [by eapply queue_keeps|]. by intros s' [? ?].
  - by intros [u s'] [? ?].
Qed.

Lemma count_receivers_ok s ch : server_inv s → ∃ n, count_receivers s ch = Ok n.
Proof.
  intros Hi. unfold count_receivers, each_conn. pose proof (inv_list s Hi) as (cl & Hcl & _).
  pose proof (conn_list_size _ _ _ Hcl) as Hs. unfold skels in Hs. rewrite map_size_fmap in Hs. apply conn_list_walk in Hcl.
  assert (∀ fuel n p, walk s p cl → (length cl <= fuel)%nat → ∃ y,
    for_conns fuel (λ n s a c, Ok (if on_channel c ch then u64 (n + 1) else n, s)) n s p = Ok y) as H.
  { clear Hcl Hs. induction cl as [|a cl IH]; intros fuel n p; cbn [walk length]; [intros -> _; destruct fuel; by eexists|].
    intros (-> & c & Hc & Hw) Hf. destruct fuel as [|fuel]; [lia|]. cbn [for_conns]. rewrite !(get_conn_ok _ _ _ Hc).
    cbn [mbind exec_bind snd]. rewrite (get_conn_ok _ _ _ Hc). cbn [mbind exec_bind]. apply IH; [done|lia]. }
  destruct (H (S (size (conns s))) 0 (conns_head s) Hcl) as (y & ->); [lia|]. by eexists.
Qed.

(** * PUBLISH and SUBSCRIBE *)

(** The ring is never polled, so its sequence numbers stay small. *)
Lemma publish_ok r ch pl :
  (∃ q, ring_refines r q) ∧ read_seq r = 0 → ∃ rc r',
    zedis_ring_publish r ch pl = Ok (rc, r') ∧ (∃ q, ring_refines r' q) ∧ read_seq r' = 0.
Proof.
  intros [[q Hr] H0]. pose proof Hr as (((k & Hk & Hcap) & _ & _ & _ & _ & Hfull) & Hlen & _).
  assert (2 ^ k <= 2 ^ 63) by (apply Z.pow_le_mono_r; lia).
  pose proof (publish_refines r q ch pl Hr ltac:(lia)) as Hp. destruct (_ && _).
  - destruct Hp as (r' & -> & Hr' & _ & Hw). do 2 eexists. split; [done|]. split; [by eexists|].
    destruct Hr' as (_ & Hlen' & _). rewrite zlen_app in Hlen'. change (zlen [_]) with 1 in Hlen'. lia.
  - rewrite Hp. do 2 eexists. split; [done|]. split; [by exists q|done].
Qed.

Section pubsub.
Context (s : server) (a : Z) (c : conn) (Hi : server_inv s) (Hc : conns s !! a = Some c).
Context (cmd : list (option (list Z))) (Hargs : args_ok cmd).

Lemma publish_serves : serves s (publish_command s a cmd).
Proof.
  unfold publish_command. destruct (cmd_bulk2 cmd) as [[ch msg]|] eqn:E; [|reply].
  apply cmd_bulk2_inv in E as [_ Hm]. apply Hargs in Hm. pose proof (inv_data s Hi) as [Hk Hb Hr Hz Hl Ht].
  set (name := channel_prefix ch ++ [0]). destruct (publish_ok (ring s) name msg Hr) as (rc & r' & Heq & Hr').
  pose proof (yields_ok _ _ _ (publish_typed _ name msg (dt_ring Ht)) Heq) as Htr. rewrite Heq. cbn [mbind exec_bind fst snd] in *.
  assert (server_inv (set_ring s r')) as Hi1 by (by apply inv_set_data; [|split; [..|destruct Ht]]).
  apply (serves_data s (kv s) (book s) r' (aol s) (zsets s) (lists s)). destruct (negb _); [reply|].
  destruct (count_receivers_ok _ name Hi1) as [n ->]. cbn [mbind exec_bind].
  eapply defined_bind; [by apply broadcast_keeps|]. intros s2 [Hi2 Hk2]. eapply serves_after; [exact Hk2|].
  destruct (Hk2 a c Hc) as (c2 & Hc2 & _). reply.
Qed.

Lemma channel_prefix_short ch : zlen (channel_prefix ch) < SUBSCRIBE_CHANNEL_SIZE.
Proof.
  unfold channel_prefix, SUBSCRIBE_CHANNEL_SIZE. pose proof (zlen_nonneg ch). destruct (_ <? _) eqn:E; zb;
    unfold zlen in *; rewrite length_take; lia.
Qed.

Lemma subscribe_serves : serves s (subscribe_command s a cmd).
Proof.
  unfold subscribe_command. destruct (cmd_bulk cmd 1) as [channel|]; [|reply].
  rewrite (get_conn_ok _ _ _ Hc). cbn [mbind exec_bind]. pose proof (inv_conns s Hi a c Hc) as (Hwf & Hp & Hlen & H0).
  pose proof (channel_prefix_short channel) as Hs. pose proof (zlen_nonneg (channel_prefix channel)).
  set (ch := channel_prefix channel) in *. destruct (memcpy (subscribe_channel c) 0 ch) as [b|] eqn:Eb;
    [|rewrite memcpy0_ok in Eb by lia; done]. apply memcpy_zlen in Eb. cbn [mbind exec_bind].
  rewrite aset_ok by lia. cbn [mbind exec_bind]. set (c1 := set_channel c _).
  assert (server_inv (put_conn s a c1)) as Hi1.
  { eapply inv_update_same; [done|done|done| |done]. split; [exact Hwf|]. split; [exact Hp|]. cbn. rewrite zlen_insert.
    split; [lia|]. eapply list_elem_of_lookup_2, list_lookup_insert_eq. unfold zlen in *. lia. }
  assert (conns (put_conn s a c1) !! a = Some c1) as Hc1 by (by cbn; rewrite lookup_insert_eq).
  eapply (serves_after _ (put_conn s a c1)); [|by eapply reply_printed_serves; [|exact Hc1|]].
  intros b' cb Hb. cbn. destruct (decide (a = b')) as [<-|Hne].
  - rewrite lookup_insert_eq. exists c1. split; [done|]. assert (cb = c) as -> by congruence. done.
  - rewrite lookup_insert_ne by done. by exists cb.
Qed.
End pubsub.
