(* ===== verification/ServerSafe.v ===== *)
(** The server runs: whatever the clients send, whatever the sockets and the
    kernel do, a turn of the event loop ends in a server that satisfies the
    invariant, or overflows a signed integer, or reads past the text of a
    reply; it follows no dangling pointer, indexes nothing out of bounds,
    divides by nothing that is zero, and every loop ends. *)

From stdpp Require Import gmap.
From S2P Require Import Prelude Arena HashTable HashTableSpec OrderBook RingBuffer AppendLog BTree BTreeShape.
From S2P Require Import ZSet KeyRegistry RegistrySpec Types Slab Resp RespSafe RespRound RespFormat RespSpec EventLoop Host Conn.
From S2P Require Import Metrics ServerState Commands CommandSpec Server ServerInv ConnSafe CommandSafe.

(** * The dispatcher *)

(** A command is served, or its connection is destroyed. *)
Definition handled (s : server) (m : exec (Z * server)) : Prop :=
  defined m (λ x, server_inv x.2 ∧ (x.1 = 1 ∨ x.1 = 0 ∧ kept s x.2)).

Lemma serves_handled s m : serves s m → handled s m.
Proof. intros Hm. eapply defined_weaken; [exact Hm|]. intros x (? & ? & ?). auto. Qed.

Lemma quit_handled s a c cmd : server_inv s → conns s !! a = Some c → handled s (quit_command s a cmd).
Proof.
  intros Hi Hc. unfold quit_command. destruct (conn_destroy_inv s a c Hi Hc) as (s' & -> & Hi' & _). cbn. auto.
Qed.

(** What the server expects of a handler. *)
Definition handler_ok (fn : server → Z → list (option (list Z)) → exec (Z * server)) : Prop :=
  ∀ s a c cmd, server_inv s → conns s !! a = Some c → args_ok cmd → handled s (fn s a cmd).

Lemma commands_ok : Forall (λ e, handler_ok e.2) command_table.
Proof.
  unfold command_table.
  repeat (apply Forall_cons; split; [intros s a c cmd Hi Hc Hargs; cbn [snd]|]); [..|constructor];
    try by eapply quit_handled.
  all: apply serves_handled.
  all: eauto using ping_serves, echo_serves, set_serves, get_serves, bid_serves, ask_serves, book_serves, del_serves,
    zadd_serves, zscore_serves, zrange_serves, lpush_serves, lrange_serves, llen_serves, publish_serves, subscribe_serves.
Qed.

Lemma find_command_ok name n fn : find_command name = Some (n, fn) → handler_ok fn.
Proof.
  unfold find_command. intros Hf. apply find_some in Hf as [Hin _]. apply list_elem_of_In in Hin.
  exact (proj1 (Forall_forall _ _) commands_ok _ Hin).
Qed.

Lemma run_command_handled s a c cmd :
  server_inv s → conns s !! a = Some c → args_ok cmd → handled s (run_command s a cmd).
Proof.
  intros Hi Hc Hargs. unfold run_command. destruct (cmd_bulk cmd 0) as [name|] eqn:En.
  2:{ apply serves_handled. reply. }
  destruct (find_command name) as [[n fn]|] eqn:Ef.
  - destruct (record_command_ok (s_metrics s) (bytes_of_string n) (inv_metrics s Hi)) as (m & -> & Hm).
    cbn [mbind exec_bind]. apply (find_command_ok name n fn Ef (set_metrics s m) a c cmd); [by apply inv_set_metrics|done|done].
  - apply serves_handled. by eapply reply_printed_serves.
Qed.

Lemma load_args_safe b hi es :
  hi <= zlen b → zlen b < 2 ^ 62 → value_in 0 hi (RArray es) → ∃ cmd, load_args b es = Ok cmd ∧ args_ok cmd.
Proof.
  intros Hhi Hb Hin. apply value_in_array in Hin. induction Hin as [|[n v] es Hv _ IH].
  { exists []. split; [done|]. intros i bs. by destruct i. }
  destruct IH as (cmd & Hl & Hok). cbn [load_args].
  assert (∀ o, (∀ bs, o = Some bs → zlen bs < 2 ^ 62) → args_ok (o :: cmd)) as Hcons.
  { intros o Ho [|i] bs; cbn; [by apply Ho|]. apply (Hok i). }
  destruct v as [t|t|z|t| |es']; cbn [snd] in Hv; try (rewrite Hl; eexists; split; [done|]; by apply Hcons).
  destruct Hv as (H1 & H2 & H3). rewrite read_n_ok by lia. cbn [mbind exec_bind]. rewrite Hl. cbn [mbind exec_bind].
  eexists. split; [done|]. apply Hcons. intros bs [= <-]. rewrite zlen_slice; lia.
Qed.

Lemma handle_command_handled s a c v :
  server_inv s → conns s !! a = Some c → value_in 0 (r_pos (parser c)) v → handled s (server_handle_command s a v).
Proof.
  intros Hi Hc Hv. unfold server_handle_command.
  destruct v as [t|t|z|t| |es]; try (apply serves_handled; reply). destruct es as [|e es]; [apply serves_handled; reply|].
  rewrite (get_conn_ok _ _ _ Hc). cbn [mbind exec_bind]. destruct (inv_conns s Hi a c Hc) as (_ & (Hb & Hr & Hw & H62) & _).
  destruct (load_args_safe (buf (parser c)) (r_pos (parser c)) (e :: es)) as (cmd & -> & Hok); [lia|lia|done|].
  cbn [mbind exec_bind]. by eapply run_command_handled.
Qed.

(** * server_dispatch_commands *)

(** The nodes that a parser draws from the slab are outstanding afterwards. *)
Lemma draws_rep sl0 ms taken sl' ms' :
  draws sl0 ms taken sl' ms' → ∀ sl outs, sl0 = Some sl → slab_rep sl outs → slab_small sl →
  ∃ sl1 more, sl' = Some sl1 ∧ slab_rep sl1 (more ++ outs) ∧ slab_small sl1.
Proof.
  induction 1 as [sl0 ms|s n s' ms taken sl' ms' Ha _ IH|sl0 n ms taken sl' ms' _ _ IH]; intros sl outs Heq Hr Hs.
  - exists sl, []. done.
  - injection Heq as <-. pose proof (slab_alloc_ok s outs SIZEOF_RESP_NODE Hr) as Hal.
    destruct Hal as (p & _ & [[Hn _]|(b & s1 & Hb & _ & _ & Hr1)]); [congruence|].
    assert (s1 = s' ∧ b + BLOCK_DATA = n) as [-> Hbn] by (by rewrite Hb in Ha; injection Ha).
    destruct (IH s' _ eq_refl Hr1) as (sl1 & more & -> & Hr2 & Hs2); [by eapply slab_alloc_small|].
    exists sl1, (more ++ [(b + BLOCK_DATA, SIZEOF_RESP_NODE)]). split; [done|]. by rewrite <-app_assoc.
  - by apply (IH sl outs).
Qed.

(** A parser that has drawn from the server's slab. *)
Definition drew (s : server) (p : resp_parser) : Prop :=
  ∃ sl more, n_slab (env p) = Some sl ∧ slab_rep sl (more ++ owned (buf_addr <$> conns s)) ∧ slab_small sl.

Lemma conserved_drew s p ns p' :
  server_inv s → conserved (env (attach s p)) ns (env p') → drew s p'.
Proof.
  intros Hi [_ (taken & Hd & _)]. pose proof (inv_slab s Hi) as (rest & Hr & Hs). cbn [attach env n_slab n_malloc] in Hd.
  destruct (draws_rep _ _ _ _ _ Hd (s_slab s) _ eq_refl Hr Hs) as (sl1 & more & Hsl & Hr1 & Hs1).
  exists sl1, (more ++ rest). split; [done|]. split; [|done]. eapply slab_rep_perm; [|exact Hr1].
  rewrite <-app_assoc. apply Permutation_app_head, Permutation_app_comm.
Qed.

Lemma put_parser_inv s a c p :
  server_inv s → conns s !! a = Some c → parser_wf p → drew s p → server_inv (put_parser s a c p).
Proof.
  intros Hi Hc Hp (sl & more & Hsl & Hr & Hs). unfold put_parser. rewrite Hsl. cbn [default from_option id].
  pose proof (inv_conns s Hi a c Hc) as (Hwf & _ & Hch).
  assert (server_inv (put_conn s a (set_parser c (detach p)))) as Hi1 by (by eapply inv_update_same).
  eapply (inv_set_alloc _ _ _ more); [done| |done]. srv_simpl. rewrite (bufs_same _ _ _ _ Hc) by done.
  eapply slab_rep_perm; [|exact Hr]. apply Permutation_app_comm.
Qed.

Lemma put_parser_conn s a c p : conns (put_parser s a c p) !! a = Some (set_parser c (detach p)).
Proof. cbn. apply lookup_insert_eq. Qed.

Lemma release_drew s c v :
  server_inv s → drew s (resp_value_release (attach s (parser c)) v).
Proof.
  intros Hi. pose proof (inv_slab s Hi) as (rest & Hr & Hs). exists (s_slab s), rest. split; [|split; [|done]].
  - destruct v as [| | | | |es]; try done. cbn [resp_value_release env]. unfold resp__node_list_release.
    generalize (release_order (RArray es)) as ns. intros ns. assert (∀ e, n_slab (foldl resp__node_free e ns) = n_slab e) as ->; [|done].
    induction ns as [|n ns IH]; intros e; [done|]. cbn [foldl]. by rewrite IH.
  - eapply slab_rep_perm; [|exact Hr]. apply Permutation_app_comm.
Qed.

Lemma release_same p v :
  parser_wf p → parser_wf (resp_value_release p v) ∧ unread (resp_value_release p v) = unread p.
Proof. by destruct v. Qed.

(** The buffer has not grown, and what was written to it ends no later. *)
Definition shrunk (p p' : resp_parser) : Prop := buf_cap p' = buf_cap p ∧ w_pos p' <= w_pos p.

Lemma next_shrunk p r p' : parser_wf p → resp_parser_next p = Ok (r, p') → shrunk p p'.
Proof.
  intros Hp. unfold resp_parser_next. intros Hn. apply exec_bind_ok in Hn as (p1 & Hp1 & Hn).
  assert (shrunk p p1) as Hs.
  { destruct (_ >? _); [|by injection Hp1 as <-]. destruct (compact_ok p Hp) as (p2 & Hc & _ & _ & _ & Hcap & _ & Hw).
    rewrite Hp1 in Hc. injection Hc as <-. destruct Hp as (_ & ? & _). split; [done|]. lia. }
  apply exec_bind_ok in Hn as ([r1 e] & _ & Hn). destruct r1; by injection Hn as _ <-.
Qed.

(** After the loop the connection is gone (1), or it is there with the input
    that it had (0). *)
Definition dispatched (a : Z) (c : conn) (m : exec (Z * server)) : Prop :=
  defined m (λ x, server_inv x.2 ∧ (x.1 = 1 ∨ x.1 = 0 ∧ ∃ c', conns x.2 !! a = Some c' ∧ k_in (sock c') = k_in (sock c) ∧
    shrunk (parser c) (parser c'))).

Lemma destroy_dispatched s1 a c c1 :
  server_inv s1 → conns s1 !! a = Some c1 → dispatched a c (s4 ← conn_destroy s1 a; Ok (1, s4)).
Proof. intros Hi Hc. destruct (conn_destroy_inv s1 a c1 Hi Hc) as (s' & -> & Hi' & _). cbn. auto. Qed.

Lemma dispatch_loop_safe fuel s a c :
  server_inv s → conns s !! a = Some c → zlen (unread (parser c)) < Z.of_nat fuel →
  dispatched a c (dispatch_loop fuel s a).
Proof.
  revert s c. induction fuel as [|fuel IH]; intros s c Hi Hc Hf; [pose proof (zlen_nonneg (unread (parser c))); lia|].
  cbn [dispatch_loop]. rewrite (get_conn_ok _ _ _ Hc). cbn [mbind exec_bind].
  pose proof (inv_conns s Hi a c Hc) as (Hwf & Hp & Hch). pose proof (inv_slab s Hi) as (rest & Hr & Hs).
  pose proof (next_safe (attach s (parser c)) Hp ltac:(by eexists)) as Hnext.
  destruct (resp_parser_next _) as [[r p']|f] eqn:En; cbn [mbind exec_bind]; [|rewrite Hnext; by left]. destruct Hnext as (Hp' & Hcons & Hres).
  pose proof (next_shrunk (attach s (parser c)) r p' Hp En) as Hsh.
  pose proof (put_parser_inv s a c p' Hi Hc Hp' (conserved_drew _ _ _ _ Hi Hcons)) as Hi1. cbn [fst snd].
  pose proof (put_parser_conn s a c p') as Hc1. set (s1 := put_parser s a c p') in *. set (c1 := set_parser c (detach p')) in *.
  destruct r as [| |v pos].
  - cbn. split; [done|]. right. split; [done|]. by exists c1.
  - eapply defined_bind; [apply (reply_formatted_keeps s1 a c1 Hi1 Hc1 _ 64 (VError (bytes_of_string "ERR protocol error"))); [|done]|].
    { by apply (array_formats 64 (bytes_of_string "ERR protocol error") 0). }
    intros s2 [Hi2 Hk2]. destruct (Hk2 a c1 Hc1) as (c2 & Hc2 & _). by eapply destroy_dispatched.
  - destruct Hres as (Hv & k & Hk & Hu). eapply defined_bind; [by eapply handle_command_handled|].
    intros [gone s2] [Hi2 Hg]. cbn [fst snd] in *. destruct Hg as [->|[-> Hk2]]; [cbn; auto|]. cbn [Z.eqb negb].
    destruct (Hk2 a c1 Hc1) as (c2 & Hc2 & Hpar & Hin & _). rewrite (get_conn_ok _ _ _ Hc2). cbn [mbind exec_bind].
    destruct (release_same (attach s2 (parser c2)) v) as [Hwf3 Hu3]; [by rewrite Hpar|].
    set (p3 := resp_value_release (attach s2 (parser c2)) v) in *.
    pose proof (put_parser_inv s2 a c2 p3 Hi2 Hc2 Hwf3 (release_drew s2 c2 v Hi2)) as Hi3.
    pose proof (put_parser_conn s2 a c2 p3) as Hc3. destruct (closed c2); [by eapply destroy_dispatched|].
    eapply defined_weaken; [apply (IH _ _ Hi3 Hc3)|].
    + change (unread (parser (set_parser c2 (detach p3)))) with (unread p3). rewrite Hu3, Hpar.
      change (unread (attach s2 (parser c1))) with (unread p'). rewrite Hu.
      change (unread (attach s (parser c))) with (unread (parser c)) in Hk |- *. rewrite zlen_slice; lia.
    + intros x [Hx Hy]. split; [done|]. destruct Hy as [?|(? & c' & ? & Hc' & Hcap & Hw)]; [by left|right]. split; [done|].
      exists c'. split; [done|]. split; [rewrite Hc'; exact Hin|].
      assert (shrunk p' p3) as [Hcap3 Hw3] by (unfold p3; rewrite Hpar; by destruct v). cbn in Hcap, Hw.
      destruct Hsh as [Hcap1 Hw1]. cbn in Hcap1, Hw1. split; [congruence|lia].
Qed.

Lemma dispatch_commands_safe s a c :
  server_inv s → conns s !! a = Some c → dispatched a c (server_dispatch_commands s a).
Proof.
  intros Hi Hc. unfold server_dispatch_commands. rewrite (get_conn_ok _ _ _ Hc). cbn [mbind exec_bind].
  apply dispatch_loop_safe; [done|done|]. destruct (inv_conns s Hi a c Hc) as (_ & (Hl & Hr & Hw & _) & _).
  unfold unread. rewrite zlen_slice by lia. lia.
Qed.

(** * The event handlers *)

(** A read takes something from the socket, and no more than there is room for. *)
Lemma kernel_read_spec k space :
  0 < space → let '(r, k') := kernel_read k space in
  match r with
  | RData d ds => zlen (d :: ds) <= space ∧ (input_size k' < input_size k)%nat
  | _ => True
  end.
Proof.
  intros Hs. destruct k as [|[b bs| | |] k]; cbn [kernel_read]; try done.
  pose proof (take_drop (Z.to_nat space) (b :: bs)) as Htd. set (t := take _ _) in *. set (u := drop _ _) in *.
  assert (zlen t <= space) as Ht by (unfold t, zlen; rewrite length_take; lia).
  destruct t as [|d ds]; [done|]. apply (f_equal length) in Htd. rewrite length_app in Htd. cbn [length] in Htd.
  destruct u as [|r rs]; (split; [done|]); cbn [length] in Htd; unfold input_size; cbn [foldr]; lia.
Qed.

Lemma write_commit p data :
  parser_wf p → zlen data <= resp_parser_space p → ∃ p1,
    resp_parser_write p data = Ok p1 ∧ parser_wf (resp_parser_commit p1 (zlen data)).
Proof.
  intros (Hl & Hr & Hw & H62) Hd. unfold resp_parser_space in Hd. rewrite u64_small in Hd by lia. pose proof (zlen_nonneg data).
  unfold resp_parser_write. destruct (memcpy (buf p) (w_pos p) data) as [b|] eqn:Eb; [|rewrite memcpy_ok in Eb by lia; done].
  apply memcpy_zlen in Eb. cbn [mbind exec_bind]. eexists. split; [done|].
  unfold parser_wf; cbn [resp_parser_commit buf buf_cap r_pos w_pos]. rewrite u64_small by lia. lia.
Qed.

Lemma destroy_keeps_inv s a c : server_inv s → conns s !! a = Some c → defined (conn_destroy s a) server_inv.
Proof. intros Hi Hc. by destruct (conn_destroy_inv s a c Hi Hc) as (s' & -> & Hi' & _). Qed.

Lemma put_conn_lookup s a c : conns (put_conn s a c) !! a = Some c.
Proof. cbn. apply lookup_insert_eq. Qed.

Lemma readable_loop_safe fuel s a c :
  server_inv s → conns s !! a = Some c → (input_size (k_in (sock c)) < fuel)%nat →
  defined (readable_loop fuel s a) server_inv.
Proof.
  revert s c. induction fuel as [|fuel IH]; intros s c Hi Hc Hf; [lia|]. cbn [readable_loop].
  rewrite (get_conn_ok _ _ _ Hc). cbn [mbind exec_bind]. pose proof (inv_conns s Hi a c Hc) as Hok.
  pose proof Hok as (Hwf & Hp & Hch). destruct (_ =? 0) eqn:E0; zb; [by eapply destroy_keeps_inv|].
  assert (0 < resp_parser_space (parser c)) as Hsp by (pose proof (u64_range (buf_cap (parser c) - w_pos (parser c))); unfold resp_parser_space in *; lia).
  pose proof (kernel_read_spec (k_in (sock c)) _ Hsp) as Hread. destruct (kernel_read _ _) as [r k'].
  assert (server_inv (put_conn s a (set_input c k'))) as Hi1 by (by eapply inv_update_same).
  destruct r as [d ds| | |]; [|by eapply destroy_keeps_inv; [|apply put_conn_lookup]..|exact Hi1].
  destruct Hread as [Hlen Hlt]. destruct (write_commit (parser c) (d :: ds) Hp Hlen) as (p1 & -> & Hp2). cbn [mbind exec_bind].
  set (c1 := set_parser (set_input c k') _). assert (server_inv (put_conn s a c1)) as Hi2 by (by eapply inv_update_same).
  eapply defined_bind; [apply (dispatch_commands_safe _ a c1 Hi2), put_conn_lookup|].
  intros [rc s'] [Hi' Hres]. cbn [fst snd] in *. destruct Hres as [->|(-> & c' & Hc' & Hin & _)]; [done|]. cbn [Z.eqb].
  apply (IH s' c'); [done|done|]. rewrite Hin. cbn [c1 set_parser set_input sock k_in]. lia.
Qed.

Lemma on_readable_safe s a c : server_inv s → conns s !! a = Some c → defined (conn_on_readable s a) server_inv.
Proof.
  intros Hi Hc. unfold conn_on_readable. rewrite (get_conn_ok _ _ _ Hc). cbn [mbind exec_bind].
  apply (readable_loop_safe _ s a c); [done|done|lia].
Qed.

Lemma on_writable_safe s a c : server_inv s → conns s !! a = Some c → defined (conn_on_writable s a) server_inv.
Proof.
  intros Hi Hc. unfold conn_on_writable. rewrite (get_conn_ok _ _ _ Hc). cbn [mbind exec_bind].
  pose proof (inv_conns s Hi a c Hc) as Hok. pose proof (inv_loop s Hi) as (m & Hm & Hho & Hwo).
  destruct (flush_loop_ok (k_write (sock c)) (s_loop s) m a c (proj1 (proj1 Hok)) Hm)
    as ([[rc c'] l'] & Hf & Hwf & _ & Hsame & _ & _ & Hrc).
  unfold conn_flush. rewrite Hf. cbn [mbind exec_bind]. assert (skel_of c' = skel_of c) as Hsk by by apply same_input_skel.
  assert ((c_fd <$> conns s) !! a = Some (c_fd c')) as Hfd by (rewrite lookup_fmap, Hc; cbn; by destruct Hsame as [-> _]).
  assert (∀ m', conn_wf c' → loop_rep l' m' → handlers_ok (c_fd <$> conns s) m' →
    watch_ok None (listen_fd s) (<[a := c']> (conns s)) m' → server_inv (set_conns s l' (<[a := c']> (conns s)))) as Hset.
  { intros m' Hc' Hm' Hho' Hwo'. eapply inv_update; [done|exact Hc|done|by eapply same_input_ok|done|done|done]. }
  destruct (rc =? 0) eqn:E; cbn [negb].
  - destruct Hrc as (_ & Hcl & Hs0 & Hr). eapply Hset; [by split|done|by apply handlers_ok_rearmed|].
    eapply watch_rearmed; [done|exact Hc|congruence|exact (proj1 Hsame)].
  - destruct Hrc as (_ & Hcl & ->). eapply destroy_keeps_inv; [|cbn; apply lookup_insert_eq].
    eapply Hset; [|done|done|].
    + split; [done|]. congruence.
    + eapply watch_update; [done|exact Hc|exact (proj1 Hsame)|done|congruence].
Qed.

(** * Accepting connections *)

(** The lowest descriptor that is not in use. *)
Lemma lowest_fd_free used : (lowest_fd used ∉ used) ∧ 0 <= lowest_fd used <= zlen used.
Proof.
  unfold lowest_fd. destruct (find _ _) as [n|] eqn:E; cbn [default from_option id].
  - apply find_some in E as [Hin Hn]. apply list_elem_of_In, elem_of_seqZ in Hin.
    apply negb_true_iff, bool_decide_eq_false in Hn. split; [done|]. lia.
  - pose proof (zlen_nonneg used). split; [|lia]. intros Hin.
    assert (seqZ 0 (zlen used + 1) ⊆+ used) as Hsub.
    { apply NoDup_submseteq; [apply NoDup_seqZ|]. intros n Hn%elem_of_seqZ.
      destruct (decide (n = zlen used)) as [->|Hne]; [done|].
      assert (n ∈ seqZ 0 (zlen used)) as Hm%list_elem_of_In by (apply elem_of_seqZ; lia).
      apply (find_none _ _ E) in Hm. by apply negb_false_iff, bool_decide_eq_true in Hm. }
    apply submseteq_length in Hsub. rewrite length_seqZ in Hsub. unfold zlen in Hsub. lia.
Qed.

Lemma lowest_fd_unused s busy : fd_free s (lowest_fd (open_fds s ++ busy)).
Proof.
  destruct (lowest_fd_free (open_fds s ++ busy)) as [Hfree _]. rewrite not_elem_of_app in Hfree. destruct Hfree as [Hfree _]. split.
  - intros Heq. apply Hfree. rewrite Heq. do 4 constructor 2. constructor 1.
  - intros a c Hc Heq. apply Hfree. rewrite <-Heq. unfold open_fds. apply elem_of_app. right.
    apply list_elem_of_fmap. exists (a, c). split; [done|]. by apply elem_of_map_to_list.
Qed.

(** The new connection is watched, too. *)
Lemma watch_added s m a c l' :
  server_inv_but (Some a) s → loop_rep (s_loop s) m → handlers_ok (c_fd <$> conns s) m →
  watch_ok (Some a) (listen_fd s) (conns s) m → conns s !! a = Some c → pending c = [] →
  loop_rep l' (<[c_fd c := (READ_MASK, HReadable a)]> m) → server_inv (set_conns s l' (conns s)).
Proof.
  intros [? _ ? ? ? ? ?] Hm Hho [Hl Ho Hinj Hw] Hc Hp Hr. split; try done. srv_simpl. eexists. split; [exact Hr|]. split.
  - intros f ev h. rewrite lookup_insert_Some. intros [[<- [= <- <-]]|[_ Hf]]; [by rewrite lookup_fmap, Hc|by eapply Hho].
  - split; [|done..|].
    + rewrite lookup_insert_ne; [done|]. by eapply Ho.
    + intros b cb Hb Hcl _. destruct (decide (b = a)) as [->|Hne].
      * assert (cb = c) as -> by congruence. rewrite lookup_insert_eq. unfold registration. by rewrite bool_decide_eq_true_2.
      * rewrite lookup_insert_ne by (intros Heq; apply Hne; symmetry; by eapply Hinj). apply Hw; [done|done|congruence].
Qed.

Lemma accept_loop_safe k s :
  server_inv s → Forall accepted_ok k → defined (accept_loop k s) server_inv.
Proof.
  intros Hi Hk. revert s Hi. induction Hk as [|acc k Hacc _ IH]; intros s Hi; cbn [accept_loop].
  { by apply inv_set_accept. }
  destruct (negb _); [by apply IH|]. set (fd := lowest_fd (open_fds s ++ a_busy acc)).
  destruct (conn_create_inv s fd acc Hi Hacc (lowest_fd_unused s (a_busy acc))) as (r & s1 & -> & Hi1 & _ & Hfd). cbn [mbind exec_bind].
  destruct r as [a|]; [|by apply IH]. destruct (Hfd a eq_refl) as (c & Hc & <- & Hp).
  pose proof (inv_loop s1 Hi1) as (m & Hm & Hho & Hwo).
  destruct (loop_step_rep (s_loop s1) m (LAdd (a_room acc) (c_fd c) (Z.lor EPOLLIN EPOLLET) (HReadable a)) Hm) as (l' & Hl & Hr & _).
  cbn [loop_step reg_step] in Hl, Hr. rewrite Hl. cbn [mbind exec_bind fst snd].
  destruct (_ && _); cbn [fst snd RC_OK RC_ERR Z.eqb negb] in *; [apply IH; by eapply watch_added|].
  destruct (conn_destroy_new (Some a) (set_conns s1 l' (conns s1)) a c) as (s3 & -> & Hi3 & _); [|by right|done|].
  { destruct Hi1 as [? _ ? ? ? ? ?]. split; try done. by exists m. }
  cbn [mbind exec_bind]. by apply IH.
Qed.

Lemma on_accept_safe s : server_inv s → defined (server_on_accept s) server_inv.
Proof.
  intros Hi. unfold server_on_accept. destruct (_ >=? _); [done|]. apply accept_loop_safe; [done|]. exact (inv_accept s Hi).
Qed.

(** * Turns of the event loop *)

Lemma call_handler_safe s m fd ev mask h :
  server_inv s → loop_rep (s_loop s) m → handlers_ok (c_fd <$> conns s) m → m !! fd = Some (mask, h) →
  defined (call_handler h fd ev s) server_inv.
Proof.
  intros Hi Hm Hho Hh. specialize (Hho fd mask h Hh). destruct h as [|a|a]; cbn [call_handler]; [by apply on_accept_safe|..];
    rewrite lookup_fmap in Hho; destruct (conns s !! a) as [c|] eqn:Ec; try done;
    [by eapply on_readable_safe|by eapply on_writable_safe].
Qed.

Lemma dispatch_events_safe events s :
  server_inv s → defined (dispatch_events s_loop call_handler events s) server_inv.
Proof.
  revert s. induction events as [|[fd ev] events IH]; intros s Hi; cbn [dispatch_events]; [done|].
  destruct (_ || _) eqn:E; [by apply IH|]. zb. pose proof (inv_loop s Hi) as (m & Hm & Hho & _).
  pose proof Hm as (_ & _ & _ & _ & Hh). assert (aget (handlers (s_loop s)) fd = Ok (snd <$> m !! fd)) as ->.
  { apply aget_lookup. split; [lia|]. apply Hh. lia. }
  cbn [mbind exec_bind]. destruct (m !! fd) as [[mask h]|] eqn:Em; cbn [fmap option_fmap option_map snd]; [|by apply IH].
  eapply defined_bind; [by eapply call_handler_safe|]. intros s' Hi'. by apply IH.
Qed.

Lemma stop_inv s : server_inv s → server_inv (set_conns s (event_loop_stop (s_loop s)) (conns s)).
Proof. intros [? (m & Hm & Hho) ? ? ? ? ?]. split; try done. by exists m. Qed.

Lemma run_once_safe s sig sig' w :
  server_inv s →
  defined (event_loop_run_once s_loop (λ s l, set_conns s l (conns s)) call_handler s sig sig' w) (λ x, server_inv x.2).
Proof.
  intros Hi. unfold event_loop_run_once. destruct (_ || _); [by apply stop_inv|].
  destruct w as [events|eintr]; [|destruct sig'; [by apply stop_inv|done]].
  eapply defined_bind; [by apply dispatch_events_safe|]. done.
Qed.

(** The connections that arrive come with the memory that was asked for. *)
Definition turn_ok (t : turn) : Prop := Forall accepted_ok (t_accept t).

Lemma arrive_conns_inv xs s :
  server_inv s → server_inv (set_conns s (s_loop s) (foldl arrive_one (conns s) xs)).
Proof.
  revert s. induction xs as [|[a x] xs IH]; intros s Hi; cbn [foldl]; [by destruct s|].
  apply (IH (set_conns s (s_loop s) (arrive_one (conns s) (a, x)))). unfold arrive_one. cbn [fst snd].
  destruct (conns s !! a) as [c|] eqn:Ec.
  - assert (∀ f, alter f a (conns s) = <[a := f c]> (conns s)) as ->.
    { intros f. apply map_eq. intros b. destruct (decide (a = b)) as [<-|Hne];
        [by rewrite lookup_alter_eq, lookup_insert_eq, Ec|by rewrite lookup_alter_ne, lookup_insert_ne]. }
    pose proof (inv_conns s Hi a c Ec) as Hok. by eapply inv_update_same.
  - assert (∀ f, alter f a (conns s) = conns s) as ->; [|by destruct s].
    intros f. apply map_eq. intros b. destruct (decide (a = b)) as [<-|Hne]; [by rewrite lookup_alter_eq, Ec|by rewrite lookup_alter_ne].
Qed.

Lemma arrive_inv s t : server_inv s → turn_ok t → server_inv (arrive s t).
Proof.
  intros Hi Ht. unfold arrive. apply inv_set_accept; [by apply arrive_conns_inv|].
  apply Forall_app. split; [exact (inv_accept s Hi)|exact Ht].
Qed.

Lemma maybe_write_inv s t fs : server_inv s → server_inv (maybe_write s t fs).1.
Proof.
  intros Hi. unfold maybe_write. pose proof (inv_metrics s Hi) as Hm. unfold zedis_metrics_maybe_write.
  destruct (s_metrics s) as [m|]; [|by apply inv_set_metrics]. destruct (_ && _); [by apply inv_set_metrics|].
  destruct (write_snapshot _ _ _ _) as [rc fs']. by apply inv_set_metrics.
Qed.

Lemma run_turn_safe s t fs :
  server_inv s → turn_ok t → defined (run_turn s t fs) (λ x, server_inv x.1.2).
Proof.
  intros Hi Ht. unfold run_turn. pose proof (maybe_write_inv (arrive s t) t fs (arrive_inv s t Hi Ht)) as Hi1.
  destruct (maybe_write _ _ _) as [s1 fs1]. cbn [fst] in Hi1. eapply defined_bind; [by apply run_once_safe|]. done.
Qed.

Lemma run_turns_safe ts s fs :
  server_inv s → Forall turn_ok ts → defined (run_turns s ts fs) (λ x, server_inv x.1.2).
Proof.
  intros Hi Hts. revert s fs Hi. induction Hts as [|t ts Ht _ IH]; intros s fs Hi; cbn [run_turns]; [done|].
  destruct (negb _); [done|]. eapply defined_bind; [by apply run_turn_safe|]. intros [[n s1] fs1] Hi1. cbn [fst snd] in Hi1.
  destruct (_ <? 0); [done|]. by apply IH.
Qed.

(** * The end *)

Lemma destroy_conns_ok n s :
  server_inv s → size (conns s) = n → ∃ s', destroy_conns n s = Ok s' ∧ server_inv s' ∧ conns s' = ∅ ∧ taken_down s s'.
Proof.
  revert s. induction n as [|n IH]; intros s Hi Hn.
  - apply map_size_empty_inv in Hn. pose proof (inv_list s Hi) as (cl & Hcl & _). exists s. cbn [destroy_conns].
    rewrite (cl_head _ _ _ Hcl). destruct cl as [|a cl]; [done|]. exfalso.
    destruct (proj1 (cl_dom _ _ _ Hcl a)) as [k Hk]; [by left|]. rewrite skels_lookup, Hn in Hk. done.
  - pose proof (inv_list s Hi) as (cl & Hcl & _). cbn [destroy_conns]. rewrite (cl_head _ _ _ Hcl).
    pose proof (conn_list_size _ _ _ Hcl) as Hlen. unfold skels in Hlen. rewrite map_size_fmap, Hn in Hlen.
    destruct cl as [|a cl]; [done|]. cbn [lookup list_lookup].
    destruct (proj1 (cl_dom _ _ _ Hcl a)) as [k Hk]; [by left|]. rewrite skels_lookup in Hk.
    destruct (conns s !! a) as [c|] eqn:Ec; [|done].
    destruct (conn_destroy_inv s a c Hi Ec) as (s1 & -> & Hi1 & Hdom & Htd). cbn [mbind exec_bind].
    destruct (IH s1 Hi1) as (s' & Hd & Hi' & He & Htd').
    + rewrite <-size_dom, Hdom, size_difference by (apply singleton_subseteq_l, elem_of_dom; by eexists).
      rewrite size_dom, size_singleton. lia.
    + exists s'. split; [done|]. split; [done|]. split; [done|]. by etransitivity.
Qed.

(** zedis_destroy up to the destruction of the components. *)
Lemma destroy_runs s : server_inv s → ∃ s1 s2 s',
  destroy_conns (size (conns s)) (set_metrics s None) = Ok s1 ∧ server_inv s1 ∧ conns s1 = ∅ ∧ taken_down (set_metrics s None) s1 ∧
  zedis_destroy s = Ok (s', listen_fd s :: (if epfd (s_loop s) >=? 0 then [epfd (s_loop s)] else []) ++
                            (if l_fd (aol s) >=? 0 then [l_fd (aol s)] else [])) ∧
  event_loop_del (s_loop s1) (listen_fd s) = Ok (RC_OK, s2) ∧ s_loop s' = s2 ∧ conns s' = conns s1 ∧ s_metrics s' = None.
Proof.
  intros Hi. destruct (destroy_conns_ok (size (conns s)) (set_metrics s None)) as (s1 & Hd & Hi1 & He & Htd);
    [by apply inv_set_metrics|done|]. pose proof Htd as [Hl Hep Hlog Hmet _]. cbn in Hl, Hep, Hlog, Hmet.
  pose proof (inv_loop s1 Hi1) as (m & Hm & _ & Hwo). pose proof (wo_listen _ _ _ _ Hwo) as Hlis. rewrite Hl in Hlis.
  pose proof Hm as (_ & _ & _ & Hdom & _). specialize (Hdom (listen_fd s) ltac:(by eexists)).
  destruct (loop_step_rep (s_loop s1) m (LDel (listen_fd s)) Hm) as (l' & Hdel & _). cbn [loop_step reg_step] in Hdel.
  rewrite bool_decide_eq_true_2 in Hdel by by eexists. cbn [fst] in Hdel.
  exists s1, l'. unfold zedis_destroy, zedis_metrics_destroy. change (conns (set_metrics s None)) with (conns s).
  rewrite Hd. cbn [mbind exec_bind]. rewrite Hl, Z.geb_leb. destruct (0 <=? listen_fd s) eqn:E; zb; [|lia]. rewrite Hdel.
  cbn [mbind exec_bind fst snd]. eexists. split; [done|]. split; [done|]. split; [done|]. split; [done|].
  srv_simpl. unfold event_loop_destroy. rewrite (del_epfd _ _ _ _ Hdel), Hep, Hlog. split; [by destruct (epfd _ >=? 0)|].
  done.
Qed.

Lemma destroy_ok s : server_inv s → ∃ x, zedis_destroy s = Ok x.
Proof. intros Hi. destruct (destroy_runs s Hi) as (s1 & s2 & s' & _ & _ & _ & _ & H & _). by eexists. Qed.

(** * The beginning *)

(** A configuration whose sizes the components can count with. *)
Record config_ok (c : config) : Prop := ConfigOk {
  co_conns : 0 < max_connections c < 2 ^ 50;
  co_keys : 0 < max_keys c < 2 ^ 32;
  co_ring : 1 <= ring_capacity c <= 2 ^ 53;
  co_book : INT32_MIN <= book_price_min c ∧ book_price_max c <= INT32_MAX;
  co_zsets : 0 < cfg_max_zsets c < 2 ^ 31 ∧ 0 < zset_members c < 2 ^ 32;
  co_lists : 0 < cfg_max_lists c < 2 ^ 31;
  co_log : aol_size c < UINT32_MAX;
}.


Lemma ring_init_rc a n rc s a' : zedis_ring_init a n = (rc, Some s, a') → rc = RC_OK.
Proof. unfold zedis_ring_init. repeat case_match; by intros [= <- _ _]. Qed.
Lemma zreg_init_rc a n k rc s a' : zedis_zset_reg_init a n k = (rc, Some s, a') → rc = RC_OK.
Proof. unfold zedis_zset_reg_init. repeat case_match; by intros [= <- _ _]. Qed.
Lemma lreg_init_rc a n rc s a' : zedis_list_reg_init a n = (rc, Some s, a') → rc = RC_OK.
Proof. unfold zedis_list_reg_init. repeat case_match; by intros [= <- _ _]. Qed.
Lemma aol_init_rc sys n p rc s : zedis_aol_init sys n p = (rc, Some s) → rc = RC_OK.
Proof. unfold zedis_aol_init. repeat case_match; by intros [= <- _]. Qed.
Lemma book_init_rc a lo hi rc s a' : zedis_book_init a lo hi = Ok (rc, Some s, a') → rc = RC_OK.
Proof.
  unfold zedis_book_init. destruct (_ <? _); [done|]. destruct (chk_i32 _) as [d|]; [|done]. cbn [mbind exec_bind].
  destruct (chk_i32 _) as [n|]; [|done]. cbn [mbind exec_bind]. repeat case_match; by intros [= <- _ _].
Qed.

Lemma slab_init_small a c0 c1 c2 c3 rc s a' :
  c0 < 2 ^ 62 → c1 < 2 ^ 62 → c2 < 2 ^ 62 → c3 < 2 ^ 62 → zedis_slab_init a c0 c1 c2 c3 = Ok (rc, Some s, a') → slab_small s.
Proof.
  intros H0 H1 H2 H3 Hinit. apply slab_init_pools in Hinit as (_ & Hl & Hps). apply Forall_lookup. intros i p Hp.
  destruct (Hps i p Hp) as (a1 & a2 & Hi). apply lookup_lt_Some in Hp. rewrite Hl in Hp. unfold init_pool in Hi.
  destruct (zedis_arena_alloc _ _ _) as [[base|] a3]; [|done]. destruct (link_blocks _ _ _ _ _ _ _); [|done]. injection Hi as <- _.
  destruct i as [|[|[|[|i]]]]; cbn; [done..|lia].
Qed.

(** The data structures of a new server hold nothing. *)
Record fresh_data (c : config) (k : hash_table) (b : order_book) (r : ring_buffer) (lg : append_log)
    (zs : zset_registry) (ls : list_registry) : Prop := FreshData {
  fd_kv : ht_refines k ∅ ∧ ht_capacity k = max_keys c;
  fd_book : book_wf b ∧ price_min b = book_price_min c ∧ price_max b = book_price_max c ∧
            ∀ p, in_range b p → level_at b p = Some (PriceLevel 0 0);
  fd_ring : ring_refines r [] ∧ write_seq r = 0;
  fd_zsets : zreg_rep zs (Z.min (zset_members c) ZEDIS_BTREE_MAX_ENTRIES) ∅ (cfg_max_zsets c);
  fd_lists : lreg_rep ls lg (aol_size c) (∅, cfg_max_lists c, 0);
  fd_typed : data_typed k b r lg zs ls;
}.

Lemma fresh_data_ok c k b r lg zs ls : fresh_data c k b r lg zs ls → data_ok k b r lg zs ls.
Proof.
  intros [[[Hk _] _] [Hb _] [Hr Hw] Hz Hl Ht]. split; [done|done| | |by do 2 eexists|done].
  - split; [by eexists|]. destruct Hr as (_ & Hlen & _). rewrite zlen_nil in Hlen. lia.
  - do 3 eexists. split; [exact Hz|]. intros key z m v Hkey. by rewrite lookup_empty in Hkey.
Qed.

Lemma create_data_ok h c a sl k b r log zs ls :
  config_ok c → mmap_whole (h_aol h) → create_data h c = Ok (Some (a, sl, k, b, r, log, zs, ls)) →
  slab_rep sl [] ∧ slab_small sl ∧ fresh_data c k b r log zs ls.
Proof.
  intros [Hn Hk Hr [Hb1 Hb2] [Hz1 Hz2] Hl Hlog] Hmm. unfold create_data.
  destruct (zedis_arena_init _ _) as [rc0 a0]. destruct (negb _); [done|].
  destruct (zedis_slab_init _ _ _ _ _) as [[[rc1 [sl'|]] a1]|] eqn:E1; [|done..]. cbn [mbind exec_bind].
  destruct (zedis_ht_init _ _) as [[rc2 [k'|]] a2] eqn:E2; [|done].
  destruct (zedis_book_init _ _ _) as [[[rc3 [b'|]] a3]|] eqn:E3; [|done..]. cbn [mbind exec_bind].
  destruct (zedis_ring_init _ _) as [[rc4 [r'|]] a4] eqn:E4; [|done].
  destruct (zedis_aol_init _ _ _) as [rc5 [log'|]] eqn:E5; [|done].
  destruct (zedis_zset_reg_init _ _ _) as [[rc6 [zs'|]] a5] eqn:E6; [|done].
  destruct (zedis_list_reg_init _ _) as [[rc7 [ls'|]] a6] eqn:E7; [|done]. intros [= <- <- <- <- <- <- <- <-].
  rewrite !u64_small in E1 by lia. rewrite !u32_small in E6 by lia. rewrite u32_small in E7 by lia.
  assert (slab_small sl') as Hsm by (eapply slab_init_small; [..|exact E1]; lia).
  pose proof (ht_init_rc _ _ _ _ _ E2) as ->.
  pose proof (book_init_rc _ _ _ _ _ _ E3) as ->. pose proof (ring_init_rc _ _ _ _ _ E4) as ->.
  pose proof (aol_init_rc _ _ _ _ _ E5) as ->. pose proof (zreg_init_rc _ _ _ _ _ _ E6) as ->.
  pose proof (lreg_init_rc _ _ _ _ _ E7) as ->. destruct (aol_init_ok _ _ _ _ Hmm E5) as (Hc1 & Hc2 & Hc3 & Hc4).
  split; [eapply slab_init_rep; [..|exact E1]; lia|]. split; [done|]. split.
  - exact (ht_init_refines _ _ _ _ Hk E2).
  - exact (book_init_wf _ _ _ _ _ Hb1 Hb2 E3).
  - by destruct (ring_init_refines _ _ _ _ Hr E4) as (Hrr & _ & Hw).
  - exact (zreg_init_rep _ _ _ _ _ Hz1 Hz2 E6).
  - rewrite <-Hc3, <-Hc4. apply (lreg_init_rep _ _ _ _ _ Hl E7). unfold log_wf. lia.
  - split.
    + eapply ht_init_typed; [|exact E2]. unfold in_u64. lia.
    + exact (book_init_typed _ _ _ _ _ Hb1 Hb2 E3).
    + exact (ring_init_typed _ _ _ _ E4).
    + eapply aol_init_typed; [exact Hmm| |exact E5]. unfold UINT32_MAX in Hlog. lia.
    + eapply zreg_init_typed; [..|exact E6]; unfold in_u32; lia.
    + eapply lreg_init_typed; [|exact E7]. unfold in_u32. lia.
Qed.

(** The server that zedis_create makes. *)
Record fresh_server (c : config) (s : server) : Prop := FreshServer {
  fs_cfg : cfg s = c;
  fs_running : running s = true;
  fs_conns : conns s = ∅ ∧ conns_head s = None ∧ conn_count s = 0;
  fs_accept : Forall accepted_ok (k_accept s);
  fs_loop : loop_rep (s_loop s) {[listen_fd s := (Z.lor EPOLLIN EPOLLET, HAccept)]} ∧
            max_fds (s_loop s) = ZEDIS_MAX_FDS ∧ stop (s_loop s) = false;
  fs_slab : slab_rep (s_slab s) [] ∧ slab_small (s_slab s);
  fs_metrics : metrics_ok (s_metrics s);
  fs_data : fresh_data c (kv s) (book s) (ring s) (aol s) (zsets s) (lists s);
}.

Lemma create_fresh h config s :
  config_ok (effective_config config) → mmap_whole (h_aol h) → zedis_create h config = Ok (Some s) →
  fresh_server (effective_config config) s ∧ k_accept s = [] ∧ k_malloc s = h_malloc h.
Proof.
  intros Hok Hmm. unfold zedis_create. destruct (negb _); [done|].
  destruct (create_data _ _) as [[[[[[[[[a sl] k] b] r] log] zs] ls]|]|] eqn:Ed; [|done..]. cbn [mbind exec_bind].
  destruct (create_data_ok _ _ _ _ _ _ _ _ _ _ Hok Hmm Ed) as (Hsl & Hsm & Hdata).
  destruct (event_loop_create _ _ _) as [[lp|] a'] eqn:El; [|done].
  assert (ZEDIS_MAX_FDS < 2 ^ 32) as Hmax by done. destruct (loop_rep_create _ _ _ _ _ Hmax El) as [Hlp Hfds].
  assert (stop lp = false) as Hst.
  { revert El. unfold event_loop_create. repeat case_match; by intros [= <- _]. }
  destruct (create_listen_socket _ _ _) as [lfd fds]. destruct (lfd <? 0); [done|].
  destruct (loop_step_rep lp ∅ (LAdd (h_room h) lfd (Z.lor EPOLLIN EPOLLET) HAccept) Hlp) as (l' & Hl & Hr & Hm' & Hst').
  cbn [loop_step reg_step] in Hl, Hr. rewrite Hl. cbn [mbind exec_bind fst snd].
  destruct (_ && _); cbn [fst snd RC_OK RC_ERR Z.eqb negb] in *; [|done].
  destruct (zedis_metrics_init _ _ _) as [rc m] eqn:Em. intros [= <-]. split; [|done]. split; try done; srv_simpl.
  - split; [exact Hr|]. split; congruence.
  - revert Em. unfold zedis_metrics_init. repeat case_match; intros [= _ <-]; done.
Qed.

Lemma fresh_inv c s : fresh_server c s → server_inv s.
Proof.
  intros [_ _ (Hcs & Hh & Hn) Hk (Hl & _ & _) [Hsl Hsm] Hm Hd]. split.
  - exists []. rewrite Hcs, Hh, Hn. split; [|done]. split; [constructor| |done|by intros [] ? ? ?].
    intros x. rewrite skels_lookup, lookup_empty. split; [by intros ?%elem_of_nil|by intros [? ?]].
  - eexists. split; [exact Hl|]. split; [intros fd ev hd; rewrite lookup_singleton_Some; by intros [_ [= _ <-]]|].
    rewrite Hcs. split; [by rewrite lookup_singleton_eq|by intros ? ?; rewrite lookup_empty..].
  - exists []. rewrite Hcs, fmap_empty. unfold owned. by rewrite map_to_list_empty.
  - intros x cx. by rewrite Hcs, lookup_empty.
  - done.
  - by eapply fresh_data_ok.
  - exact Hk.
Qed.

Lemma create_inv h config s :
  config_ok (effective_config config) → mmap_whole (h_aol h) → zedis_create h config = Ok (Some s) → server_inv s.
Proof. intros Hok Hmm Hs. by destruct (create_fresh _ _ _ Hok Hmm Hs) as [?%fresh_inv _]. Qed.

(** zedis_create gives a server that satisfies the invariant, if any. *)
Lemma create_safe h config :
  config_ok (effective_config config) → mmap_whole (h_aol h) →
  safe (zedis_create h config) (λ o, ∀ s, o = Some s → server_inv s).
Proof.
  intros Hok Hmm. destruct (zedis_create h config) as [[s|]|f] eqn:E; cbn; [| done |].
  { intros s' [= <-]. by eapply create_inv. }
  revert E. unfold zedis_create. destruct (negb _); [done|]. destruct (create_data _ _) as [[x|]|f'] eqn:Ed; [|done|].
  - destruct x as [[[[[[[a sl] k] b] r] log] zs] ls]. cbn [mbind exec_bind].
    destruct (event_loop_create _ _ _) as [[lp|] a'] eqn:El; [|done]. assert (ZEDIS_MAX_FDS < 2 ^ 32) as Hmax by done.
    destruct (loop_rep_create _ _ _ _ _ Hmax El) as [Hlp _]. destruct (create_listen_socket _ _ _) as [lfd fds].
    destruct (lfd <? 0); [done|].
    destruct (loop_step_rep lp ∅ (LAdd (h_room h) lfd (Z.lor EPOLLIN EPOLLET) HAccept) Hlp) as (l' & Hl & _).
    cbn [loop_step] in Hl. rewrite Hl. cbn [mbind exec_bind]. destruct (negb _); [done|]. by destruct (zedis_metrics_init _ _ _).
  - cbn [mbind exec_bind]. intros [= ->]. revert Ed. unfold create_data. destruct (zedis_arena_init _ _) as [rc0 a0].
    destruct (negb _); [done|]. pose proof (co_conns _ Hok). rewrite !u64_small by lia.
    match goal with |- context [zedis_slab_init ?a ?b ?c ?d ?e] => destruct (slab_init_ok a b c d e) as [[[? [?|]] ?] ->]; [lia..| |done] end.
    cbn [mbind exec_bind].
    destruct (zedis_ht_init _ _) as [[? [?|]] ?]; [|done]. destruct (zedis_book_init _ _ _) as [x|f'] eqn:Eb; cbn [mbind exec_bind].
    + destruct x as [[? [?|]] ?]; [|done]. repeat case_match; done.
    + intros [= <-]. revert Eb. unfold zedis_book_init, chk_i32. destruct (_ <? _); [done|].
      destruct (_ && _); cbn [mbind exec_bind]; [|by intros [= <-]]. destruct (_ && _); cbn [mbind exec_bind]; [|by intros [= <-]].
      by destruct (zedis_arena_calloc _ _ _ _) as [[?|] ?].
Qed.

(** * Theorems *)

(** A small server with a listening socket, and a client. *)
Definition small_config : config :=
  Config 6379 (-1) 2097152 8 1 2 1 1 16 4096 None 100 110 true None 1000.
Definition small_host : host :=
  Host true (λ _ _, Some 4096) (AolSys (λ _, -1) (λ _ _, false) (λ _ _, None) (λ _, true)) 3 ∅
       (ListenSys 4 true true true true true) true true [16; 32; 48; 64].
Definition small_io : io := Io true None true true (λ _, true) true true true true.
Definition client (bs : list read_result) : accepted :=
  Accepted true (Some (replicate (Z.to_nat RESP_PARSER_DEFAULT_BUF) 0)) true (Socket bs [WTake 100] []) [].
Definition connects (bs : list read_result) : turn :=
  Turn [] [client bs] None small_io false false (Waited [(4, EPOLLIN)]).
Definition event_on (fd : Z) : turn := Turn [] [] None small_io false false (Waited [(fd, EPOLLIN)]).

Lemma small_config_ok : config_ok (effective_config (Some small_config)).
Proof. split; cbn; unfold INT32_MIN, INT32_MAX, UINT32_MAX; lia. Qed.

Lemma small_host_ok : mmap_whole (h_aol small_host).
Proof. by intros fd n bytes _ [=]. Qed.

Lemma accepted_mem n m r k b : zlen m = RESP_PARSER_DEFAULT_BUF → accepted_ok (Accepted n (Some m) r k b).
Proof. by intros Hm x [= <-]. Qed.

Lemma connects_ok bs : turn_ok (connects bs).
Proof. constructor; [|constructor]. apply accepted_mem. rewrite zlen_replicate. by apply Z2Nat.id. Qed.

Lemma event_on_ok fd : turn_ok (event_on fd).
Proof. constructor. Qed.

(** C6: Whatever the clients send, whichever system calls fail and whichever
    events are reported, a turn of zedis_run from a server that satisfies the
    invariant ends in one that does: the list goes through exactly the
    connections that exist, every handler of the loop belongs to one of them,
    the listening socket and every open connection are watched, a connection
    for output as long as some is pending and for input otherwise, no two share
    a descriptor, their blocks are outstanding in the slab, each once, and
    their buffers, their parsers and the data structures are well formed.  The
    only undefined behaviour it can reach is the overflow of a signed integer,
    the read past the text of a reply and the reply that overruns the slab
    block of its buffer by up to eight bytes: no freed connection is used, no
    other index is out of bounds, and no loop runs forever. *)
Theorem turn_keeps_invariant s t fs :
  server_inv s → turn_ok t → defined (run_turn s t fs) (λ x, server_inv x.1.2).
Proof. apply run_turn_safe. Qed.

Lemma turn_keeps_invariant_witness :
  match zedis_create small_host (Some small_config) with
  | Ok (Some s) =>
      defined (run_turn s (connects [RData 42 (tail (enc (VArr [VBulk (bytes_of_string "QUIT")])))]) ∅)
        (λ x, server_inv x.1.2)
  | _ => False
  end.
Proof.
  destruct (zedis_create small_host (Some small_config)) as [[s|]|] eqn:E; [|vm_compute in E; discriminate E..].
  apply turn_keeps_invariant; [|apply connects_ok].
  exact (create_inv _ _ _ small_config_ok small_host_ok E).
Defined.

(** C7: A server that zedis_create made, with sizes that the components can
    count with, runs safely for any number of turns, whatever the clients and
    the kernel do: zedis_run ends in a server that satisfies the invariant and
    that zedis_destroy takes down completely, or it overflows a signed integer,
    reads past the text of a reply or overruns the block of a write buffer. *)
Theorem server_runs_safely h config s pin t0 ts fs :
  config_ok (effective_config config) → mmap_whole (h_aol h) → zedis_create h config = Ok (Some s) →
  Forall turn_ok ts →
  defined (zedis_run pin s t0 ts fs) (λ x, server_inv x.2.1.2 ∧ ∃ l, zedis_destroy x.2.1.2 = Ok l).
Proof.
  intros Hok Hmm Hcreate Hts. pose proof (create_inv _ _ _ Hok Hmm Hcreate) as Hi. unfold zedis_run.
  pose proof (maybe_write_inv s t0 fs Hi) as Hi0. destruct (maybe_write s t0 fs) as [s0 fs0]. cbn [fst] in Hi0.
  eapply defined_bind; [by apply run_turns_safe|]. intros [[r s'] fs'] Hi'. cbn in *. split; [done|]. by apply destroy_ok.
Qed.

(** The bytes that the connections were sent. *)
Definition outputs (s : server) : list (list Z) := (λ x : Z * conn, k_out (sock x.2)) <$> map_to_list (conns s).

(** What one client is sent that asks PING. *)
Definition ping_run (s : server) : exec (bool * (option Z * server * fsys)) :=
  zedis_run (λ _, true) s (event_on 0)
    [connects [RData 42 (tail (enc (VArr [VBulk (bytes_of_string "PING")])))]; event_on 5] ∅.

Lemma server_runs_safely_witness :
  match zedis_create small_host (Some small_config) with
  | Ok (Some s) =>
      match ping_run s with
      | Ok (_, (_, s', _)) => server_inv s' ∧ outputs s' = [enc (VSimple (bytes_of_string "PONG"))]
      | Stuck _ => False
      end
  | _ => False
  end.
Proof.
  assert (match zedis_create small_host (Some small_config) with
    | Ok (Some s) =>
        match ping_run s with
        | Ok (_, (_, s', _)) => outputs s' = [enc (VSimple (bytes_of_string "PONG"))]
        | Stuck _ => False
        end
    | _ => False end) as Hout by (vm_compute; reflexivity).
  destruct (zedis_create small_host (Some small_config)) as [[s|]|] eqn:E; [|done..].
  pose proof (server_runs_safely small_host (Some small_config) s (λ _, true) (event_on 0)
    [connects [RData 42 (tail (enc (VArr [VBulk (bytes_of_string "PING")])))]; event_on 5] ∅
    small_config_ok small_host_ok E) as H.
  fold (ping_run s) in H. destruct (ping_run s) as [[w [[r s'] fs']]|f]; [|done].
  split; [|exact Hout]. apply H. constructor; [apply connects_ok|]. constructor; [apply event_on_ok|constructor].
Defined.

(** * Types *)

Record conn_typed (c : conn) : Prop := ConnTyped {
  ct_len : in_u64 (write_len c);
  ct_sent : in_u64 (write_sent c);
  ct_channel : chars SUBSCRIBE_CHANNEL_SIZE (subscribe_channel c);
  ct_buf : chars (buf_cap (parser c)) (buf (parser c)) ∧ in_u64 (buf_cap (parser c));
  ct_pos : in_u64 (r_pos (parser c)) ∧ in_u64 (w_pos (parser c));
}.

Record server_typed (s : server) : Prop := ServerTyped {
  ty_data : data_typed (kv s) (book s) (ring s) (aol s) (zsets s) (lists s);
  ty_conns : ∀ a c, conns s !! a = Some c → conn_typed c;
  ty_count : in_u64 (conn_count s);
}.

Lemma inv_typed s : server_inv s → server_typed s.
Proof.
  intros Hi. split; [exact (do_typed _ _ _ _ _ _ (inv_data s Hi))| |].
  - intros a c Hc. destruct (inv_conns s Hi a c Hc) as ([(Hb & Hs & Hl) _] & (Hp1 & Hp2 & Hp3 & Hp4) & Hch & _). sizes.
    split; unfold in_u64, chars; try split; lia.
  - pose proof (inv_list s Hi) as (cl & Hcl & ->). pose proof (conn_list_size _ _ _ Hcl) as Hn. unfold skels in Hn.
    rewrite map_size_fmap in Hn. pose proof (inv_slab s Hi) as (rest & Hsl & Hsm). pose proof Hsl as [H4 _].
    destruct (lookup_lt_is_Some_2 (s_slab s) 2) as [pool Hpool]; [lia|].
    pose proof (slab_room _ _ _ _ Hsl Hpool Hsm) as Hroom. rewrite map_size_fmap in Hroom. unfold in_u64, zlen. lia.
Qed.

(** The model keeps to the widths of C: in a server that zedis_create made with
    sizes that the components can count with, and a log that is mapped whole,
    after any number of turns the integer fields of the hash tables, the order
    book, the ring, the log, the trees with all their nodes and members and the
    registries, and the lengths, flags and parsers of the connections, are in
    the ranges of their C types, and array members have their declared sizes
    (the bytes inside character arrays are not constrained). *)
Theorem fields_keep_types h config s ts fs :
  config_ok (effective_config config) → mmap_whole (h_aol h) → zedis_create h config = Ok (Some s) →
  Forall turn_ok ts → defined (run_turns s ts fs) (λ x, server_typed x.1.2).
Proof.
  intros Hok Hmm Hcreate Hts. eapply defined_weaken; [apply run_turns_safe; [by eapply create_inv|done]|].
  intros x Hi. by apply inv_typed.
Qed.

(** A client that adds to a sorted set. *)
Definition zadd_bytes : list Z :=
  enc (VArr [VBulk (bytes_of_string "ZADD"); VBulk [122]; VBulk (bytes_of_string "-7"); VBulk [109]]).
Definition zadd_turns : list turn := [connects [RData 42 (tail zadd_bytes)]; event_on 5].

Lemma fields_keep_types_witness :
  match zedis_create small_host (Some small_config) with
  | Ok (Some s) =>
      match run_turns s zadd_turns ∅ with
      | Ok (_, s', _) => server_typed s' ∧ m_score <$> (zr_trees (zsets s') !! 0%nat ≫= λ t, members t !! 0%nat) = Some (-7)
      | Stuck _ => False
      end
  | _ => False
  end.
Proof.
  assert (match zedis_create small_host (Some small_config) with
    | Ok (Some s) =>
        match run_turns s zadd_turns ∅ with
        | Ok (_, s', _) => m_score <$> (zr_trees (zsets s') !! 0%nat ≫= λ t, members t !! 0%nat) = Some (-7)
        | Stuck _ => False
        end
    | _ => False end) as Hout by (vm_compute; reflexivity).
  destruct (zedis_create small_host (Some small_config)) as [[s|]|] eqn:E; [|exact Hout..].
  pose proof (fields_keep_types small_host (Some small_config) s zadd_turns ∅ small_config_ok small_host_ok E) as H.
  destruct (run_turns s zadd_turns ∅) as [[[r s'] fs']|f]; [|exact Hout].
  split; [|exact Hout]. apply H. constructor; [apply connects_ok|]. constructor; [apply event_on_ok|constructor].
Defined.

(** C9: zedis_destroy ends: its loop takes one connection off the list in every
    step, however the clients left them.  Afterwards no connection is left, no
    handler of a connection and none for the listening socket, and of the blocks
    that were outstanding exactly those of the connections, the structure and
    the write buffer of each, were given back to the slab.  Then the listening
    socket, the epoll instance and the file of the log, if it has one, are
    closed. *)
Theorem destroy_takes_all s :
  server_inv s → ∃ s1 s' rest,
    destroy_conns (size (conns s)) (set_metrics s None) = Ok s1 ∧
    conns s1 = ∅ ∧ conns_head s1 = None ∧ conn_count s1 = 0 ∧
    slab_rep (s_slab s) (owned (buf_addr <$> conns s) ++ rest) ∧ slab_rep (s_slab s1) rest ∧
    zedis_destroy s = Ok (s', listen_fd s :: (if epfd (s_loop s) >=? 0 then [epfd (s_loop s)] else []) ++
                              (if l_fd (aol s) >=? 0 then [l_fd (aol s)] else [])) ∧
    conns s' = ∅ ∧ s_metrics s' = None ∧ handlers (s_loop s') !! Z.to_nat (listen_fd s) = Some None ∧
    ∀ fd a, 0 <= fd < max_fds (s_loop s') → handlers (s_loop s') !! Z.to_nat fd ≠ Some (Some (HReadable a)) ∧
                                            handlers (s_loop s') !! Z.to_nat fd ≠ Some (Some (HWritable a)).
Proof.
  intros Hi. destruct (destroy_runs s Hi) as (s1 & l' & s' & Hd & Hi1 & He & Htd & Hz & Hdel & Hl & Hc & Hm).
  pose proof (inv_slab s Hi) as (rest & Hr & _). exists s1, s', rest. split; [done|]. split; [done|].
  pose proof (inv_list s1 Hi1) as (cl & Hcl & Hn). pose proof (conn_list_size _ _ _ Hcl) as Hs.
  unfold skels in Hs. rewrite map_size_fmap, He, map_size_empty in Hs. destruct cl; [|done].
  split; [exact (cl_head _ _ _ Hcl)|]. split; [done|]. split; [done|].
  split; [pose proof (td_blocks _ _ Htd rest Hr) as Hr1; by rewrite He, fmap_empty in Hr1|].
  split; [exact Hz|]. split; [congruence|]. split; [done|].
  pose proof (inv_loop s1 Hi1) as (m & Hrep & Hho & Hwo). pose proof (wo_listen _ _ _ _ Hwo) as Hlis. rewrite (td_listen _ _ Htd) in Hlis.
  destruct (loop_step_rep (s_loop s1) m (LDel (listen_fd s)) Hrep) as (l2 & Hdel2 & Hrep2 & Hmax & _). cbn [loop_step reg_step] in Hdel2, Hrep2.
  rewrite bool_decide_eq_true_2 in Hdel2, Hrep2 by by eexists. rewrite Hdel in Hdel2. injection Hdel2 as <-. cbn [snd] in Hrep2. rewrite Hl.
  pose proof Hrep2 as (_ & _ & _ & _ & Hh). rewrite He, fmap_empty in Hho. split.
  - pose proof Hrep as (_ & _ & _ & Hdom & _). specialize (Hdom (listen_fd s) ltac:(by eexists)).
    rewrite Hh by lia. by rewrite lookup_delete_eq.
  - intros fd a Hfd. rewrite (Hh fd Hfd). destruct (delete _ m !! fd) as [[ev h]|] eqn:Em; [|done].
    apply lookup_delete_Some in Em as [_ Em]. specialize (Hho fd ev h Em). split; intros [= ->]; by rewrite lookup_empty in Hho.
Qed.

Lemma destroy_takes_all_witness :
  match zedis_create small_host (Some small_config) with
  | Ok (Some s) =>
      match run_turn s (connects []) ∅ with
      | Ok (_, s1, _) => conn_count s1 = 1 ∧ ∃ s' fds, zedis_destroy s1 = Ok (s', fds) ∧ conns s' = ∅
      | Stuck _ => False
      end
  | _ => False
  end.
Proof.
  assert (match zedis_create small_host (Some small_config) with
    | Ok (Some s) => match run_turn s (connects []) ∅ with Ok (_, s1, _) => conn_count s1 = 1 | Stuck _ => False end
    | _ => False end) as Hone by (vm_compute; reflexivity).
  destruct (zedis_create small_host (Some small_config)) as [[s|]|] eqn:E; [|done..].
  pose proof (run_turn_safe s (connects []) ∅ (create_inv _ _ _ small_config_ok small_host_ok E) (connects_ok [])) as H.
  destruct (run_turn s (connects []) ∅) as [[[n s1] fs1]|f]; [|done]. split; [exact Hone|].
  destruct (destroy_takes_all s1 H) as (s2 & s' & rest & _ & _ & _ & _ & _ & _ & Hd & He & _). do 2 eexists. split; [exact Hd|exact He].
Defined.
