(* ===== verification/Startup.v ===== *)
(** The default configuration fits the arena: zedis_create succeeds with it
    when the system calls do.  Only the arithmetic of the arena is computed
    here; the arrays that are allocated are never looked at. *)

From stdpp Require Import gmap.
From S2P Require Import Prelude Arena HashTable OrderBook RingBuffer AppendLog BTree KeyRegistry Slab EventLoop.
From S2P Require Import Host Metrics ServerState Server ServerInv ServerSafe.

(** The arena after a step of zedis_create that succeeded. *)
Definition after {A} (x : Z * option A * arena) : option arena :=
  match x with (_, Some _, a) => Some a | _ => None end.

Lemma after_Some {A} (x : Z * option A * arena) a : after x = Some a → ∃ rc v, x = (rc, Some v, a).
Proof. destruct x as [[rc [v|]] a']; [|done]. intros [= ->]. by exists rc, v. Qed.

Lemma after_None {A} (x : Z * option A * arena) : after x = None → ∃ rc a, x = (rc, None, a).
Proof. destruct x as [[rc [v|]] a']; [done|]. by exists rc, a'. Qed.

(** * The steps *)

(** [o] bytes of an arena of [size] bytes are in use. *)
Definition used (mem hp size o : Z) : arena := Arena mem size o hp.

Definition MiB (n : Z) : Z := n * 1024 * 1024.

(** With the sizes of [server_defaults], in an arena of 256 or 64 MiB. *)
Section steps.
Context (mem hp size : Z) (Hsize : size = MiB 256 ∨ size = MiB 64).

Lemma pool_default o i n o' :
  0 <= n → class_size i * n < 2 ^ 64 →
  (∃ base, zedis_arena_alloc (used mem hp size o) (class_size i * n) 64 = (Some base, used mem hp size o')) →
  ∃ p, init_pool (used mem hp size o) (class_size i) n = Ok (Some p, used mem hp size o').
Proof.
  intros Hn Hw [base Ha]. destruct (init_pool_ok (used mem hp size o) i n Hn Hw) as [x Hx]. pose proof Hx as Hx'.
  unfold init_pool in Hx. pose proof (class_size_pos i). rewrite u64_small, Ha in Hx by nia.
  destruct (link_blocks _ _ _ _ _ _ _); [|done]. injection Hx as <-. by eexists.
Qed.

Lemma slab_default :
  ∃ sl, zedis_slab_init (used mem hp size 0) 32768 8192 2048 2112 = Ok (RC_OK, Some sl, used mem hp size 13893632).
Proof.
  unfold zedis_slab_init.
  destruct (pool_default 0 0 32768 2097152) as [p0 E0]; [done|done|eexists; destruct Hsize as [->| ->]; lazy; reflexivity|].
  destruct (pool_default 2097152 1 8192 4194304) as [p1 E1]; [done|done|eexists; destruct Hsize as [->| ->]; lazy; reflexivity|].
  destruct (pool_default 4194304 2 2048 5242880) as [p2 E2]; [done|done|eexists; destruct Hsize as [->| ->]; lazy; reflexivity|].
  destruct (pool_default 5242880 3 2112 13893632) as [p3 E3]; [done|done|eexists; destruct Hsize as [->| ->]; lazy; reflexivity|].
  cbn [class_size] in *. rewrite E0. cbn [mbind exec_bind]. rewrite E1. cbn [mbind exec_bind]. rewrite E2. cbn [mbind exec_bind].
  rewrite E3. by eexists.
Qed.

Lemma keys_default :
  after (zedis_ht_init (used mem hp size 13893632) 8192) = Some (used mem hp size 49807360).
Proof. destruct Hsize as [->| ->]; lazy; reflexivity. Qed.

Lemma book_default :
  ∃ b, zedis_book_init (used mem hp size 49807360) 0 99999 = Ok (RC_OK, Some b, used mem hp size 51407360).
Proof.
  unfold zedis_book_init. cbn [Z.ltb Z.compare]. change (chk_i32 (99999 - 0)) with (@Ok Z 99999). cbn [mbind exec_bind].
  change (chk_i32 (99999 + 1)) with (@Ok Z 100000). cbn [mbind exec_bind].
  assert (∃ p, zedis_arena_calloc (used mem hp size 49807360) 100000 SIZEOF_PRICE_LEVEL 64 = (Some p, used mem hp size 51407360)) as [p ->]
    by (eexists; destruct Hsize as [->| ->]; lazy; reflexivity). by eexists.
Qed.

Lemma ring_default :
  after (zedis_ring_init (used mem hp size 51407360) 4096) = Some (used mem hp size 53832192).
Proof. destruct Hsize as [->| ->]; lazy; reflexivity. Qed.
End steps.

Lemma zsets_default mem hp :
  after (zedis_zset_reg_init (used mem hp (MiB 256) 53832192) 256 2048) = Some (used mem hp (MiB 256) 156815872).
Proof. lazy. reflexivity. Qed.

Lemma zsets_too_many mem hp :
  after (zedis_zset_reg_init (used mem hp (MiB 64) 53832192) 256 2048) = None.
Proof. lazy. reflexivity. Qed.

Lemma lists_default mem hp :
  after (zedis_list_reg_init (used mem hp (MiB 256) 156815872) 256) = Some (used mem hp (MiB 256) 159063552).
Proof. lazy. reflexivity. Qed.

Lemma loop_default {H} mem hp fd :
  0 <= fd → ∃ l, event_loop_create (H := H) (used mem hp (MiB 256) 159063552) ZEDIS_MAX_FDS fd
                 = (Some l, used mem hp (MiB 256) 159141440).
Proof.
  intros Hfd. unfold event_loop_create. change (ZEDIS_MAX_FDS <=? 0) with false. cbv iota.
  assert (∃ p, zedis_arena_calloc (used mem hp (MiB 256) 159063552) 1 SIZEOF_EVENT_LOOP 64
    = (Some p, used mem hp (MiB 256) 159075864)) as [p ->] by (eexists; lazy; reflexivity).
  assert (∃ p, zedis_arena_calloc (used mem hp (MiB 256) 159075864) ZEDIS_MAX_FDS SIZEOF_HANDLER 64
    = (Some p, used mem hp (MiB 256) 159141440)) as [q ->] by (eexists; lazy; reflexivity).
  destruct (fd <? 0) eqn:E; zb; [lia|]. by eexists.
Qed.

(** * Theorems *)

(** Every system call of zedis_create succeeds. *)
Record host_works (h : host) : Prop := HostWorks {
  hw_calloc : h_calloc h = true;
  hw_mmap : ∀ n, is_Some (h_mmap h true n) ∨ is_Some (h_mmap h false n);
  hw_anon : ∀ n, sys_mmap_anon (h_aol h) n = true;
  hw_file : mmap_whole (h_aol h);
  hw_epfd : 0 <= h_epfd h;
  hw_listen : ∀ p, 0 <= (create_listen_socket (h_listen h) (h_fds h) p).1 < ZEDIS_MAX_FDS;
  hw_room : h_room h = true;
}.

(** The defaults with an arena of [n] MiB. *)
Definition defaults_with (n : Z) : config :=
  let c := server_defaults in
  Config (port c) (cpu_core c) (MiB n) (max_keys c) (max_connections c) (ring_capacity c) (cfg_max_zsets c)
         (cfg_max_lists c) (zset_members c) (aol_size c) (aol_path c) (book_price_min c) (book_price_max c)
         (busy_poll c) (metrics_dir c) (metrics_interval_ms c).

Lemma arena_starts h n :
  host_works h → n = 256 ∨ n = 64 → ∃ mem hp, zedis_arena_init (h_mmap h) (MiB n) = (RC_OK, used mem hp (MiB n) 0).
Proof.
  intros Hw Hn. unfold zedis_arena_init. assert ((MiB n =? 0) = false) as -> by (destruct Hn as [->| ->]; reflexivity).
  assert (align_up (MiB n) (2 * 1024 * 1024) = MiB n) as -> by (destruct Hn as [->| ->]; reflexivity).
  destruct (h_mmap h true (MiB n)) as [mem|] eqn:E; [by exists mem, 1|].
  destruct (hw_mmap h Hw (MiB n)) as [[m Hm]|[m Hm]]; [congruence|]. rewrite Hm. by exists m, 0.
Qed.

(** The steps up to the sorted sets. *)
Lemma create_data_prefix h n :
  host_works h → n = 256 ∨ n = 64 → ∃ mem hp sl k b r log,
    create_data h (defaults_with n)
    = match zedis_zset_reg_init (used mem hp (MiB n) 53832192) 256 2048 with
      | (_, None, _) => Ok None
      | (_, Some zs, a5) =>
          match zedis_list_reg_init a5 256 with
          | (_, None, _) => Ok None
          | (_, Some ls, a6) => Ok (Some (a6, sl, k, b, r, log, zs, ls))
          end
      end.
Proof.
  intros Hw Hn. destruct (arena_starts h n Hw Hn) as (mem & hp & Ha). unfold create_data.
  change (arena_size (defaults_with n)) with (MiB n). rewrite Ha. cbn [RC_OK Z.eqb negb].
  assert (MiB n = MiB 256 ∨ MiB n = MiB 64) as Hs by (destruct Hn as [->| ->]; auto).
  destruct (slab_default mem hp _ Hs) as (sl & E1).
  change (u64 (max_connections (defaults_with n) * 32)) with 32768. change (u64 (max_connections (defaults_with n) * 8)) with 8192.
  change (u64 (max_connections (defaults_with n) * 2)) with 2048. change (u64 (max_connections (defaults_with n) * 2 + 64)) with 2112.
  rewrite E1. cbn [mbind exec_bind]. destruct (after_Some _ _ (keys_default mem hp _ Hs)) as (rc2 & k & E2).
  change (max_keys (defaults_with n)) with 8192. rewrite E2. destruct (book_default mem hp _ Hs) as [b E3].
  change (book_price_min (defaults_with n)) with 0. change (book_price_max (defaults_with n)) with 99999. rewrite E3.
  cbn [mbind exec_bind]. destruct (after_Some _ _ (ring_default mem hp _ Hs)) as (rc4 & r & E4).
  change (ring_capacity (defaults_with n)) with 4096. rewrite E4.
  unfold zedis_aol_init. change (aol_path (defaults_with n)) with (@None (list Z)).
  change (aol_size (defaults_with n) <? 4096) with false. cbv iota. rewrite (hw_anon h Hw).
  change (u32 (cfg_max_zsets (defaults_with n))) with 256. change (u32 (zset_members (defaults_with n))) with 2048.
  change (u32 (cfg_max_lists (defaults_with n))) with 256. exists mem, hp, sl, k, b, r. eexists. reflexivity.
Qed.

Lemma create_default h :
  host_works h → ∃ s, zedis_create h None = Ok (Some s) ∧ ∃ mem hp, s_arena s = used mem hp (MiB 256) 159141440.
Proof.
  intros Hw. destruct (create_data_prefix h 256 Hw) as (mem & hp & sl & k & b & r & log & Hd); [by left|].
  destruct (after_Some _ _ (zsets_default mem hp)) as (rc6 & zs & E6). rewrite E6 in Hd.
  destruct (after_Some _ _ (lists_default mem hp)) as (rc7 & ls & E7). rewrite E7 in Hd.
  unfold zedis_create. rewrite (hw_calloc h Hw). change (effective_config None) with (defaults_with 256).
  cbn [negb]. rewrite Hd. cbn [mbind exec_bind].
  destruct (loop_default (H := Conn.handler) mem hp _ (hw_epfd h Hw)) as [l El]. rewrite El.
  pose proof (hw_listen h Hw (port (defaults_with 256))) as Hl. destruct (create_listen_socket _ _ _) as [lfd fds].
  cbn [fst] in Hl. destruct (lfd <? 0) eqn:E; zb; [lia|]. assert (ZEDIS_MAX_FDS < 2 ^ 32) as Hmax by reflexivity.
  destruct (loop_rep_create _ _ _ _ _ Hmax El) as [Hrep Hm].
  destruct (loop_step_rep l ∅ (LAdd (h_room h) lfd (Z.lor EPOLLIN EPOLLET) Conn.HAccept) Hrep) as (l' & Hadd & _).
  cbn [loop_step reg_step] in Hadd. rewrite Hm, (hw_room h Hw), bool_decide_eq_true_2 in Hadd by lia.
  rewrite bool_decide_eq_true_2 in Hadd by apply lookup_empty. rewrite (hw_room h Hw), Hadd. cbn [mbind exec_bind fst snd RC_OK Z.eqb negb andb].
  destruct (zedis_metrics_init _ _ _) as [rc m]. eexists. split; [done|]. by exists mem, hp.
Qed.

(** C38: With the default configuration zedis_create succeeds whenever the
    system calls do, and the server satisfies the invariant: all components
    together fit the default arena of 256 MiB.  With the 64 MiB that the usage
    text and the README give as the default, the sorted sets do not fit and
    zedis_create fails. *)
Theorem default_config_starts h :
  host_works h →
  (∃ s, zedis_create h None = Ok (Some s) ∧ server_inv s ∧ asize (s_arena s) = MiB 256 ∧
        offset (s_arena s) <= asize (s_arena s)) ∧
  zedis_create h (Some (defaults_with 64)) = Ok None.
Proof.
  intros Hw. split.
  - destruct (create_default h Hw) as (s & Hs & mem & hp & Ha). exists s. split; [done|]. rewrite Ha. split; [|done].
    eapply create_inv; [|exact (hw_file h Hw)|exact Hs]. split; cbn; unfold INT32_MIN, INT32_MAX, UINT32_MAX; lia.
  - destruct (create_data_prefix h 64 Hw) as (mem & hp & sl & k & b & r & log & Hd); [by right|].
    destruct (after_None _ (zsets_too_many mem hp)) as (rc6 & a6 & E6). rewrite E6 in Hd.
    unfold zedis_create. rewrite (hw_calloc h Hw). change (effective_config (Some (defaults_with 64))) with (defaults_with 64).
    cbn [negb]. by rewrite Hd.
Qed.

Lemma default_config_starts_witness :
  ∃ s, zedis_create small_host None = Ok (Some s) ∧ server_inv s.
Proof.
  destruct (default_config_starts small_host) as [(s & Hs & Hi & _) _].
  - split; try reflexivity; try discriminate.
    + intros n. left. by eexists.
    + intros p. split; [discriminate|reflexivity].
  - exists s. split; [exact Hs|exact Hi].
Defined.
