(* ===== verification/Fragments.v ===== *)
(** However the bytes of a client are cut into reads, it is answered the same:
    conn_on_readable over a socket that delivers the commands in pieces. *)

From stdpp Require Import gmap sorting.
From S2P Require Import Prelude Arena HashTable HashTableSpec OrderBook RingBuffer AppendLog BTree BTreeShape.
From S2P Require Import ZSet KeyRegistry RegistrySpec Slab Resp RespSafe RespRound RespFormat RespMono RespSpec EventLoop.
From S2P Require Import Conn Metrics ServerState Commands CommandSpec StoreSpec Server ServerSpec ServerInv ServerSafe.

(** * Cutting a stream of commands *)

Lemma waits_prefix n u x : waits n (u ++ x) → waits n u.
Proof.
  intros [Hnil|(v & suf & Hv & Hn & Hl & Hne & Heq)].
  - apply app_eq_nil in Hnil as [-> _]. by left.
  - destruct u as [|b u]; [by left|]. right. exists v, (x ++ suf). split; [done|]. split; [done|]. split; [done|].
    split; [by destruct x|]. by rewrite app_assoc.
Qed.

(** What has arrived of the commands is some of them whole and a part. *)
Lemma cut_commands n cmds tail u rest :
  u ++ rest = concat (map enc_cmd cmds) ++ tail → waits n tail → zlen (u ++ rest) < 2 ^ 61 →
  Forall (λ args, (length args <= n)%nat) cmds → ∃ cmds1 cmds2 tail1,
    cmds = cmds1 ++ cmds2 ∧ u = concat (map enc_cmd cmds1) ++ tail1 ∧
    tail1 ++ rest = concat (map enc_cmd cmds2) ++ tail ∧ waits n tail1.
Proof.
  revert u. induction cmds as [|args cmds IH]; intros u Heq Hw Hlen Hn.
  - exists [], [], u. cbn in *. split; [done|]. split; [done|]. split; [done|].
    eapply waits_prefix. rewrite Heq. exact Hw.
  - apply Forall_cons in Hn as [Hna Hn]. cbn [map concat] in Heq. rewrite <-app_assoc in Heq.
    destruct (decide (length (enc_cmd args) <= length u)%nat) as [Hle|Hgt].
    + assert (u = enc_cmd args ++ drop (length (enc_cmd args)) u) as Hu.
      { pose proof (f_equal (take (length (enc_cmd args))) Heq) as Ht. rewrite take_app_length, take_app_le in Ht by lia.
        rewrite <-Ht at 1. by rewrite take_drop. }
      rewrite Hu in Heq |- *. set (u' := drop _ u) in *. rewrite <-app_assoc in Heq. apply app_inv_head in Heq.
      destruct (IH u' Heq Hw) as (c1 & c2 & t1 & -> & -> & H2 & Hw1); [|done|].
      { rewrite Hu, <-app_assoc, zlen_app in Hlen. pose proof (zlen_nonneg (enc_cmd args)). lia. }
      exists (args :: c1), c2, t1. split; [done|]. split; [|done]. cbn [map concat]. by rewrite <-app_assoc.
    + exists [], (args :: cmds), u. cbn [map concat app]. split; [done|]. split; [done|].
      split; [by rewrite <-app_assoc|]. destruct u as [|b u]; [by left|]. right.
      exists (VArr (map VBulk args)), (drop (length (b :: u)) (enc_cmd args)). split; [apply cmd_encodable|].
      split; [by rewrite cmd_nodes|]. fold (enc_cmd args). split; [rewrite Heq, zlen_app in Hlen; pose proof (zlen_nonneg (concat (map enc_cmd cmds) ++ tail)); lia|].
      split; [intros Hd; apply (f_equal length) in Hd; rewrite length_drop in Hd; cbn [length] in *; lia|].
      pose proof (f_equal (take (length (b :: u))) Heq) as Ht. rewrite take_app_length, take_app_le in Ht by lia.
      rewrite Ht at 1. apply take_drop.
Qed.

(** A whole command is no strict prefix of a message. *)
Lemma waits_no_command s a c n args rest :
  ready s a c n → (length args <= n)%nat → waits n (unread (parser c)) → unread (parser c) = enc_cmd args ++ rest → False.
Proof.
  intros Hr Hn Hw Hu. pose proof (rd_parser _ _ _ _ Hr) as Hp.
  destruct (next_parses (attach s (parser c)) (VArr (map VBulk args)) rest) as (v & pos & p' & H1 & _);
    [done|by eapply ready_env|apply cmd_encodable|rewrite cmd_nodes; pose proof (rd_supply _ _ _ _ Hr); unfold supply; cbn; lia|done|].
  destruct (next_waiting (attach s (parser c)) n) as (p'' & H2 & _);
    [done|exact (rd_cap _ _ _ _ Hr)|by eapply ready_env|exact (rd_supply _ _ _ _ Hr)|done|]. congruence.
Qed.

Lemma answers_all_app L W c1 c2 W' Rs :
  answers_all L W (c1 ++ c2) W' Rs → ∃ W1 Rs1 Rs2, Rs = Rs1 ++ Rs2 ∧ answers_all L W c1 W1 Rs1 ∧ answers_all L W1 c2 W' Rs2.
Proof.
  revert W Rs. induction c1 as [|args c1 IH]; intros W Rs Ha; cbn [app] in Ha.
  - exists W, [], Rs. split; [done|]. split; [constructor|done].
  - inversion Ha as [|? ? W1 R ? ? Rs' Hhead Htail]; subst. destruct (IH _ _ Htail) as (W2 & Rs1 & Rs2 & -> & H1 & H2).
    exists W2, (R :: Rs1), Rs2. split; [done|]. split; [by econstructor|done].
Qed.

Lemma answers_all_length L W cmds W' Rs : answers_all L W cmds W' Rs → length Rs = length cmds.
Proof. induction 1; cbn; congruence. Qed.

Lemma total_app ks1 ks2 : total (ks1 ++ ks2) = total ks1 + total ks2.
Proof. unfold total. induction ks1 as [|k ks1 IH]; cbn [app foldr]; lia. Qed.

Lemma outs_total Rs outs ks : Forall2 (λ (R : list Z → Prop) out, R out) Rs outs → Forall2 at_most Rs ks → zlen (concat outs) <= total ks.
Proof.
  intros Ho. revert ks. induction Ho as [|R out Rs outs HR _ IH]; intros ks Hks; [by apply Forall2_nil_inv_l in Hks as ->|].
  apply Forall2_cons_inv_l in Hks as (k & ks' & [_ Hk] & Hks' & ->). cbn [concat total foldr]. rewrite zlen_app.
  specialize (Hk out HR). specialize (IH ks' Hks'). unfold total in IH. lia.
Qed.

(** * Reading in pieces *)

(** The socket delivers these pieces, none of them empty, and then waits. *)
Definition pieces (bss : list (Z * list Z)) : list read_result := map (λ x, RData x.1 x.2) bss.
Definition bytes_in (bss : list (Z * list Z)) : list Z := concat (map (λ x, x.1 :: x.2) bss).

(** A piece that fits is read whole. *)
Lemma kernel_read_piece b bs k space :
  zlen (b :: bs) <= space → kernel_read (RData b bs :: k) space = (RData b bs, k).
Proof.
  intros Hs. cbn [kernel_read]. rewrite take_ge, drop_ge by (unfold zlen in Hs; lia). done.
Qed.

Lemma write_commit_unread p data :
  parser_wf p → zlen data <= buf_cap p - w_pos p → ∃ p1,
    resp_parser_write p data = Ok p1 ∧ let p2 := resp_parser_commit p1 (zlen data) in
    parser_wf p2 ∧ unread p2 = unread p ++ data ∧ env p2 = env p ∧ buf_cap p2 = buf_cap p ∧ w_pos p2 = w_pos p + zlen data.
Proof.
  intros (Hl & Hr & Hw & H62) Hd. pose proof (zlen_nonneg data). unfold resp_parser_write.
  destruct (memcpy (buf p) (w_pos p) data) as [b|] eqn:Eb; [|rewrite memcpy_ok in Eb by lia; done].
  pose proof (memcpy_zlen _ _ _ _ Eb) as Hbl. cbn [mbind exec_bind]. eexists. split; [done|]. cbv zeta.
  unfold parser_wf, unread; cbn [resp_parser_commit buf buf_cap r_pos w_pos env]. rewrite u64_small by lia.
  split; [lia|]. split; [|done]. replace (w_pos p + zlen data - r_pos p) with ((w_pos p - r_pos p) + zlen data) by lia.
  rewrite slice_split by lia. f_equal; [by apply (memcpy_frame _ _ _ _ _ _ Eb); lia|].
  replace (r_pos p + (w_pos p - r_pos p)) with (w_pos p) by lia. by eapply memcpy_read.
Qed.

Lemma ready_input s a c n k p :
  ready s a c n → parser_wf p → buf_cap p < 2 ^ 61 → env p = env (parser c) →
  ready (put_conn s a (set_parser (set_input c k) p)) a (set_parser (set_input c k) p) n.
Proof.
  intros [Hc Hwf Ho Hl Hmet _ _ Hsl Hk Hsup] Hp Hcap He. split; try done.
  - cbn. apply lookup_insert_eq.
  - cbn. by rewrite He.
Qed.

Lemma served_input s a c k p :
  conns s !! a = Some c → env p = env (parser c) →
  served s (put_conn s a (set_parser (set_input c k) p)) a c (set_parser (set_input c k) p) 0.
Proof. intros Hc He. split; try done; [intros b Hb; cbn; by rewrite lookup_insert_ne|cbn; by rewrite He]. Qed.

(** One read: what it completes is answered, the rest stays in the buffer. *)
Lemma read_piece fuel L s a c n W cmds W' Rs ks tail b bs k :
  server_inv s → ready s a c n → holds L s W → answers_all L W cmds W' Rs →
  Forall (λ args, (length args <= n)%nat) cmds → Forall2 at_most Rs ks →
  zlen (pending c) + total ks <= WRITE_ROOM → k_in (sock c) = RData b bs :: k →
  unread (parser c) ++ (b :: bs) = concat (map enc_cmd cmds) ++ tail → waits n tail →
  w_pos (parser c) + zlen (b :: bs) <= buf_cap (parser c) →
  ∃ s' c' outs, readable_loop (S fuel) s a = readable_loop fuel s' a ∧ server_inv s' ∧ ready s' a c' n ∧ holds L s' W' ∧
    Forall2 (λ R out, R out) Rs outs ∧ stream c' = stream c ++ concat outs ∧ unread (parser c') = tail ∧ k_in (sock c') = k ∧
    buf_cap (parser c') = buf_cap (parser c) ∧ w_pos (parser c') <= w_pos (parser c) + zlen (b :: bs) ∧
    zlen (pending c') <= zlen (pending c) + total ks ∧
    served s s' a c c' (length cmds) ∧ r_pos (parser c') <= Z.quot (buf_cap (parser c')) 2.
Proof.
  intros Hi Hr Hh Hall Hn Hks Hroom Hin Heq Hw Hsp. pose proof Hr as [Hc Hwf Ho Hlp Hmet Hp Hcap Hsl Hk Hsup].
  pose proof Hp as (Hbl & Hrw & Hwb & _). pose proof (zlen_nonneg bs). rewrite zlen_cons in Hsp.
  cbn [readable_loop]. rewrite (get_conn_ok _ _ _ Hc). cbn [mbind exec_bind]. unfold resp_parser_space. rewrite u64_small by lia.
  destruct (_ =? 0) eqn:E; zb; [lia|]. rewrite Hin, kernel_read_piece by (rewrite zlen_cons; lia).
  destruct (write_commit_unread (parser c) (b :: bs) Hp) as (p1 & -> & Hp2 & Hu2 & He2 & Hcap2 & Hw2); [rewrite zlen_cons; lia|].
  cbn [mbind exec_bind]. set (p2 := resp_parser_commit p1 _) in *. set (c1 := set_parser (set_input c k) p2).
  pose proof (ready_input s a c n k p2 Hr Hp2 ltac:(lia) He2) as Hr1. fold c1 in Hr1.
  assert (server_inv (put_conn s a c1)) as Hi1.
  { destruct (inv_conns s Hi a c Hc) as (_ & _ & Hch). eapply inv_update_same; [done|exact Hc|done| |done]. by split. }
  pose proof (dispatch_commands_safe (put_conn s a c1) a c1 Hi1 (rd_conn _ _ _ _ Hr1)) as Hsafe.
  rewrite <-Hu2 in Heq. unfold server_dispatch_commands in Hsafe |- *. rewrite (get_conn_ok _ _ _ (rd_conn _ _ _ _ Hr1)) in Hsafe |- *.
  cbn [mbind exec_bind] in Hsafe |- *.
  destruct (pipeline_ok (S (Z.to_nat (w_pos (parser c1) - r_pos (parser c1)))) L (put_conn s a c1) a c1 n W cmds W' Rs ks tail)
    as (s' & c' & outs & Hd & Hr' & Hh' & HRs & Hst & Hu' & Hsv & Hlow); try done.
  { rewrite unread_len by done. lia. }
  rewrite Hd in Hsafe |- *. cbn [mbind exec_bind fst snd Z.eqb]. destruct Hsafe as [Hi' [Hx|(_ & c2 & Hc2 & Hin2 & Hc3 & Hw3)]]; [done|].
  assert (c2 = c') as -> by (pose proof (rd_conn _ _ _ _ Hr'); cbn in Hc2; congruence).
  exists s', c', outs. split; [done|]. split; [done|]. split; [done|]. split; [done|]. split; [done|]. split; [exact Hst|].
  split; [done|]. split; [exact Hin2|]. split; [rewrite Hc3; exact Hcap2|]. split; [change (w_pos (parser c1)) with (w_pos p2) in Hw3; lia|].
  pose proof (served_trans _ _ _ _ _ _ _ 0 _ (served_input s a c k p2 Hc He2) Hsv) as Hsv'. split; [|done].
  destruct Hsv as [_ _ _ [_ Hmono] _]. pose proof (outs_total _ _ _ HRs Hks). pose proof (f_equal zlen Hst) as Hlen.
  rewrite zlen_app, !stream_len in Hlen by (exact (proj1 Hwf) || exact (proj1 (rd_wf _ _ _ _ Hr'))).
  change (pending c1) with (pending c) in Hlen. lia.
Qed.

(** The connection was answered [outs], the replies to [k] commands, and what
    it sent was read up to [tail]. *)
Record answered_by (L : limits) (n : nat) (W : world) (tail : list Z) (s s' : server) (a : Z) (c c' : conn)
    (outs : list (list Z)) (k : nat) : Prop := AnsweredBy {
  ab_inv : server_inv s';
  ab_ready : ready s' a c' n;
  ab_holds : holds L s' W;
  ab_stream : stream c' = stream c ++ concat outs;
  ab_unread : unread (parser c') = tail;
  ab_input : k_in (sock c') = [] ∧ r_pos (parser c') <= Z.quot (buf_cap (parser c')) 2 ∧ buf_cap (parser c') = buf_cap (parser c);
  ab_served : served s s' a c c' k;
}.

(** Everything that was read has been answered. *)
Lemma readable_pieces bss fuel L s a c n W cmds W' Rs ks tail :
  server_inv s → ready s a c n → holds L s W → answers_all L W cmds W' Rs →
  Forall (λ args, (length args <= n)%nat) cmds → Forall2 at_most Rs ks →
  zlen (pending c) + total ks <= WRITE_ROOM → k_in (sock c) = pieces bss →
  waits n (unread (parser c)) → unread (parser c) ++ bytes_in bss = concat (map enc_cmd cmds) ++ tail → waits n tail →
  w_pos (parser c) + zlen (bytes_in bss) < buf_cap (parser c) → r_pos (parser c) <= Z.quot (buf_cap (parser c)) 2 →
  (length bss < fuel)%nat →
  ∃ s' c' outs, readable_loop fuel s a = Ok s' ∧ Forall2 (λ R out, R out) Rs outs ∧ answered_by L n W' tail s s' a c c' outs (length cmds).
Proof.
  revert fuel s c W cmds Rs ks. induction bss as [|[b bs] bss IH];
    intros fuel s c W cmds Rs ks Hi Hr Hh Hall Hn Hks Hroom Hin Hwu Heq Hwt Hsp Hlow Hf; (destruct fuel as [|fuel]; [cbn in Hf; lia|]);
    pose proof Hr as [Hc Hwf Ho Hlp Hmet Hp Hcap Hsl Hk Hsup]; pose proof Hp as (Hbl & Hrw & Hwb & _).
  - cbn [bytes_in map concat] in *. rewrite zlen_nil in Hsp. cbn [readable_loop]. rewrite (get_conn_ok _ _ _ Hc).
    cbn [mbind exec_bind]. unfold resp_parser_space. rewrite u64_small by lia. destruct (_ =? 0) eqn:E; zb; [lia|].
    rewrite Hin. cbn [pieces map kernel_read]. rewrite app_nil_r in Heq. assert (cmds = []) as ->.
    { destruct cmds as [|args cmds]; [done|]. exfalso. apply Forall_cons in Hn as [Hna _].
      cbn [map concat] in Heq. rewrite <-app_assoc in Heq. by eapply waits_no_command. }
    inversion Hall; subst. exists (put_conn s a (set_input c [])), (set_input c []), []. split; [done|]. split; [constructor|]. split.
    + eapply inv_update_same; [done|exact Hc|done|exact (inv_conns s Hi a c Hc)|done].
    + split; try done. cbn. apply lookup_insert_eq.
    + exact Hh.
    + cbn [concat]. by rewrite app_nil_r.
    + done.
    + done.
    + split; try done. intros b Hb. cbn. by rewrite lookup_insert_ne.
  - cbn [bytes_in map concat fst snd] in *. fold (bytes_in bss) in *. rewrite zlen_app in Hsp.
    pose proof (zlen_nonneg (bytes_in bss)) as Hb0. rewrite app_assoc in Heq.
    destruct (cut_commands n cmds tail _ _ Heq Hwt) as (cmds1 & cmds2 & tail1 & -> & Hu1 & Heq2 & Hw1); [|done|].
    { rewrite !zlen_app, unread_len by done. lia. }
    apply answers_all_app in Hall as (W1 & Rs1 & Rs2 & -> & Ha1 & Ha2). apply Forall_app in Hn as [Hn1 Hn2].
    apply Forall2_app_inv_l in Hks as (ks1 & ks2 & Hks1 & Hks2 & ->). rewrite total_app in Hroom.
    pose proof (total_nonneg _ _ Hks2) as Ht2.
    destruct (read_piece fuel L s a c n W cmds1 W1 Rs1 ks1 tail1 b bs (pieces bss))
      as (s1 & c1 & outs1 & Hrun & Hi1 & Hr1 & Hh1 & HRs1 & Hst1 & Hu & Hin1 & Hcap1 & Hw & Hpend & Hsv1 & Hlow1); try done; [lia|lia|].
    destruct (IH fuel s1 c1 W1 cmds2 Rs2 ks2) as (s' & c' & outs2 & Hrun' & HRs2 & [Hi' Hr' Hh' Hst2 Hu' (Hin' & Hlow' & Hcap') Hsv2]); try done.
    + lia.
    + by rewrite Hu.
    + by rewrite Hu.
    + lia.
    + cbn [length] in Hf. lia.
    + exists s', c', (outs1 ++ outs2). split; [by rewrite Hrun|]. split; [by apply Forall2_app|]. split; try done.
      * by rewrite concat_app, Hst2, Hst1, app_assoc.
      * split; [done|]. split; [done|]. congruence.
      * rewrite length_app. by eapply served_trans.
Qed.

Lemma pieces_size bss : (length bss <= input_size (pieces bss))%nat.
Proof. induction bss as [|[b bs] bss IH]; [done|]. unfold input_size, pieces in *. cbn [map foldr length fst snd]. lia. Qed.

Lemma readable_ok bss L s a c n W cmds W' Rs ks tail :
  server_inv s → ready s a c n → holds L s W → answers_all L W cmds W' Rs →
  Forall (λ args, (length args <= n)%nat) cmds → Forall2 at_most Rs ks →
  zlen (pending c) + total ks <= WRITE_ROOM → k_in (sock c) = pieces bss →
  waits n (unread (parser c)) → unread (parser c) ++ bytes_in bss = concat (map enc_cmd cmds) ++ tail → waits n tail →
  w_pos (parser c) + zlen (bytes_in bss) < buf_cap (parser c) → r_pos (parser c) <= Z.quot (buf_cap (parser c)) 2 →
  ∃ s' c' outs, conn_on_readable s a = Ok s' ∧ Forall2 (λ R out, R out) Rs outs ∧
    answered_by L n W' tail s s' a c c' outs (length cmds).
Proof.
  intros Hi Hr Hh Hall Hn Hks Hroom Hin Hwu Heq Hwt Hsp Hlow. unfold conn_on_readable.
  rewrite (get_conn_ok _ _ _ (rd_conn _ _ _ _ Hr)). cbn [mbind exec_bind]. rewrite Hin. eapply readable_pieces; try done.
  pose proof (pieces_size bss). lia.
Qed.
