(* ===== verification/Serve.v ===== *)
(** From the start of the server to the answers of its first client. *)

From stdpp Require Import gmap sorting.
From S2P Require Import Prelude Arena HashTable HashTableSpec OrderBook RingBuffer AppendLog BTree BTreeShape.
From S2P Require Import ZSet KeyRegistry RegistrySpec Slab Resp RespSafe RespRound RespFormat RespMono RespSpec EventLoop.
From S2P Require Import Conn Metrics ServerState Commands CommandSpec StoreSpec Server ServerSpec ServerInv ConnSafe.
From S2P Require Import ServerSafe Fragments.

(** * The first connection *)

Definition first_conn (fd : Z) (mem : list Z) (wb : Z) (k : socket) : conn :=
  Conn fd (RespParser mem RESP_PARSER_DEFAULT_BUF 0 0 (NodeEnv [] None [])) (replicate (Z.to_nat WRITE_ROOM) 0) 0 0
       (replicate (Z.to_nat SUBSCRIBE_CHANNEL_SIZE) 0) false false None None wb k.

Lemma alloc_fresh s size i :
  slab_rep s [] → pool_for_size size = Some i → ∃ b s', zedis_slab_alloc s size = Ok (Some (b + BLOCK_DATA), s') ∧
    slab_rep s' [(b + BLOCK_DATA, size)].
Proof.
  intros Hs Hi. pose proof (slab_alloc_ok s [] size Hs) as Ha. rewrite Hi in Ha.
  destruct Ha as (p & Hp & [[_ Hfull]|(b & s' & Ha & _ & _ & Hr)]); [|by exists b, s'].
  destruct Hs as [_ Hs]. destruct (Hs i p Hp) as (_ & Hc & _). exfalso.
  apply Permutation_length in Hfull. unfold blocks in Hfull. rewrite length_fmap, length_seqZ in Hfull. cbn in Hfull. lia.
Qed.

(** A block of another class than the one that is outstanding. *)
Lemma alloc_second s o size i :
  slab_rep s [o] → pool_for_size size = Some i → pool_for_size o.2 ≠ Some i → ∃ b s',
    zedis_slab_alloc s size = Ok (Some (b + BLOCK_DATA), s') ∧ slab_rep s' [(b + BLOCK_DATA, size); o].
Proof.
  intros Hs Hi Ho. pose proof (slab_alloc_ok s [o] size Hs) as Ha. rewrite Hi in Ha.
  destruct Ha as (p & Hp & [[_ Hfull]|(b & s' & Ha & _ & _ & Hr)]); [|by exists b, s'].
  destruct Hs as [_ Hs]. destruct (Hs i p Hp) as (_ & Hc & _). exfalso. destruct o as [x y]. rewrite outs_of_cons, decide_False in Hfull by done.
  apply Permutation_length in Hfull. unfold blocks in Hfull. rewrite length_fmap, length_seqZ in Hfull. cbn in Hfull. lia.
Qed.

Lemma create_first c s fd acc mem :
  fresh_server c s → a_mem acc = Some mem → ∃ a wb sl outs,
    conn_create s fd acc = Ok (Some a, set_list (set_alloc s sl (k_malloc s)) {[a := first_conn fd mem wb (a_sock acc)]} (Some a) 1) ∧
    slab_rep sl outs.
Proof.
  intros [_ _ (Hcs & Hh & Hn) _ _ [Hsl _] _ _] Hm. unfold conn_create.
  destruct (alloc_fresh _ ZEDIS_SLAB_512 2 Hsl eq_refl) as (b & s1 & -> & Hs1). cbn [mbind exec_bind]. set (a := b + BLOCK_DATA).
  unfold resp_parser_init, resp_parser_init_ex. cbn [Z.eqb RESP_PARSER_DEFAULT_BUF Z.mul Pos.mul]. rewrite Hm.
  destruct (alloc_second _ _ ZEDIS_CONN_WRITE_SIZE 3 Hs1 eq_refl) as (wb & s2 & -> & Hs2); [done|]. cbn [mbind exec_bind].
  exists a, (wb + BLOCK_DATA), s2. eexists. split; [|exact Hs2]. unfold server_link_conn.
  rewrite (get_conn_ok (put_conn _ _ _) a _) by (cbn; by rewrite lookup_insert_eq). cbn [mbind exec_bind].
  change (conns_head (put_conn ?x _ _)) with (conns_head x). cbn [set_alloc conns_head]. rewrite Hh. cbn [mbind exec_bind].
  do 2 f_equal. unfold set_list. srv_simpl. rewrite Hcs, Hn, insert_insert_eq. done.
Qed.

(** * A turn that reports one descriptor *)

Record reports (t : turn) (fd : Z) : Prop := Reports {
  rp_signal : t_sig t = false;
  rp_event : ∃ ev, t_wait t = Waited [(fd, ev)];
}.

(** Before the wait the metrics are written. *)
Lemma before_wait s t fs :
  metrics_ok (s_metrics s) → ∃ m fs', maybe_write s t fs = (set_metrics s m, fs') ∧ metrics_ok m.
Proof.
  intros Hm. unfold maybe_write, zedis_metrics_maybe_write. destruct (s_metrics s) as [m|]; [|by do 2 eexists].
  destruct (_ && _); [by do 2 eexists|]. destruct (write_snapshot _ _ _ _) as [rc fs']. do 2 eexists. split; [done|]. exact Hm.
Qed.

(** The event reaches the handler that is registered. *)
Lemma turn_handler s t fd fs m mask h :
  reports t fd → metrics_ok (s_metrics s) → loop_rep (s_loop s) m → m !! fd = Some (mask, h) → stop (s_loop s) = false →
  ∃ ms fs' ev, metrics_ok ms ∧ run_turn s t fs = s' ← call_handler h fd ev (set_metrics (arrive s t) ms); Ok (1, s', fs').
Proof.
  intros [Hsig [ev Hw]] Hm Hl Hh Hst. destruct (before_wait (arrive s t) t fs Hm) as (ms & fs' & Hb & Hms).
  exists ms, fs', ev. split; [done|]. unfold run_turn. rewrite Hb. unfold event_loop_run_once. rewrite Hsig. unfold arrive. srv_simpl.
  rewrite Hst, Hw. cbn [orb dispatch_events]. pose proof Hl as (_ & _ & _ & Hdom & Hhs). destruct (Hdom fd) as [H0 H1]; [by eexists|]. srv_simpl.
  destruct (_ || _) eqn:E; [apply orb_true_iff in E as [E|E]; zb; lia|].
  assert (aget (handlers (s_loop s)) fd = Ok (Some h)) as ->.
  { apply aget_lookup. split; [done|]. rewrite Hhs by lia. by rewrite Hh. }
  cbn [mbind exec_bind]. destruct (call_handler _ _ _ _); done.
Qed.

(** * The turn that accepts it *)

(** A server with its first connection. *)
Record one_client (s s' : server) (a fd : Z) (cn : conn) : Prop := OneClient {
  oc_conns : conns s' = {[a := cn]};
  oc_loop : ∃ m, loop_rep (s_loop s') m ∧ m !! fd = Some (READ_MASK, HReadable a);
  oc_stop : stop (s_loop s') = false ∧ running s' = true;
  oc_slab : ∃ outs, slab_rep (s_slab s') outs;
  oc_metrics : metrics_ok (s_metrics s');
  oc_malloc : k_malloc s' = k_malloc s;
  oc_accept : k_accept s' = [];
  oc_data : same_data s s';
}.

Lemma watch_first c s fd a busy :
  fresh_server c s → fd = lowest_fd (open_fds s ++ busy) → zlen busy < 4000 → ∃ l' m,
    event_loop_add (s_loop s) true fd (Z.lor EPOLLIN EPOLLET) (HReadable a) = Ok (RC_OK, l') ∧
    loop_rep l' m ∧ m !! fd = Some (READ_MASK, HReadable a) ∧ stop l' = false.
Proof.
  intros [_ _ (Hcs & _) _ (Hlp & Hmax & Hst) _ _ _] -> Hbusy. destruct (lowest_fd_free (open_fds s ++ busy)) as [Hfree Hrng].
  set (fd := lowest_fd _) in *. rewrite not_elem_of_app in Hfree. destruct Hfree as [Hfree _]. rewrite zlen_app in Hrng.
  unfold open_fds in Hfree, Hrng. rewrite Hcs, map_to_list_empty in Hfree, Hrng. cbn in Hrng.
  destruct (loop_step_rep _ _ (LAdd true fd (Z.lor EPOLLIN EPOLLET) (HReadable a)) Hlp) as (l' & Hl & Hr & _ & Hst').
  cbn [loop_step reg_step] in Hl, Hr. rewrite Hmax in Hl, Hr. rewrite (bool_decide_eq_true_2 (0 <= fd < ZEDIS_MAX_FDS)) in Hl, Hr
    by (unfold ZEDIS_MAX_FDS, zlen in *; cbn in Hrng; lia).
  rewrite (bool_decide_eq_true_2 (_ = None)) in Hl, Hr
    by (apply lookup_singleton_ne; intros Heq; apply Hfree; rewrite <-Heq; do 4 constructor 2; constructor 1).
  exists l'. eexists. split; [exact Hl|]. split; [exact Hr|]. split; [apply lookup_insert_eq|]. congruence.
Qed.

Lemma accept_first c s t acc mem fs :
  fresh_server c s → config_ok c → k_accept s = [] → t_accept t = [acc] → t_input t = [] → reports t (listen_fd s) → accepted_ok acc →
  a_nonblock acc = true → a_mem acc = Some mem → a_room acc = true → zlen (a_busy acc) < 4000 →
  let fd := lowest_fd (open_fds s ++ a_busy acc) in
  ∃ a wb s' fs', run_turn s t fs = Ok (1, s', fs') ∧ one_client s s' a fd (first_conn fd mem wb (a_sock acc)).
Proof.
  intros Hfs Hok Hk Hta Hti Hrp Hao Hnb Hmem Hroom Hbusy fd. pose proof Hfs as [Hcfg Hrun (Hcs & Hh & Hn) Hacc (Hlp & Hmax & Hst) Hsl Hm Hd].
  destruct (turn_handler s t (listen_fd s) fs _ (Z.lor EPOLLIN EPOLLET) HAccept Hrp Hm Hlp) as (ms & fs' & ev & Hms & ->);
    [by rewrite lookup_singleton_eq|done|]. unfold arrive. rewrite Hk, Hta, Hti. cbn [app call_handler foldl].
  set (sA := set_metrics _ ms).
  assert (fresh_server c sA) as HfA by (split; try done; by constructor).
  destruct (create_first c sA fd acc mem HfA Hmem) as (a & wb & sl & outs & Hcr & Hsl').
  destruct (watch_first c sA fd a (a_busy acc) HfA eq_refl Hbusy) as (l' & m & Hl & Hr & Hmfd & Hst').
  unfold server_on_accept. change (conn_count sA) with (conn_count s). change (cfg sA) with (cfg s). rewrite Hn, Hcfg, Z.geb_leb.
  destruct (_ <=? _) eqn:E; zb; [pose proof (co_conns _ Hok); lia|]. change (k_accept sA) with [acc]. cbn [accept_loop].
  rewrite Hnb. cbn [negb]. change (open_fds sA) with (open_fds s). fold fd. rewrite Hcr. cbn [mbind exec_bind]. rewrite Hroom. srv_simpl. rewrite Hl.
  cbn [mbind exec_bind fst snd RC_OK Z.eqb negb]. exists a, wb. do 2 eexists. split; [reflexivity|]. split; try done.
  - by exists m.
  - by exists outs.
Qed.

Lemma one_client_ready s s' a fd mem wb k n :
  one_client s s' a fd (first_conn fd mem wb k) → zlen mem = RESP_PARSER_DEFAULT_BUF → no_fail (k_write k) →
  (n <= length (k_malloc s))%nat → ready s' a (first_conn fd mem wb k) n.
Proof.
  intros [Hc (m & Hm & _) _ Hsl Hmet Hma _ _] Hmem Hk Hn. split; try done.
  - by rewrite Hc, lookup_singleton_eq.
  - by exists m.
  - cbn [parser first_conn env n_free length]. by rewrite Hma.
Qed.

(** * The store of a new server *)

Definition config_limits (c : config) : limits :=
  Limits (max_keys c) (book_price_min c) (book_price_max c) (Z.min (zset_members c) ZEDIS_BTREE_MAX_ENTRIES) (aol_size c).
Definition first_world (c : config) : world :=
  World (Exactly ∅) (λ _, PriceLevel 0 0) ∅ (cfg_max_zsets c) ∅ (cfg_max_lists c) 0.

Lemma fresh_holds c s : fresh_server c s → holds (config_limits c) s (first_world c).
Proof.
  intros [_ _ _ _ _ _ _ [Hk (Hb & Hmin & Hmax & Hlv) _ Hz Hl]]. split; [exact Hk|]. split; [|split; [by split|exact Hl] ].
  split; [done|]. split; [done|]. split; [done|]. intros p Hp. apply Hlv. unfold in_range. rewrite Hmin, Hmax. exact Hp.
Qed.

(** A client that sends the pieces [bss], whose connection can be set up. *)
Record sends (acc : accepted) (bss : list (Z * list Z)) : Prop := Sends {
  sd_ok : accepted_ok acc ∧ is_Some (a_mem acc) ∧ a_nonblock acc = true ∧ a_room acc = true ∧ zlen (a_busy acc) < 4000;
  sd_in : k_in (a_sock acc) = pieces bss;
  sd_write : no_fail (k_write (a_sock acc)) ∧ k_out (a_sock acc) = [];
}.

(** The metrics are written before the first turn. *)
Lemma first_write c s t fs :
  fresh_server c s → ∃ m fs', maybe_write s t fs = (set_metrics s m, fs') ∧ fresh_server c (set_metrics s m).
Proof.
  intros Hf. pose proof Hf as [Hcfg Hrun Hcs Hacc Hl Hsl Hm Hd]. destruct (before_wait s t fs Hm) as (m & fs' & Hw & Hm').
  exists m, fs'. split; [done|]. by split.
Qed.

(** * The turn that serves a client *)

(** What arrives at the socket of a connection. *)
Definition fed (c : conn) (rs : list read_result) (ws : list write_result) : conn :=
  set_output (set_input c (k_in (sock c) ++ rs)) (write_buf c) (write_len c) (write_sent c)
    (Socket (k_in (sock c) ++ rs) (k_write (sock c) ++ ws) (k_out (sock c))).

Lemma arrive_fed (cs : gmap Z conn) a c rs ws :
  cs !! a = Some c → foldl arrive_one cs [(a, (rs, ws))] = <[a := fed c rs ws]> cs.
Proof.
  intros Hc. cbn [foldl]. unfold arrive_one. cbn [fst snd]. apply map_eq. intros b.
  destruct (decide (a = b)) as [<-|Hne]; [by rewrite lookup_alter_eq, lookup_insert_eq, Hc|by rewrite lookup_alter_ne, lookup_insert_ne].
Qed.

Lemma arrive_nothing (cs : gmap Z conn) a c : cs !! a = Some c → foldl arrive_one cs [] = <[a := fed c [] []]> cs.
Proof.
  intros Hc. cbn [foldl]. rewrite insert_id; [done|]. rewrite Hc. f_equal. unfold fed. rewrite !app_nil_r. destruct c as [? ? ? ? ? ? ? ? ? ? ? k].
  by destruct k.
Qed.

Lemma ready_fed s a c n rs ws : ready s a c n → no_fail ws → ready (put_conn s a (fed c rs ws)) a (fed c rs ws) n.
Proof.
  intros [Hc Hwf Ho Hl Hmet Hp Hcap Hsl Hk Hsup] Hws. split; try done.
  - cbn. apply lookup_insert_eq.
  - by apply Forall_app.
Qed.

(** An open connection with nothing pending is watched for input. *)
Lemma watched_readable s a c :
  server_inv s → conns s !! a = Some c → closed c = false → pending c = [] →
  ∃ m, loop_rep (s_loop s) m ∧ m !! c_fd c = Some (READ_MASK, HReadable a).
Proof.
  intros Hi Hc Hcl Hp. pose proof (inv_loop s Hi) as (m & Hm & _ & Hwo). exists m. split; [done|].
  rewrite (wo_conn _ _ _ _ Hwo a c Hc Hcl) by done. unfold registration. by rewrite bool_decide_eq_true_2.
Qed.

Lemma serve_turn L s a c n W cmds W' Rs ks tail bss rs ws t fs :
  server_inv s → ready s a c n → holds L s W → answers_all L W cmds W' Rs →
  Forall (λ args, (length args <= n)%nat) cmds → Forall2 at_most Rs ks →
  pending c = [] → total ks <= WRITE_ROOM → k_in (sock c) ++ rs = pieces bss → no_fail ws →
  waits n (unread (parser c)) → unread (parser c) ++ bytes_in bss = concat (map enc_cmd cmds) ++ tail → waits n tail →
  w_pos (parser c) + zlen (bytes_in bss) < buf_cap (parser c) → r_pos (parser c) <= Z.quot (buf_cap (parser c)) 2 →
  reports t (c_fd c) → t_accept t = [] → foldl arrive_one (conns s) (t_input t) = <[a := fed c rs ws]> (conns s) →
  stop (s_loop s) = false → k_accept s = [] →
  ∃ s' fs' c' outs, run_turn s t fs = Ok (1, s', fs') ∧ Forall2 (λ R out, R out) Rs outs ∧
    answered_by L n W' tail s s' a (fed c rs ws) c' outs (length cmds).
Proof.
  intros Hi Hr Hh Hall Hn Hks Hp Htot Hin Hws Hwu Heq Hwt Hsp Hlow Ht Hta Hti Hst Hk.
  destruct (watched_readable s a c Hi (rd_conn _ _ _ _ Hr) (rd_open _ _ _ _ Hr) Hp) as (m & Hl & Hm).
  destruct (turn_handler s t (c_fd c) fs m READ_MASK (HReadable a) Ht (inv_metrics s Hi) Hl Hm Hst) as (ms & fs' & ev & Hms & ->).
  unfold arrive. rewrite Hta, Hti, Hk. cbn [app call_handler]. set (c1 := fed c rs ws) in *. set (sA := set_metrics _ ms).
  pose proof (ready_fed s a c n rs ws Hr Hws) as Hr1. fold c1 in Hr1.
  assert (server_inv (put_conn s a c1)) as Hi1.
  { eapply inv_update_same; [done|exact (rd_conn _ _ _ _ Hr)|done|exact (inv_conns s Hi a c (rd_conn _ _ _ _ Hr))|done]. }
  assert (server_inv sA) as HiA by (apply inv_set_metrics; [by apply inv_set_accept|done]).
  assert (ready sA a c1 n) as HrA by (destruct Hr1; by split).
  destruct (readable_ok bss L sA a c1 n W cmds W' Rs ks tail HiA HrA) as (s' & c' & outs & -> & HRs & [H1 H2 H3 H4 H5 H6 [Ho Hs Hn' Hc' Hf]]);
    try done; [change (pending c1) with (pending c); rewrite Hp, zlen_nil; lia|].
  cbn [mbind exec_bind]. exists s', fs', c', outs. split; [done|]. split; [done|]. split; try done. split; try done.
  - intros b Hb. rewrite Ho by done. cbn. by rewrite lookup_insert_ne.
  - destruct Hs as (? & ? & Hka & ?). rewrite Hk. done.
Qed.

(** * Theorems *)

(** C3: Whatever else is connected, a client that is watched for input is
    served by the turn that reports its descriptor: however the network cut its
    commands into pieces, each command that has arrived whole is run on the
    store and its reply appended to what the client is sent, in order, and a
    part of a further message is kept for later.  Everything the socket had is
    read, the connection stays open and no other connection changes.

    The commands are non-empty arrays of at most [n] bulk strings that
    [respond] answers: not PUBLISH or SUBSCRIBE with their arguments (which
    touch other connections or the subscription), not QUIT, not a command that
    runs into undefined behaviour (a number or the quantity of a level beyond
    int64_t) and not an unknown word whose error text exceeds 512 bytes.  Error replies, malformed numbers and
    DEL are included, as [respond] specifies them; a bulk reply of 4096 bytes
    or more is the empty reply.  In that turn nobody connects and no other
    client sends; nothing is pending for the client, all replies
    of the turn together have at most 4088 bytes, the bytes that arrive fit the
    free part of the input buffer, the socket does not fail, and the parser has
    or can allocate [n] nodes. *)
Theorem turn_serves_client L s a c n W cmds W' Rs ks tail bss rs ws t fs :
  server_inv s → ready s a c n → holds L s W → answers_all L W cmds W' Rs →
  Forall (λ args, (length args <= n)%nat) cmds → Forall2 at_most Rs ks →
  pending c = [] → total ks <= WRITE_ROOM → k_in (sock c) ++ rs = pieces bss → no_fail ws →
  waits n (unread (parser c)) → unread (parser c) ++ bytes_in bss = concat (map enc_cmd cmds) ++ tail → waits n tail →
  w_pos (parser c) + zlen (bytes_in bss) < buf_cap (parser c) → r_pos (parser c) <= Z.quot (buf_cap (parser c)) 2 →
  reports t (c_fd c) → t_accept t = [] → t_input t = [(a, (rs, ws))] → stop (s_loop s) = false → k_accept s = [] →
  ∃ s' fs' c' outs, run_turn s t fs = Ok (1, s', fs') ∧ server_inv s' ∧ holds L s' W' ∧ conns s' !! a = Some c' ∧
    Forall2 (λ R out, R out) Rs outs ∧ stream c' = stream c ++ concat outs ∧ unread (parser c') = tail ∧ k_in (sock c') = [] ∧
    closed c' = false ∧ ∀ b, b ≠ a → conns s' !! b = conns s !! b.
Proof.
  intros Hi Hr Hh Hall Hn Hks Hp Htot Hin Hws Hwu Heq Hwt Hsp Hlow Ht Hta Hti Hst Hk.
  destruct (serve_turn L s a c n W cmds W' Rs ks tail bss rs ws t fs) as (s' & fs' & c' & outs & Hrun & HRs & Hab); try done.
  { rewrite Hti. apply arrive_fed. exact (rd_conn _ _ _ _ Hr). }
  destruct Hab as [Hi' Hr' Hh' Hst' Hu [Hin' _] [Hoth _ _ _ _]]. exists s', fs', c', outs. do 3 (split; [done|]).
  split; [exact (rd_conn _ _ _ _ Hr')|]. do 4 (split; [done|]). split; [exact (rd_open _ _ _ _ Hr')|exact Hoth].
Qed.

(** C1: From zedis_create to the replies: a server that was just made, with
    sizes that the components can count with, accepts the first client that
    connects when epoll reports the listening socket, and when epoll reports
    the client's descriptor it runs each command that has arrived whole on the
    store, which was empty, and sends or queues its reply, in order, however
    the bytes were cut into pieces.

    The commands are those of [answers_all]: non-empty arrays of at most [n]
    bulk strings, without PUBLISH or SUBSCRIBE with their arguments, QUIT,
    commands that run into undefined behaviour (a number or the quantity of a
    level beyond int64_t) and unknown words whose error text exceeds 512 bytes;
    error replies, malformed numbers and DEL are included, and a bulk reply of 4096 bytes or more is the
    empty reply.  The client sends less than 64 KiB in all, the replies have at
    most 4088 bytes together, malloc grants [n] nodes, the client's socket does
    not fail and its connection can be set up ([sends]: a block for the
    parser's buffer, a descriptor below the size of the handler table). *)
Theorem first_client_served h config s pin t0 t1 t2 fs acc bss n cmds W' Rs ks tail :
  let c := effective_config config in
  config_ok c → mmap_whole (h_aol h) → zedis_create h config = Ok (Some s) →
  reports t1 (listen_fd s) → t_accept t1 = [acc] → t_input t1 = [] → sends acc bss →
  reports t2 (lowest_fd (open_fds s ++ a_busy acc)) → t_accept t2 = [] → t_input t2 = [] →
  answers_all (config_limits c) (first_world c) cmds W' Rs →
  Forall (λ args, (length args <= n)%nat) cmds → (n <= length (h_malloc h))%nat →
  Forall2 at_most Rs ks → total ks <= WRITE_ROOM →
  bytes_in bss = concat (map enc_cmd cmds) ++ tail → waits n tail → zlen (bytes_in bss) < RESP_PARSER_DEFAULT_BUF →
  ∃ warn s' fs' a c' outs, zedis_run pin s t0 [t1; t2] fs = Ok (warn, (None, s', fs')) ∧
    conns s' !! a = Some c' ∧ holds (config_limits c) s' W' ∧ Forall2 (λ R out, R out) Rs outs ∧
    stream c' = concat outs ∧ unread (parser c') = tail ∧ closed c' = false.
Proof.
  intros c Hok Hmm Hs Hr1 Ha1 Hi1 [(Hao & [mem Hmem] & Hnb & Hroom & Hbusy) Hin [Hnf Hout]] Hr2 Ha2 Hi2 Hall Hn Hmal Hks Htot Heq Hwt Hlen.
  destruct (create_fresh _ _ _ Hok Hmm Hs) as (Hfs & Hk & Hm). unfold zedis_run.
  destruct (first_write c s t0 fs Hfs) as (ms & fs0 & -> & Hf0). set (s0 := set_metrics s ms) in *.
  destruct (accept_first c s0 t1 acc mem fs0 Hf0 Hok Hk Ha1 Hi1 Hr1 Hao Hnb Hmem Hroom Hbusy) as (a & wb & s1 & fs1 & Hrun1 & H1).
  set (c1 := first_conn _ mem wb _) in *.
  assert (server_inv s1) as Hinv1.
  { assert (turn_ok t1) as Hok1 by (unfold turn_ok; rewrite Ha1; by constructor).
    pose proof (run_turn_safe s0 t1 fs0 (fresh_inv _ _ Hf0) Hok1) as Hd. by rewrite Hrun1 in Hd. }
  assert (ready s1 a c1 n) as Hrd.
  { eapply one_client_ready; [exact H1|by apply Hao|done|]. change (k_malloc s0) with (k_malloc s). by rewrite Hm. }
  pose proof (holds_same _ _ _ _ (oc_data _ _ _ _ _ H1) (fresh_holds _ _ Hf0)) as Hh1.
  destruct (serve_turn (config_limits c) s1 a c1 n (first_world c) cmds W' Rs ks tail bss [] [] t2 fs1)
    as (s2 & fs2 & c2 & outs & Hrun2 & HRs & [_ Hr2' Hh2 Hst Hu _ _]); try done.
  - rewrite app_nil_r. exact Hin.
  - constructor.
  - by left.
  - rewrite Hi2. apply arrive_nothing. exact (rd_conn _ _ _ _ Hrd).
  - apply (oc_stop _ _ _ _ _ H1).
  - exact (oc_accept _ _ _ _ _ H1).
  - do 2 eexists. exists fs2, a, c2, outs. cbn [run_turns]. destruct Hf0 as [_ -> _ _ _ _ _ _]. cbn [negb].
    rewrite Hrun1. cbn [mbind exec_bind Z.ltb Z.compare]. rewrite (proj2 (oc_stop _ _ _ _ _ H1)). cbn [negb]. rewrite Hrun2.
    cbn [mbind exec_bind Z.ltb Z.compare]. split; [reflexivity|]. split; [exact (rd_conn _ _ _ _ Hr2')|]. split; [done|].
    split; [done|]. split; [|split; [done|exact (rd_open _ _ _ _ Hr2')]]. rewrite Hst. unfold stream. cbn [c1 first_conn sock fed set_output k_out].
    by rewrite Hout.
Qed.

(** SET and GET of a key and a part of PING, cut in the middle of the first. *)
Definition set_get : list (list (list Z)) := [[bytes_of_string "set"; [107]; [118]]; [bytes_of_string "GET"; [107]]].
Definition ping_part : list Z := take 5 (enc_cmd [bytes_of_string "PING"]).
Definition two_pieces : list (Z * list Z) :=
  let all := concat (map enc_cmd set_get) ++ ping_part in
  [(42, take 10 (tail all)); (default 0 (head (drop 11 all)), drop 12 all)].

Lemma ping_part_waits : waits 3 ping_part.
Proof.
  right. exists (VArr (map VBulk [bytes_of_string "PING"])), (drop 5 (enc_cmd [bytes_of_string "PING"])).
  split; [vm_compute; auto|]. split; [vm_compute; lia|]. split; [reflexivity|]. split; [vm_compute; discriminate|].
  vm_compute. reflexivity.
Qed.

Definition small_limits : limits := config_limits (effective_config (Some small_config)).
Definition small_world : world := first_world (effective_config (Some small_config)).

Lemma set_get_answers :
  answers_all small_limits small_world set_get (with_kv small_world (Exactly {[ [107] := [118] ]})) [eq ok_reply; eq (enc (VBulk [118]))].
Proof.
  eapply all_cons; [split; [done|reflexivity]|].
  eapply all_cons; [split; [done|reflexivity]|].
  apply all_nil.
Qed.

Lemma set_get_short : Forall2 at_most [eq ok_reply; eq (enc (VBulk [118]))] [5; 7].
Proof. repeat constructor; try discriminate; intros out <-; discriminate. Qed.

Lemma client_sends bss : sends (client (pieces bss)) bss.
Proof.
  split; [split; [|done]|done|split; [|done]; by constructor].
  apply accepted_mem. rewrite zlen_replicate. by apply Z2Nat.id.
Qed.

Lemma small_fds s :
  zedis_create small_host (Some small_config) = Ok (Some s) → listen_fd s = 4 ∧ lowest_fd (open_fds s) = 5.
Proof.
  assert (match zedis_create small_host (Some small_config) with
    | Ok (Some s) => listen_fd s = 4 ∧ lowest_fd (open_fds s) = 5
    | _ => False end) as H by (vm_compute; split; reflexivity).
  intros E. by rewrite E in H.
Qed.

Lemma event_reports fd : reports (event_on fd) fd.
Proof. split; [done|]. by eexists. Qed.

Lemma connects_reports bs : reports (connects bs) 4.
Proof. split; [done|]. by eexists. Qed.

Lemma first_client_served_witness :
  match zedis_create small_host (Some small_config) with
  | Ok (Some s) => ∃ warn s' fs' a c',
      zedis_run (λ _, true) s (event_on 0) [connects (pieces two_pieces); event_on 5] ∅ = Ok (warn, (None, s', fs')) ∧
      conns s' !! a = Some c' ∧ stream c' = ok_reply ++ enc (VBulk [118]) ∧ unread (parser c') = ping_part
  | _ => False
  end.
Proof.
  destruct (zedis_create small_host (Some small_config)) as [[s|]|] eqn:E; [|vm_compute in E; discriminate E..].
  destruct (small_fds s E) as [Hl Hf].
  destruct (first_client_served small_host (Some small_config) s (λ _, true) (event_on 0) (connects (pieces two_pieces))
    (event_on 5) ∅ (client (pieces two_pieces)) two_pieces 3 set_get (with_kv small_world (Exactly {[ [107] := [118] ]}))
    [eq ok_reply; eq (enc (VBulk [118]))] [5; 7] ping_part small_config_ok small_host_ok E)
    as (warn & s' & fs' & a & c' & outs & Hrun & Hc & _ & HRs & Hst & Hu & _).
  - rewrite Hl. apply connects_reports.
  - reflexivity.
  - reflexivity.
  - apply client_sends.
  - cbn [a_busy client]. rewrite app_nil_r, Hf. apply event_reports.
  - reflexivity.
  - reflexivity.
  - apply set_get_answers.
  - repeat constructor.
  - cbn. lia.
  - apply set_get_short.
  - discriminate.
  - vm_compute. reflexivity.
  - apply ping_part_waits.
  - reflexivity.
  - exists warn, s', fs', a, c'. split; [exact Hrun|]. split; [exact Hc|]. split; [|exact Hu]. rewrite Hst.
    apply Forall2_cons_inv_l in HRs as (o1 & os & <- & HRs & ->). apply Forall2_cons_inv_l in HRs as (o2 & os' & <- & HRs & ->).
    apply Forall2_nil_inv_l in HRs as ->. reflexivity.
Defined.

(** A client that has connected and sends the pieces later. *)
Definition sends_now (a : Z) : turn :=
  Turn [(a, (pieces two_pieces, [WTake 3; WAgain]))] [] None small_io false false (Waited [(5, EPOLLIN)]).

Lemma turn_serves_client_witness :
  match zedis_create small_host (Some small_config) with
  | Ok (Some s) => ∃ a s1 fs1 s' fs' c' outs, run_turn s (connects []) ∅ = Ok (1, s1, fs1) ∧
      run_turn s1 (sends_now a) fs1 = Ok (1, s', fs') ∧ conns s' !! a = Some c' ∧ stream c' = concat outs ∧
      length outs = 2%nat ∧ unread (parser c') = ping_part
  | _ => False
  end.
Proof.
  destruct (zedis_create small_host (Some small_config)) as [[s|]|] eqn:E; [|vm_compute in E; discriminate E..].
  destruct (small_fds s E) as [Hl Hf]. destruct (create_fresh _ _ _ small_config_ok small_host_ok E) as (Hfs & Hk & Hm).
  destruct (client_sends []) as [(Hao & _ & Hnb & Hroom) _ _].
  destruct (accept_first _ s (connects []) (client []) (replicate (Z.to_nat RESP_PARSER_DEFAULT_BUF) 0) ∅ Hfs small_config_ok Hk
    eq_refl eq_refl) as (a & wb & s1 & fs1 & Hrun & H1); [rewrite Hl; apply connects_reports|exact Hao|reflexivity|reflexivity|reflexivity|reflexivity|].
  cbn [a_busy client] in H1. rewrite app_nil_r, Hf in H1. set (c1 := first_conn 5 _ wb _) in H1.
  destruct (turn_serves_client small_limits s1 a c1 3 small_world set_get (with_kv small_world (Exactly {[ [107] := [118] ]}))
    [eq ok_reply; eq (enc (VBulk [118]))] [5; 7] ping_part two_pieces (pieces two_pieces) [WTake 3; WAgain] (sends_now a) fs1)
    as (s' & fs' & c' & outs & Hd & _ & _ & Hc & HRs & Hst & Hu & _).
  - pose proof (run_turn_safe s _ ∅ (fresh_inv _ _ Hfs) (connects_ok [])) as Hs. rewrite Hrun in Hs. exact Hs.
  - eapply one_client_ready; [exact H1| |constructor; [discriminate|constructor]|rewrite Hm; cbn; lia].
    rewrite zlen_replicate. apply Z2Nat.id. discriminate.
  - exact (holds_same _ _ _ _ (oc_data _ _ _ _ _ H1) (fresh_holds _ _ Hfs)).
  - apply set_get_answers.
  - repeat constructor.
  - apply set_get_short.
  - reflexivity.
  - discriminate.
  - reflexivity.
  - repeat constructor; discriminate.
  - left. reflexivity.
  - vm_compute. reflexivity.
  - apply ping_part_waits.
  - reflexivity.
  - discriminate.
  - split; [reflexivity|]. by eexists.
  - reflexivity.
  - reflexivity.
  - apply (oc_stop _ _ _ _ _ H1).
  - exact (oc_accept _ _ _ _ _ H1).
  - exists a, s1, fs1, s', fs', c', outs. split; [exact Hrun|]. split; [exact Hd|]. split; [exact Hc|]. split; [exact Hst|].
    split; [symmetry; exact (Forall2_length _ _ _ HRs)|exact Hu].
Defined.
