(* ===== verification/Clients.v ===== *)
(** Several clients at once: the turns of the server, each of which reports one
    of the clients, are the steps of a single store, in the order of the
    turns, and every client receives exactly the replies to its commands. *)

From stdpp Require Import gmap sorting.
From S2P Require Import Prelude Arena HashTable HashTableSpec OrderBook RingBuffer AppendLog BTree BTreeShape.
From S2P Require Import ZSet KeyRegistry RegistrySpec Slab Resp RespSafe RespRound RespFormat RespMono RespSpec EventLoop.
From S2P Require Import Conn Metrics ServerState Commands CommandSpec StoreSpec Server ServerSpec ServerInv ConnSafe.
From S2P Require Import ServerSafe Fragments Serve.

(** * Sessions *)

(** The turn in which the client at [a] sends [bss]; its socket takes the next
    [k] writes whole. *)
Record asks (t : turn) (a fd : Z) (bss : list (Z * list Z)) (k : nat) : Prop := Asks {
  as_reports : reports t fd;
  as_accept : t_accept t = [];
  as_input : t_input t = [(a, (pieces bss, replicate k WHOLE))];
}.

(** [session W U ts RRs W' U']: from the store [W], with the bytes [U] of each
    client that are still part of a message, the turns [ts] lead to [W'] and
    [U'], and the replies of the turns are described by [RRs]. *)
Inductive session (L : limits) (n : nat) (fds : gmap Z Z) :
    world → gmap Z (list Z) → list turn → list (Z * list (list Z → Prop)) → world → gmap Z (list Z) → Prop :=
  | session_nil W U : session L n fds W U [] [] W U
  | session_cons W U t a fd u bss cmds tail W1 Rs ks ts RRs W2 U2 :
      U !! a = Some u → fds !! a = Some fd → asks t a fd bss (length cmds) →
      u ++ bytes_in bss = concat (map enc_cmd cmds) ++ tail → waits n tail →
      zlen (u ++ bytes_in bss) < RESP_PARSER_DEFAULT_BUF / 2 →
      Forall (λ args, (length args <= n)%nat) cmds → answers_all L W cmds W1 Rs →
      Forall2 at_most Rs ks → total ks <= WRITE_ROOM →
      session L n fds W1 (<[a := tail]> U) ts RRs W2 U2 →
      session L n fds W U (t :: ts) ((a, Rs) :: RRs) W2 U2.

(** What a client gets of the replies of the turns. *)
Definition replies_to (a : Z) (outs : list (Z * list (list Z))) : list Z :=
  concat (map (λ x : Z * list (list Z), if bool_decide (x.1 = a) then concat x.2 else []) outs).

(** * The clients *)

(** A client between two turns: everything was read and written, and its parser
    keeps enough nodes from earlier commands. *)
Record attached (n : nat) (fd : Z) (u : list Z) (c : conn) : Prop := Attached {
  at_fd : c_fd c = fd;
  at_open : closed c = false;
  at_fast : fast 0 c;
  at_input : k_in (sock c) = [] ∧ unread (parser c) = u ∧ waits n u;
  at_room : buf_cap (parser c) = RESP_PARSER_DEFAULT_BUF ∧ r_pos (parser c) <= RESP_PARSER_DEFAULT_BUF / 2;
  at_nodes : (n <= length (n_free (env (parser c))))%nat;
}.

Definition all_attached (n : nat) (fds : gmap Z Z) (U : gmap Z (list Z)) (cs : gmap Z conn) : Prop :=
  ∀ a u, U !! a = Some u → ∃ fd c, fds !! a = Some fd ∧ cs !! a = Some c ∧ attached n fd u c.

Lemma fast_no_fail k c : fast k c → no_fail (k_write (sock c)).
Proof. intros (_ & _ & Hall). eapply Forall_impl; [exact Hall|]. intros w ->. discriminate. Qed.

Lemma attached_ready s a n fd u c :
  server_inv s → conns s !! a = Some c → attached n fd u c → ready s a c n.
Proof.
  intros Hi Hc [_ Ho Hf _ [Hcap _] Hn]. destruct (inv_conns s Hi a c Hc) as (Hwf & Hp & _).
  pose proof (inv_loop s Hi) as (m & Hm & _). pose proof (inv_slab s Hi) as (rest & Hr & _).
  split; try done; [by exists m|exact (inv_metrics s Hi)|by rewrite Hcap|by eexists|by eapply fast_no_fail|lia].
Qed.

Lemma fast_fed k c rs : fast 0 c → fast k (fed c rs (replicate k WHOLE)).
Proof.
  intros (Hp & _ & Hall). split; [exact Hp|]. cbn [fed set_output sock k_write]. rewrite length_app, length_replicate. split; [lia|].
  apply Forall_app. split; [done|]. by apply Forall_replicate.
Qed.

(** A client after its turn. *)
Lemma attached_after L n W tail s s' a fd u c c' outs k rs :
  attached n fd u c → waits n tail →
  answered_by L n W tail s s' a (fed c rs (replicate k WHOLE)) c' outs k →
  attached n fd tail c' ∧ k_out (sock c') = k_out (sock c) ++ concat outs.
Proof.
  intros [Hfd Ho Hf _ [Hcap _] Hn] Hw [_ Hr _ Hst Hu (Hin & Hlow & Hcap') [_ _ Hnodes [Hfd' _] Hfast]].
  assert (fast 0 c') as Hf' by (apply Hfast; rewrite Nat.add_0_r; by apply fast_fed). split.
  - split; [exact (eq_trans Hfd' Hfd)|exact (rd_open _ _ _ _ Hr)|done|done| |].
    + change (buf_cap (parser (fed c rs (replicate k WHOLE)))) with (buf_cap (parser c)) in Hcap'. rewrite Hcap', Hcap in *. done.
    + change (n_free (env (parser (fed c rs (replicate k WHOLE))))) with (n_free (env (parser c))) in Hnodes. lia.
  - destruct Hf as [Hp _]. destruct Hf' as [Hp' _]. unfold stream in Hst. change (pending (fed c rs (replicate k WHOLE))) with (pending c) in Hst.
    rewrite Hp, Hp', !app_nil_r in Hst. exact Hst.
Qed.

(** * The turns *)

(** The state of the loop that lets it go on. *)
Definition goes_on (s : server) : Prop := running s = true ∧ stop (s_loop s) = false ∧ k_accept s = [].

Lemma client_turn L n fds s W U t a fd u bss cmds tail W1 Rs ks fs :
  server_inv s → goes_on s → holds L s W → all_attached n fds U (conns s) →
  U !! a = Some u → fds !! a = Some fd → asks t a fd bss (length cmds) →
  u ++ bytes_in bss = concat (map enc_cmd cmds) ++ tail → waits n tail →
  zlen (u ++ bytes_in bss) < RESP_PARSER_DEFAULT_BUF / 2 →
  Forall (λ args, (length args <= n)%nat) cmds → answers_all L W cmds W1 Rs →
  Forall2 at_most Rs ks → total ks <= WRITE_ROOM →
  ∃ s' fs' c c' outs, run_turn s t fs = Ok (1, s', fs') ∧ server_inv s' ∧ goes_on s' ∧ holds L s' W1 ∧
    all_attached n fds (<[a := tail]> U) (conns s') ∧ Forall2 (λ R out, R out) Rs outs ∧
    conns s !! a = Some c ∧ conns s' !! a = Some c' ∧ k_out (sock c') = k_out (sock c) ++ concat outs ∧
    ∀ b, b ≠ a → conns s' !! b = conns s !! b.
Proof.
  intros Hi (Hrun & Hstop & Hk) Hh Hat Hu Hfd [Hrep Hta Hti] Heq Hw Hlen Hn Hall Hks Htot.
  destruct (Hat a u Hu) as (fd' & c & Hfd' & Hc & Hac). assert (fd' = fd) as -> by congruence.
  pose proof (attached_ready s a n fd u c Hi Hc Hac) as Hr. pose proof Hac as [Hcfd Ho Hf (Hin & Hun & Hwu) [Hcap Hlow] Hnodes].
  destruct (serve_turn L s a c n W cmds W1 Rs ks tail bss (pieces bss) (replicate (length cmds) WHOLE) t fs)
    as (s' & fs' & c' & outs & Hrun' & HRs & Hab); try done.
  - apply Hf.
  - by rewrite Hin.
  - apply Forall_replicate. discriminate.
  - by rewrite Hun.
  - by rewrite Hun.
  - pose proof (rd_parser _ _ _ _ Hr) as Hp. rewrite <-Hun, zlen_app, unread_len in Hlen by done. rewrite Hcap.
    change (RESP_PARSER_DEFAULT_BUF / 2) with 32768 in *. change RESP_PARSER_DEFAULT_BUF with 65536. lia.
  - rewrite Hcap. exact Hlow.
  - by rewrite Hcfd.
  - rewrite Hti. by apply arrive_fed.
  - destruct (attached_after _ _ _ _ _ _ _ _ _ _ _ _ _ _ Hac Hw Hab) as [Hac' Hout].
    destruct Hab as [Hi' Hr' Hh' _ _ _ [Hoth (_ & Hrun2 & Hacc & Hstop2) _ _ _]]. pose proof (rd_conn _ _ _ _ Hr') as Hc'.
    exists s', fs', c, c', outs. split; [done|]. split; [done|]. split; [split; [congruence|split; congruence]|]. split; [done|].
    split; [|do 4 (split; [done|]); exact Hoth]. intros b v. rewrite lookup_insert_Some. intros [[<- <-]|[Hne Hb]].
    + by exists fd, c'.
    + destruct (Hat b v Hb) as (fd2 & cb & Hfd2 & Hcb & Hacb). exists fd2, cb. split; [done|]. split; [|done]. by rewrite Hoth.
Qed.

(** What the run of a session gives. *)
Lemma session_served L n fds W U ts RRs W' U' :
  session L n fds W U ts RRs W' U' → ∀ s fs,
  server_inv s → goes_on s → holds L s W → all_attached n fds U (conns s) →
  ∃ s' fs' outs, run_turns s ts fs = Ok (None, s', fs') ∧ server_inv s' ∧ holds L s' W' ∧ all_attached n fds U' (conns s') ∧
    Forall2 (λ r o, o.1 = r.1 ∧ Forall2 (λ (R : list Z → Prop) out, R out) r.2 o.2) RRs outs ∧
    ∀ a c, conns s !! a = Some c → ∃ c', conns s' !! a = Some c' ∧ k_out (sock c') = k_out (sock c) ++ replies_to a outs.
Proof.
  induction 1 as [W U|W U t a fd u bss cmds tail W1 Rs ks ts RRs W2 U2 Hu Hfd Hask Heq Hw Hlen Hn Hall Hks Htot _ IH];
    intros s fs Hi Hgo Hh Hat.
  - exists s, fs, []. do 4 (split; [done|]). split; [constructor|]. intros a c Hc. exists c. split; [done|]. symmetry. apply app_nil_r.
  - destruct (client_turn L n fds s W U t a fd u bss cmds tail W1 Rs ks fs)
      as (s1 & fs1 & c & c1 & outs & Hrun & Hi1 & Hgo1 & Hh1 & Hat1 & HRs & Hc & Hc1 & Hout & Hoth); try done.
    destruct (IH s1 fs1 Hi1 Hgo1 Hh1 Hat1) as (s' & fs' & outss & Hruns & Hi' & Hh' & Hat' & HRRs & Hget).
    exists s', fs', ((a, outs) :: outss). cbn [run_turns]. destruct Hgo as [-> _]. cbn [negb]. rewrite Hrun.
    cbn [mbind exec_bind Z.ltb Z.compare]. do 4 (split; [done|]). split; [by constructor|]. intros b cb Hcb.
    unfold replies_to. cbn [map concat fst snd]. destruct (decide (b = a)) as [->|Hne].
    + assert (cb = c) as -> by congruence. destruct (Hget a c1 Hc1) as (c' & Hc' & Hk). exists c'. split; [done|].
      rewrite Hk, bool_decide_eq_true_2 by done. by rewrite Hout, app_assoc.
    + destruct (Hget b cb) as (c' & Hc' & Hk); [by rewrite Hoth|]. exists c'. split; [done|].
      by rewrite Hk, bool_decide_eq_false_2 by congruence.
Qed.

(** * Theorems *)

(** C2: Any number of clients are connected, and turn after turn epoll reports
    one of them, with commands cut into pieces at will: the store goes through
    the commands one after the other in the order of the turns, every client
    receives exactly the replies to its own commands, in order, and keeps the
    part of a message that has not arrived whole; clients that are not
    reported receive nothing.

    The commands of a [session] are non-empty arrays of at most [n] bulk
    strings that [respond] answers: no PUBLISH or SUBSCRIBE with their
    arguments (with them a client receives other clients' messages, see
    PubSub), no QUIT, no command that runs into undefined behaviour (a number
    or the quantity of a level beyond int64_t) and no unknown word whose error
    text exceeds 512 bytes; error replies, malformed numbers and DEL are
    included.  Nobody connects during these turns.  In each turn the bytes
    that the client has sent and that were not yet answered are less than half
    of its 64 KiB buffer and the replies have at most 4088 bytes together; the
    clients' sockets take every write whole, and their parsers have kept [n]
    nodes from earlier commands. *)
Theorem clients_served L n fds W U ts RRs W' U' s fs :
  server_inv s → goes_on s → holds L s W → all_attached n fds U (conns s) → session L n fds W U ts RRs W' U' →
  ∃ s' fs' outs, run_turns s ts fs = Ok (None, s', fs') ∧ server_inv s' ∧ holds L s' W' ∧
    Forall2 (λ r o, o.1 = r.1 ∧ Forall2 (λ (R : list Z → Prop) out, R out) r.2 o.2) RRs outs ∧
    (∀ a c, conns s !! a = Some c → ∃ c', conns s' !! a = Some c' ∧ k_out (sock c') = k_out (sock c) ++ replies_to a outs) ∧
    ∀ a u, U' !! a = Some u → ∃ c', conns s' !! a = Some c' ∧ unread (parser c') = u.
Proof.
  intros Hi Hgo Hh Hat Hs. destruct (session_served _ _ _ _ _ _ _ _ _ Hs s fs Hi Hgo Hh Hat)
    as (s' & fs' & outs & Hrun & Hi' & Hh' & Hat' & HRs & Hget).
  exists s', fs', outs. do 5 (split; [done|]). intros a u Hu. destruct (Hat' a u Hu) as (fd & c' & _ & Hc' & [_ _ _ (_ & Hun & _) _ _]).
  by exists c'.
Qed.

(** Two clients that connect in one turn and have each asked ECHO. *)
Definition echo3 : list read_result := [RData 42 (tail (enc_cmd [bytes_of_string "ECHO"; [97]; [98]]))].
Definition two_connect : turn := Turn [] [client echo3; client echo3] None small_io false false (Waited [(4, EPOLLIN)]).
Definition warm_up : list turn := [two_connect; event_on 5; event_on 6].

(** The first one sends SET and a part of PING, then the second one GET. *)
Definition set_part : list (Z * list Z) :=
  let all := enc_cmd [bytes_of_string "set"; [107]; [118]] ++ ping_part in
  [(42, take 10 (tail all)); (default 0 (head (drop 11 all)), drop 12 all)].
Definition get_one : list (Z * list Z) := [(42, tail (enc_cmd [bytes_of_string "GET"; [107]]))].
Definition asks_turn (a fd : Z) (bss : list (Z * list Z)) : turn :=
  Turn [(a, (pieces bss, [WHOLE]))] [] None small_io false false (Waited [(fd, EPOLLIN)]).
Definition two_turns : list turn := [asks_turn 8712 5 set_part; asks_turn 8200 6 get_one].
Definition two_fds : gmap Z Z := {[8712 := 5; 8200 := 6]}.

Definition attached_check (cs : gmap Z conn) (a fd : Z) : bool :=
  match cs !! a with
  | Some c =>
      (c_fd c =? fd) && negb (closed c) && bool_decide (pending c = []) && bool_decide (length (k_write (sock c)) = 0%nat) &&
      bool_decide (length (k_in (sock c)) = 0%nat) && bool_decide (unread (parser c) = []) &&
      (buf_cap (parser c) =? RESP_PARSER_DEFAULT_BUF) && (r_pos (parser c) <=? RESP_PARSER_DEFAULT_BUF / 2) &&
      (3 <=? length (n_free (env (parser c))))%nat
  | None => false
  end.

Lemma attached_checked cs a fd : attached_check cs a fd = true → ∃ c, cs !! a = Some c ∧ attached 3 fd [] c ∧ c_fd c = fd.
Proof.
  unfold attached_check. destruct (cs !! a) as [c|]; [|done]. rewrite !andb_true_iff, !bool_decide_eq_true.
  intros ((((((((H1 & H2) & H3) & H4) & H5) & H6) & H7) & H8) & H9). zb. apply Nat.leb_le in H9.
  apply nil_length_inv in H4. apply nil_length_inv in H5. exists c. split; [done|]. split; [|done]. split; try done.
  - split; [done|]. rewrite H4. split; [cbn; lia|constructor].
  - split; [done|]. split; [done|]. by left.
Qed.

Lemma two_session :
  session small_limits 3 two_fds small_world {[8712 := []; 8200 := []]} two_turns
    [(8712, [eq ok_reply]); (8200, [eq (enc (VBulk [118]))])]
    (with_kv small_world (Exactly {[ [107] := [118] ]})) (<[8200 := []]> (<[8712 := ping_part]> {[8712 := []; 8200 := []]})).
Proof.
  eapply (session_cons _ _ _ _ _ _ 8712 5 [] set_part [[bytes_of_string "set"; [107]; [118]]] ping_part _ _ [5]);
    [reflexivity|reflexivity|split; [split; [done|by eexists]|done|done]|vm_compute; reflexivity|apply ping_part_waits|reflexivity|repeat constructor
    |eapply all_cons; [split; [done|reflexivity]|apply all_nil]
    |repeat constructor; try discriminate; intros out <-; discriminate|discriminate|].
  eapply (session_cons _ _ _ _ _ _ 8200 6 [] get_one [[bytes_of_string "GET"; [107]]] [] _ _ [7]);
    [reflexivity|reflexivity|split; [split; [done|by eexists]|done|done]|vm_compute; reflexivity|by left|reflexivity|repeat constructor
    |eapply all_cons; [split; [done|reflexivity]|apply all_nil]
    |repeat constructor; try discriminate; intros out <-; discriminate|discriminate|apply session_nil].
Qed.

Lemma clients_served_witness :
  match zedis_create small_host (Some small_config) with
  | Ok (Some s) =>
      match run_turns s warm_up ∅ with
      | Ok (None, s3, fs3) => ∃ s' fs' outs, run_turns s3 two_turns fs3 = Ok (None, s', fs') ∧ length outs = 2%nat ∧
          ∀ a c, conns s3 !! a = Some c → ∃ c', conns s' !! a = Some c' ∧ k_out (sock c') = k_out (sock c) ++ replies_to a outs
      | _ => False
      end
  | _ => False
  end.
Proof.
  assert (match zedis_create small_host (Some small_config) with
    | Ok (Some s) =>
        match run_turns s warm_up ∅ with
        | Ok (None, s3, _) => same_data s s3 ∧ goes_on s3 ∧
            attached_check (conns s3) 8712 5 = true ∧ attached_check (conns s3) 8200 6 = true
        | _ => False
        end
    | _ => False
    end) as Hrun by (vm_compute; repeat split; reflexivity).
  destruct (zedis_create small_host (Some small_config)) as [[s|]|] eqn:E; [|contradiction..].
  destruct (create_fresh _ _ _ small_config_ok small_host_ok E) as (Hfs & _ & _).
  assert (Forall turn_ok warm_up) as Hok.
  { repeat constructor; apply accepted_mem; rewrite zlen_replicate; apply Z2Nat.id; discriminate. }
  pose proof (run_turns_safe warm_up s ∅ (fresh_inv _ _ Hfs) Hok) as Hsafe.
  destruct (run_turns s warm_up ∅) as [[[[r|] s3] fs3]|]; [contradiction| |contradiction]. cbn [defined fst snd] in Hsafe.
  destruct Hrun as (Hd & Hgo & H1 & H2). apply attached_checked in H1 as (c1 & Hc1 & H1 & _). apply attached_checked in H2 as (c2 & Hc2 & H2 & _).
  destruct (clients_served small_limits 3 two_fds small_world {[8712 := []; 8200 := []]} two_turns
    [(8712, [eq ok_reply]); (8200, [eq (enc (VBulk [118]))])] (with_kv small_world (Exactly {[ [107] := [118] ]}))
    (<[8200 := []]> (<[8712 := ping_part]> {[8712 := []; 8200 := []]})) s3 fs3 Hsafe Hgo (holds_same _ _ _ _ Hd (fresh_holds _ _ Hfs)))
    as (s' & fs' & outs & Hr & _ & _ & HRs & Hget & _).
  - clear Hd Hgo Hsafe Hfs Hok E. intros a u. rewrite lookup_insert_Some. intros [[<- <-]|[_ Hu]].
    + exists 5, c1. split; [reflexivity|]. split; [exact Hc1|exact H1].
    + apply lookup_singleton_Some in Hu as [<- <-]. exists 6, c2. split; [reflexivity|]. split; [exact Hc2|exact H2].
  - exact two_session.
  - exists s', fs', outs. split; [exact Hr|]. split; [symmetry; exact (Forall2_length _ _ _ HRs)|exact Hget].
Defined.
