(* ===== verification/Drain.v ===== *)
(** A client that does not read as fast as it is answered: its replies wait in
    the write buffer, and the turns that report its socket as writable send
    them. *)

From stdpp Require Import gmap.
From S2P Require Import Prelude Arena HashTable OrderBook RingBuffer AppendLog BTree ZSet KeyRegistry Slab Resp RespSafe.
From S2P Require Import EventLoop Conn Metrics ServerState Commands CommandSpec Server ServerSpec ServerInv ServerSafe Fragments Serve Clients.

(** The socket takes [ks] bytes in as many writes, and then no more. *)
Definition takes (ks : list positive) : list write_result := map WTake ks.

Lemma takes_no_fail ks : no_fail (takes ks).
Proof. apply Forall_map, Forall_true. done. Qed.

(** Nothing the socket could take is left, unless everything was sent. *)
Definition slow (c : conn) : Prop := pending c = [] ∨ k_write (sock c) = [].

Lemma flush_takes ks l a c rc c' l' :
  out_wf c → flush_loop (takes ks) l a c = Ok (rc, c', l') → slow c'.
Proof.
  revert c. induction ks as [|k ks IH]; intros c Hwf; cbn [takes map flush_loop]; (destruct (_ <? _) eqn:E; zb).
  - intros Hf. apply flush_again_alive in Hf as (_ & Hk & _). by right.
  - intros Hf. unfold flush_done in Hf. apply exec_bind_ok in Hf as (l1 & _ & Hf). injection Hf as <- <- <-. left.
    unfold pending; conn_simpl. by apply slice_nonpos.
  - intros Hf. apply exec_bind_ok in Hf as (b & _ & Hf). eapply IH; [|exact Hf].
    destruct Hwf as (Hb & Hs & Hl). sizes. unfold out_wf; sizes; conn_simpl. rewrite u64_small; lia.
  - intros Hf. unfold flush_done in Hf. apply exec_bind_ok in Hf as (l1 & _ & Hf). injection Hf as <- <- <-. left.
    unfold pending; conn_simpl. by apply slice_nonpos.
Qed.

(** A flush sends at least a byte, when there are some and the socket takes some. *)
Lemma flush_sends k ks l a c rc c' l' :
  out_wf c → pending c ≠ [] → flush_loop (takes (k :: ks)) l a c = Ok (rc, c', l') →
  zlen (k_out (sock c)) < zlen (k_out (sock c')).
Proof.
  intros Hwf Hp Hf. rewrite pending_nil in Hp by done. pose proof Hwf as (Hb & Hs & Hl). sizes.
  cbn [takes map flush_loop] in Hf. destruct (_ <? _) eqn:E; zb; [|lia].
  apply exec_bind_ok in Hf as (b & Hrd & Hf). rewrite read_n_ok in Hrd by lia. injection Hrd as <-.
  apply flush_loop_alive in Hf as (_ & _ & Hm); [|apply takes_no_fail]. cbn [set_output sock k_out] in Hm.
  rewrite zlen_app, zlen_slice in Hm by lia. lia.
Qed.

(** * One turn *)

(** The connection [c] at [a] has sent everything it has to send and waits for
    what it is sent. *)
Record waiting (s : server) (a : Z) (c : conn) : Prop := Waiting {
  wt_conn : conns s !! a = Some c;
  wt_open : closed c = false;
  wt_input : k_in (sock c) = [] ∧ resp_parser_space (parser c) ≠ 0;
  wt_slow : slow c;
  wt_goes : goes_on s;
}.

(** The turn that reports the descriptor of [a], whose socket takes [ks]. *)
Record drains (t : turn) (a fd : Z) (ks : list positive) : Prop := Drains {
  dr_reports : reports t fd;
  dr_accept : t_accept t = [];
  dr_input : t_input t = [(a, ([], takes ks))];
  dr_takes : ks ≠ [];
}.

(** What a turn leaves. *)
Record drained (s s' : server) (a : Z) (c c' : conn) : Prop := Drained {
  dd_waiting : waiting s' a c';
  dd_data : same_data s s';
  dd_others : ∀ b, b ≠ a → conns s' !! b = conns s !! b;
  dd_same : c_fd c' = c_fd c ∧ stream c' = stream c;
  dd_less : pending c' = [] ∨ zlen (pending c') < zlen (pending c);
}.

(** Nothing is pending: the handler finds nothing to read. *)
Lemma idle_turn s a c t ks fs :
  server_inv s → waiting s a c → pending c = [] → drains t a (c_fd c) ks →
  ∃ s' fs' c', run_turn s t fs = Ok (1, s', fs') ∧ drained s s' a c c'.
Proof.
  intros Hi [Hc Ho [Hin Hsp] Hsl (Hrun & Hst & Hk)] Hp [Hrep Hta Hti _].
  destruct (watched_readable s a c Hi Hc Ho Hp) as (m & Hm & Hreg).
  destruct (turn_handler s t (c_fd c) fs m READ_MASK (HReadable a) Hrep (inv_metrics s Hi) Hm Hreg Hst) as (ms & fs' & ev & _ & ->).
  unfold arrive. rewrite Hta, Hti, Hk, (arrive_fed _ _ c) by done. cbn [app call_handler]. set (c1 := fed c [] (takes ks)).
  set (sA := set_metrics _ ms). assert (conns sA !! a = Some c1) as HcA by apply lookup_insert_eq.
  assert (k_in (sock c1) = []) as Hin1 by (cbn [c1 fed set_output sock k_in]; by rewrite app_nil_r).
  unfold conn_on_readable. rewrite (get_conn_ok _ _ _ HcA). cbn [mbind exec_bind]. rewrite Hin1. cbn [input_size foldr readable_loop].
  rewrite (get_conn_ok _ _ _ HcA). cbn [mbind exec_bind]. change (parser c1) with (parser c). rewrite Hin1.
  destruct (_ =? 0) eqn:E; zb; [done|]. cbn [kernel_read].
  exists (put_conn sA a (set_input c1 [])), fs', (set_input c1 []). split; [done|]. split.
  - split; [apply lookup_insert_eq|done|done|by left|]. done.
  - done.
  - intros b Hb. cbn. by rewrite !lookup_insert_ne.
  - done.
  - by left.
Qed.

(** Something is pending: the handler sends what the socket takes. *)
Lemma flush_turn s a c t ks fs :
  server_inv s → waiting s a c → pending c ≠ [] → drains t a (c_fd c) ks →
  ∃ s' fs' c', run_turn s t fs = Ok (1, s', fs') ∧ drained s s' a c c'.
Proof.
  intros Hi [Hc Ho [Hin Hsp] [Hp0|Hkw] (Hrun & Hst & Hk)] Hp [Hrep Hta Hti Hne]; [done|]. destruct ks as [|k ks]; [done|].
  pose proof (inv_loop s Hi) as (m & Hm & _ & Hwo).
  assert (m !! c_fd c = Some (WRITE_MASK, HWritable a)) as Hreg.
  { rewrite (wo_conn _ _ _ _ Hwo a c Hc Ho) by done. unfold registration. by rewrite bool_decide_eq_false_2. }
  destruct (turn_handler s t (c_fd c) fs m WRITE_MASK (HWritable a) Hrep (inv_metrics s Hi) Hm Hreg Hst) as (ms & fs' & ev & _ & ->).
  unfold arrive. rewrite Hta, Hti, Hk, (arrive_fed _ _ c) by done. cbn [app call_handler]. set (c1 := fed c [] (takes (k :: ks))).
  set (sA := set_metrics _ ms). assert (conns sA !! a = Some c1) as HcA by apply lookup_insert_eq.
  unfold conn_on_writable. rewrite (get_conn_ok _ _ _ HcA). cbn [mbind exec_bind]. change (s_loop sA) with (s_loop s).
  assert (out_wf c1) as Hwf1 by exact (proj1 (proj1 (inv_conns s Hi a c Hc))).
  unfold conn_flush. replace (k_write (sock c1)) with (takes (k :: ks)) by (cbn [c1 fed set_output sock k_write]; by rewrite Hkw).
  destruct (flush_loop_ok (takes (k :: ks)) (s_loop s) m a c1 Hwf1 Hm) as ([[rc c'] l'] & Hf & Hwf' & Hstr & Hsame & _ & Hstop & Hrc).
  rewrite Hf. cbn [mbind exec_bind]. pose proof (flush_loop_alive _ _ _ _ _ _ _ (takes_no_fail _) Hf) as (-> & _ & _).
  pose proof (flush_takes _ _ _ _ _ _ _ Hwf1 Hf) as Hslow. pose proof (flush_sends _ _ _ _ _ _ _ _ Hwf1 Hp Hf) as Hmore.
  destruct Hrc as (_ & Hcl & _ & _). cbn [Z.eqb negb mbind exec_bind]. destruct Hsame as (Hfd & Hpar & _ & _ & _ & _ & _ & Hkin).
  do 2 eexists. exists c'. split; [done|]. split.
  - split; [cbn; apply lookup_insert_eq|by rewrite Hcl| |done|].
    + rewrite Hkin, Hpar. split; [|done]. cbn [c1 fed set_output sock k_in]. by rewrite app_nil_r.
    + split; [done|]. split; [cbn; by rewrite Hstop|done].
  - done.
  - intros b Hb. cbn. by rewrite !lookup_insert_ne.
  - split; [exact Hfd|exact Hstr].
  - right. assert (zlen (stream c') = zlen (stream c1)) as Hz by (by rewrite Hstr). unfold stream in Hz. rewrite !zlen_app in Hz.
    change (pending c1) with (pending c) in *. lia.
Qed.

Lemma drain_turn s a c t ks fs :
  server_inv s → waiting s a c → drains t a (c_fd c) ks →
  ∃ s' fs' c', run_turn s t fs = Ok (1, s', fs') ∧ server_inv s' ∧ drained s s' a c c'.
Proof.
  intros Hi Hw Hd. assert (∃ s' fs' c', run_turn s t fs = Ok (1, s', fs') ∧ drained s s' a c c') as (s' & fs' & c' & Hrun & Hdd).
  { destruct (decide (pending c = [])); [by eapply idle_turn|by eapply flush_turn]. }
  exists s', fs', c'. split; [done|]. split; [|done]. destruct Hd as [_ Hta _ _].
  assert (turn_ok t) as Hok by (unfold turn_ok; rewrite Hta; constructor).
  pose proof (run_turn_safe s t fs Hi Hok) as Hs. by rewrite Hrun in Hs.
Qed.

(** * Many turns *)

Lemma drain_turns ts s a c fs :
  server_inv s → waiting s a c → Forall (λ t, ∃ ks, drains t a (c_fd c) ks) ts → ∃ s' fs' c',
    run_turns s ts fs = Ok (None, s', fs') ∧ server_inv s' ∧ waiting s' a c' ∧ same_data s s' ∧
    (∀ b, b ≠ a → conns s' !! b = conns s !! b) ∧ c_fd c' = c_fd c ∧ stream c' = stream c ∧
    (pending c' = [] ∨ zlen (pending c') + zlen ts <= zlen (pending c)).
Proof.
  revert s c fs. induction ts as [|t ts IH]; intros s c fs Hi Hw Hts.
  - exists s, fs, c. rewrite zlen_nil. do 7 (split; [done|]). right. lia.
  - apply Forall_cons in Hts as [[ks Ht] Hts].
    destruct (drain_turn s a c t ks fs Hi Hw Ht) as (s1 & fs1 & c1 & Hrun & Hi1 & [Hw1 Hd1 Hoth1 [Hfd1 Hst1] Hless]).
    destruct (IH s1 c1 fs1 Hi1 Hw1) as (s' & fs' & c' & Hruns & Hi' & Hw' & Hd' & Hoth' & Hfd' & Hst' & Hless').
    { by rewrite Hfd1. }
    exists s', fs', c'. cbn [run_turns]. destruct Hw as [_ _ _ _ (Hrn & _)]. rewrite Hrn. cbn [negb]. rewrite Hrun.
    cbn [mbind exec_bind Z.ltb Z.compare]. do 3 (split; [done|]). split; [unfold same_data in *; intuition congruence|].
    split; [intros b Hb; by rewrite Hoth', Hoth1|]. split; [congruence|]. split; [congruence|]. rewrite zlen_cons.
    destruct Hless' as [->|Hl]; [by left|]. destruct Hless as [Hp|Hl1]; [|right; lia].
    left. rewrite Hp, zlen_nil in Hl. pose proof (zlen_nonneg ts). pose proof (zlen_nonneg (pending c')).
    destruct (pending c') as [|x p]; [done|]. rewrite zlen_cons in Hl. pose proof (zlen_nonneg p). lia.
Qed.

(** C4: A client that reads slowly gets everything in the end: its replies
    wait in the write buffer, and every turn that reports its socket, which
    takes at least a byte and then no more, sends some of them in order; after
    as many turns as there were bytes the client has received all of them, and
    the event loop waits for its next commands.  Meanwhile the data and the
    other connections do not change. *)
Theorem slow_client_drains s a c ts fs :
  server_inv s → waiting s a c → Forall (λ t, ∃ ks, drains t a (c_fd c) ks) ts → zlen (pending c) <= zlen ts →
  ∃ s' fs' c', run_turns s ts fs = Ok (None, s', fs') ∧ server_inv s' ∧ same_data s s' ∧
    conns s' !! a = Some c' ∧ k_out (sock c') = k_out (sock c) ++ pending c ∧ closed c' = false ∧
    (∃ m, loop_rep (s_loop s') m ∧ m !! c_fd c' = Some (READ_MASK, HReadable a)) ∧
    ∀ b, b ≠ a → conns s' !! b = conns s !! b.
Proof.
  intros Hi Hw Hts Hlen. destruct (drain_turns ts s a c fs Hi Hw Hts) as (s' & fs' & c' & Hrun & Hi' & [Hc' Ho' _ _ _] & Hd & Hoth & _ & Hst & Hless).
  assert (pending c' = []) as Hp.
  { destruct Hless as [|Hl]; [done|]. destruct (pending c') as [|x p]; [done|]. rewrite zlen_cons in Hl. pose proof (zlen_nonneg p). lia. }
  exists s', fs', c'. do 4 (split; [done|]). split; [unfold stream in Hst; by rewrite Hp, app_nil_r in Hst|]. split; [done|].
  split; [by apply watched_readable|done].
Qed.

(** A client that asks ECHO and reads two bytes of the answer at first, then
    three at a time. *)
Definition slow_client : accepted :=
  Accepted true (Some (replicate (Z.to_nat RESP_PARSER_DEFAULT_BUF) 0)) true
    (Socket [RData 42 (tail (enc_cmd [bytes_of_string "ECHO"; [97; 98; 99]]))] [WTake 2] []) [].
Definition slow_start : list turn :=
  [Turn [] [slow_client] None small_io false false (Waited [(4, EPOLLIN)]); event_on 5].
Definition slow_turn : turn :=
  Turn [(8712, ([], takes [3%positive]))] [] None small_io false false (Waited [(5, EPOLLOUT)]).
Definition slow_turns : list turn := replicate 7 slow_turn.

(** [waiting] of the connection at [a], as a test: [out] is sent, [rest] waits. *)
Definition waiting_check (s : server) (a fd : Z) (out rest : list Z) : bool :=
  match conns s !! a with
  | Some c =>
      (c_fd c =? fd) && negb (closed c) && bool_decide (length (k_in (sock c)) = 0%nat) && negb (resp_parser_space (parser c) =? 0) &&
      bool_decide (length (k_write (sock c)) = 0%nat) && bool_decide (k_out (sock c) = out) && bool_decide (pending c = rest)
  | None => false
  end.

Lemma waiting_checked s a fd out rest : waiting_check s a fd out rest = true → goes_on s → ∃ c,
  waiting s a c ∧ c_fd c = fd ∧ k_out (sock c) = out ∧ pending c = rest.
Proof.
  unfold waiting_check. destruct (conns s !! a) as [c|] eqn:E; [|done]. rewrite !andb_true_iff, !bool_decide_eq_true.
  intros ((((((H1 & H2) & H3) & H4) & H5) & H6) & H7) Hgo. zb. apply nil_length_inv in H3. apply nil_length_inv in H5.
  exists c. split; [|done]. split; try done. by right.
Qed.

Lemma slow_turn_drains : drains slow_turn 8712 5 [3%positive].
Proof. split; [split; [done|by eexists]|done|done|done]. Qed.

Lemma slow_client_drains_witness :
  match zedis_create small_host (Some small_config) with
  | Ok (Some s) =>
      match run_turns s slow_start ∅ with
      | Ok (None, s2, fs2) => ∃ s' fs' c', run_turns s2 slow_turns fs2 = Ok (None, s', fs') ∧
          conns s' !! 8712 = Some c' ∧ k_out (sock c') = [36; 51] ++ [13; 10; 97; 98; 99; 13; 10]
      | _ => False
      end
  | _ => False
  end.
Proof.
  assert (match zedis_create small_host (Some small_config) with
    | Ok (Some s) =>
        match run_turns s slow_start ∅ with
        | Ok (None, s2, _) => goes_on s2 ∧ waiting_check s2 8712 5 [36; 51] [13; 10; 97; 98; 99; 13; 10] = true
        | _ => False
        end
    | _ => False
    end) as Hrun by (vm_compute; repeat split; reflexivity).
  destruct (zedis_create small_host (Some small_config)) as [[s|]|] eqn:E; [|contradiction..].
  destruct (create_fresh _ _ _ small_config_ok small_host_ok E) as (Hfs & _ & _).
  assert (Forall turn_ok slow_start) as Hok.
  { repeat constructor; apply accepted_mem; rewrite zlen_replicate; apply Z2Nat.id; discriminate. }
  pose proof (run_turns_safe slow_start s ∅ (fresh_inv _ _ Hfs) Hok) as Hsafe.
  destruct (run_turns s slow_start ∅) as [[[[r|] s2] fs2]|]; [contradiction| |contradiction]. cbn [defined fst snd] in Hsafe.
  destruct Hrun as (Hgo & Hchk). apply waiting_checked in Hchk as (c & Hw & Hfd & Hout & Hp); [|exact Hgo].
  destruct (slow_client_drains s2 8712 c slow_turns fs2 Hsafe Hw) as (s' & fs' & c' & Hr & _ & _ & Hc' & Hk & _).
  - apply Forall_replicate. exists [3%positive]. rewrite Hfd. exact slow_turn_drains.
  - rewrite Hp. vm_compute. discriminate.
  - exists s', fs', c'. split; [exact Hr|]. split; [exact Hc'|]. rewrite Hk, Hout, Hp. reflexivity.
Defined.
