(* ===== verification/PubSub.v ===== *)
(** PUBLISH: who receives a message, and what. *)

From stdpp Require Import gmap.
From S2P Require Import Prelude Arena HashTable OrderBook RingBuffer AppendLog BTree ZSet KeyRegistry Types Slab Resp.
From S2P Require Import RespSafe RespRound RespFormat RespSpec EventLoop Conn Metrics ServerState Commands CommandSpec.
From S2P Require Import Server ServerInv CommandSafe ServerSafe.

(** * Subscribers *)

(** The connection is subscribed to a channel of this name, in any case. *)
Definition listens (c : conn) (name : list Z) : Prop :=
  subscribed c = true ∧ map lower (cstr (subscribe_channel c)) = map lower name.

#[export] Instance listens_dec c name : Decision (listens c name).
Proof. unfold listens. apply _. Defined.

Lemma cstr_nul l : cstr (l ++ [0]) = cstr l.
Proof. induction l as [|b l IH]; cbn; [done|]. destruct (b =? 0); [done|]. by rewrite IH. Qed.

Lemma on_channel_listens c ch : on_channel c (ch ++ [0]) = bool_decide (listens c (cstr ch)).
Proof.
  unfold on_channel. rewrite str_case_equal_spec, cstr_nul. apply eq_true_iff_eq.
  rewrite andb_true_iff, !bool_decide_eq_true. done.
Qed.

Definition subscribers (s : server) (name : list Z) : gmap Z conn := filter (λ x, listens x.2 name) (conns s).

(** The number of the listed connections that listen. *)
Fixpoint listening_in (s : server) (name : list Z) (cl : list Z) : Z :=
  match cl with
  | [] => 0
  | a :: cl' => (match conns s !! a with Some c => if decide (listens c name) then 1 else 0 | None => 0 end) + listening_in s name cl'
  end.

Lemma listening_bound s name cl : 0 <= listening_in s name cl <= zlen cl.
Proof.
  induction cl as [|a cl IH]; cbn [listening_in]; [done|]. rewrite zlen_cons. repeat case_match; lia.
Qed.

Lemma listening_all s name cl h :
  conn_list (skels (conns s)) h cl → listening_in s name cl = Z.of_nat (size (subscribers s name)).
Proof.
  intros [Hnd Hdom _ _].
  assert (∀ cl (m : gmap Z conn), NoDup cl → (∀ a, a ∈ cl ↔ is_Some (m !! a)) → (∀ a c, m !! a = Some c → conns s !! a = Some c) →
    listening_in s name cl = Z.of_nat (size (filter (λ x, listens x.2 name) m))) as H.
  { clear. induction cl as [|a cl IH]; intros m Hnd Hdom Hsub; cbn [listening_in].
    - assert (m = ∅) as ->; [|by rewrite map_filter_empty, map_size_empty].
      apply map_empty. intros a. apply eq_None_not_Some. rewrite <-Hdom. by intros ?%elem_of_nil.
    - apply NoDup_cons in Hnd as [Hni Hnd]. destruct (proj1 (Hdom a)) as [c Hc]; [by left|].
      rewrite (Hsub a c Hc), (IH (delete a m)); [|done| |].
      + rewrite <-(insert_delete_id m a c Hc) at 2. rewrite map_filter_insert. cbn [snd].
        destruct (decide (listens c name)); [|by rewrite delete_delete_eq].
        rewrite map_size_insert_None; [lia|]. rewrite map_lookup_filter_None. left. apply lookup_delete_eq.
      + intros b. rewrite lookup_delete_is_Some, <-Hdom, elem_of_cons. set_solver.
      + intros b cb [_ Hb]%lookup_delete_Some. by apply Hsub. }
  apply H; [done| |done]. intros a. rewrite Hdom, skels_lookup. by rewrite fmap_is_Some.
Qed.

Lemma count_receivers_spec s ch :
  server_inv s → Z.of_nat (size (conns s)) < 2 ^ 64 →
  count_receivers s (ch ++ [0]) = Ok (Z.of_nat (size (subscribers s (cstr ch)))).
Proof.
  intros Hi Hroom. pose proof (inv_list s Hi) as (cl & Hcl & _). rewrite <-(listening_all s (cstr ch) cl _ Hcl).
  pose proof (conn_list_size _ _ _ Hcl) as Hs. unfold skels in Hs. rewrite map_size_fmap in Hs.
  apply conn_list_walk in Hcl. unfold count_receivers, each_conn.
  assert (∀ cl fuel n p, walk s p cl → (length cl <= fuel)%nat → 0 <= n → n + zlen cl < 2 ^ 64 →
    for_conns fuel (λ n s a c, Ok (if on_channel c (ch ++ [0]) then u64 (n + 1) else n, s)) n s p
    = Ok (n + listening_in s (cstr ch) cl, s)) as H.
  { clear. induction cl as [|a cl IH]; intros fuel n p; cbn [walk length listening_in].
    { intros -> _ _ _. rewrite Z.add_0_r. by destruct fuel. }
    intros (-> & c & Hc & Hw) Hf Hn Hb. rewrite zlen_cons in Hb. pose proof (zlen_nonneg cl).
    destruct fuel as [|fuel]; [lia|]. cbn [for_conns]. rewrite (get_conn_ok _ _ _ Hc). cbn [mbind exec_bind fst snd].
    rewrite (get_conn_ok _ _ _ Hc). cbn [mbind exec_bind]. rewrite Hc, on_channel_listens.
    destruct (decide (listens c (cstr ch))) as [Hl|Hl]; [rewrite bool_decide_eq_true_2 by done|rewrite bool_decide_eq_false_2 by done].
    - rewrite u64_small, IH by (done || lia). by rewrite Z.add_assoc.
    - rewrite IH by (done || lia). done. }
  rewrite (H cl); [done|done|lia|lia|]. unfold zlen. lia.
Qed.

(** * Delivery *)

(** An open connection whose buffer has room gets [out] appended to its
    stream, and stays open unless its socket fails; one without room is
    closed; a closed one stays as it is. *)
Definition delivered (c c' : conn) (out : list Z) : Prop :=
  if closed c then c' = c
  else if zlen (pending c) + zlen out <=? WRITE_ROOM
  then stream c' = stream c ++ out ∧ (no_fail (k_write (sock c)) → closed c' = false)
  else closed c' = true ∧ stream c' = stream c.

Lemma queue_write_delivers s a c data :
  server_inv s → conns s !! a = Some c → zlen data < 2 ^ 62 → overruns c data = false → ∃ s' c',
    queue_write s a data (zlen data) = Ok s' ∧ server_inv s' ∧ kept s s' ∧ ring s' = ring s ∧
    conns s' = <[a := c']> (conns s) ∧ delivered c c' data.
Proof.
  intros Hi Hc Hd Hov. destruct (queue_write_inv s a c data Hi Hc Hd Hov) as (s' & Hq & Hi' & Hk).
  pose proof (inv_loop s Hi) as (m & Hm & _). pose proof (inv_conns s Hi a c Hc) as ((Hwf & Hs0) & _).
  exists s'. revert Hq. unfold queue_write. rewrite (get_conn_ok _ _ _ Hc). cbn [mbind exec_bind].
  destruct (queue_write_ok (s_loop s) m a c data (conj Hwf Hs0) Hm Hd Hov) as (rc & c' & l' & Hq & _ & _ & _ & _ & Hpost).
  rewrite Hq. cbn [mbind exec_bind]. intros [= <-]. exists c'. split; [done|]. split; [done|]. split; [done|].
  split; [done|]. split; [done|].
  unfold delivered. destruct (closed c) eqn:Ecl; [by destruct Hpost as (_ & -> & _)|]. rewrite Z.ltb_antisym in Hpost.
  destruct (_ <=? _) eqn:E; zb; cbn [negb] in Hpost; [|by destruct Hpost as (_ & -> & _)].
  destruct Hpost as [Hst Halt]. split; [done|]. intros Hnf. specialize (Hs0 eq_refl).
  pose proof (zlen_pending c Hwf) as Hp. destruct Hwf as (_ & Hsw & _). pose proof (zlen_nonneg data).
  apply queue_write_alive in Hq as (-> & _ & _); [|done|done|sizes; rewrite u64_small; lia].
  by destruct Halt as [(_ & ? & _)|(? & _)].
Qed.

(** What the walk has done to every connection. *)
Definition broadcast_to (s s' : server) (cl : list Z) (name msg : list Z) : Prop :=
  ∀ b c, conns s !! b = Some c → ∃ c', conns s' !! b = Some c' ∧
    if decide (b ∈ cl ∧ listens c name) then delivered c c' msg else c' = c.

Definition broadcast_body (ch msg : list Z) (u : unit) (s : server) (a : Z) (c : conn) : exec (unit * server) :=
  if on_channel c (ch ++ [0]) then s' ← queue_write s a msg (zlen msg); Ok (tt, s') else Ok (tt, s).

(** The message fits the write buffer of every connection that listens, or is
    refused by it. *)
Definition clear_for (s : server) (name msg : list Z) : Prop :=
  map_Forall (λ _ c, listens c name → overruns c msg = false) (conns s).

#[export] Instance clear_for_dec s name msg : Decision (clear_for s name msg).
Proof. unfold clear_for. apply _. Defined.

(** One connection of the walk. *)
Lemma broadcast_step ch msg s a c :
  server_inv s → conns s !! a = Some c → zlen msg < 2 ^ 62 → (listens c (cstr ch) → overruns c msg = false) → ∃ s1 c1,
    broadcast_body ch msg tt s a c = Ok (tt, s1) ∧ server_inv s1 ∧ kept s s1 ∧ ring s1 = ring s ∧
    conns s1 = <[a := c1]> (conns s) ∧ next c1 = next c ∧
    if decide (listens c (cstr ch)) then delivered c c1 msg else c1 = c.
Proof.
  intros Hi Hc Hm Hov. unfold broadcast_body. rewrite on_channel_listens. destruct (decide (listens c (cstr ch)));
    [rewrite bool_decide_eq_true_2 by done|rewrite bool_decide_eq_false_2 by done].
  - destruct (queue_write_delivers s a c msg Hi Hc Hm) as (s1 & c1 & -> & ? & Hk & ? & Hcs & ?); [auto|].
    destruct (Hk a c Hc) as (c1' & Hc1' & _ & _ & Hsk). rewrite Hcs, lookup_insert_eq in Hc1'. injection Hc1' as <-.
    injection Hsk as _ Hn _ _. by exists s1, c1.
  - exists s, c. by rewrite insert_id.
Qed.

Lemma broadcast_walk cl ch msg fuel s p :
  server_inv s → walk s p cl → NoDup cl → (length cl <= fuel)%nat → zlen msg < 2 ^ 62 → clear_for s (cstr ch) msg → ∃ s',
    for_conns fuel (broadcast_body ch msg) tt s p = Ok (tt, s') ∧ server_inv s' ∧ kept s s' ∧ ring s' = ring s ∧
    broadcast_to s s' cl (cstr ch) msg.
Proof.
  intros Hi Hw Hnd Hf Hm Hclear. assert (∀ b c, b ∈ cl → conns s !! b = Some c → listens c (cstr ch) → overruns c msg = false) as Hov.
  { intros b c _ Hb. exact (Hclear b c Hb). }
  clear Hclear. revert fuel s p Hi Hw Hf Hov.
  induction Hnd as [|a cl Hni Hnd IH]; intros fuel s p Hi; cbn [walk length].
  { intros -> _ _. exists s. split; [by destruct fuel|]. split; [done|]. split; [done|]. split; [done|].
    intros b c Hb. exists c. split; [done|]. rewrite decide_False; [done|]. by intros [?%elem_of_nil _]. }
  intros (-> & c & Hc & Hw) Hf Hov. destruct fuel as [|fuel]; [lia|]. cbn [for_conns]. rewrite (get_conn_ok _ _ _ Hc).
  cbn [mbind exec_bind].
  destruct (broadcast_step ch msg s a c Hi Hc Hm) as (s1 & c1 & -> & Hi1 & Hk1 & Hr1 & Hcs1 & Hn & Hc1); [apply (Hov a); [by left|done]|].
  cbn [mbind exec_bind fst snd]. assert (conns s1 !! a = Some c1) as Hca by (by rewrite Hcs1, lookup_insert_eq).
  rewrite (get_conn_ok _ _ _ Hca). cbn [mbind exec_bind].
  destruct (IH fuel s1 (next c1) Hi1) as (s' & Hfor & Hi' & Hk' & Hr' & Hb'); [rewrite Hn; by eapply kept_walk|lia| |].
  { intros b cb Hb. rewrite Hcs1, lookup_insert_ne by (intros <-; done). apply Hov. by right. }
  exists s'. split; [done|]. split; [done|]. split; [by etrans|]. split; [congruence|]. intros b cb Hb.
  destruct (decide (b = a)) as [->|Hne].
  - assert (cb = c) as -> by congruence. destruct (Hb' a c1 Hca) as (c' & Hc' & Hd). exists c'. split; [done|].
    rewrite decide_False in Hd by (by intros [? _]). subst c'.
    destruct (decide (listens c (cstr ch))) as [Hl|Hl]; [rewrite decide_True by (split; [by left|done])|rewrite decide_False by (by intros [_ ?])]; done.
  - destruct (Hb' b cb) as (c' & Hc' & Hd); [by rewrite Hcs1, lookup_insert_ne|]. exists c'. split; [done|].
    destruct (decide (b ∈ cl ∧ listens cb (cstr ch))) as [[Hin Hl]|Hno];
      [rewrite decide_True by (split; [by right|done])|rewrite decide_False by (rewrite elem_of_cons; tauto)]; done.
Qed.

Lemma broadcast_spills cl ch msg fuel s p b c :
  server_inv s → walk s p cl → NoDup cl → (length cl <= fuel)%nat → zlen msg < 2 ^ 62 →
  b ∈ cl → conns s !! b = Some c → listens c (cstr ch) → overruns c msg = true →
  for_conns fuel (broadcast_body ch msg) tt s p = Stuck BlockOverrun.
Proof.
  intros Hi Hw Hnd Hf Hm Hin Hb Hl Ho. revert fuel s p Hi Hw Hf Hin Hb.
  induction Hnd as [|a cl Hni Hnd IH]; intros fuel s p Hi; cbn [walk length]; [intros _ _ Hin; by apply elem_of_nil in Hin|].
  intros (-> & ca & Hc & Hw) Hf Hin Hb. destruct fuel as [|fuel]; [lia|]. cbn [for_conns]. rewrite (get_conn_ok _ _ _ Hc).
  cbn [mbind exec_bind]. destruct (decide (listens ca (cstr ch) ∧ overruns ca msg = true)) as [[Hla Hoa]|Hno].
  { unfold broadcast_body. rewrite on_channel_listens, bool_decide_eq_true_2 by done.
    by rewrite (queue_write_block s a ca msg Hi Hc Hm Hoa). }
  assert (b ≠ a) as Hne by (intros ->; apply Hno; split; congruence).
  destruct (broadcast_step ch msg s a ca Hi Hc Hm) as (s1 & c1 & -> & Hi1 & Hk1 & _ & Hcs1 & Hn & _).
  { intros Hla. destruct (overruns ca msg); [|done]. destruct Hno. done. }
  cbn [mbind exec_bind fst snd]. rewrite (get_conn_ok s1 a c1) by (by rewrite Hcs1, lookup_insert_eq). cbn [mbind exec_bind].
  apply (IH fuel s1 (next c1) Hi1); [rewrite Hn; by eapply kept_walk|lia|set_solver|by rewrite Hcs1, lookup_insert_ne].
Qed.

(** The message is the encoding of an array of three strings. *)
Definition channel_push (name payload : list Z) : list Z :=
  enc (VArr [VBulk (bytes_of_string "message"); VBulk name; VBulk payload]).

Lemma channel_message_push ch payload :
  zlen ch < SUBSCRIBE_CHANNEL_SIZE → zlen payload <= ZEDIS_RING_MSG_MAX →
  channel_message (ch ++ [0]) payload = Some (channel_push (cstr ch) payload) ∧ zlen (channel_push (cstr ch) payload) < 2 ^ 62.
Proof.
  intros Hch Hp. unfold channel_message. rewrite cstr_nul. set (name := cstr ch).
  assert (zlen name <= zlen ch) as Hn.
  { unfold name. destruct (cstr_prefix ch) as [rest Hl]. rewrite Hl at 2. rewrite zlen_app. pose proof (zlen_nonneg rest). lia. }
  unfold SUBSCRIBE_CHANNEL_SIZE, ZEDIS_RING_MSG_MAX in *. pose proof (zlen_nonneg name). pose proof (zlen_nonneg payload).
  pose proof (dec_u_length (zlen name) 2 ltac:(lia) ltac:(lia)). pose proof (dec_u_length (zlen payload) 3 ltac:(lia) ltac:(lia)).
  assert (zlen (message_header name (zlen payload)) < 200) as Hh.
  { unfold message_header. rewrite !zlen_app. change (zlen crlf) with 2. change (zlen [36]) with 1.
    change (zlen (bytes_of_string "*3")) with 2. change (zlen (bytes_of_string "$7")) with 2.
    change (zlen (bytes_of_string "message")) with 7. lia. }
  assert (channel_push name payload = message_header name (zlen payload) ++ payload ++ crlf) as ->.
  { unfold channel_push, message_header. cbn [enc map concat]. rewrite <-!app_assoc. cbn. by rewrite ?app_nil_r. }
  pose proof (zlen_nonneg (message_header name (zlen payload))). unfold MSG_SIZE, ZEDIS_RING_MSG_MAX. rewrite u64_small by lia.
  destruct (_ >=? _) eqn:E1; zb; [lia|]. destruct (_ >=? _) eqn:E2; zb; [lia|]. split; [done|].
  rewrite !zlen_app. change (zlen crlf) with 2. lia.
Qed.

Lemma broadcast_spec s ch payload :
  server_inv s → zlen ch < SUBSCRIBE_CHANNEL_SIZE → zlen payload <= ZEDIS_RING_MSG_MAX →
  if decide (clear_for s (cstr ch) (channel_push (cstr ch) payload)) then ∃ s',
    server_broadcast_channel s (ch ++ [0]) payload = Ok s' ∧ ring s' = ring s ∧
    ∀ b c, conns s !! b = Some c → ∃ c', conns s' !! b = Some c' ∧
      if decide (listens c (cstr ch)) then delivered c c' (channel_push (cstr ch) payload) else c' = c
  else server_broadcast_channel s (ch ++ [0]) payload = Stuck BlockOverrun.
Proof.
  intros Hi Hch Hp. unfold server_broadcast_channel. destruct (channel_message_push ch payload Hch Hp) as [-> Hlen].
  set (msg := channel_push (cstr ch) payload) in *.
  pose proof (inv_list s Hi) as (cl & Hcl & _). pose proof (conn_list_size _ _ _ Hcl) as Hs.
  unfold skels in Hs. rewrite map_size_fmap in Hs. pose proof (conn_list_walk _ _ _ Hcl) as Hw.
  assert (∀ b c, conns s !! b = Some c → b ∈ cl) as Hin.
  { intros b c Hc. apply (cl_dom _ _ _ Hcl). rewrite skels_lookup, Hc. by eexists. }
  unfold each_conn. change (for_conns _ _ _ _ _) with (for_conns (S (size (conns s))) (broadcast_body ch msg) tt s (conns_head s)).
  destruct (decide (clear_for s (cstr ch) msg)) as [Hcf|Hsp].
  - destruct (broadcast_walk cl ch msg (S (size (conns s))) s (conns_head s))
      as (s' & -> & _ & _ & Hr & Hb); [done|done|apply Hcl|lia|done|done|].
    exists s'. split; [done|]. split; [done|].
    intros b c Hc. destruct (Hb b c Hc) as (c' & Hc' & Hd). exists c'. split; [done|]. pose proof (Hin b c Hc).
    destruct (decide (listens c (cstr ch))); [by rewrite decide_True in Hd by done|].
    by rewrite decide_False in Hd by (by intros [_ ?]).
  - apply map_not_Forall in Hsp as (b & c & Hc & Hsp); [|apply _].
    destruct (decide (listens c (cstr ch))) as [Hl|]; [|by destruct Hsp].
    rewrite (broadcast_spills cl ch msg _ s _ b c); try done; [apply Hcl|lia|by eapply Hin|].
    destruct (overruns c msg); [done|by destruct Hsp].
Qed.

Lemma set_ring_same s : set_ring s (ring s) = s.
Proof. by destruct s. Qed.

(** C10: PUBLISH sends every connection that is subscribed to the channel
    (named by its first 63 bytes, up to a NUL, in any case) exactly the RESP
    array of "message", the channel and the payload, and changes no other
    connection, and it answers the number of those connections; the message
    is kept in the ring, too.  When the payload exceeds 512 bytes or the ring
    has taken as many messages as it has slots, nobody is sent anything and
    the answer is an error.  When the message overruns the block of a write
    buffer it is sent to, it is written behind that block. *)
Theorem publish_delivers s a name channel payload (rest : list (list Z)) :
  server_inv s →
  let ch := channel_prefix channel in
  let cmd := map Some (name :: channel :: payload :: rest) in
  if (zlen payload <=? ZEDIS_RING_MSG_MAX) && (write_seq (ring s) <? r_capacity (ring s))
  then
    if decide (clear_for s (cstr ch) (channel_push (cstr ch) payload)) then ∃ s1,
      publish_command s a cmd = reply_integer s1 a (Z.of_nat (size (subscribers s (cstr ch)))) ∧
      write_seq (ring s1) = write_seq (ring s) + 1 ∧
      ∀ b c, conns s !! b = Some c → ∃ c', conns s1 !! b = Some c' ∧
        if decide (listens c (cstr ch)) then delivered c c' (channel_push (cstr ch) payload) else c' = c
    else publish_command s a cmd = Stuck BlockOverrun
  else publish_command s a cmd = reply_error s a "ERR ring buffer full".
Proof.
  intros Hi ch cmd. unfold publish_command. change (cmd_bulk2 cmd) with (Some (channel, payload)). cbv iota beta.
  fold ch. pose proof (inv_data s Hi) as [Hk Hb [[q Hr] H0] Hz Hl Ht].
  pose proof Hr as (((k & Hk' & Hcap) & _ & _ & _ & _ & Hfull) & Hlen & _). assert (2 ^ k <= 2 ^ 63) by (apply Z.pow_le_mono_r; lia).
  pose proof (publish_refines (ring s) q (ch ++ [0]) payload Hr ltac:(lia)) as Hp.
  assert ((write_seq (ring s) <? r_capacity (ring s)) = (zlen q <? r_capacity (ring s))) as -> by (f_equal; lia).
  destruct (_ && _) eqn:E; zb.
  - destruct Hp as (r' & Heq & Hr' & _ & Hw). pose proof (yields_ok _ _ _ (publish_typed _ _ _ (dt_ring Ht)) Heq) as Htr.
    rewrite Heq. cbn [mbind exec_bind fst snd RC_OK Z.eqb negb] in *.
    assert (server_inv (set_ring s r')) as Hi1.
    { apply inv_set_data; [done|]. split; try done; [|by destruct Ht]. split; [by eexists|]. destruct Hr' as (_ & Hlen' & _).
      rewrite zlen_app in Hlen'. change (zlen [_]) with 1 in Hlen'. lia. }
    pose proof (inv_slab s Hi) as (rst & Hsl & Hsm). pose proof Hsl as [H4 _].
    destruct (lookup_lt_is_Some_2 (s_slab s) 2) as [pool Hpool]; [lia|].
    pose proof (slab_room _ _ _ _ Hsl Hpool Hsm) as Hroom. rewrite map_size_fmap in Hroom.
    rewrite (count_receivers_spec _ ch Hi1) by (cbn; lia). cbn [mbind exec_bind].
    pose proof (broadcast_spec (set_ring s r') ch payload Hi1 (channel_prefix_short _) ltac:(lia)) as Hbr.
    change (clear_for (set_ring s r')) with (clear_for s) in Hbr.
    destruct (decide (clear_for _ _ _)); [|by rewrite Hbr]. destruct Hbr as (s1 & -> & Hr1 & Hd).
    cbn [mbind exec_bind]. exists s1. split; [done|]. split; [by rewrite Hr1|exact Hd].
  - rewrite Hp. cbn [mbind exec_bind fst snd RC_ERR Z.eqb negb]. by rewrite set_ring_same.
Qed.

(** Two clients, of which the first one subscribes. *)
Definition news : list Z := bytes_of_string "news".
Definition news_turns : list turn :=
  let sub := enc (VArr [VBulk (bytes_of_string "SUBSCRIBE"); VBulk news]) in
  [Turn [] [client [RData 42 (tail sub)]; client []] None small_io false false (Waited [(4, EPOLLIN)]); event_on 5].

Lemma news_turns_ok : Forall turn_ok news_turns.
Proof.
  pose proof (connects_ok []) as Hc. constructor; [|constructor; [apply event_on_ok|constructor]].
  pose proof (connects_ok [RData 42 (tail (enc (VArr [VBulk (bytes_of_string "SUBSCRIBE"); VBulk news])))]) as Hs.
  inversion Hs as [|? ? Hs1 _]. inversion Hc as [|? ? Hc1 _]. constructor; [exact Hs1|]. constructor; [exact Hc1|constructor].
Qed.

Lemma publish_delivers_witness :
  match zedis_create small_host (Some small_config) with
  | Ok (Some s) =>
      match run_turns s news_turns ∅ with
      | Ok (_, s', _) => conn_count s' = 2 ∧ ∃ s1,
          publish_command s' 0 (map Some [bytes_of_string "PUBLISH"; bytes_of_string "News"; [104; 105]])
          = reply_integer s1 0 1
      | Stuck _ => False
      end
  | _ => False
  end.
Proof.
  assert (match zedis_create small_host (Some small_config) with
    | Ok (Some s) => match run_turns s news_turns ∅ with
      | Ok (_, s', _) => conn_count s' = 2 ∧ size (subscribers s' (cstr (channel_prefix (bytes_of_string "News")))) = 1%nat ∧
          (write_seq (ring s') <? r_capacity (ring s')) = true ∧
          bool_decide (clear_for s' (cstr (channel_prefix (bytes_of_string "News")))
            (channel_push (cstr (channel_prefix (bytes_of_string "News"))) [104; 105])) = true
      | Stuck _ => False end
    | _ => False end) as Hout by (vm_compute; auto).
  destruct (zedis_create small_host (Some small_config)) as [[s|]|] eqn:E; [|exact Hout..].
  pose proof (run_turns_safe news_turns s ∅ (create_inv _ _ _ small_config_ok small_host_ok E) news_turns_ok) as Hi.
  destruct (run_turns s news_turns ∅) as [[[r s'] fs']|f]; [|exact Hout]. destruct Hout as (Hn & Hsub & Hroom & Hclear). apply bool_decide_eq_true in Hclear.
  split; [exact Hn|].
  pose proof (publish_delivers s' 0 (bytes_of_string "PUBLISH") (bytes_of_string "News") [104; 105] [] Hi) as H. cbv zeta in H.
  rewrite Hroom, Hsub in H. cbn [andb] in H. rewrite decide_True in H by exact Hclear. destruct H as (s1 & H & _). exists s1. exact H.
Defined.
