(* ===== verification/Main.v ===== *)
(** The command line and the whole program: src/main.c.

    [argv] is a list of the characters before each string's NUL.  A value is
    read with atoi, which the standard leaves undefined where the number does
    not fit an [int], or strtoull, which saturates.  What the program prints
    is not modelled.  Theorems: a sequence of well-formed options builds the
    configuration that it spells out, whatever the order, and the option
    parser stops at the first argument that is not an option; the signal
    handlers are put back on every way out but one. *)

From stdpp Require Import gmap.
From S2P Require Import Prelude Arena AppendLog KeyRegistry RespSafe EventLoop Host Metrics ServerState Server.
From S2P Require Import ServerInv ServerSafe.

Definition EXIT_SUCCESS : Z := 0.
Definition EXIT_FAILURE : Z := 1.

Definition default_config : config :=
  Config 6379 (-1) ZEDIS_DEFAULT_ARENA_SIZE 8192 1024 4096 256 256 2048 (16 * 1024 * 1024) None 0 99999 true
         (Some (bytes_of_string "/var/lib/node_exporter/textfile_collector")) 1000.

(** * Numbers of the command line *)

(** [strtoull (s, NULL, 10)] *)
Definition strtoull (s : list Z) : Z := strtoul (s ++ [0]).

(** [atoi (s)]: undefined where the value is no [int]. *)
Definition atoi (s : list Z) : exec Z :=
  match skip_space s with
  | [] => Ok 0
  | b :: l =>
      chk_i32 (if b =? 45 then - strtoul_digits 0 l
               else strtoul_digits 0 (if b =? 43 then l else b :: l))
  end.

(** * Options *)

(** An assignment to one of the configuration's fields. *)
Inductive setting :=
  | Port (n : Z)
  | CpuCore (n : Z)
  | ArenaSize (n : Z)
  | MaxKeys (n : Z)
  | MaxConnections (n : Z)
  | RingCapacity (n : Z)
  | MaxZsets (n : Z)
  | MaxLists (n : Z)
  | ZsetMembers (n : Z)
  | AolSize (n : Z)
  | AolPath (s : list Z)
  | BookMin (n : Z)
  | BookMax (n : Z)
  | BusyPoll (b : bool)
  | MetricsDir (s : list Z)
  | MetricsInterval (n : Z).

Definition assign (c : config) (x : setting) : config :=
  let 'Config p cpu ar mk mc rc mz ml zm asz ap bmin bmax busy md mi := c in
  match x with
  | Port n => Config n cpu ar mk mc rc mz ml zm asz ap bmin bmax busy md mi
  | CpuCore n => Config p n ar mk mc rc mz ml zm asz ap bmin bmax busy md mi
  | ArenaSize n => Config p cpu n mk mc rc mz ml zm asz ap bmin bmax busy md mi
  | MaxKeys n => Config p cpu ar n mc rc mz ml zm asz ap bmin bmax busy md mi
  | MaxConnections n => Config p cpu ar mk n rc mz ml zm asz ap bmin bmax busy md mi
  | RingCapacity n => Config p cpu ar mk mc n mz ml zm asz ap bmin bmax busy md mi
  | MaxZsets n => Config p cpu ar mk mc rc n ml zm asz ap bmin bmax busy md mi
  | MaxLists n => Config p cpu ar mk mc rc mz n zm asz ap bmin bmax busy md mi
  | ZsetMembers n => Config p cpu ar mk mc rc mz ml n asz ap bmin bmax busy md mi
  | AolSize n => Config p cpu ar mk mc rc mz ml zm n ap bmin bmax busy md mi
  | AolPath s => Config p cpu ar mk mc rc mz ml zm asz (Some s) bmin bmax busy md mi
  | BookMin n => Config p cpu ar mk mc rc mz ml zm asz ap n bmax busy md mi
  | BookMax n => Config p cpu ar mk mc rc mz ml zm asz ap bmin n busy md mi
  | BusyPoll b => Config p cpu ar mk mc rc mz ml zm asz ap bmin bmax b md mi
  | MetricsDir s => Config p cpu ar mk mc rc mz ml zm asz ap bmin bmax busy (Some s) mi
  | MetricsInterval n => Config p cpu ar mk mc rc mz ml zm asz ap bmin bmax busy md n
  end.

(** One turn of the option loop: the option takes no value, or takes the next
    argument, or the program ends with an exit code after the usage message;
    [restored] is whether the signal handlers were put back before. *)
Inductive option_step :=
  | Flag (c : config)
  | Valued (c : config)
  | Usage (code : Z) (restored : bool).

Definition str_eq (s : list Z) (name : string) : bool := bool_decide (s = bytes_of_string name).

Definition parse_option (o : list Z) (next : option (list Z)) (c : config) : exec option_step :=
  let number k := match next with
                  | None => Ok (Usage EXIT_FAILURE true)
                  | Some v => Ok (Valued (assign c (k (strtoull v))))
                  end in
  let text k := match next with
                | None => Ok (Usage EXIT_FAILURE true)
                | Some v => Ok (Valued (assign c (k v)))
                end in
  let int restored k := match next with
               | None => Ok (Usage EXIT_FAILURE restored)
               | Some v => n ← atoi v; Ok (Valued (assign c (k n)))
               end in
  if str_eq o "--port" then int true (λ n, Port (u16 n)) else
  if str_eq o "--core" then int true CpuCore else
  if str_eq o "--arena-size" then number ArenaSize else
  if str_eq o "--max-keys" then number MaxKeys else
  if str_eq o "--max-conns" then number MaxConnections else
  if str_eq o "--ring-cap" then number RingCapacity else
  if str_eq o "--max-zsets" then number MaxZsets else
  if str_eq o "--zset-members" then number ZsetMembers else
  if str_eq o "--max-lists" then number MaxLists else
  if str_eq o "--aol-size" then number AolSize else
  if str_eq o "--aol-path" then text AolPath else
  if str_eq o "--book-min" then int true BookMin else
  if str_eq o "--book-max" then int false BookMax else
  if str_eq o "--no-busy-poll" then Ok (Flag (assign c (BusyPoll false))) else
  if str_eq o "--metrics-dir" then text MetricsDir else
  if str_eq o "--metrics-interval" then number MetricsInterval else
  if str_eq o "--help" || str_eq o "-h" then Ok (Usage EXIT_SUCCESS true) else
  Ok (Usage EXIT_FAILURE true).

(** How the option loop ends. *)
Inductive options_end :=
  | Start (c : config)
  | Exit (code : Z) (restored : bool).

Fixpoint parse_options (args : list (list Z)) (c : config) : exec options_end :=
  match args with
  | [] => Ok (Start c)
  | o :: rest =>
      st ← parse_option o (head rest) c;
      match st with
      | Usage code restored => Ok (Exit code restored)
      | Flag c' => parse_options rest c'
      | Valued c' => match rest with [] => Ok (Start c') | _ :: rest' => parse_options rest' c' end
      end
  end.

(** * main *)

(** The program has returned from main, or zedis_run is still running after
    the turns that are given. *)
Inductive main_result :=
  | Exited (code : Z) (g : signals)
  | Running (s : server) (g : signals).

(** The turns that are begun: zedis_run returns from the first one in which
    event_loop_run_once returns -1. *)
Fixpoint turns_taken (s : server) (ts : list turn) (fs : fsys) : list turn :=
  match ts with
  | [] => []
  | t :: ts' =>
      if negb (running s) then [] else
      t :: match run_turn s t fs with
           | Ok (n, s1, fs1) => if n <? 0 then [] else turns_taken s1 ts' fs1
           | Stuck _ => []
           end
  end.

(** A signal arrived by the end of one of these turns, or after the last of
    them and before the handlers are restored ([late]). *)
Definition received (taken : list turn) (late : bool) : bool :=
  existsb (λ t, t_sig t || t_sig' t) taken || late.

Definition main (ok1 ok2 : bool) (h : host) (pin : list Z → bool) (argv : list (list Z))
    (t0 : turn) (ts : list turn) (late : bool) (fs : fsys) (g : signals) : exec main_result :=
  let '(rc, g1) := event_loop_install_signal_handlers ok1 ok2 g in
  if negb (rc =? 0) then Ok (Exited EXIT_FAILURE g1) else
  o ← parse_options (tail argv) default_config;
  match o with
  | Exit code restored =>
      Ok (Exited code (if restored then event_loop_restore_signal_handlers g1 else g1))
  | Start c =>
      srv ← zedis_create h (Some c);
      match srv with
      | None => Ok (Exited EXIT_FAILURE (event_loop_restore_signal_handlers g1))
      | Some s =>
          x ← zedis_run pin s t0 ts fs;
          let '(_, (r, s', _)) := x in
          let '(s0, fs0) := maybe_write s t0 fs in
          let g2 := if received (turns_taken s0 ts fs0) late then deliver g1 SIGTERM else g1 in
          match r with
          | None => Ok (Running s' g2)
          | Some rc =>
              _ ← zedis_destroy s';
              let g3 := event_loop_restore_signal_handlers g2 in
              Ok (Exited (if event_loop_signal_received g3 then EXIT_SUCCESS
                          else if rc =? 0 then EXIT_SUCCESS else EXIT_FAILURE) g3)
          end
      end
  end.

(** * The options as assignments *)

Definition valid_setting (x : setting) : Prop :=
  match x with
  | Port n => 0 <= n < 2 ^ 16
  | CpuCore n | BookMin n | BookMax n => INT32_MIN <= n <= INT32_MAX
  | ArenaSize n | MaxKeys n | MaxConnections n | RingCapacity n | MaxZsets n | MaxLists n
  | ZsetMembers n | AolSize n | MetricsInterval n => 0 <= n < 2 ^ 64
  | AolPath _ | MetricsDir _ => True
  | BusyPoll b => b = false
  end.

(** The arguments that spell out an assignment. *)
Definition spell (x : setting) : list (list Z) :=
  let opt name v := [bytes_of_string name; v] in
  match x with
  | Port n => opt "--port"%string (dec_d n)
  | CpuCore n => opt "--core"%string (dec_d n)
  | ArenaSize n => opt "--arena-size"%string (dec_u n)
  | MaxKeys n => opt "--max-keys"%string (dec_u n)
  | MaxConnections n => opt "--max-conns"%string (dec_u n)
  | RingCapacity n => opt "--ring-cap"%string (dec_u n)
  | MaxZsets n => opt "--max-zsets"%string (dec_u n)
  | MaxLists n => opt "--max-lists"%string (dec_u n)
  | ZsetMembers n => opt "--zset-members"%string (dec_u n)
  | AolSize n => opt "--aol-size"%string (dec_u n)
  | AolPath s => opt "--aol-path"%string s
  | BookMin n => opt "--book-min"%string (dec_d n)
  | BookMax n => opt "--book-max"%string (dec_d n)
  | BusyPoll _ => [bytes_of_string "--no-busy-poll"]
  | MetricsDir s => opt "--metrics-dir"%string s
  | MetricsInterval n => opt "--metrics-interval"%string (dec_u n)
  end.

Definition spell_all (xs : list setting) : list (list Z) := concat (map spell xs).

Lemma strtoull_dec_u n : 0 <= n < 2 ^ 64 → strtoull (dec_u n) = n.
Proof. apply (strtoul_dec_u n []). Qed.

Lemma digits_value acc ds :
  Forall (λ d, is_digit d = true) ds → strtoul_digits acc ds = dval_from acc ds.
Proof.
  intros Hds. revert acc. induction Hds as [|d ds Hd _ IH]; intros acc; [done|].
  cbn [strtoul_digits]. by rewrite Hd, IH.
Qed.

Lemma atoi_dec_d z : INT32_MIN <= z <= INT32_MAX → atoi (dec_d z) = Ok z.
Proof.
  intros Hz. unfold atoi, dec_d. destruct (z <? 0) eqn:E; zb.
  - destruct (dec_u_spec (- z)) as (Hv & _ & Hall); [lia|].
    cbn [skip_space is_space Z.eqb Z.leb Z.compare Pos.eqb Pos.compare Pos.compare_cont andb orb].
    rewrite digits_value by done. fold (dval (dec_u (- z))). rewrite Hv, Z.opp_involutive. by apply chk_i32_ok.
  - destruct (dec_u_spec z) as (Hv & Hne & Hall); [lia|].
    destruct (dec_u z) as [|d ds] eqn:Ed; [done|].
    pose proof (Forall_inv Hall) as Hd. apply is_digit_spec in Hd.
    assert (is_space d = false) as Hsp by (unfold is_space; lia).
    cbn [skip_space]. rewrite Hsp.
    replace (d =? 45) with false by lia.
    replace (d =? 43) with false by lia.
    rewrite digits_value by done. fold (dval (d :: ds)). rewrite Hv. by apply chk_i32_ok.
Qed.

(** Decides the comparisons between two option names. *)
Ltac eval_names :=
  repeat match goal with
  | |- context [str_eq (bytes_of_string ?a) ?b] =>
      let r := eval vm_compute in (str_eq (bytes_of_string a) b) in
      change (str_eq (bytes_of_string a) b) with r
  end.

Lemma parse_spell x rest c :
  valid_setting x → parse_options (spell x ++ rest) c = parse_options rest (assign c x).
Proof.
  intros Hx. destruct x; cbn [spell app parse_options head]; unfold parse_option; eval_names;
    cbn [valid_setting] in Hx; cbv iota;
    rewrite ?strtoull_dec_u by done; rewrite ?atoi_dec_d by done; try reflexivity.
  - rewrite atoi_dec_d by (unfold INT32_MIN, INT32_MAX; lia). cbn [mbind exec_bind].
    by rewrite u16_small.
  - by subst b.
Qed.

Lemma parse_spell_all xs rest c :
  Forall valid_setting xs → parse_options (spell_all xs ++ rest) c = parse_options rest (foldl assign c xs).
Proof.
  intros Hxs. revert c. induction Hxs as [|x xs Hx _ IH]; intros c; [done|].
  unfold spell_all. cbn [map concat foldl]. rewrite <- app_assoc, parse_spell by done. apply IH.
Qed.

(** The names of the options that take a value, and all names. *)
Definition value_options : list string :=
  ["--port"; "--core"; "--arena-size"; "--max-keys"; "--max-conns"; "--ring-cap"; "--max-zsets";
   "--zset-members"; "--max-lists"; "--aol-size"; "--aol-path"; "--book-min"; "--book-max";
   "--metrics-dir"; "--metrics-interval"]%string.
Definition option_names : list string :=
  value_options ++ ["--no-busy-poll"; "--help"; "-h"]%string.

Lemma parse_unknown o next c :
  (∀ name, name ∈ option_names → o ≠ bytes_of_string name) → parse_option o next c = Ok (Usage EXIT_FAILURE true).
Proof.
  intros Ho. assert (∀ name, name ∈ option_names → str_eq o name = false) as Hf.
  { intros name Hn. unfold str_eq. by rewrite bool_decide_false by auto. }
  unfold parse_option. by rewrite !Hf by (vm_compute; set_solver).
Qed.

Lemma parse_missing name c :
  name ∈ value_options →
  parse_option (bytes_of_string name) None c = Ok (Usage EXIT_FAILURE (negb (bool_decide (name = "--book-max"%string)))).
Proof.
  intros Hn. assert (Forall (λ name, parse_option (bytes_of_string name) None c =
    Ok (Usage EXIT_FAILURE (negb (bool_decide (name = "--book-max"%string))))) value_options) as Hall.
  { unfold value_options. repeat constructor; unfold parse_option; eval_names; reflexivity. }
  rewrite Forall_forall in Hall. by apply Hall.
Qed.

(** The arguments that end the program, with the exit code and whether the
    signal handlers are put back. *)
Inductive stop_args : list (list Z) → Z → bool → Prop :=
  | stop_help name rest :
      name = "--help"%string ∨ name = "-h"%string →
      stop_args (bytes_of_string name :: rest) EXIT_SUCCESS true
  | stop_unknown o rest :
      (∀ name, name ∈ option_names → o ≠ bytes_of_string name) →
      stop_args (o :: rest) EXIT_FAILURE true
  | stop_missing name :
      name ∈ value_options →
      stop_args [bytes_of_string name] EXIT_FAILURE (negb (bool_decide (name = "--book-max"%string))).

Lemma parse_stop rest code restored c :
  stop_args rest code restored → parse_options rest c = Ok (Exit code restored).
Proof.
  intros [name rest' [->| ->]|o rest' Ho|name Hn]; cbn [parse_options].
  - reflexivity.
  - reflexivity.
  - by rewrite parse_unknown.
  - cbn [head]. by rewrite parse_missing.
Qed.

(** any sequence of well-formed options, in any order and with
    repetitions, assigns the fields it names in that order (so the last
    occurrence wins) and leaves the other fields as they were; and when such a
    sequence is followed by --help or -h, by an argument that is no option, or
    by a last option without its value, the program ends with the exit code
    for it. *)
Theorem options_parsed xs c :
  Forall valid_setting xs →
  parse_options (spell_all xs) c = Ok (Start (foldl assign c xs)) ∧
  ∀ rest code restored, stop_args rest code restored →
    parse_options (spell_all xs ++ rest) c = Ok (Exit code restored).
Proof.
  intros Hxs. split.
  - rewrite <- (app_nil_r (spell_all xs)). by rewrite parse_spell_all.
  - intros rest code restored Hstop. rewrite parse_spell_all by done. by apply parse_stop.
Qed.

Lemma options_parsed_witness :
  parse_options (map bytes_of_string ["--port"; "7000"; "--no-busy-poll"; "--port"; "7001"]%string) default_config
    = Ok (Start (assign (assign default_config (BusyPoll false)) (Port 7001))) ∧
  parse_options (map bytes_of_string ["--core"; "-1"; "-h"]%string) default_config = Ok (Exit 0 true).
Proof.
  split.
  - apply (options_parsed [Port 7000; BusyPoll false; Port 7001] default_config).
    repeat constructor; done.
  - apply (options_parsed [CpuCore (-1)] default_config).
    + repeat constructor; done.
    + apply stop_help. by right.
Defined.

(** Every field of a configuration as an assignment. *)
Definition settings (c : config) : list setting :=
  [Port (port c); CpuCore (cpu_core c); ArenaSize (arena_size c); MaxKeys (max_keys c);
   MaxConnections (max_connections c); RingCapacity (ring_capacity c); MaxZsets (cfg_max_zsets c);
   MaxLists (cfg_max_lists c); ZsetMembers (zset_members c); AolSize (aol_size c);
   BookMin (book_price_min c); BookMax (book_price_max c); MetricsInterval (metrics_interval_ms c)] ++
  (if busy_poll c then [] else [BusyPoll false]) ++
  (match aol_path c with Some p => [AolPath p] | None => [] end) ++
  (match metrics_dir c with Some p => [MetricsDir p] | None => [] end).

(** C36: every configuration whose fields are in the range of their C types,
    with a metrics directory, is spelled out by its options: the option parser
    gives back exactly that configuration. *)
Theorem config_roundtrip c :
  Forall valid_setting (settings c) → metrics_dir c ≠ None →
  parse_options (spell_all (settings c)) default_config = Ok (Start c).
Proof.
  intros Hv Hd. rewrite <- (app_nil_r (spell_all _)), parse_spell_all by done.
  unfold settings in *. cbn [parse_options]. do 2 f_equal.
  destruct c as [p cpu ar mk mc rc mz ml zm asz [ap|] bmin bmax [] [md|] mi]; done.
Qed.

Lemma config_roundtrip_witness :
  parse_options (map bytes_of_string
    ["--port"; "80"; "--core"; "2"; "--arena-size"; "4096"; "--max-keys"; "1"; "--max-conns"; "2";
     "--ring-cap"; "3"; "--max-zsets"; "4"; "--max-lists"; "5"; "--zset-members"; "6"; "--aol-size"; "7";
     "--book-min"; "-5"; "--book-max"; "5"; "--metrics-interval"; "9"; "--no-busy-poll";
     "--aol-path"; "log"; "--metrics-dir"; "m"]%string) default_config
  = Ok (Start (Config 80 2 4096 1 2 3 4 5 6 7 (Some (bytes_of_string "log")) (-5) 5 false
                      (Some (bytes_of_string "m")) 9)).
Proof.
  apply (config_roundtrip (Config 80 2 4096 1 2 3 4 5 6 7 (Some (bytes_of_string "log")) (-5) 5 false
                             (Some (bytes_of_string "m")) 9)); [|done].
  repeat constructor; done.
Defined.

(** * Signal handlers *)

(** Only a missing value of --book-max leaves without restoring. *)
Lemma parse_not_restored args c code :
  parse_options args c = Ok (Exit code false) →
  code = EXIT_FAILURE ∧ last args = Some (bytes_of_string "--book-max").
Proof.
  assert (∀ o next c', parse_option o next c' = Ok (Usage code false) →
    code = EXIT_FAILURE ∧ next = None ∧ o = bytes_of_string "--book-max") as Hstep.
  { intros o next c' H. unfold parse_option in H.
    repeat match type of H with
    | (if ?b then _ else _) = _ => destruct b eqn:?
    end; try (destruct next as [v|]; [try (destruct (atoi v); done)|]; simplify_eq; try done).
    split; [done|]. split; [done|]. unfold str_eq in *.
    match goal with H : bool_decide (o = bytes_of_string "--book-max") = true |- _ => by apply bool_decide_eq_true in H end. }
  remember (length args) as n eqn:Hn. revert args c Hn.
  induction n as [n IH] using lt_wf_ind. intros [|o rest] c -> H; [done|]. cbn [parse_options] in H.
  destruct (parse_option o (head rest) c) as [st|] eqn:E; [|done]. cbn [mbind exec_bind] in H.
  destruct st as [c'|c'|code' restored].
  - destruct (IH (length rest) ltac:(cbn; lia) rest c' eq_refl H) as [-> Hl]. split; [done|].
    destruct rest; [done|]. exact Hl.
  - destruct rest as [|v rest']; [done|].
    destruct (IH (length rest') ltac:(cbn; lia) rest' c' eq_refl H) as [-> Hl]. split; [done|].
    destruct rest'; [done|]. exact Hl.
  - injection H as -> ->. apply Hstep in E as (-> & Hnext & ->). split; [done|].
    by destruct rest.
Qed.

Definition same_handlers (g g' : signals) : Prop :=
  on_sigterm g' = on_sigterm g ∧ on_sigint g' = on_sigint g.

Lemma restored_same g g1 :
  event_loop_install_signal_handlers true true g = (RC_OK, g1) →
  same_handlers g (event_loop_restore_signal_handlers g1) ∧
  same_handlers g (event_loop_restore_signal_handlers (deliver g1 SIGTERM)).
Proof. intros [= <-]. by split. Qed.

(** C37: whenever main returns, whatever the system calls did and whatever
    signals arrived, both signals have the disposition they had before, except
    when the last argument is a --book-max without a value. *)
Theorem main_restores_handlers ok1 ok2 h pin argv t0 ts late fs g code g' :
  main ok1 ok2 h pin argv t0 ts late fs g = Ok (Exited code g') →
  same_handlers g g' ∨
  (code = EXIT_FAILURE ∧ last (tail argv) = Some (bytes_of_string "--book-max")).
Proof.
  intros H. unfold main in H. destruct (ok1 && ok2) eqn:Eok.
  2:{ destruct (install_fails ok1 ok2 g Eok) as (g1 & Hi & Ht & Hi' & _). rewrite Hi in H.
      cbn in H. injection H as <- <-. by left. }
  apply andb_true_iff in Eok as [-> ->].
  destruct (install_ok g) as (g1 & Hi & _). pose proof (restored_same _ _ Hi) as [Hs1 Hs2].
  rewrite Hi in H. change (negb (RC_OK =? 0)) with false in H. cbv iota in H.
  destruct (parse_options (tail argv) default_config) as [[c|code' restored]|] eqn:Eo; [| |done];
    cbn [mbind exec_bind] in H.
  - destruct (zedis_create h (Some c)) as [[s|]|]; [| |done]; cbn [mbind exec_bind] in H;
      [|injection H as <- <-; by left].
    destruct (zedis_run pin s t0 ts fs) as [[w [[r s'] fs']]|]; [|done]. cbn [mbind exec_bind] in H.
    destruct (maybe_write s t0 fs) as [s0 fs0].
    destruct r as [rc|]; [|done]. destruct (zedis_destroy s'); [|done]. cbn [mbind exec_bind] in H.
    injection H as <- <-. left. by destruct (received _ late).
  - injection H as <- <-. destruct restored; [by left|]. right. by apply parse_not_restored in Eo.
Qed.

(** A process in which both signals have their default action. *)
Definition fresh_signals : signals := Signals (Previous 0) (Previous 0) 0 (Previous 0) (Previous 0) false.
Definition no_host : host :=
  Host false (λ _ _, None) (AolSys (λ _, -1) (λ _ _, false) (λ _ _, None) (λ _, false)) (-1) ∅
       (ListenSys (-1) false false false false false) false false [].
Definition idle_turn : turn :=
  Turn [] [] None (Io true None true true (λ _, true) true true true true) false false (Waited []).

Lemma main_restores_handlers_witness :
  match main true true no_host (λ _, true) (map bytes_of_string ["zedis"; "--core"]%string)
          idle_turn [] false ∅ fresh_signals with
  | Ok (Exited 1 g') => same_handlers fresh_signals g'
  | _ => False
  end.
Proof.
  destruct (main_restores_handlers true true no_host (λ _, true) (map bytes_of_string ["zedis"; "--core"]%string)
              idle_turn [] false ∅ fresh_signals 1 _ eq_refl) as [H|[_ H]].
  - exact H.
  - vm_compute in H. discriminate H.
Defined.

(** * Shutting down *)

(** The turn finds that a signal was received: it tests for it after the signal
    arrived, or the signal interrupted the wait. *)
Definition notices (t : turn) : bool :=
  t_sig t || (t_sig' t && match t_wait t with WaitFailed _ => true | Waited _ => false end).

Lemma notices_sig t : notices t = true → t_sig t || t_sig' t = true.
Proof. unfold notices. destruct (t_sig t); [done|]. by destruct (t_sig' t). Qed.

(** When a turn that is begun notices a signal, zedis_run returns. *)
Lemma run_turns_stop ts s fs :
  server_inv s → Forall turn_ok ts → existsb notices (turns_taken s ts fs) = true → ∃ s' fs',
  run_turns s ts fs = Ok (Some RC_ERR, s', fs') ∧ server_inv s'.
Proof.
  intros Hi Hts. revert s fs Hi. induction Hts as [|t ts Ht Hts IH]; intros s fs Hi Hsig; [done|].
  cbn [run_turns turns_taken] in *. destruct (negb _); [done|]. pose proof (run_turn_safe s t fs Hi Ht) as Hsafe.
  destruct (notices t) eqn:Et.
  - assert (∃ s' fs', run_turn s t fs = Ok (RC_ERR, s', fs')) as (s' & fs' & Hrun).
    { unfold run_turn. destruct (maybe_write _ _ _) as [s1 fs1]. unfold event_loop_run_once, notices in *. destruct (stop _ || t_sig t) eqn:E; [by do 2 eexists|].
      apply orb_false_iff in E as [_ E]. rewrite E in Et. cbn [orb] in Et. apply andb_true_iff in Et as [Es Ew].
      destruct (t_wait t); [done|]. rewrite Es. by do 2 eexists. }
    rewrite Hrun in Hsafe |- *. by exists s', fs'.
  - cbn [existsb orb] in Hsig. rewrite Et in Hsig. destruct (run_turn s t fs) as [[[n s1] fs1]|]; [|done].
    cbn [mbind exec_bind]. destruct (n <? 0); [done|]. by apply IH.
Qed.

Lemma received_signal taken late : existsb notices taken = true → received taken late = true.
Proof.
  unfold received. intros Hs. apply existsb_exists in Hs as (t & Hin & Ht). apply orb_true_iff. left.
  apply existsb_exists. exists t. split; [done|]. by apply notices_sig.
Qed.

(** C8: A signal ends the program.  When a turn of the loop tests for the signal
    after it arrived, or the signal interrupts the wait of a turn, whatever the
    clients and the kernel did before, zedis_run returns in that turn, the
    server is destroyed with all its connections, the previous signal
    dispositions are restored and the exit status is EXIT_SUCCESS.  (A signal
    that arrives between the test and a wait that blocks is noticed in the next
    turn only, when an event ends the wait.) *)
Theorem signal_ends_program h pin argv c s t0 ts late fs g :
  parse_options (tail argv) default_config = Ok (Start c) →
  config_ok (effective_config (Some c)) → mmap_whole (h_aol h) → Forall turn_ok ts →
  zedis_create h (Some c) = Ok (Some s) →
  (let '(s0, fs0) := maybe_write s t0 fs in existsb notices (turns_taken s0 ts fs0) = true) →
  ∃ warn s1 fs1 s' fds g', zedis_run pin s t0 ts fs = Ok (warn, (Some RC_ERR, s1, fs1)) ∧
    zedis_destroy s1 = Ok (s', fds) ∧ conns s' = ∅ ∧
    main true true h pin argv t0 ts late fs g = Ok (Exited EXIT_SUCCESS g') ∧ same_handlers g g'.
Proof.
  intros Ho Hok Hmm Hts Hs Hsig. pose proof (create_inv _ _ _ Hok Hmm Hs) as Hi. unfold main.
  destruct (install_ok g) as (g1 & Hg & Hg1). pose proof (restored_same _ _ Hg) as [_ Hsame].
  rewrite Hg. change (negb (RC_OK =? 0)) with false. cbv iota. rewrite Ho. cbn [mbind exec_bind]. rewrite Hs. cbn [mbind exec_bind].
  unfold zedis_run. pose proof (maybe_write_inv s t0 fs Hi) as Hi0. destruct (maybe_write s t0 fs) as [s0 fs0]. cbn [fst] in Hi0.
  destruct (run_turns_stop ts s0 fs0 Hi0 Hts Hsig) as (s1 & fs1 & -> & Hi1). cbn [mbind exec_bind].
  destruct (destroy_runs s1 Hi1) as (s2 & l' & s' & _ & _ & He & _ & Hd & _ & _ & Hc & _). rewrite Hd. cbn [mbind exec_bind].
  rewrite (received_signal _ late Hsig). do 6 eexists. split; [done|]. split; [exact Hd|]. split; [congruence|].
  split; [|exact Hsame]. injection Hg as <-. done.
Qed.

(** A turn in which a signal was received. *)
Definition signal_turn : turn := Turn [] [] None small_io true true (Waited []).

Definition small_argv : list (list Z) :=
  bytes_of_string "zedis" ::
  concat (map spell [ArenaSize 2097152; MaxKeys 8; MaxConnections 1; RingCapacity 2; MaxZsets 1; MaxLists 1;
                     ZsetMembers 16; AolSize 4096; BookMin 100; BookMax 110]).
Definition small_options : config :=
  Config 6379 (-1) 2097152 8 1 2 1 1 16 4096 None 100 110 true
         (Some (bytes_of_string "/var/lib/node_exporter/textfile_collector")) 1000.

Lemma signal_ends_program_witness :
  match main true true small_host (λ _, true) small_argv signal_turn [connects []; signal_turn] false ∅ fresh_signals with
  | Ok (Exited code g') => code = EXIT_SUCCESS ∧ same_handlers fresh_signals g'
  | _ => False
  end.
Proof.
  assert (match zedis_create small_host (Some small_options) with
    | Ok (Some s) => let '(s0, fs0) := maybe_write s signal_turn ∅ in
        existsb notices (turns_taken s0 [connects []; signal_turn] fs0) = true
    | _ => False end) as Hsig by (vm_compute; reflexivity).
  destruct (zedis_create small_host (Some small_options)) as [[s|]|] eqn:E; [|contradiction..].
  destruct (signal_ends_program small_host (λ _, true) small_argv small_options s signal_turn [connects []; signal_turn]
    false ∅ fresh_signals) as (warn & s1 & fs1 & s' & fds & g' & _ & _ & _ & Hm & Hg).
  - vm_compute. reflexivity.
  - split; cbn; unfold INT32_MIN, INT32_MAX, UINT32_MAX; lia.
  - apply small_host_ok.
  - constructor; [apply connects_ok|]. constructor; constructor.
  - exact E.
  - exact Hsig.
  - rewrite Hm. split; [reflexivity|exact Hg].
Defined.
